(** * glymur [tiff.py]: the TIFF to JPEG 2000 converter [Tiff2Jp2k]

    A shallow embedding of [glymur/tiff.py] and the verification of its
    specification.  The file has two parts, following the two methods of
    [Tiff2Jp2k.run]:

    - [Meta]: [copy_metadata], [_process_header] and [_process_tags], which
      transcode the TIFF image file directory into a little-endian buffer
      placed in an Exif UUID box;
    - [Remap]: [copy_image], which re-tiles the image read from tiles or
      strips of the TIFF into the tiles of the JPEG 2000 file.

    Python integers are [Z]; [//] and [%] are [Z.div] and [Z.modulo] (both
    floor, sign of the divisor) with the division by zero raised explicitly.
    [bytes] objects are [list byte].  An exception is a value of [exn]; code
    that can raise returns [exn + A]. *)

From Stdlib Require Import ZArith List Lia Bool String Ascii.
From Stdlib.Strings Require Import Byte.
From Stdlib Require DecimalString.
Import ListNotations.

Open Scope Z_scope.

(** ** Exceptions *)

(** The Python exceptions the module can raise.  [StructError] is
    [struct.error].  [NonTermination] is no exception: it is the outcome of
    a [while] loop that has not come to its end within the number of
    iterations the model grants it. *)
Inductive exn : Type :=
| RuntimeError (msg : string)
| NameError (name : string)
| UnboundLocalError (name : string)
| KeyError (key : Z)
| TypeError
| StructError
| IndexError
| ValueError
| ZeroDivisionError
| NonTermination.

Definition result (A : Type) : Type := (exn + A)%type.

Definition ret {A} (a : A) : result A := inr a.
Definition raise {A} (e : exn) : result A := inl e.
Definition bind {A B} (m : result A) (f : A -> result B) : result B :=
  match m with
  | inl e => inl e
  | inr a => f a
  end.

Declare Scope result_scope.
Delimit Scope result_scope with result.
Notation "x <- m ;; k" := (bind m (fun x => k))
  (at level 61, m at next level, right associativity) : result_scope.
Notation "' p <- m ;; k" := (bind m (fun p => k))
  (at level 61, p pattern, m at next level, right associativity) : result_scope.
Open Scope result_scope.

(** ** Bytes and Python slices *)

Definition len {A} (l : list A) : Z := Z.of_nat (List.length l).

(** [l[a:b]] for [0 <= a] and [0 <= b]: clipped to the length of [l]. *)
Definition slice {A} (a b : Z) (l : list A) : list A :=
  firstn (Z.to_nat (b - a)) (skipn (Z.to_nat a) l).

(** [l[a:]] for [0 <= a]. *)
Definition slice_from {A} (a : Z) (l : list A) : list A :=
  skipn (Z.to_nat a) l.

(** Two buffers have the same slices between [lo] and [hi]. *)
Definition same_slices {A} (lo hi : Z) (l l' : list A) : Prop :=
  forall a b, lo <= a -> b <= hi -> slice a b l' = slice a b l.

Definition byte_to_Z (b : byte) : Z := Z.of_N (Byte.to_N b).

Definition byte_of_Z (z : Z) : byte :=
  match Byte.of_N (Z.to_N z) with
  | Some b => b
  | None => x00
  end.

(** The unsigned value of a byte string, least significant byte first. *)
Fixpoint le_to_Z (bs : list byte) : Z :=
  match bs with
  | [] => 0
  | b :: r => byte_to_Z b + 256 * le_to_Z r
  end.

(** The [n] bytes of [v mod 256^n], least significant byte first. *)
Fixpoint Z_to_le (n : nat) (v : Z) : list byte :=
  match n with
  | O => []
  | S k => byte_of_Z (v mod 256) :: Z_to_le k (v / 256)
  end.

(** ** The [struct] module *)

Module Struct.

(** Byte order of a format string: its first character, ['<'] or ['>'];
    without one the format is native, which the module only uses for
    ['BB'], where order and alignment play no part. *)
Inductive endian : Type := Little | Big.

Definition endian_char (e : endian) : string :=
  match e with Little => "<" | Big => ">" end.

(** A value unpacked from, or packed into, a byte string.  A Python [int]
    is its value.  A Python [float] obtained from ['f'] or ['d'] is carried
    by the [nbytes]-byte IEEE pattern that packing it with the same format
    gives. *)
Inductive value : Type :=
| VInt (z : Z)
| VFloat (nbytes : nat) (bits : Z).

(** For ['f'], [struct] converts the binary32 in the byte string to the
    double of a Python [float], and back when it packs.  The conversions
    leave every pattern as it is but that of a signalling NaN (exponent
    all ones, first bit of the fraction clear, the rest of the fraction
    not zero), which comes back quiet, with the first bit of the fraction
    set: [7fa00000] becomes [7fe00000].  ['d'] is copied as it is. *)
Definition signalling (bits : Z) : bool :=
  ((bits / 2 ^ 22) mod 2 ^ 9 =? 510) && negb (bits mod 2 ^ 22 =? 0).

Definition quieted (nbytes : nat) (bits : Z) : Z :=
  if Nat.eqb nbytes 4 && signalling bits then bits + 2 ^ 22 else bits.

(** The element codes used by the module: size in bytes, and whether the
    integer is signed, or the element is a float. *)
Inductive kind : Type := KUnsigned | KSigned | KFloat.

Definition code_info (c : ascii) : option (nat * kind) :=
  if Ascii.eqb c "B" then Some (1%nat, KUnsigned)
  else if Ascii.eqb c "H" then Some (2%nat, KUnsigned)
  else if Ascii.eqb c "I" then Some (4%nat, KUnsigned)
  else if Ascii.eqb c "i" then Some (4%nat, KSigned)
  else if Ascii.eqb c "f" then Some (4%nat, KFloat)
  else if Ascii.eqb c "d" then Some (8%nat, KFloat)
  else if Ascii.eqb c "Q" then Some (8%nat, KUnsigned)
  else if Ascii.eqb c "q" then Some (8%nat, KSigned)
  else None.

(** Splits the byte-order character off a format string. *)
Definition split_order (fmt : string) : endian * string :=
  match fmt with
  | String c rest =>
      if Ascii.eqb c "<" then (Little, rest)
      else if Ascii.eqb c ">" then (Big, rest)
      else (Little, fmt)
  | EmptyString => (Little, fmt)
  end.

(** The element codes of a format, [None] on a character that is not one. *)
Fixpoint codes (fmt : string) : option (list (nat * kind)) :=
  match fmt with
  | EmptyString => Some []
  | String c rest =>
      match code_info c, codes rest with
      | Some i, Some r => Some (i :: r)
      | _, _ => None
      end
  end.

Definition calcsize (cs : list (nat * kind)) : Z :=
  fold_right (fun i acc => Z.of_nat (fst i) + acc) 0 cs.

Definition bytes_to_Z (e : endian) (bs : list byte) : Z :=
  match e with
  | Little => le_to_Z bs
  | Big => le_to_Z (rev bs)
  end.

Definition Z_to_bytes (e : endian) (n : nat) (v : Z) : list byte :=
  match e with
  | Little => Z_to_le n v
  | Big => rev (Z_to_le n v)
  end.

Definition decode (e : endian) (i : nat * kind) (bs : list byte) : value :=
  let n := fst i in
  let u := bytes_to_Z e bs in
  match snd i with
  | KUnsigned => VInt u
  | KSigned => VInt (if u <? 2 ^ (8 * Z.of_nat n - 1) then u
                     else u - 2 ^ (8 * Z.of_nat n))
  | KFloat => VFloat n (quieted n u)
  end.

(** [None] when the value does not fit the element: [struct.error]. *)
Definition encode (e : endian) (i : nat * kind) (v : value)
  : option (list byte) :=
  let n := fst i in
  let w := 8 * Z.of_nat n in
  match snd i, v with
  | KUnsigned, VInt z =>
      if (0 <=? z) && (z <? 2 ^ w) then Some (Z_to_bytes e n z) else None
  | KSigned, VInt z =>
      if (- 2 ^ (w - 1) <=? z) && (z <? 2 ^ (w - 1))
      then Some (Z_to_bytes e n (z mod 2 ^ w)) else None
  | KFloat, VFloat m bits =>
      if Nat.eqb m n then Some (Z_to_bytes e n (quieted n bits)) else None
  | _, _ => None
  end.

Fixpoint decode_all (e : endian) (cs : list (nat * kind)) (bs : list byte)
  : list value :=
  match cs with
  | [] => []
  | i :: r => decode e i (firstn (fst i) bs)
              :: decode_all e r (skipn (fst i) bs)
  end.

Fixpoint encode_all (e : endian) (cs : list (nat * kind)) (vs : list value)
  : option (list byte) :=
  match cs, vs with
  | [], [] => Some []
  | i :: r, v :: vr =>
      match encode e i v, encode_all e r vr with
      | Some b, Some br => Some (b ++ br)
      | _, _ => None
      end
  | _, _ => None
  end.

(** The second argument of [struct.unpack]: the module passes [bytes], and
    in one place an [int]. *)
Inductive buffer_arg : Type :=
| Bytes (bs : list byte)
| Int (z : Z).

(** [struct.unpack(fmt, buffer)]. *)
Definition unpack (fmt : string) (buffer : buffer_arg)
  : result (list value) :=
  match buffer with
  | Int _ => raise TypeError
  | Bytes bs =>
      let (e, items) := split_order fmt in
      match codes items with
      | None => raise StructError
      | Some cs =>
          if len bs =? calcsize cs then ret (decode_all e cs bs)
          else raise StructError
      end
  end.

(** [struct.pack(fmt, *values)]. *)
Definition pack (fmt : string) (values : list value) : result (list byte) :=
  let (e, items) := split_order fmt in
  match codes items with
  | None => raise StructError
  | Some cs =>
      match encode_all e cs values with
      | Some bs => ret bs
      | None => raise StructError
      end
  end.

End Struct.

(** [s * n] on strings. *)
Fixpoint string_repeat_nat (s : string) (n : nat) : string :=
  match n with
  | O => EmptyString
  | S k => (s ++ string_repeat_nat s k)%string
  end.

Definition string_repeat (s : string) (n : Z) : string :=
  string_repeat_nat s (Z.to_nat n).

(** ** Files and [io.BytesIO] *)

(** A file opened with [open(name, 'rb')]: its content and the position of
    the next read. *)
Record file : Type := mkFile { f_data : list byte; f_pos : Z }.

(** [tfp.read(n)] for [0 <= n]: the bytes from the position on, at most [n]
    and fewer at the end of the file. *)
Definition f_read (n : Z) (f : file) : list byte * file :=
  let bs := slice (f_pos f) (f_pos f + n) (f_data f) in
  (bs, mkFile (f_data f) (f_pos f + len bs)).

Definition f_seek (offset : Z) (f : file) : file := mkFile (f_data f) offset.

Definition f_tell (f : file) : Z := f_pos f.

(** An [io.BytesIO] object: the buffer and the position. *)
Record bytesio : Type := mkBytesIO { b_buf : list byte; b_pos : Z }.

Definition BytesIO : bytesio := mkBytesIO [] 0.

(** [b.write(data)]: writing nothing changes nothing; otherwise a position
    beyond the end is first reached by padding with null bytes, then [data]
    replaces what is at the position and extends the buffer. *)
Definition b_write (data : list byte) (b : bytesio) : bytesio :=
  match data with
  | [] => b
  | _ =>
      let p := Z.to_nat (b_pos b) in
      let padded := b_buf b ++ repeat x00 (p - List.length (b_buf b)) in
      mkBytesIO (firstn p padded ++ data
                   ++ skipn (p + List.length data) padded)
                (b_pos b + len data)
  end.

Definition b_seek (pos : Z) (b : bytesio) : bytesio := mkBytesIO (b_buf b) pos.

Definition b_tell (b : bytesio) : Z := b_pos b.

Definition getvalue (b : bytesio) : list byte := b_buf b.

(** ** The metadata transcoder *)

Module Meta.

Import Struct.

(** The table [tag_dtype]: for a TIFF type code, the [struct] format of one
    value and its size in bytes. *)
Record dtype_info : Type := mkDtype { format : string; nbytes : Z }.

Definition tag_dtype (code : Z) : option dtype_info :=
  match code with
  | 1 => Some (mkDtype "B" 1)
  | 2 => Some (mkDtype "B" 1)
  | 3 => Some (mkDtype "H" 2)
  | 4 => Some (mkDtype "I" 4)
  | 5 => Some (mkDtype "II" 8)
  | 7 => Some (mkDtype "B" 1)
  | 9 => Some (mkDtype "i" 4)
  | 10 => Some (mkDtype "ii" 8)
  | 11 => Some (mkDtype "f" 4)
  | 12 => Some (mkDtype "d" 8)
  | 13 => Some (mkDtype "I" 4)
  | 16 => Some (mkDtype "Q" 8)
  | 17 => Some (mkDtype "q" 8)
  | 18 => Some (mkDtype "Q" 8)
  | _ => None
  end.

(** [tag_dtype[dtype]]. *)
Definition tag_dtype_get (dtype : Z) : result dtype_info :=
  match tag_dtype dtype with
  | Some d => ret d
  | None => raise (KeyError dtype)
  end.

(** [Tiff2Jp2k._process_header(b, tfp)].  In the last branch the message is
    built from [read_buffer], a name bound neither in the method nor in the
    module: evaluating the f-string raises [NameError], and the
    [raise RuntimeError(msg)] below it is not reached. *)
Definition _process_header (b : bytesio) (tfp : file)
  : result (endian * bytesio * file) :=
  let (buffer, tfp) := f_read 8 tfp in
  data <- unpack "BB" (Bytes (slice 0 2 buffer)) ;;
  endian <-
    match data with
    | [VInt d0; VInt d1] =>
        if (d0 =? 73) && (d1 =? 73) then ret Little
        else if (d0 =? 77) && (d1 =? 77) then ret Big
        else raise (NameError "read_buffer")
    | _ => raise ValueError
    end ;;
  vo <- unpack (endian_char endian ++ "HI") (Bytes (slice 2 8 buffer)) ;;
  match vo with
  | [_; VInt offset] =>
      let tfp := f_seek offset tfp in
      data <- pack "<BBHI" [VInt 73; VInt 73; VInt 42; VInt 8] ;;
      let b := b_write data b in
      ret (endian, b, tfp)
  | _ => raise ValueError
  end.

(** The state the loop of [_process_tags] works on: the output buffer, the
    source file and [after_ifd_position]. *)
Record tags_state : Type :=
  mkTags { ts_b : bytesio; ts_tfp : file; ts_after : Z }.

(** The body of [for idx in range(num_tags)] in [_process_tags]. *)
Definition process_tag (endianness : endian) (buffer : list byte)
    (start_of_tags_position : Z) (st : tags_state) (idx : Z)
  : result tags_state :=
  let b := ts_b st in
  let tfp := ts_tfp st in
  let after_ifd_position := ts_after st in
  let b := b_seek (start_of_tags_position + idx * 12) b in
  let tag_data := slice (idx * 12) ((idx + 1) * 12) buffer in
  hd <- unpack (endian_char endianness ++ "HHI")
          (Bytes (slice 0 8 tag_data)) ;;
  match hd with
  | [VInt tag; VInt dtype; VInt nvalues] =>
      d <- tag_dtype_get dtype ;;
      let payload_length := nbytes d * nvalues in
      if payload_length >? 4 then
        vo <- unpack (endian_char endianness ++ "I")
                (Bytes (slice_from 8 tag_data)) ;;
        match vo with
        | [VInt offset] =>
            let current_position := f_tell tfp in
            let tfp := f_seek offset tfp in
            let (payload_buffer, tfp) := f_read payload_length tfp in
            let tfp := f_seek current_position tfp in
            let payload_format := string_repeat (format d) nvalues in
            payload <- unpack (endian_char endianness ++ payload_format)
                         (Bytes payload_buffer) ;;
            let new_offset := after_ifd_position in
            outbuffer <- pack "<HHII"
                           [VInt tag; VInt dtype; VInt nvalues;
                            VInt new_offset] ;;
            let b := b_write outbuffer b in
            let cpos := b_tell b in
            let b := b_seek new_offset b in
            let out_format := ("<" ++ string_repeat (format d) nvalues)%string in
            outbuffer <- pack out_format payload ;;
            let b := b_write outbuffer b in
            let after_ifd_position := b_tell b in
            let b := b_seek cpos b in
            ret (mkTags b tfp after_ifd_position)
        | _ => raise ValueError
        end
      else
        payload_buffer <-
          (if nbytes d * nvalues =? 1 then
             match nth_error tag_data 8 with
             | Some x => ret (Int (byte_to_Z x))
             | None => raise IndexError
             end
           else if nbytes d * nvalues =? 2 then
             ret (Bytes (slice 8 10 tag_data))
           else ret (Bytes (slice_from 8 tag_data))) ;;
        let payload_format := string_repeat (format d) nvalues in
        payload <- unpack (endian_char endianness ++ payload_format)
                     payload_buffer ;;
        outbuffer <- pack "<HHI" [VInt tag; VInt dtype; VInt nvalues] ;;
        let b := b_write outbuffer b in
        let payload_format :=
          if String.eqb payload_format "H" || String.eqb payload_format "B"
          then "I"%string else payload_format in
        outbuffer <- pack ("<" ++ payload_format) payload ;;
        let b := b_write outbuffer b in
        ret (mkTags b tfp after_ifd_position)
  | _ => raise ValueError
  end.

(** [for idx in idxs: body]. *)
Fixpoint for_tags (body : tags_state -> Z -> result tags_state)
    (idxs : list Z) (st : tags_state) : result tags_state :=
  match idxs with
  | [] => ret st
  | idx :: rest => st' <- body st idx ;; for_tags body rest st'
  end.

(** [range(n)]. *)
Definition range (n : Z) : list Z := map Z.of_nat (seq 0 (Z.to_nat n)).

(** [Tiff2Jp2k._process_tags(b, tfp, endianness)]. *)
Definition _process_tags (b : bytesio) (tfp : file) (endianness : endian)
  : result (bytesio * file) :=
  let (buffer, tfp) := f_read 2 tfp in
  vn <- unpack (endian_char endianness ++ "H") (Bytes buffer) ;;
  match vn with
  | [VInt num_tags] =>
      write_buffer <- pack "<H" [VInt num_tags] ;;
      let b := b_write write_buffer b in
      let (buffer, tfp) := f_read (num_tags * 12) tfp in
      let start_of_tags_position := b_tell b in
      let after_ifd_position := start_of_tags_position + len buffer in
      st <- for_tags (process_tag endianness buffer start_of_tags_position)
              (range num_tags) (mkTags b tfp after_ifd_position) ;;
      ret (ts_b st, ts_tfp st)
  | _ => raise ValueError
  end.

(** The transcoder: [_process_header] followed by [_process_tags] on a
    fresh [BytesIO], as [copy_metadata] runs them on the content of the
    TIFF file; the result is [b.getvalue()]. *)
Definition transcode (tiff : list byte) : result (list byte) :=
  '(endian, b, tfp) <- _process_header BytesIO (mkFile tiff 0) ;;
  '(b, _) <- _process_tags b tfp endian ;;
  ret (getvalue b).

(** Modelled from the spec: the box class [UUIDBox] of [glymur.jp2box],
    which is not part of the sources at hand.  The embedded-metadata sink
    accepts a 16-byte identifier, a byte buffer and a length; the record
    keeps the three arguments of the constructor. *)
Record UUIDBox : Type :=
  mkUUIDBox { uuid : list byte; raw_data : list byte; box_length : Z }.

(** Modelled from the spec: [UUIDBox.write(f)], which appends the box to
    the file as a self-describing block, laid out as a box of the JPEG 2000
    file format: the length of the whole block as a 4-byte big-endian
    integer, the 4 bytes of the box type ['uuid'], the 16 bytes of the
    identifier, and the data.  The length it writes is the one it counts,
    [4 + 4 + 16 + len(raw_data)], and not the [box_length] that the
    constructor was given. *)
Definition UUIDBox_write (box : UUIDBox) (f : list byte)
  : result (list byte) :=
  let length := 4 + 4 + 16 + len (raw_data box) in
  write_buffer <- pack ">I" [VInt length] ;;
  ret (f ++ (write_buffer ++ list_byte_of_string "uuid")
         ++ uuid box ++ raw_data box).

(** [b'EXIF\0\0']. *)
Definition exif_identifier : list byte :=
  list_byte_of_string "EXIF" ++ [x00; x00].

(** The box [Tiff2Jp2k.copy_metadata()] builds.  [UUID(bytes=...)] takes
    the 16 bytes as they are. *)
Definition metadata_box (tiff : list byte) : result UUIDBox :=
  let uuid := list_byte_of_string "JpgTiffExif->JP2" in
  ifd <- transcode tiff ;;
  let payload := exif_identifier ++ ifd in
  let box_length := len payload + 8 in
  ret (mkUUIDBox uuid payload box_length).

(** [Tiff2Jp2k.copy_metadata()] on the content [tiff] of the TIFF file and
    the content [jp2] of the JPEG 2000 file, which is opened with mode
    ['ab']: the content of the JPEG 2000 file afterwards. *)
Definition copy_metadata (tiff jp2 : list byte) : result (list byte) :=
  uuid_box <- metadata_box tiff ;;
  UUIDBox_write uuid_box jp2.

End Meta.

(** ** numpy arrays *)

(** An array of shape [(nrows, ncols, nchan)], as [copy_image] uses them:
    rows, columns and samples of a pixel.  [sample a i j k] is [a[i, j, k]] and
    means something for indices inside the shape.  The sample types are
    [uint8] and [uint16]; the samples are copied, never computed with, and
    are carried as integers. *)
Record ndarray : Type :=
  mkArray { nrows : Z; ncols : Z; nchan : Z; sample : Z -> Z -> Z -> Z }.

(** [np.zeros((r, c, s), dtype)]. *)
Definition np_zeros (r c s : Z) : result ndarray :=
  if (r <? 0) || (c <? 0) || (s <? 0) then raise ValueError
  else ret (mkArray r c s (fun _ _ _ => 0)).

(** A Python [slice(start, stop)] on an axis of length [n]: a negative
    bound counts from the end, both are clipped to [0..n]; the result is
    the first index and the number of indices. *)
Definition clip_index (n x : Z) : Z :=
  if x <? 0 then Z.max 0 (x + n) else Z.min x n.

Definition slice_bounds (n : Z) (s : Z * Z) : Z * Z :=
  let start := clip_index n (fst s) in
  let stop := clip_index n (snd s) in
  (start, Z.max 0 (stop - start)).

(** Broadcasting of one axis in an assignment: the lengths agree, or the
    source has length one. *)
Definition broadcast_ok (src dst : Z) : bool := (src =? dst) || (src =? 1).

Definition broadcast_index (src dst i : Z) : Z := if src =? dst then i else 0.

(** [dst[jrows, jcols, :] = src[trows, tcols, :]]: [ValueError] when the
    shape of the source window cannot be broadcast to the destination
    window. *)
Definition assign_window (dst : ndarray) (jrows jcols : Z * Z)
    (src : ndarray) (trows tcols : Z * Z) : result ndarray :=
  let '(jr, jh) := slice_bounds (nrows dst) jrows in
  let '(jc, jw) := slice_bounds (ncols dst) jcols in
  let '(tr, th) := slice_bounds (nrows src) trows in
  let '(tc, tw) := slice_bounds (ncols src) tcols in
  if broadcast_ok th jh && broadcast_ok tw jw
     && broadcast_ok (nchan src) (nchan dst)
  then
    ret (mkArray (nrows dst) (ncols dst) (nchan dst)
           (fun i j k =>
              if (jr <=? i) && (i <? jr + jh) && (jc <=? j) && (j <? jc + jw)
              then sample src (tr + broadcast_index th jh (i - jr))
                          (tc + broadcast_index tw jw (j - jc))
                          (broadcast_index (nchan src) (nchan dst) k)
              else sample dst i j k))
  else raise ValueError.

(** [a[rows, :, :].copy()], [a[:, cols, :].copy()] and [a[:, :, :n]]. *)
Definition take_rows (a : ndarray) (rows : Z * Z) : ndarray :=
  let '(r0, h) := slice_bounds (nrows a) rows in
  mkArray h (ncols a) (nchan a) (fun i j k => sample a (r0 + i) j k).

Definition take_cols (a : ndarray) (cols : Z * Z) : ndarray :=
  let '(c0, w) := slice_bounds (ncols a) cols in
  mkArray (nrows a) w (nchan a) (fun i j k => sample a i (c0 + j) k).

Definition take_chan (a : ndarray) (n : Z) : ndarray :=
  let '(k0, s) := slice_bounds (nchan a) (0, n) in
  mkArray (nrows a) (ncols a) s (fun i j k => sample a i j (k0 + k)).

(** [np.flipud(a)]. *)
Definition flipud (a : ndarray) : ndarray :=
  mkArray (nrows a) (ncols a) (nchan a)
    (fun i j k => sample a (nrows a - 1 - i) j k).

(** [int(np.ceil(a / b))] on integers: the quotient rounded up. *)
Definition ceil_div (a b : Z) : result Z :=
  if b =? 0 then raise ZeroDivisionError else ret (- ((- a) / b)).

(** [a // b] and [a % b]. *)
Definition floordiv (a b : Z) : result Z :=
  if b =? 0 then raise ZeroDivisionError else ret (a / b).

Definition pymod (a b : Z) : result Z :=
  if b =? 0 then raise ZeroDivisionError else ret (a mod b).

(** ** The raster remapper *)

Module Remap.

(** *** The source reader and the destination writer *)

(** Modelled from the spec: the enumerations [SampleFormat] and
    [Photometric] of [glymur.lib.tiff], which is not part of the sources at
    hand, with the codes of the TIFF standard.  [SampleFormat_dir] lists the
    members in the order of [dir(libtiff.SampleFormat)]. *)
Definition SampleFormat_UINT : Z := 1.
Definition Photometric_PALETTE : Z := 3.
Definition Photometric_YCBCR : Z := 6.

Definition SampleFormat_dir : list (string * Z) :=
  [("COMPLEXIEEEP", 6); ("COMPLEXINT", 5); ("IEEEFP", 3); ("INT", 2);
   ("UINT", 1); ("VOID", 4)]%string.

(** Modelled from the spec: the opened TIFF, as the source-raster reader
    of [glymur.lib.tiff] reports it.  The first fields are the answers of
    [isTiled], [getFieldDefaulted], [numberOfStrips] and [RGBAImageOK];
    [pixels r c s] is sample [s] of the decoded pixel in row [r] and column
    [c], and [rgba r c k] is channel [k] of that pixel as the RGBA interface
    renders it. *)
Record tiff : Type := mkTiff {
  isTiled : bool;
  Photometric : Z;
  ImageWidth : Z;
  ImageLength : Z;
  SamplesPerPixel : Z;
  SampleFormat : Z;
  BitsPerSample : Z;
  TileWidth : Z;
  TileLength : Z;
  RowsPerStrip : Z;
  numberOfStrips : Z;
  RGBAImageOK : bool;
  pixels : Z -> Z -> Z -> Z;
  rgba : Z -> Z -> Z -> Z
}.

(** What the converter does to the outside: the reads of pixel data from
    the TIFF, and the arrays assigned to the JPEG 2000 file, whole
    ([jp2[:] = image]) or tile by tile ([tilewriter[:] = jp2k_tile]). *)
Inductive event : Type :=
| ReadRGBAImage
| ReadRGBATile (x y : Z)
| ReadEncodedTile (tilenum : Z)
| ReadRGBAStrip (row : Z)
| ReadEncodedStrip (stripnum : Z)
| WriteImage (image : ndarray)
| WriteTile (idx : Z) (tile : ndarray).

(** A computation of [copy_image]: the events in the order they happen,
    and the exception or the value. *)
Definition io (A : Type) : Type := (list event * result A)%type.

Definition io_ret {A} (a : A) : io A := ([], inr a).

Definition io_bind {A B} (m : io A) (f : A -> io B) : io B :=
  match m with
  | (tr, inl e) => (tr, inl e)
  | (tr, inr a) => let (tr', r) := f a in (tr ++ tr', r)
  end.

Definition lift {A} (r : result A) : io A := ([], r).

Definition emit (e : event) : io unit := ([e], inr tt).

Declare Scope io_scope.
Delimit Scope io_scope with io.
Notation "x <- m ;; k" := (io_bind m (fun x => k))
  (at level 61, m at next level, right associativity) : io_scope.

(** Modelled from the spec: [TIFFhowmany_32], [TIFFComputeTile] and
    [TIFFComputeStrip] of the reader, on a single-plane contiguous image:
    tiles are numbered row by row, strips from the top. *)
Definition howmany (x y : Z) : Z := (x + y - 1) / y.

Definition computeTile (t : tiff) (x y : Z) : Z :=
  if (TileWidth t =? 0) || (TileLength t =? 0) then 1
  else howmany (ImageWidth t) (TileWidth t) * (y / TileLength t)
       + x / TileWidth t.

Definition computeStrip (t : tiff) (row : Z) : Z := row / RowsPerStrip t.

(** Modelled from the spec: the random-access reads of the reader, each
    into the buffer the caller provides.  A tile is stored whole, so
    [readEncodedTile] fills the buffer; the last strip may be short, and
    [readEncodedStrip] then leaves the rows after it as they were.  The
    RGBA reads return the rows of the tile or strip from the bottom up. *)
Definition readEncodedTile (t : tiff) (tilenum : Z) (buf : ndarray)
  : io ndarray :=
  let xpt := howmany (ImageWidth t) (TileWidth t) in
  io_bind (emit (ReadEncodedTile tilenum)) (fun _ =>
  io_ret (mkArray (nrows buf) (ncols buf) (nchan buf)
            (fun i j k => pixels t (tilenum / xpt * TileLength t + i)
                                   (tilenum mod xpt * TileWidth t + j) k))).

Definition readRGBATile (t : tiff) (x y : Z) (buf : ndarray) : io ndarray :=
  let y0 := y / TileLength t * TileLength t in
  let x0 := x / TileWidth t * TileWidth t in
  io_bind (emit (ReadRGBATile x y)) (fun _ =>
  io_ret (mkArray (nrows buf) (ncols buf) (nchan buf)
            (fun i j k => rgba t (y0 + (TileLength t - 1 - i)) (x0 + j) k))).

Definition readEncodedStrip (t : tiff) (stripnum : Z) (buf : ndarray)
  : io ndarray :=
  let row := stripnum * RowsPerStrip t in
  let h := Z.min (RowsPerStrip t) (ImageLength t - row) in
  io_bind (emit (ReadEncodedStrip stripnum)) (fun _ =>
  io_ret (mkArray (nrows buf) (ncols buf) (nchan buf)
            (fun i j k => if i <? h then pixels t (row + i) j k
                          else sample buf i j k))).

Definition readRGBAStrip (t : tiff) (row : Z) (buf : ndarray) : io ndarray :=
  let h := Z.min (RowsPerStrip t) (ImageLength t - row) in
  io_bind (emit (ReadRGBAStrip row)) (fun _ =>
  io_ret (mkArray (nrows buf) (ncols buf) (nchan buf)
            (fun i j k => if i <? h then rgba t (row + (h - 1 - i)) j k
                          else sample buf i j k))).

Definition readRGBAImageOriented (t : tiff) : io ndarray :=
  io_bind (emit ReadRGBAImage) (fun _ =>
  io_ret (mkArray (ImageLength t) (ImageWidth t) 4 (rgba t))).

(** Modelled from the spec: [Jp2k.get_tilewriters()] of the destination
    writer, which is not part of the sources at hand: one slot per tile of
    the grid of [ceil(height/jth)] rows and [ceil(width/jtw)] columns,
    handed out in row-major order. *)
Definition get_tilewriters (imageheight imagewidth jth jtw : Z) : list Z :=
  Meta.range ((- ((- imageheight) / jth)) * (- ((- imagewidth) / jtw))).

(** *** [copy_image] *)

(** The names bound in the body of the innermost loop, which the code
    reads again after the loops: the overlap of the tile of the JPEG 2000
    file with the tile or strip of the TIFF, and its slices. *)
Record overlap : Type := mkOverlap {
  ulr : Z; llr : Z; ulc : Z; urc : Z;
  jrows : Z * Z; jcols : Z * Z; trows : Z * Z; tcols : Z * Z
}.

(** Reading a local name: [UnboundLocalError] before its first
    assignment. *)
Definition local {A} (name : string) (v : option A) : result A :=
  match v with
  | Some a => ret a
  | None => raise (UnboundLocalError name)
  end.

(** The lines computing the overlap and its slices, common to both
    branches: [th] and [tw] are the height and width of the tile, or of the
    strip, of the TIFF. *)
Definition compute_overlap (jth jtw th tw julr julc tulr tulc : Z)
  : result overlap :=
  let ulr := Z.max julr tulr in
  let llr := Z.min (julr + jth) (tulr + th) in
  let ulc := Z.max julc tulc in
  let urc := Z.min (julc + jtw) (tulc + tw) in
  jr0 <- pymod ulr jth ;;
  jr1 <- pymod (llr - 1) jth ;;
  jc0 <- pymod ulc jtw ;;
  jc1 <- pymod (urc - 1) jtw ;;
  tr0 <- pymod ulr th ;;
  tr1 <- pymod (llr - 1) th ;;
  tc0 <- pymod ulc tw ;;
  tc1 <- pymod (urc - 1) tw ;;
  ret (mkOverlap ulr llr ulc urc
         (jr0, jr1 + 1) (jc0, jc1 + 1) (tr0, tr1 + 1) (tc0, tc1 + 1)).

(** [(a / b) != (a // b)] on integers: [b] does not divide [a]. *)
Definition is_partial (a b : Z) : result bool :=
  if b =? 0 then raise ZeroDivisionError else ret (negb (a mod b =? 0)).

(** The arrays and names that live across the iterations of the loops.  A
    name that is not bound yet holds [unbound_array] when it is an array
    the loop assigns before reading it, and [None] otherwise. *)
Definition unbound_array : ndarray := mkArray 0 0 0 (fun _ _ _ => 0).

Record vars : Type := mkVars {
  jp2k_tile : ndarray;
  tiff_buf : ndarray;   (* [tiff_tile], or [tiff_strip] *)
  rgba_buf : ndarray;   (* [rgba_tile], or [rgba_strip] *)
  last : option overlap;
  stripnum : option Z
}.

Section Branches.

Variable t : tiff.
Variables jth jtw : Z.
Variable use_rgba_interface : bool.

Let imagewidth := ImageWidth t.
Let imageheight := ImageLength t.
Let spp := SamplesPerPixel t.

(** **** Tiled TIFF *)

Section Tiled.

Variables num_jp2k_tile_rows num_jp2k_tile_cols : Z.
Variable num_tiff_tile_cols : Z.
Variables partial_jp2_tile_rows partial_jp2_tile_cols : bool.

Let tw := TileWidth t.
Let th := TileLength t.

(** [tilenum // num_tiff_tile_cols] and [tilenum % num_tiff_tile_cols],
    times the size of a tile: [tulr] and [tulc]. *)
Definition tile_corner (tilenum : Z) : result (Z * Z) :=
  tiff_tile_row <- floordiv tilenum num_tiff_tile_cols ;;
  tiff_tile_col <- pymod tilenum num_tiff_tile_cols ;;
  ret (tiff_tile_row * th, tiff_tile_col * tw).

(** [while ((c // tw) * tw) < min(julc + jtw, imagewidth)]. *)
Fixpoint tiled_cols (fuel : nat) (julr julc r c tilenum tulr tulc : Z)
    (v : vars) : io vars :=
  match fuel with
  | O => lift (raise NonTermination)
  | S fuel =>
      (q <- lift (floordiv c tw) ;;
       if q * tw <? Z.min (julc + jtw) imagewidth then
         bufs <- (if use_rgba_interface then
                    rgba_tile <- readRGBATile t tulc tulr (rgba_buf v) ;;
                    io_ret (flipud (take_chan rgba_tile 3), rgba_tile)
                  else
                    tiff_tile <- readEncodedTile t tilenum (tiff_buf v) ;;
                    io_ret (tiff_tile, rgba_buf v)) ;;
         let tiff_tile := fst bufs in
         o <- lift (compute_overlap jth jtw th tw julr julc tulr tulc) ;;
         tile <- lift (assign_window (jp2k_tile v) (jrows o) (jcols o)
                         tiff_tile (trows o) (tcols o)) ;;
         let c := c + tw in
         let tilenum := computeTile t c r in
         corner <- lift (tile_corner tilenum) ;;
         tiled_cols fuel julr julc r c tilenum (fst corner) (snd corner)
           (mkVars tile tiff_tile (snd bufs) (Some o) (stripnum v))
       else io_ret v)%io
  end.

(** [while (r // th) * th < min(julr + jth, imageheight)]. *)
Fixpoint tiled_rows (fuel : nat) (julr julc r : Z) (v : vars) : io vars :=
  match fuel with
  | O => lift (raise NonTermination)
  | S fuel =>
      (q <- lift (floordiv r th) ;;
       if q * th <? Z.min (julr + jth) imageheight then
         let c := julc in
         let tilenum := computeTile t c r in
         corner <- lift (tile_corner tilenum) ;;
         v <- tiled_cols (Z.to_nat jtw + 2) julr julc r c tilenum
                (fst corner) (snd corner) v ;;
         tiled_rows fuel julr julc (r + th) v
       else io_ret v)%io
  end.

(** The crop of the tile in the last column and in the last row of the
    grid.  [last_j2k_cols] and [last_j2k_rows] are computed from [ulc] and
    [llr] and not used; the tile is cut with [jcols] and [jrows]. *)
Definition tiled_crop (jp2k_tile_row jp2k_tile_col : Z) (v : vars)
  : result ndarray :=
  tile <-
    (if partial_jp2_tile_cols && (jp2k_tile_col =? num_jp2k_tile_cols - 1)
     then
       o <- local "ulc" (last v) ;;
       let last_j2k_cols := (0, jtw - (ulc o - imagewidth)) in
       ret (take_cols (jp2k_tile v) (jcols o))
     else ret (jp2k_tile v)) ;;
  (if partial_jp2_tile_rows && (jp2k_tile_row =? num_jp2k_tile_rows - 1)
   then
     o <- local "llr" (last v) ;;
     let last_j2k_rows := (0, jth - (llr o - imageheight)) in
     ret (take_rows tile (jrows o))
   else ret tile).

(** The body of [for idx, tilewriter in enumerate(jp2.get_tilewriters())]. *)
Definition tiled_tile (v : vars) (idx : Z) : io vars :=
  (jp2k_tile <- lift (np_zeros jth jtw spp) ;;
   tiff_tile <- lift (np_zeros th tw spp) ;;
   jp2k_tile_row <- lift (floordiv idx num_jp2k_tile_cols) ;;
   jp2k_tile_col <- lift (pymod idx num_jp2k_tile_cols) ;;
   let julr := jp2k_tile_row * jth in
   let julc := jp2k_tile_col * jtw in
   let r := julr in
   v <- tiled_rows (Z.to_nat jth + 2) julr julc r
          (mkVars jp2k_tile tiff_tile (rgba_buf v) (last v) (stripnum v)) ;;
   tile <- lift (tiled_crop jp2k_tile_row jp2k_tile_col v) ;;
   _ <- emit (WriteTile idx tile) ;;
   io_ret (mkVars tile (tiff_buf v) (rgba_buf v) (last v) (stripnum v)))%io.

End Tiled.

(** [for x in xs: body], on the names that live across the iterations. *)
Fixpoint for_each (body : vars -> Z -> io vars) (xs : list Z) (v : vars)
  : io vars :=
  match xs with
  | [] => io_ret v
  | x :: rest => (v' <- body v x ;; for_each body rest v')%io
  end.

(** The branch [elif isTiled and self.tilesize is not None]. *)
Definition tiled_branch (num_jp2k_tile_rows num_jp2k_tile_cols : Z)
  : io unit :=
  (num_tiff_tile_cols <- lift (ceil_div imagewidth (TileWidth t)) ;;
   partial_jp2_tile_rows <- lift (is_partial imageheight jth) ;;
   partial_jp2_tile_cols <- lift (is_partial imagewidth jtw) ;;
   rgba_tile <- lift (np_zeros (TileLength t) (TileWidth t) 4) ;;
   _ <- for_each
          (tiled_tile num_jp2k_tile_rows num_jp2k_tile_cols
             num_tiff_tile_cols partial_jp2_tile_rows partial_jp2_tile_cols)
          (get_tilewriters imageheight imagewidth jth jtw)
          (mkVars unbound_array unbound_array rgba_tile None None) ;;
   io_ret tt)%io.

(** **** Striped TIFF *)

Section Striped.

Variable num_jp2k_tile_cols : Z.
Variables partial_jp2_tile_rows partial_jp2_tile_cols : bool.

Let tw := imagewidth.
Let rps := RowsPerStrip t.
Let num_strips := numberOfStrips t.

(** [while (r // rps) * rps < min(julr + jth, imageheight)], left by
    [break] when [stripnum >= num_strips]. *)
Fixpoint striped_rows (fuel : nat) (julr julc r : Z) (v : vars) : io vars :=
  match fuel with
  | O => lift (raise NonTermination)
  | S fuel =>
      (q <- lift (floordiv r rps) ;;
       if q * rps <? Z.min (julr + jth) imageheight then
         let stripnum_ := computeStrip t r in
         if stripnum_ >=? num_strips then
           io_ret (mkVars (jp2k_tile v) (tiff_buf v) (rgba_buf v) (last v)
                     (Some stripnum_))
         else
           bufs <- (if use_rgba_interface then
                      rgba_strip <- readRGBAStrip t (stripnum_ * rps)
                                      (rgba_buf v) ;;
                      io_ret (flipud (take_chan rgba_strip spp), rgba_strip)
                    else
                      tiff_strip <- readEncodedStrip t stripnum_
                                      (tiff_buf v) ;;
                      io_ret (tiff_strip, rgba_buf v)) ;;
           let tiff_strip := fst bufs in
           let tulr := stripnum_ * rps in
           let tulc := 0 in
           o <- lift (compute_overlap jth jtw rps tw julr julc tulr tulc) ;;
           tile <- lift (assign_window (jp2k_tile v) (jrows o) (jcols o)
                           tiff_strip (trows o) (tcols o)) ;;
           striped_rows fuel julr julc (r + rps)
             (mkVars tile tiff_strip (snd bufs) (Some o) (Some stripnum_))
       else io_ret v)%io
  end.

(** The crop of the tile in the last column of the grid, and of the tile
    that took the last strip. *)
Definition striped_crop (jp2k_tile_col julr : Z) (v : vars)
  : result ndarray :=
  tile <-
    (if partial_jp2_tile_cols && (jp2k_tile_col =? num_jp2k_tile_cols - 1)
     then
       o <- local "ulc" (last v) ;;
       let last_j2k_cols := (0, jtw - (ulc o + jtw - imagewidth)) in
       ret (take_cols (jp2k_tile v) last_j2k_cols)
     else ret (jp2k_tile v)) ;;
  (if partial_jp2_tile_rows then
     sn <- local "stripnum" (stripnum v) ;;
     if sn =? num_strips - 1 then
       let last_j2k_rows := (0, imageheight - julr) in
       ret (take_rows tile last_j2k_rows)
     else ret tile
   else ret tile).

(** The body of [for idx, tilewriter in enumerate(jp2.get_tilewriters())]. *)
Definition striped_tile (v : vars) (idx : Z) : io vars :=
  (jp2k_tile <- lift (np_zeros jth jtw spp) ;;
   jp2k_tile_row <- lift (floordiv idx num_jp2k_tile_cols) ;;
   jp2k_tile_col <- lift (pymod idx num_jp2k_tile_cols) ;;
   let julr := jp2k_tile_row * jth in
   let julc := jp2k_tile_col * jtw in
   let r := julr in
   v <- striped_rows (Z.to_nat jth + 2) julr julc r
          (mkVars jp2k_tile (tiff_buf v) (rgba_buf v) (last v) (stripnum v)) ;;
   tile <- lift (striped_crop jp2k_tile_col julr v) ;;
   _ <- emit (WriteTile idx tile) ;;
   io_ret (mkVars tile (tiff_buf v) (rgba_buf v) (last v) (stripnum v)))%io.

End Striped.

(** The branch [elif not isTiled and self.tilesize is not None]. *)
Definition striped_branch : io unit :=
  (num_jp2k_tile_cols <- lift (ceil_div imagewidth jtw) ;;
   partial_jp2_tile_rows <- lift (is_partial imageheight jth) ;;
   partial_jp2_tile_cols <- lift (is_partial imagewidth jtw) ;;
   tiff_strip <- lift (np_zeros (RowsPerStrip t) imagewidth spp) ;;
   rgba_strip <- lift (np_zeros (RowsPerStrip t) imagewidth 4) ;;
   _ <- for_each
          (striped_tile num_jp2k_tile_cols
             partial_jp2_tile_rows partial_jp2_tile_cols)
          (get_tilewriters imageheight imagewidth jth jtw)
          (mkVars unbound_array tiff_strip rgba_strip None None) ;;
   io_ret tt)%io.

End Branches.

(** [str(n)]. *)
Definition str (n : Z) : string :=
  DecimalString.NilZero.string_of_int (Z.to_int n).

(** The pre-flight checks of [copy_image]. *)
Definition check_format (t : tiff) : result unit :=
  let sf := SampleFormat t in
  let bps := BitsPerSample t in
  _ <- (if negb (sf =? SampleFormat_UINT) then
          sf_string <-
            match filter (fun kv => snd kv =? sf) SampleFormat_dir with
            | kv :: _ => ret (fst kv)
            | [] => raise IndexError
            end ;;
          raise (RuntimeError ("The TIFF SampleFormat is " ++ sf_string
                               ++ ".  Only UINT is supported."))
        else ret tt) ;;
  if negb ((bps =? 8) || (bps =? 16)) then
    raise (RuntimeError ("The TIFF BitsPerSample is " ++ str bps
                         ++ ".  Only 8 and 16 bits per "
                         ++ "sample are supported."))
  else ret tt.

(** The dimensions of the grid of tiles of the JPEG 2000 file, as
    [copy_image] computes them when a tile size is given:
    [num_jp2k_tile_rows] and [num_jp2k_tile_cols], both from [imagewidth]
    and [jtw]. *)
Definition grid_dimensions (t : tiff) (jth jtw : Z) : result (Z * Z) :=
  let imagewidth := ImageWidth t in
  num_jp2k_tile_rows <- ceil_div imagewidth jtw ;;
  num_jp2k_tile_cols <- ceil_div imagewidth jtw ;;
  ret (num_jp2k_tile_rows, num_jp2k_tile_cols).

(** Modelled from the spec: the constructor
    [Jp2k(filename, shape=..., tilesize=...)] of the destination writer,
    which is not part of the sources at hand.  The writer accepts the
    geometry of the tiles and the dimensions of the image at construction;
    it refuses, with a [RuntimeError] that names the two sizes, a tile that
    is higher or wider than the image. *)
Definition Jp2k (shape : Z * Z * Z) (tilesize : option (Z * Z))
  : result unit :=
  match tilesize with
  | Some (jth, jtw) =>
      let '(imageheight, imagewidth, _) := shape in
      if (jth >? imageheight) || (jtw >? imagewidth) then
        raise (RuntimeError
                 ("The tile size (" ++ str jth ++ ", " ++ str jtw
                  ++ ") cannot exceed the image size (" ++ str imageheight
                  ++ ", " ++ str imagewidth ++ ")"))
      else ret tt
  | None => ret tt
  end.

(** [Tiff2Jp2k.copy_image()], with [self.tilesize] as [(jth, jtw)]. *)
Definition copy_image (t : tiff) (tilesize : option (Z * Z)) : io unit :=
  let photometric := Photometric t in
  let imagewidth := ImageWidth t in
  let imageheight := ImageLength t in
  let spp := SamplesPerPixel t in
  (_ <- lift (check_format t) ;;
   match tilesize with
   | Some (jth, jtw) =>
       grid <- lift (grid_dimensions t jth jtw) ;;
       let num_jp2k_tile_rows := fst grid in
       let num_jp2k_tile_cols := snd grid in
       let use_rgba_interface :=
         (photometric =? Photometric_YCBCR)
         || (photometric =? Photometric_PALETTE) in
       _ <- lift (Jp2k (imageheight, imagewidth, spp) (Some (jth, jtw))) ;;
       if isTiled t then
         tiled_branch t jth jtw use_rgba_interface
           num_jp2k_tile_rows num_jp2k_tile_cols
       else
         striped_branch t jth jtw use_rgba_interface
   | None =>
       _ <- lift (Jp2k (imageheight, imagewidth, spp) None) ;;
       if RGBAImageOK t then
         image <- readRGBAImageOriented t ;;
         let image := if spp <? 4 then take_chan image 3 else image in
         emit (WriteImage image)
       else io_ret tt
   end)%io.

(** *** The image in the JPEG 2000 file *)

(** The arrays handed to the tile writers, in order. *)
Fixpoint written_tiles (tr : list event) : list ndarray :=
  match tr with
  | [] => []
  | WriteTile _ tile :: rest => tile :: written_tiles rest
  | _ :: rest => written_tiles rest
  end.

(** The reads of pixel data among the events. *)
Definition is_read (e : event) : bool :=
  match e with
  | WriteImage _ | WriteTile _ _ => false
  | _ => true
  end.

(** Modelled from the spec: the image the destination writer holds once
    the tiles are written.  The tiles lie on the grid in row-major order,
    [gridcols] to a row: the sample at row [i] and column [j] is found in
    the tile of grid row [i / jth] and grid column [j / jtw], at the place
    [(i mod jth, j mod jtw)] of that tile. *)
Definition image_sample (tiles : list ndarray) (jth jtw gridcols : Z)
    (i j k : Z) : Z :=
  let idx := (i / jth) * gridcols + j / jtw in
  sample (nth (Z.to_nat idx) tiles unbound_array) (i mod jth) (j mod jtw) k.

End Remap.
(** ** Outcomes that are not the error of the pre-flight checks *)

Definition not_RuntimeError (e : exn) : Prop :=
  match e with
  | RuntimeError _ => False
  | _ => True
  end.

Definition passes {A} (r : result A) : Prop :=
  match r with
  | inl e => not_RuntimeError e
  | inr _ => True
  end.

Definition io_passes {A} (m : Remap.io A) : Prop := passes (snd m).

(** The shape of an array. *)
Definition shape (a : ndarray) : Z * Z * Z := (nrows a, ncols a, nchan a).

(** ** The state of the loops of [copy_image] *)

(** [a], [a + 1], ..., [a + n - 1]. *)
Definition zrange (a n : Z) : list Z :=
  map (fun i => a + Z.of_nat i) (seq 0 (Z.to_nat n)).

(** The part of the tile of the JPEG 2000 file at [(julr, julc)] that lies
    in the rows [r0 .. r1 - 1] and the columns [c0 .. c1 - 1] of the image
    holds the pixels of the TIFF. *)
Definition copied (t : Remap.tiff) (tile : ndarray)
    (julr julc r0 r1 c0 c1 : Z) : Prop :=
  forall i j k,
    0 <= i < nrows tile -> 0 <= j < ncols tile ->
    r0 <= julr + i < r1 -> c0 <= julc + j < c1 ->
    sample tile i j k = Remap.pixels t (julr + i) (julc + j) k.

(** The rows of the tile from the row [lo] of the image on are zero. *)
Definition rows_zero (tile : ndarray) (julr lo : Z) : Prop :=
  forall i j k, lo <= julr + i -> sample tile i j k = 0.

(** The tile [tile] is the window of [h] rows and [w] columns of the image
    at [(julr, julc)]. *)
Definition tile_exact (t : Remap.tiff) (tile : ndarray)
    (julr julc h w : Z) : Prop :=
  shape tile = (h, w, Remap.SamplesPerPixel t)
  /\ forall i j k,
       0 <= i < h -> 0 <= j < w ->
       sample tile i j k = Remap.pixels t (julr + i) (julc + j) k.

(** The tile handed to the tile writer [idx] of a grid of [gridcols]
    columns is the window of the image at its place in the grid, clipped to
    the image. *)
Definition grid_exact (t : Remap.tiff) (jth jtw gridcols : Z) (idx : Z)
    (tile : ndarray) : Prop :=
  let julr := idx / gridcols * jth in
  let julc := idx mod gridcols * jtw in
  tile_exact t tile julr julc
    (Z.min jth (Remap.ImageLength t - julr))
    (Z.min jtw (Remap.ImageWidth t - julc)).

(** The event is the assignment of a tile, or the read of a strip through
    the scanline interface with an index below [n]. *)
Definition strip_below (n : Z) (e : Remap.event) : Prop :=
  match e with
  | Remap.ReadEncodedStrip s => 0 <= s < n
  | Remap.WriteTile _ _ => True
  | _ => False
  end.

(** The invariant of the loop over the strips, before the strip [s] is
    read: the tile and the strip buffer have their shapes, the rows of the
    image before the strip are copied, the rows from the strip on are
    zero. *)
Definition strip_inv (t : Remap.tiff) (jth jtw julr julc s : Z)
    (v : Remap.vars) : Prop :=
  shape (Remap.jp2k_tile v) = (jth, jtw, Remap.SamplesPerPixel t)
  /\ shape (Remap.tiff_buf v)
     = (Remap.RowsPerStrip t, Remap.ImageWidth t, Remap.SamplesPerPixel t)
  /\ copied t (Remap.jp2k_tile v) julr julc
       julr (Z.min (s * Remap.RowsPerStrip t) (Remap.ImageLength t))
       julc (Remap.ImageWidth t)
  /\ rows_zero (Remap.jp2k_tile v) julr (s * Remap.RowsPerStrip t).

(** The event is the assignment of a tile, or the read of a tile of the
    TIFF through the scanline interface with a number below [n]. *)
Definition tile_below (n : Z) (e : Remap.event) : Prop :=
  match e with
  | Remap.ReadEncodedTile k => 0 <= k < n
  | Remap.WriteTile _ _ => True
  | _ => False
  end.

(** The invariant of the loop over the rows of tiles of the TIFF, before
    the row [p] of tiles is read: the rows of the image before it are
    copied. *)
Definition rows_inv (t : Remap.tiff) (jth jtw julr julc p : Z)
    (v : Remap.vars) : Prop :=
  shape (Remap.jp2k_tile v) = (jth, jtw, Remap.SamplesPerPixel t)
  /\ shape (Remap.tiff_buf v)
     = (Remap.TileLength t, Remap.TileWidth t, Remap.SamplesPerPixel t)
  /\ copied t (Remap.jp2k_tile v) julr julc
       julr (Z.min (p * Remap.TileLength t) (Remap.ImageLength t))
       julc (Remap.ImageWidth t).

(** The invariant of the loop over the tiles of the row [p], before the
    tile in the column [q] is read: of the rows of that row of tiles, the
    columns before the tile are copied as well. *)
Definition cols_inv (t : Remap.tiff) (jth jtw julr julc p q : Z)
    (v : Remap.vars) : Prop :=
  rows_inv t jth jtw julr julc p v
  /\ copied t (Remap.jp2k_tile v) julr julc
       (p * Remap.TileLength t)
       (Z.min ((p + 1) * Remap.TileLength t) (Remap.ImageLength t))
       julc (Z.min (q * Remap.TileWidth t) (Remap.ImageWidth t)).

(** The TIFF [t] with the channels of its RGBA rendering in the place of
    its samples: what the image of [t] is when it is read through the RGBA
    interface. *)
Definition rendered (t : Remap.tiff) : Remap.tiff :=
  Remap.mkTiff (Remap.isTiled t) (Remap.Photometric t) (Remap.ImageWidth t)
    (Remap.ImageLength t) (Remap.SamplesPerPixel t) (Remap.SampleFormat t)
    (Remap.BitsPerSample t) (Remap.TileWidth t) (Remap.TileLength t)
    (Remap.RowsPerStrip t) (Remap.numberOfStrips t) (Remap.RGBAImageOK t)
    (Remap.rgba t) (Remap.rgba t).

(** ** The events of [copy_image] *)

(** The indices of the tile writers that are assigned a tile, in the order
    of the assignments. *)
Fixpoint written_indices (tr : list Remap.event) : list Z :=
  match tr with
  | [] => []
  | Remap.WriteTile idx _ :: rest => idx :: written_indices rest
  | _ :: rest => written_indices rest
  end.

(** The event is the assignment of a tile, or a read through the interface
    that goes with the layout of the TIFF ([tiled]) and with its
    photometric interpretation ([rgba]). *)
Definition reads_as (tiled rgba : bool) (e : Remap.event) : Prop :=
  match e with
  | Remap.ReadEncodedTile _ => tiled = true /\ rgba = false
  | Remap.ReadRGBATile _ _ => tiled = true /\ rgba = true
  | Remap.ReadEncodedStrip _ => tiled = false /\ rgba = false
  | Remap.ReadRGBAStrip _ => tiled = false /\ rgba = true
  | Remap.WriteTile _ _ => True
  | Remap.ReadRGBAImage | Remap.WriteImage _ => False
  end.

(** The same, for the events of the loops over the tiles and strips of the
    TIFF, which assign no tile. *)
Definition read_as (tiled rgba : bool) (e : Remap.event) : Prop :=
  Remap.is_read e = true /\ reads_as tiled rgba e.

(** All events of a computation satisfy [P]. *)
Definition io_all {A} (P : Remap.event -> Prop) (m : Remap.io A) : Prop :=
  Forall P (fst m).

(** A computation that reads, and then either raises or assigns a tile to
    the tile writer [idx] as its last event. *)
Definition tile_run {A} (P : Remap.event -> Prop) (idx : Z)
    (m : Remap.io A) : Prop :=
  (exists e, snd m = inl e /\ Forall P (fst m))
  \/ (exists tr tile a,
        m = (tr ++ [Remap.WriteTile idx tile], inr a) /\ Forall P tr).

(** ** A reader of image file directories *)

Module Reader.

Import Struct.

(** Modelled from the spec: the conforming reader of a directory, against
    which the transcoded buffer is compared.  The first two bytes of the
    header give the byte order of all that follows, bytes 4 to 7 the
    offset of the directory.  The directory is a 2-byte count and that
    many 12-byte entries: tag, type, count, and a 4-byte field holding the
    values when they fit into 4 bytes, and else the offset of the values
    in the file.  An entry is read as the tuple of its tag, type, count
    and sequence of values. *)
Record entry : Type :=
  mkEntry { e_tag : Z; e_type : Z; e_count : Z; e_values : list value }.

(** The values the reader finds in a byte string: an integer is its value
    and a float is the IEEE pattern that is in the file, the pattern of a
    signalling NaN too. *)
Definition value_of (e : endian) (i : nat * kind) (bs : list byte) : value :=
  match snd i with
  | KFloat => VFloat (fst i) (bytes_to_Z e bs)
  | _ => decode e i bs
  end.

Fixpoint values (e : endian) (cs : list (nat * kind)) (bs : list byte)
  : list value :=
  match cs with
  | [] => []
  | i :: r => value_of e i (firstn (fst i) bs)
              :: values e r (skipn (fst i) bs)
  end.

Definition read_header (data : list byte) : option (endian * Z) :=
  match slice 0 2 data with
  | [d0; d1] =>
      let order :=
        if Byte.eqb d0 x49 && Byte.eqb d1 x49 then Some Little
        else if Byte.eqb d0 x4d && Byte.eqb d1 x4d then Some Big
        else None in
      match order with
      | Some e =>
          if len (slice 4 8 data) =? 4
          then Some (e, bytes_to_Z e (slice 4 8 data))
          else None
      | None => None
      end
  | _ => None
  end.

(** The four fields of the 12 bytes of an entry, read in the order [e]. *)
Definition rec_tag (e : endian) (rec : list byte) : Z :=
  bytes_to_Z e (slice 0 2 rec).
Definition rec_type (e : endian) (rec : list byte) : Z :=
  bytes_to_Z e (slice 2 4 rec).
Definition rec_count (e : endian) (rec : list byte) : Z :=
  bytes_to_Z e (slice 4 8 rec).
Definition rec_field (e : endian) (rec : list byte) : Z :=
  bytes_to_Z e (slice 8 12 rec).

(** The entry whose 12 bytes start at [pos]. *)
Definition read_entry (e : endian) (data : list byte) (pos : Z)
  : option entry :=
  let rec := slice pos (pos + 12) data in
  if len rec =? 12 then
    let tag := rec_tag e rec in
    let type := rec_type e rec in
    let count := rec_count e rec in
    match Meta.tag_dtype type with
    | Some d =>
        match codes (string_repeat (Meta.format d) count) with
        | Some cs =>
            let n := Meta.nbytes d * count in
            let payload :=
              if n <=? 4 then slice 8 (8 + n) rec
              else let offset := rec_field e rec in
                   slice offset (offset + n) data in
            if len payload =? n
            then Some (mkEntry tag type count (values e cs payload))
            else None
        | None => None
        end
    | None => None
    end
  else None.

(** [Some] of the elements when all are there. *)
Fixpoint all_some {A} (l : list (option A)) : option (list A) :=
  match l with
  | [] => Some []
  | Some a :: r =>
      match all_some r with
      | Some ar => Some (a :: ar)
      | None => None
      end
  | None :: _ => None
  end.

(** The number of entries of the directory at [offset]. *)
Definition read_count (e : endian) (data : list byte) (offset : Z)
  : option Z :=
  let cnt := slice offset (offset + 2) data in
  if len cnt =? 2 then Some (bytes_to_Z e cnt) else None.

(** The [n] entries that follow one another from [pos] on. *)
Definition read_entries (e : endian) (data : list byte) (pos n : Z)
  : option (list entry) :=
  all_some (map (fun idx => read_entry e data (pos + 12 * idx))
              (Meta.range n)).

(** The tuples of the first directory of the file, in file order. *)
Definition read_directory (data : list byte) : option (list entry) :=
  match read_header data with
  | Some (e, offset) =>
      match read_count e data offset with
      | Some n => read_entries e data (offset + 2) n
      | None => None
      end
  | None => None
  end.

(** The number of bytes the values of an entry take, and how many of them
    lie outside the entry. *)
Definition payload_length (ent : entry) : Z :=
  match Meta.tag_dtype (e_type ent) with
  | Some d => Meta.nbytes d * e_count ent
  | None => 0
  end.

Definition relocated (ent : entry) : Z :=
  if payload_length ent >? 4 then payload_length ent else 0.

Definition relocated_size (ents : list entry) : Z :=
  fold_right (fun ent acc => relocated ent + acc) 0 ents.

(** The entries whose values fill the 4 bytes of the field or lie outside
    the entry, and the entries of one unsigned short. *)
Definition supported (ent : entry) : Prop :=
  4 <= payload_length ent \/ (e_type ent = 3 /\ e_count ent = 1).

(** The value as [struct] hands it on: a signalling NaN of a single float
    is quiet; and the tuple of an entry with its values so. *)
Definition unpacked (v : value) : value :=
  match v with
  | VInt z => VInt z
  | VFloat n bits => VFloat n (quieted n bits)
  end.

Definition as_unpacked (ent : entry) : entry :=
  mkEntry (e_tag ent) (e_type ent) (e_count ent)
    (map unpacked (e_values ent)).

(** No value of the entry is a single float that holds a signalling
    NaN. *)
Definition no_signalling (ent : entry) : Prop :=
  forall bits, In (VFloat 4 bits) (e_values ent) -> signalling bits = false.

(** The header the transcoder writes. *)
Definition canonical_header : list byte :=
  [x49; x49; x2a; x00; x08; x00; x00; x00].

(** The first [idx] of the entries [ents] are in the buffer [buf], each
    with its values; the values that lie outside the entries lie after the
    [n] places of the entries. *)
Definition entries_in (n : Z) (ents : list entry) (idx : Z)
    (buf : list byte) : Prop :=
  forall i, 0 <= i < idx ->
    exists ent,
      nth_error ents (Z.to_nat i) = Some ent
      /\ read_entry Little buf (10 + 12 * i) = Some ent
      /\ (4 < payload_length ent ->
          let offset :=
            rec_field Little (slice (10 + 12 * i) (10 + 12 * i + 12) buf)
          in 10 + 12 * n <= offset
             /\ offset + payload_length ent <= len buf).

(** The state of the loop of [_process_tags] when the first [idx] of the
    [n] entries [ents] of the file [tiff] are transcoded: the buffer holds
    them with their values as [struct] hands them on. *)
Definition transcoded (tiff : list byte) (n : Z) (ents : list entry)
    (idx : Z) (st : Meta.tags_state) : Prop :=
  let buf := b_buf (Meta.ts_b st) in
  Meta.ts_after st
  = 10 + 12 * n + relocated_size (firstn (Z.to_nat idx) ents)
  /\ f_data (Meta.ts_tfp st) = tiff
  /\ 10 + 12 * idx <= len buf <= Meta.ts_after st
  /\ slice 0 10 buf = canonical_header ++ Z_to_le 2 n
  /\ entries_in n (map as_unpacked ents) idx buf.

(** The buffer after [_process_tags] has written the entry [ent] in the
    place [idx] of the directory: its 12 bytes at [10 + idx * 12], and its
    values at [after] when they do not fit into the field. *)
Definition put_entry (ent : entry) (idx after : Z) (buf : list byte)
  : option (list byte) :=
  match Meta.tag_dtype (e_type ent) with
  | Some d =>
      match codes (string_repeat (Meta.format d) (e_count ent)) with
      | Some cs =>
          let slot := mkBytesIO buf (10 + idx * 12) in
          if 4 <? payload_length ent then
            match encode_all Little cs (e_values ent) with
            | Some out =>
                Some (b_buf
                        (b_write out
                           (mkBytesIO
                              (b_buf
                                 (b_write
                                    (Z_to_le 2 (e_tag ent)
                                       ++ Z_to_le 2 (e_type ent)
                                       ++ Z_to_le 4 (e_count ent)
                                       ++ Z_to_le 4 after) slot))
                              after)))
            | None => None
            end
          else if (e_type ent =? 3) && (e_count ent =? 1) then
            match e_values ent with
            | [VInt v] =>
                Some (b_buf
                        (b_write (Z_to_le 4 v)
                           (b_write
                              (Z_to_le 2 (e_tag ent) ++ Z_to_le 2 3
                                 ++ Z_to_le 4 1) slot)))
            | _ => None
            end
          else
            match encode_all Little cs (e_values ent) with
            | Some out =>
                Some (b_buf
                        (b_write out
                           (b_write
                              (Z_to_le 2 (e_tag ent)
                                 ++ Z_to_le 2 (e_type ent)
                                 ++ Z_to_le 4 (e_count ent)) slot)))
            | None => None
            end
      | None => None
      end
  | None => None
  end.

(** The buffer after the entries [ents] are written one after the other
    from the place [idx] on, the values outside the entries from [after]
    on. *)
Fixpoint put_entries (ents : list entry) (idx after : Z) (buf : list byte)
  : option (list byte) :=
  match ents with
  | [] => Some buf
  | ent :: rest =>
      match put_entry ent idx after buf with
      | Some buf' => put_entries rest (idx + 1) (after + relocated ent) buf'
      | None => None
      end
  end.

(** In the buffer [buf], each of the first [idx] entries of [ents] whose
    values lie outside the entry has in its field the offset
    [10 + 12 * n] plus the lengths of the values relocated before it. *)
Definition offsets_in (n : Z) (ents : list entry) (idx : Z)
    (buf : list byte) : Prop :=
  forall i ent,
    0 <= i < idx -> nth_error ents (Z.to_nat i) = Some ent ->
    4 < payload_length ent ->
    rec_field Little (slice (10 + 12 * i) (10 + 12 * i + 12) buf)
    = 10 + 12 * n + relocated_size (firstn (Z.to_nat i) ents).

(** The state of the loop of [_process_tags] when the first [idx] of the
    [n] entries are transcoded: where the values go next, how long the
    buffer is, and the offsets written so far. *)
Definition shaped (n : Z) (ents : list entry) (idx : Z)
    (st : Meta.tags_state) : Prop :=
  let buf := b_buf (Meta.ts_b st) in
  let moved := relocated_size (firstn (Z.to_nat idx) ents) in
  Meta.ts_after st = 10 + 12 * n + moved
  /\ len buf = (if moved =? 0 then 10 + 12 * idx else Meta.ts_after st)
  /\ offsets_in n ents idx buf.

End Reader.

(** ** Sample files *)

Module Samples.

Definition le16 (v : Z) : list byte := Z_to_le 2 v.
Definition le32 (v : Z) : list byte := Z_to_le 4 v.
Definition be16 (v : Z) : list byte := rev (Z_to_le 2 v).
Definition be32 (v : Z) : list byte := rev (Z_to_le 4 v).

(** A little-endian file of one entry: ImageWidth (256), one unsigned
    short, 16. *)
Definition short_file : list byte :=
  [x49; x49] ++ le16 42 ++ le32 8 ++ le16 1
  ++ le16 256 ++ le16 3 ++ le32 1 ++ le16 16 ++ le16 0
  ++ le32 0.

(** A little-endian file of one entry: ImageDescription (270), ASCII, the
    one byte of the empty string. *)
Definition byte_file : list byte :=
  [x49; x49] ++ le16 42 ++ le32 8 ++ le16 1
  ++ le16 270 ++ le16 2 ++ le32 1 ++ [x00; x00; x00; x00]
  ++ le32 0.

(** A little-endian file of one entry: ImageDescription (270), ASCII, the
    two bytes of the string "A". *)
Definition pair_file : list byte :=
  [x49; x49] ++ le16 42 ++ le32 8 ++ le16 1
  ++ le16 270 ++ le16 2 ++ le32 2 ++ [x41; x00; x00; x00]
  ++ le32 0.

(** A little-endian file of two entries: ImageWidth, and an entry of type
    6 (signed byte), which the table does not have. *)
Definition sbyte_file : list byte :=
  [x49; x49] ++ le16 42 ++ le32 8 ++ le16 2
  ++ le16 256 ++ le16 3 ++ le32 1 ++ le16 16 ++ le16 0
  ++ le16 700 ++ le16 6 ++ le32 1 ++ [xff; x00; x00; x00]
  ++ le32 0.

(** A big-endian file of three entries: ImageWidth, BitsPerSample (258)
    with three unsigned shorts at offset 50, and ImageDescription with the
    four bytes of "ABC". *)
Definition big_file : list byte :=
  [x4d; x4d] ++ be16 42 ++ be32 8 ++ be16 3
  ++ be16 256 ++ be16 3 ++ be32 1 ++ be16 16 ++ be16 0
  ++ be16 258 ++ be16 3 ++ be32 3 ++ be32 50
  ++ be16 270 ++ be16 2 ++ be32 4 ++ [x41; x42; x43; x00]
  ++ be32 0
  ++ be16 8 ++ be16 8 ++ be16 8.

(** A little-endian file with the directory of [big_file]: the directory
    is at offset 16, the three unsigned shorts at offset 60, after a gap. *)
Definition little_file : list byte :=
  [x49; x49] ++ le16 42 ++ le32 16 ++ le32 0 ++ le32 0 ++ le16 3
  ++ le16 256 ++ le16 3 ++ le32 1 ++ le16 16 ++ le16 0
  ++ le16 258 ++ le16 3 ++ le32 3 ++ le32 60
  ++ le16 270 ++ le16 2 ++ le32 4 ++ [x41; x42; x43; x00]
  ++ le32 0 ++ le16 0
  ++ le16 8 ++ le16 8 ++ le16 8.

(** A little-endian file of two entries: ImageDescription, the one byte
    of the empty string, and an entry of type 6 (signed byte). *)
Definition byte_sbyte_file : list byte :=
  [x49; x49] ++ le16 42 ++ le32 8 ++ le16 2
  ++ le16 270 ++ le16 2 ++ le32 1 ++ [x00; x00; x00; x00]
  ++ le16 700 ++ le16 6 ++ le32 1 ++ [xff; x00; x00; x00]
  ++ le32 0.

(** A big-endian file of one entry of type 11 (FLOAT) whose one value is
    the signalling NaN [7fa00000]. *)
Definition nan_file : list byte :=
  [x4d; x4d] ++ be16 42 ++ be32 8 ++ be16 1
  ++ be16 700 ++ be16 11 ++ be32 1 ++ [x7f; xa0; x00; x00]
  ++ be32 0.

(** A little-endian file of one entry: ImageDescription (270), ASCII, the
    three bytes of the string "AB". *)
Definition triple_file : list byte :=
  [x49; x49] ++ le16 42 ++ le32 8 ++ le16 1
  ++ le16 270 ++ le16 2 ++ le32 3 ++ [x41; x42; x00; x00]
  ++ le32 0.

(** The tuples of the directory of [big_file] and of [little_file]. *)
Definition sample_entries : list Reader.entry :=
  [Reader.mkEntry 256 3 1 [Struct.VInt 16];
   Reader.mkEntry 258 3 3 [Struct.VInt 8; Struct.VInt 8; Struct.VInt 8];
   Reader.mkEntry 270 2 4
     [Struct.VInt 65; Struct.VInt 66; Struct.VInt 67; Struct.VInt 0]].

(** A little-endian file with a directory of no entry. *)
Definition empty_directory_file : list byte :=
  [x49; x49] ++ le16 42 ++ le32 8 ++ le16 0 ++ le32 0.

(** A header that gives an offset of the directory after the end of the
    file. *)
Definition far_directory_file : list byte :=
  [x49; x49] ++ le16 42 ++ le32 64.

(** A little-endian file of two entries: ImageWidth, and BitsPerSample
    with three unsigned shorts at offset 100, after the end of the file. *)
Definition dangling_file : list byte :=
  [x49; x49] ++ le16 42 ++ le32 8 ++ le16 2
  ++ le16 256 ++ le16 3 ++ le32 1 ++ le16 16 ++ le16 0
  ++ le16 258 ++ le16 3 ++ le32 3 ++ le32 100
  ++ le32 0.

(** The samples of the images below. *)
Definition sample_pixels (r c k : Z) : Z := (r * 7 + c * 3 + k) mod 256.

(** A tiled image of 40 columns and 16 rows, in tiles of 16 by 16, one
    8-bit unsigned sample per pixel, black is zero. *)
Definition wide_tiled : Remap.tiff :=
  Remap.mkTiff true 1 40 16 1 1 8 16 16 16 1 true sample_pixels sample_pixels.

(** A tiled image of 16 columns and 32 rows, in tiles of 16 by 16. *)
Definition tall_tiled : Remap.tiff :=
  Remap.mkTiff true 1 16 32 1 1 8 16 16 32 1 true sample_pixels sample_pixels.

(** A tiled image of 16 columns and 40 rows, in tiles of 8 rows and 16
    columns. *)
Definition long_tiled : Remap.tiff :=
  Remap.mkTiff true 1 16 40 1 1 8 16 8 40 1 true sample_pixels sample_pixels.

(** A tiled palette-color image of 16 columns and 16 rows, one tile, one
    sample per pixel. *)
Definition palette_tiled : Remap.tiff :=
  Remap.mkTiff true 3 16 16 1 1 8 16 16 16 1 true sample_pixels sample_pixels.

(** A striped image of 6 columns and 5 rows, in strips of 2 rows: the
    third and last strip has one row. *)
Definition short_strip : Remap.tiff :=
  Remap.mkTiff false 1 6 5 1 1 8 0 0 2 3 true sample_pixels sample_pixels.


(** A striped image of 8 columns and 8 rows of 32-bit floating point
    samples. *)
Definition float_image : Remap.tiff :=
  Remap.mkTiff false 1 8 8 1 3 32 0 0 8 1 true sample_pixels sample_pixels.

(** A tiled YCbCr image of 16 columns and 32 rows, three samples per
    pixel, in tiles of 16 by 16. *)
Definition ycbcr_tiled : Remap.tiff :=
  Remap.mkTiff true 6 16 32 3 1 8 16 16 32 1 true sample_pixels sample_pixels.

(** A striped YCbCr image of 6 columns and 6 rows, three samples per
    pixel, in strips of 2 rows. *)
Definition ycbcr_strip : Remap.tiff :=
  Remap.mkTiff false 6 6 6 3 1 8 0 0 2 3 true sample_pixels sample_pixels.

(** A striped image of 8 columns and 8 rows that the reader cannot render
    through the RGBA interface. *)
Definition unrenderable_image : Remap.tiff :=
  Remap.mkTiff false 1 8 8 1 1 8 0 0 8 1 false sample_pixels sample_pixels.

(** A file whose first two bytes are no byte-order mark. *)
Definition bad_marker_file : list byte :=
  [x00; x00] ++ le16 42 ++ le32 8 ++ le16 0 ++ le32 0.

End Samples.

(** * Verification *)

(** ** Bytes *)

Lemma byte_to_Z_inj (a b : byte) : byte_to_Z a = byte_to_Z b -> a = b.
Proof.
  unfold byte_to_Z. intros H. apply N2Z.inj in H.
  assert (E : Byte.of_N (Byte.to_N a) = Byte.of_N (Byte.to_N b))
    by (now rewrite H).
  rewrite !Byte.of_to_N in E. now inversion E.
Qed.

Lemma byte_to_Z_range (b : byte) : 0 <= byte_to_Z b < 256.
Proof.
  unfold byte_to_Z. pose proof (Byte.to_N_bounded b). lia.
Qed.

Lemma byte_of_to_Z (b : byte) : byte_of_Z (byte_to_Z b) = b.
Proof.
  unfold byte_of_Z, byte_to_Z. rewrite N2Z.id, Byte.of_to_N. reflexivity.
Qed.

Lemma byte_to_of_Z (z : Z) : 0 <= z < 256 -> byte_to_Z (byte_of_Z z) = z.
Proof.
  intros H. unfold byte_of_Z, byte_to_Z.
  destruct (Byte.of_N (Z.to_N z)) as [b|] eqn:E.
  - apply Byte.to_of_N in E. rewrite E. lia.
  - apply Byte.of_N_None_iff in E. lia.
Qed.

Lemma le_to_Z_range (bs : list byte) :
  0 <= le_to_Z bs < 256 ^ Z.of_nat (List.length bs).
Proof.
  induction bs as [|b r IH].
  - cbn. lia.
  - cbn [le_to_Z List.length]. rewrite Nat2Z.inj_succ, Z.pow_succ_r by lia.
    pose proof (byte_to_Z_range b). lia.
Qed.

Lemma Z_to_le_length (n : nat) (v : Z) : List.length (Z_to_le n v) = n.
Proof.
  revert v. induction n as [|n IH]; intros v; cbn; [reflexivity|].
  now rewrite IH.
Qed.

Lemma Z_to_le_to_Z (bs : list byte) :
  Z_to_le (List.length bs) (le_to_Z bs) = bs.
Proof.
  induction bs as [|b r IH]; [reflexivity|].
  cbn [le_to_Z List.length Z_to_le].
  pose proof (byte_to_Z_range b).
  replace ((byte_to_Z b + 256 * le_to_Z r) mod 256) with (byte_to_Z b).
  2:{ apply Z.mod_unique with (q := le_to_Z r); lia. }
  replace ((byte_to_Z b + 256 * le_to_Z r) / 256) with (le_to_Z r).
  2:{ apply Z.div_unique with (r := byte_to_Z b); lia. }
  now rewrite byte_of_to_Z, IH.
Qed.

Lemma le_to_Z_to_le (n : nat) (v : Z) :
  0 <= v < 256 ^ Z.of_nat n -> le_to_Z (Z_to_le n v) = v.
Proof.
  revert v. induction n as [|n IH]; intros v Hv.
  - cbn in *. lia.
  - cbn [Z_to_le le_to_Z].
    rewrite Nat2Z.inj_succ, Z.pow_succ_r in Hv by lia.
    rewrite byte_to_of_Z by (apply Z.mod_pos_bound; lia).
    rewrite IH.
    + pose proof (Z.div_mod v 256). lia.
    + split; [apply Z.div_pos; lia|].
      apply Z.div_lt_upper_bound; lia.
Qed.

Lemma pow256 (n : nat) : 2 ^ (8 * Z.of_nat n) = 256 ^ Z.of_nat n.
Proof.
  rewrite Z.pow_mul_r by lia. reflexivity.
Qed.

(** ** [struct] *)

Import Struct.

Lemma split_order_endian (e : endian) (items : string) :
  split_order (endian_char e ++ items) = (e, items).
Proof. destruct e; reflexivity. Qed.

Lemma codes_app (s1 s2 : string) :
  codes (s1 ++ s2) =
  match codes s1, codes s2 with
  | Some a, Some b => Some (a ++ b)
  | _, _ => None
  end.
Proof.
  induction s1 as [|c s1 IH]; cbn [codes String.append].
  - destruct (codes s2); reflexivity.
  - rewrite IH. destruct (code_info c), (codes s1), (codes s2); reflexivity.
Qed.

Lemma codes_repeat (fmt : string) (cs : list (nat * kind)) (n : nat) :
  codes fmt = Some cs ->
  codes (string_repeat_nat fmt n) = Some (List.concat (repeat cs n)).
Proof.
  intros H. induction n as [|n IH]; [reflexivity|].
  cbn [string_repeat_nat repeat List.concat]. now rewrite codes_app, H, IH.
Qed.

Lemma calcsize_app (a b : list (nat * kind)) :
  calcsize (a ++ b) = calcsize a + calcsize b.
Proof.
  unfold calcsize.
  induction a as [|i a IH]; cbn [app fold_right]; [lia | rewrite IH; lia].
Qed.

Lemma calcsize_repeat (cs : list (nat * kind)) (n : nat) :
  calcsize (List.concat (repeat cs n)) = Z.of_nat n * calcsize cs.
Proof.
  induction n as [|n IH]; [reflexivity|].
  cbn [repeat List.concat]. rewrite calcsize_app, IH. lia.
Qed.

Lemma calcsize_nonneg (cs : list (nat * kind)) : 0 <= calcsize cs.
Proof.
  unfold calcsize. induction cs as [|i cs IH]; cbn [fold_right]; lia.
Qed.

Lemma bytes_to_Z_range (e : endian) (bs : list byte) :
  0 <= bytes_to_Z e bs < 256 ^ Z.of_nat (List.length bs).
Proof.
  destruct e; cbn.
  - apply le_to_Z_range.
  - rewrite <- (length_rev bs). apply le_to_Z_range.
Qed.

(** Quieting keeps the pattern within its bytes, and a quiet pattern is
    left as it is. *)
Lemma signalling_quiet (u : Z) :
  signalling u = true -> signalling (u + 2 ^ 22) = false.
Proof.
  unfold signalling. intros S.
  apply andb_true_iff in S. destruct S as [S _]. apply Z.eqb_eq in S.
  replace ((u + 2 ^ 22) / 2 ^ 22) with (u / 2 ^ 22 + 1)
    by (rewrite <- (Z.mul_1_l (2 ^ 22)) at 2; rewrite Z.div_add; lia).
  change (2 ^ 22) with 4194304 in *. change (2 ^ 9) with 512 in *.
  pose proof (Z.div_mod (u / 4194304) 512).
  pose proof (Z.mod_pos_bound (u / 4194304) 512).
  replace ((u / 4194304 + 1) mod 512) with 511; [reflexivity|].
  apply Z.mod_unique with (q := u / 4194304 / 512); lia.
Qed.

Lemma signalling_bounds (u : Z) :
  signalling u = true -> 0 <= u < 2 ^ 32 -> u + 2 ^ 22 < 2 ^ 32.
Proof.
  unfold signalling. intros S R.
  apply andb_true_iff in S. destruct S as [S _]. apply Z.eqb_eq in S.
  change (2 ^ 22) with 4194304 in *. change (2 ^ 9) with 512 in *.
  change (2 ^ 32) with 4294967296 in *.
  pose proof (Z.div_mod u 4194304). pose proof (Z.mod_pos_bound u 4194304).
  pose proof (Z.div_mod (u / 4194304) 512).
  pose proof (Z.mod_pos_bound (u / 4194304) 512).
  lia.
Qed.

Lemma quieted_range (n : nat) (u : Z) :
  0 <= u < 256 ^ Z.of_nat n -> 0 <= quieted n u < 256 ^ Z.of_nat n.
Proof.
  intros R. unfold quieted.
  destruct (Nat.eqb n 4) eqn:N; cbn [andb]; [|exact R].
  destruct (signalling u) eqn:S; [|exact R].
  apply Nat.eqb_eq in N. subst n.
  change (256 ^ Z.of_nat 4) with (2 ^ 32) in *.
  pose proof (signalling_bounds u S R). lia.
Qed.

Lemma quieted_idem (n : nat) (u : Z) :
  quieted n (quieted n u) = quieted n u.
Proof.
  unfold quieted.
  destruct (Nat.eqb n 4) eqn:N; cbn [andb]; [|reflexivity].
  destruct (signalling u) eqn:S; [|now rewrite S].
  now rewrite (signalling_quiet u S).
Qed.

(** Packing little-endian what was unpacked in either order succeeds, and
    unpacks little-endian to the same value. *)
Lemma encode_decode (e : endian) (i : nat * kind) (bs : list byte) :
  (1 <= fst i)%nat -> List.length bs = fst i ->
  exists out, encode Little i (decode e i bs) = Some out
              /\ List.length out = fst i
              /\ decode Little i out = decode e i bs.
Proof.
  destruct i as [n k]. cbn [fst]. intros Hn Hl.
  pose proof (bytes_to_Z_range e bs) as R. rewrite Hl in R.
  set (u := bytes_to_Z e bs) in *.
  assert (P : 2 ^ (8 * Z.of_nat n) = 256 ^ Z.of_nat n) by apply pow256.
  assert (Q : 2 ^ (8 * Z.of_nat n) = 2 * 2 ^ (8 * Z.of_nat n - 1)).
  { rewrite <- Z.pow_succ_r by lia. f_equal. lia. }
  unfold decode, encode. cbn [fst snd]. fold u.
  destruct k.
  - exists (Z_to_le n u). rewrite P.
    replace ((0 <=? u) && (u <? 256 ^ Z.of_nat n)) with true
      by (symmetry; apply andb_true_iff; split; [apply Z.leb_le|apply Z.ltb_lt]; lia).
    cbn [Z_to_bytes bytes_to_Z]. rewrite Z_to_le_length, le_to_Z_to_le by lia.
    auto.
  - exists (Z_to_le n u). cbn [Z_to_bytes bytes_to_Z].
    rewrite Z_to_le_length, le_to_Z_to_le by lia.
    destruct (u <? 2 ^ (8 * Z.of_nat n - 1)) eqn:E.
    + apply Z.ltb_lt in E.
      replace ((- 2 ^ (8 * Z.of_nat n - 1) <=? u) && (u <? 2 ^ (8 * Z.of_nat n - 1)))
        with true
        by (symmetry; apply andb_true_iff; split; [apply Z.leb_le|apply Z.ltb_lt]; lia).
      rewrite Z.mod_small by lia. auto.
    + apply Z.ltb_ge in E.
      replace ((- 2 ^ (8 * Z.of_nat n - 1) <=? u - 2 ^ (8 * Z.of_nat n))
               && (u - 2 ^ (8 * Z.of_nat n) <? 2 ^ (8 * Z.of_nat n - 1)))
        with true
        by (symmetry; apply andb_true_iff; split; [apply Z.leb_le|apply Z.ltb_lt]; lia).
      replace ((u - 2 ^ (8 * Z.of_nat n)) mod 2 ^ (8 * Z.of_nat n)) with u
        by (apply Z.mod_unique with (q := -1); lia).
      auto.
  - exists (Z_to_le n (quieted n u)).
    pose proof (quieted_range n u ltac:(lia)) as Rq.
    rewrite Nat.eqb_refl, quieted_idem.
    cbn [Z_to_bytes bytes_to_Z]. rewrite Z_to_le_length, le_to_Z_to_le by lia.
    rewrite quieted_idem. auto.
Qed.

Lemma encode_decode_all (e : endian) (cs : list (nat * kind)) :
  Forall (fun i => (1 <= fst i)%nat) cs ->
  forall bs, len bs = calcsize cs ->
  exists out, encode_all Little cs (decode_all e cs bs) = Some out
              /\ len out = calcsize cs
              /\ decode_all Little cs out = decode_all e cs bs.
Proof.
  unfold len. induction 1 as [|i cs Hi Hcs IH]; intros bs Hl.
  - exists []. cbn. auto.
  - cbn [calcsize fold_right] in Hl. fold (calcsize cs) in Hl.
    pose proof (calcsize_nonneg cs) as Hc.
    destruct (encode_decode e i (firstn (fst i) bs) Hi) as (b & Eb & Lb & Db).
    { rewrite length_firstn. lia. }
    destruct (IH (skipn (fst i) bs)) as (br & Er & Lr & Dr).
    { rewrite length_skipn. lia. }
    exists (b ++ br). cbn [decode_all encode_all]. rewrite Eb, Er.
    split; [reflexivity|]. split.
    + rewrite length_app. cbn [calcsize fold_right]. fold (calcsize cs). lia.
    + rewrite <- Lb at 1. rewrite firstn_app, firstn_all, Nat.sub_diag.
      cbn [firstn]. rewrite app_nil_r, Db. f_equal.
      rewrite <- Lb at 1. rewrite skipn_app, skipn_all, Nat.sub_diag.
      cbn [skipn app]. exact Dr.
Qed.

Lemma code_info_pos (c : ascii) (i : nat * kind) :
  code_info c = Some i -> (1 <= fst i)%nat.
Proof.
  unfold code_info.
  repeat match goal with
         | |- context [if ?b then _ else _] => destruct b
         end; intros H; inversion H; cbn; lia.
Qed.

Lemma codes_pos (fmt : string) (cs : list (nat * kind)) :
  codes fmt = Some cs -> Forall (fun i => (1 <= fst i)%nat) cs.
Proof.
  revert cs. induction fmt as [|c fmt IH]; cbn [codes]; intros cs H.
  - inversion H. constructor.
  - destruct (code_info c) as [i|] eqn:E; [|discriminate].
    destruct (codes fmt) as [r|]; [|discriminate].
    inversion H. constructor; [now apply code_info_pos with c | now apply IH].
Qed.

Lemma unpack_bytes (e : endian) (items : string) (cs : list (nat * kind))
    (bs : list byte) :
  codes items = Some cs ->
  unpack (endian_char e ++ items) (Bytes bs) =
  if len bs =? calcsize cs then ret (decode_all e cs bs)
  else raise StructError.
Proof.
  intros H. unfold unpack. now rewrite split_order_endian, H.
Qed.

Lemma pack_little (items : string) (cs : list (nat * kind))
    (vs : list value) (out : list byte) :
  codes items = Some cs -> encode_all Little cs vs = Some out ->
  pack ("<" ++ items) vs = ret out.
Proof.
  intros H E. unfold pack.
  change ("<" ++ items)%string with (endian_char Little ++ items)%string.
  now rewrite split_order_endian, H, E.
Qed.

Lemma unpack_exn (fmt : string) (buf : buffer_arg) (e : exn) :
  unpack fmt buf = inl e -> e = TypeError \/ e = StructError.
Proof.
  unfold unpack. destruct buf as [bs|z]; cbn.
  - destruct (split_order fmt) as [o items].
    destruct (codes items) as [cs|]; cbn.
    + destruct (len bs =? calcsize cs); cbn; intros H; inversion H; auto.
    + intros H; inversion H; auto.
  - intros H; inversion H; auto.
Qed.

Lemma pack_exn (fmt : string) (vs : list value) (e : exn) :
  pack fmt vs = inl e -> e = StructError.
Proof.
  unfold pack. destruct (split_order fmt) as [o items].
  destruct (codes items) as [cs|]; cbn.
  - destruct (encode_all o cs vs); cbn; intros H; now inversion H.
  - intros H; now inversion H.
Qed.

(** ** Slices and [BytesIO] *)

Lemma len_nonneg {A} (l : list A) : 0 <= len l.
Proof. unfold len. lia. Qed.

Lemma len_app {A} (l1 l2 : list A) : len (l1 ++ l2) = len l1 + len l2.
Proof. unfold len. rewrite length_app. lia. Qed.

Lemma slice_nth {A} (a b : Z) (l : list A) (k : nat) :
  nth_error (slice a b l) k =
  if (k <? Z.to_nat (b - a))%nat then nth_error l (Z.to_nat a + k) else None.
Proof.
  unfold slice. rewrite nth_error_firstn.
  destruct (k <? Z.to_nat (b - a))%nat; [|reflexivity].
  apply nth_error_skipn.
Qed.

Lemma len_slice {A} (a b : Z) (l : list A) :
  0 <= a -> len (slice a b l) = Z.max 0 (Z.min (b - a) (len l - a)).
Proof.
  intros Ha. unfold len, slice. rewrite length_firstn, length_skipn. lia.
Qed.

Lemma slice_full {A} (a b : Z) (l : list A) :
  0 <= a <= b -> b <= len l -> len (slice a b l) = b - a.
Proof.
  intros H1 H2. rewrite len_slice by lia. lia.
Qed.

(** Two lists with the same elements at the places of a slice have the
    same slice. *)
Lemma slice_ext {A} (a b : Z) (l1 l2 : list A) :
  (forall k, (Z.to_nat a <= k < Z.to_nat a + Z.to_nat (b - a))%nat ->
             nth_error l1 k = nth_error l2 k) ->
  slice a b l1 = slice a b l2.
Proof.
  intros H. apply nth_error_ext. intros k. rewrite !slice_nth.
  destruct (Nat.ltb_spec k (Z.to_nat (b - a))); [|reflexivity].
  apply H. lia.
Qed.

Lemma slice_slice {A} (a b c d : Z) (l : list A) :
  0 <= a -> 0 <= c -> c <= d -> d <= b - a ->
  slice c d (slice a b l) = slice (a + c) (a + d) l.
Proof.
  intros Ha Hc Hcd Hd. apply nth_error_ext. intros k. rewrite !slice_nth.
  replace (a + d - (a + c)) with (d - c) by lia.
  destruct (Nat.ltb_spec k (Z.to_nat (d - c))); [|reflexivity].
  destruct (Nat.ltb_spec (Z.to_nat c + k) (Z.to_nat (b - a))); [|lia].
  f_equal. lia.
Qed.

Lemma slice_app_split {A} (a b c : Z) (l : list A) :
  0 <= a <= b -> b <= c ->
  slice a c l = slice a b l ++ slice b c l.
Proof.
  intros H1 H2. unfold slice.
  replace (Z.to_nat (c - a)) with (Z.to_nat (b - a) + Z.to_nat (c - b))%nat
    by lia.
  replace (Z.to_nat b) with (Z.to_nat (b - a) + Z.to_nat a)%nat by lia.
  rewrite <- skipn_skipn.
  generalize (skipn (Z.to_nat a) l). intros m.
  generalize (Z.to_nat (b - a)). intros n. revert m.
  induction n as [|n IH]; intros m; [reflexivity|].
  destruct m as [|x m]; cbn [Nat.add firstn skipn app].
  - now rewrite firstn_nil.
  - now rewrite IH.
Qed.

Lemma b_write_nth (d buf : list byte) (p : Z) (k : nat) :
  d <> [] ->
  nth_error (b_buf (b_write d (mkBytesIO buf p))) k =
  if (k <? Z.to_nat p)%nat
  then (if (k <? List.length buf)%nat then nth_error buf k else Some x00)
  else if (k <? Z.to_nat p + List.length d)%nat
       then nth_error d (k - Z.to_nat p)
       else nth_error buf k.
Proof.
  intros Hd. unfold b_write. destruct d as [|x d]; [congruence|].
  cbn [b_buf b_pos]. set (dd := x :: d). set (P := Z.to_nat p).
  set (padded := buf ++ repeat x00 (P - List.length buf)).
  assert (Lp : List.length padded = Nat.max (List.length buf) P).
  { unfold padded. rewrite length_app, repeat_length. lia. }
  assert (Np : forall i, nth_error padded i =
                         if (i <? List.length buf)%nat then nth_error buf i
                         else if (i <? P)%nat then Some x00 else None).
  { intros i. unfold padded. rewrite nth_error_app.
    destruct (Nat.ltb_spec i (List.length buf)); [reflexivity|].
    destruct (Nat.ltb_spec i P).
    - apply nth_error_repeat. lia.
    - apply nth_error_None. rewrite repeat_length. lia. }
  rewrite nth_error_app, length_firstn, Lp.
  replace (Nat.min P (Nat.max (List.length buf) P)) with P by lia.
  destruct (Nat.ltb_spec k P) as [H|H].
  - rewrite nth_error_firstn. destruct (Nat.ltb_spec k P); [|lia].
    rewrite Np. destruct (Nat.ltb_spec k (List.length buf)); [reflexivity|].
    destruct (Nat.ltb_spec k P); [reflexivity|lia].
  - rewrite nth_error_app.
    destruct (Nat.ltb_spec (k - P) (List.length dd)) as [H1|H1];
      destruct (Nat.ltb_spec k (P + List.length dd)) as [H2|H2]; try lia.
    + reflexivity.
    + rewrite nth_error_skipn, Np.
      replace (P + List.length dd + (k - P - List.length dd))%nat with k by lia.
      destruct (Nat.ltb_spec k (List.length buf)) as [H3|H3]; [reflexivity|].
      destruct (Nat.ltb_spec k P); [lia|].
      symmetry. now apply nth_error_None.
Qed.

Lemma b_write_len (d buf : list byte) (p : Z) :
  d <> [] -> 0 <= p ->
  len (b_buf (b_write d (mkBytesIO buf p))) = Z.max (len buf) (p + len d).
Proof.
  intros Hd Hp. unfold b_write, len. destruct d as [|x d]; [congruence|].
  cbn [b_buf b_pos]. set (dd := x :: d).
  rewrite !length_app, length_firstn, length_skipn, length_app, repeat_length.
  lia.
Qed.

Lemma b_write_pos (d : list byte) (b : bytesio) :
  b_pos (b_write d b) = b_pos b + len d.
Proof.
  unfold b_write. destruct d; cbn [b_pos]; [cbn; lia | reflexivity].
Qed.

(** What a write leaves as it was: the slices before the position, and
    those after the end of the data. *)
Lemma b_write_frame (d buf : list byte) (p a b : Z) :
  0 <= a -> 0 <= p -> (b <= p /\ b <= len buf) \/ p + len d <= a ->
  slice a b (b_buf (b_write d (mkBytesIO buf p))) = slice a b buf.
Proof.
  intros Ha Hp H. destruct d as [|x d]; [reflexivity|].
  apply slice_ext. intros k Hk. rewrite b_write_nth by discriminate.
  unfold len in H. cbn [List.length] in *.
  destruct H as [[H1 H2]|H].
  - destruct (Nat.ltb_spec k (Z.to_nat p)); [|lia].
    destruct (Nat.ltb_spec k (List.length buf)); [reflexivity|lia].
  - destruct (Nat.ltb_spec k (Z.to_nat p)); [lia|].
    destruct (Nat.ltb_spec k (Z.to_nat p + S (List.length d))); [lia|].
    reflexivity.
Qed.

(** What a write puts into the buffer. *)
Lemma b_write_at (d buf : list byte) (p : Z) :
  d <> [] -> 0 <= p ->
  slice p (p + len d) (b_buf (b_write d (mkBytesIO buf p))) = d.
Proof.
  intros Hd Hp. apply nth_error_ext. intros k.
  rewrite slice_nth, b_write_nth by assumption.
  replace (p + len d - p) with (len d) by lia. unfold len.
  rewrite Nat2Z.id.
  destruct (Nat.ltb_spec k (List.length d)) as [H|H].
  - destruct (Nat.ltb_spec (Z.to_nat p + k) (Z.to_nat p)); [lia|].
    destruct (Nat.ltb_spec (Z.to_nat p + k) (Z.to_nat p + List.length d));
      [|lia].
    f_equal. lia.
  - symmetry. now apply nth_error_None.
Qed.

(** ** The table of types *)

Import Meta.

Lemma tag_dtype_codes (code : Z) (d : dtype_info) :
  tag_dtype code = Some d ->
  exists cs, codes (format d) = Some cs /\ calcsize cs = nbytes d
             /\ 1 <= nbytes d.
Proof.
  unfold tag_dtype. intros H.
  destruct code as [|p|p]; try discriminate.
  repeat (destruct p as [p|p|]; try discriminate);
    inversion H; subst d; cbn [format nbytes];
    eexists; (split; [reflexivity|]); cbn; lia.
Qed.

Lemma tag_dtype_repeat (code : Z) (d : dtype_info) (nvalues : Z) :
  tag_dtype code = Some d -> 0 <= nvalues ->
  exists cs, codes (string_repeat (format d) nvalues) = Some cs
             /\ calcsize cs = nbytes d * nvalues
             /\ Forall (fun i => (1 <= fst i)%nat) cs.
Proof.
  intros H Hn. destruct (tag_dtype_codes code d H) as (cs1 & C1 & S1 & _).
  exists (List.concat (repeat cs1 (Z.to_nat nvalues))).
  unfold string_repeat. pose proof (codes_repeat _ _ (Z.to_nat nvalues) C1) as C.
  split; [exact C|]. split.
  - rewrite calcsize_repeat, S1, Z2Nat.id by lia. lia.
  - now apply codes_pos with (fmt := string_repeat_nat (format d) (Z.to_nat nvalues)).
Qed.

(** The types whose single value is packed as ['H']: the unsigned short. *)
Lemma tag_dtype_H (code : Z) (d : dtype_info) :
  tag_dtype code = Some d -> format d = "H"%string -> code = 3.
Proof.
  unfold tag_dtype. intros H.
  destruct code as [|p|p]; try discriminate.
  repeat (destruct p as [p|p|]; try discriminate);
    inversion H; subst d; cbn [format]; intros F;
    try discriminate; reflexivity.
Qed.

(** ** One entry of the directory *)

Lemma encode_unsigned (n : nat) (v : Z) :
  0 <= v < 256 ^ Z.of_nat n ->
  encode Little (n, KUnsigned) (VInt v) = Some (Z_to_le n v).
Proof.
  intros H. unfold encode. cbn [fst snd Z_to_bytes]. rewrite pow256.
  replace ((0 <=? v) && (v <? 256 ^ Z.of_nat n)) with true; [reflexivity|].
  symmetry. apply andb_true_iff. split; [apply Z.leb_le|apply Z.ltb_lt]; lia.
Qed.

(** The 12 bytes of an entry, as a list of 12 elements. *)
Lemma list_of_len_12 {A} (l : list A) :
  len l = 12 ->
  exists a0 a1 a2 a3 a4 a5 a6 a7 a8 a9 a10 a11,
    l = [a0; a1; a2; a3; a4; a5; a6; a7; a8; a9; a10; a11].
Proof.
  unfold len. intros H.
  do 12 (destruct l as [|? l]; [cbn in H; lia|]).
  destruct l; [|cbn in H; lia].
  repeat eexists.
Qed.

Lemma unpack_HHI (e : endian) (rec : list byte) :
  len rec = 12 ->
  unpack (endian_char e ++ "HHI") (Bytes (slice 0 8 rec)) =
  ret [VInt (bytes_to_Z e (slice 0 2 rec));
       VInt (bytes_to_Z e (slice 2 4 rec));
       VInt (bytes_to_Z e (slice 4 8 rec))].
Proof.
  intros H. destruct (list_of_len_12 rec H)
    as (a0 & a1 & a2 & a3 & a4 & a5 & a6 & a7 & a8 & a9 & a10 & a11 & ->).
  rewrite unpack_bytes with (cs := [(2%nat, KUnsigned); (2%nat, KUnsigned);
                                    (4%nat, KUnsigned)]) by reflexivity.
  reflexivity.
Qed.

Lemma unpack_I (e : endian) (rec : list byte) :
  len rec = 12 ->
  unpack (endian_char e ++ "I") (Bytes (slice_from 8 rec)) =
  ret [VInt (bytes_to_Z e (slice 8 12 rec))].
Proof.
  intros H. destruct (list_of_len_12 rec H)
    as (a0 & a1 & a2 & a3 & a4 & a5 & a6 & a7 & a8 & a9 & a10 & a11 & ->).
  rewrite unpack_bytes with (cs := [(4%nat, KUnsigned)]) by reflexivity.
  reflexivity.
Qed.

Lemma pack_HHII (tag dtype nvalues offset : Z) :
  0 <= tag < 2 ^ 16 -> 0 <= dtype < 2 ^ 16 -> 0 <= nvalues < 2 ^ 32 ->
  0 <= offset < 2 ^ 32 ->
  pack "<HHII" [VInt tag; VInt dtype; VInt nvalues; VInt offset] =
  ret (Z_to_le 2 tag ++ Z_to_le 2 dtype ++ Z_to_le 4 nvalues
         ++ Z_to_le 4 offset).
Proof.
  intros H1 H2 H3 H4.
  apply pack_little with (cs := [(2%nat, KUnsigned); (2%nat, KUnsigned);
                                 (4%nat, KUnsigned); (4%nat, KUnsigned)]);
    [reflexivity|].
  cbn [encode_all].
  rewrite !encode_unsigned by (cbn; lia). now rewrite app_nil_r.
Qed.

Lemma pack_HHI (tag dtype nvalues : Z) :
  0 <= tag < 2 ^ 16 -> 0 <= dtype < 2 ^ 16 -> 0 <= nvalues < 2 ^ 32 ->
  pack "<HHI" [VInt tag; VInt dtype; VInt nvalues] =
  ret (Z_to_le 2 tag ++ Z_to_le 2 dtype ++ Z_to_le 4 nvalues).
Proof.
  intros H1 H2 H3.
  apply pack_little with (cs := [(2%nat, KUnsigned); (2%nat, KUnsigned);
                                 (4%nat, KUnsigned)]);
    [reflexivity|].
  cbn [encode_all].
  rewrite !encode_unsigned by (cbn; lia). now rewrite app_nil_r.
Qed.

Import Reader.

(** What [struct] unpacks is what the reader finds, with the signalling
    NaNs of single floats quiet. *)
Lemma decode_value_of (e : endian) (i : nat * kind) (bs : list byte) :
  decode e i bs = unpacked (value_of e i bs).
Proof.
  destruct i as [n k]. unfold decode, value_of. cbn [fst snd].
  destruct k; reflexivity.
Qed.

Lemma decode_all_values (e : endian) (cs : list (nat * kind))
    (bs : list byte) :
  decode_all e cs bs = map unpacked (values e cs bs).
Proof.
  revert bs. induction cs as [|i cs IH]; intros bs; [reflexivity|].
  cbn [decode_all values map]. now rewrite decode_value_of, IH.
Qed.

(** Packing does not tell a signalling NaN from the quiet one. *)
Lemma encode_unpacked (o : endian) (i : nat * kind) (v : value) :
  encode o i (unpacked v) = encode o i v.
Proof.
  destruct i as [n k], v as [z|m bits]; [reflexivity|].
  unfold encode. cbn [fst snd unpacked]. destruct k; try reflexivity.
  destruct (Nat.eqb m n) eqn:N; [|reflexivity].
  apply Nat.eqb_eq in N. subst m. now rewrite quieted_idem.
Qed.

Lemma encode_all_unpacked (o : endian) (cs : list (nat * kind))
    (vs : list value) :
  encode_all o cs (map unpacked vs) = encode_all o cs vs.
Proof.
  revert cs. induction vs as [|v vs IH]; intros cs.
  - destruct cs; reflexivity.
  - destruct cs as [|i cs]; [reflexivity|]. cbn [map encode_all].
    now rewrite encode_unpacked, IH.
Qed.

(** What the reader finds in the bytes that [struct] packed little-endian
    is what [struct] had unpacked. *)
Lemma value_of_packed (e : endian) (i : nat * kind) (bs out : list byte) :
  (1 <= fst i)%nat -> List.length bs = fst i ->
  encode Little i (decode e i bs) = Some out ->
  value_of Little i out = decode e i bs.
Proof.
  intros Hn Hl E.
  destruct (encode_decode e i bs Hn Hl) as (out' & E' & L' & D').
  rewrite E in E'. inversion E'; subst out'. clear E'.
  destruct i as [n k]. cbn [fst] in *.
  destruct k; try exact D'.
  unfold value_of, decode in *. cbn [fst snd] in *.
  pose proof (bytes_to_Z_range e bs) as R. rewrite Hl in R.
  pose proof (quieted_range n _ R) as Rq.
  unfold encode in E. cbn [fst snd] in E. rewrite Nat.eqb_refl in E.
  rewrite quieted_idem in E.
  inversion E; subst out. cbn [Z_to_bytes bytes_to_Z].
  now rewrite le_to_Z_to_le by exact Rq.
Qed.

Lemma values_of_packed (e : endian) (cs : list (nat * kind)) :
  Forall (fun i => (1 <= fst i)%nat) cs ->
  forall bs out, len bs = calcsize cs ->
    encode_all Little cs (decode_all e cs bs) = Some out ->
    values Little cs out = decode_all e cs bs.
Proof.
  unfold len. induction 1 as [|i cs Hi Hcs IH]; intros bs out Hl E.
  - reflexivity.
  - cbn [calcsize fold_right] in Hl. fold (calcsize cs) in Hl.
    pose proof (calcsize_nonneg cs) as Hc.
    cbn [decode_all encode_all] in E.
    destruct (encode Little i (decode e i (firstn (fst i) bs)))
      as [b|] eqn:Eb; [|discriminate].
    destruct (encode_all Little cs (decode_all e cs (skipn (fst i) bs)))
      as [br|] eqn:Er; [|discriminate].
    inversion E; subst out; clear E.
    assert (Lf : List.length (firstn (fst i) bs) = fst i)
      by (rewrite length_firstn; lia).
    destruct (encode_decode e i (firstn (fst i) bs) Hi Lf)
      as (b' & Eb' & Lb & _).
    rewrite Eb in Eb'. inversion Eb'; subst b'. clear Eb'.
    cbn [values decode_all].
    rewrite <- Lb at 1. rewrite firstn_app, firstn_all, Nat.sub_diag.
    cbn [firstn]. rewrite app_nil_r.
    rewrite (value_of_packed e i _ b Hi Lf Eb). f_equal.
    rewrite <- Lb at 1. rewrite skipn_app, skipn_all, Nat.sub_diag.
    cbn [skipn app]. apply IH; [|exact Er].
    rewrite length_skipn. lia.
Qed.

(** The tuple with its values as [struct] hands them on is the tuple
    itself when none is a signalling NaN. *)
Lemma unpacked_id (ent : entry) :
  no_signalling ent -> as_unpacked ent = ent.
Proof.
  destruct ent as [tag type count vs]. unfold no_signalling, as_unpacked.
  cbn [e_tag e_type e_count e_values]. intros H. f_equal.
  induction vs as [|v vs IH]; [reflexivity|]. cbn [map]. f_equal.
  - destruct v as [z|n bits]; [reflexivity|]. cbn [unpacked]. f_equal.
    unfold quieted. destruct (Nat.eqb n 4) eqn:N; [|reflexivity].
    apply Nat.eqb_eq in N. subst n.
    now rewrite (H bits (or_introl eq_refl)).
  - apply IH. intros bits Hin. apply H. now right.
Qed.

Lemma payload_length_unpacked (ent : entry) :
  payload_length (as_unpacked ent) = payload_length ent.
Proof. reflexivity. Qed.

Lemma relocated_size_unpacked (ents : list entry) :
  relocated_size (map as_unpacked ents) = relocated_size ents.
Proof.
  induction ents as [|ent ents IH]; [reflexivity|].
  cbn [map]. unfold relocated_size in *. cbn [fold_right]. now rewrite IH.
Qed.

Lemma supported_unpacked (ents : list entry) :
  Forall supported ents -> Forall supported (map as_unpacked ents).
Proof.
  induction 1 as [|ent ents S _ IH]; [constructor|].
  cbn [map]. constructor; [exact S|exact IH].
Qed.

Lemma rec_ranges (e : endian) (rec : list byte) :
  len rec = 12 ->
  0 <= rec_tag e rec < 2 ^ 16 /\ 0 <= rec_type e rec < 2 ^ 16
  /\ 0 <= rec_count e rec < 2 ^ 32 /\ 0 <= rec_field e rec < 2 ^ 32.
Proof.
  intros H. unfold rec_tag, rec_type, rec_count, rec_field.
  pose proof (bytes_to_Z_range e (slice 0 2 rec)) as R1.
  pose proof (bytes_to_Z_range e (slice 2 4 rec)) as R2.
  pose proof (bytes_to_Z_range e (slice 4 8 rec)) as R3.
  pose proof (bytes_to_Z_range e (slice 8 12 rec)) as R4.
  assert (L1 : len (slice 0 2 rec) = 2) by (apply slice_full; lia).
  assert (L2 : len (slice 2 4 rec) = 2) by (apply slice_full; lia).
  assert (L3 : len (slice 4 8 rec) = 4) by (apply slice_full; lia).
  assert (L4 : len (slice 8 12 rec) = 4) by (apply slice_full; lia).
  unfold len in L1, L2, L3, L4.
  rewrite L1 in R1. rewrite L2 in R2. rewrite L3 in R3. rewrite L4 in R4.
  change (256 ^ 2) with (2 ^ 16) in *. change (256 ^ 4) with (2 ^ 32) in *.
  lia.
Qed.

Lemma unpack_HHI_rec (e : endian) (rec : list byte) :
  len rec = 12 ->
  unpack (endian_char e ++ "HHI") (Bytes (slice 0 8 rec)) =
  ret [VInt (rec_tag e rec); VInt (rec_type e rec); VInt (rec_count e rec)].
Proof. apply unpack_HHI. Qed.

(** An entry whose values do not fit into 4 bytes: they are read at the
    offset, the entry is written with the offset [after_ifd_position], and
    the values are written there. *)
Lemma process_tag_outofline (e : endian) (buffer : list byte) (start idx : Z)
    (st : tags_state) (rec : list byte) (d : dtype_info)
    (cs : list (nat * kind)) :
  slice (idx * 12) ((idx + 1) * 12) buffer = rec -> len rec = 12 ->
  tag_dtype (rec_type e rec) = Some d ->
  codes (string_repeat (format d) (rec_count e rec)) = Some cs ->
  calcsize cs = nbytes d * rec_count e rec ->
  Forall (fun i => (1 <= fst i)%nat) cs ->
  4 < nbytes d * rec_count e rec ->
  let n := nbytes d * rec_count e rec in
  let payload :=
    slice (rec_field e rec) (rec_field e rec + n) (f_data (ts_tfp st)) in
  len payload = n ->
  0 <= ts_after st < 2 ^ 32 ->
  exists out,
    encode_all Little cs (decode_all e cs payload) = Some out
    /\ len out = n
    /\ decode_all Little cs out = decode_all e cs payload
    /\ process_tag e buffer start st idx =
       inr (mkTags
              (mkBytesIO
                 (b_buf
                    (b_write out
                       (mkBytesIO
                          (b_buf
                             (b_write
                                (Z_to_le 2 (rec_tag e rec)
                                   ++ Z_to_le 2 (rec_type e rec)
                                   ++ Z_to_le 4 (rec_count e rec)
                                   ++ Z_to_le 4 (ts_after st))
                                (mkBytesIO (b_buf (ts_b st))
                                   (start + idx * 12))))
                          (ts_after st))))
                 (start + idx * 12 + 12))
              (mkFile (f_data (ts_tfp st)) (f_pos (ts_tfp st)))
              (ts_after st + n)).
Proof.
  intros Hrec Hlen Hd Hcs Hsz Hpos Hn n payload Hp Ha.
  destruct (encode_decode_all e cs Hpos payload) as (out & E & L & D).
  { rewrite Hp, Hsz. reflexivity. }
  exists out. split; [exact E|]. split; [rewrite L, Hsz; reflexivity|].
  split; [exact D|].
  destruct (rec_ranges e rec Hlen) as (R1 & R2 & R3 & R4).
  unfold process_tag. rewrite Hrec, (unpack_HHI_rec e rec Hlen).
  cbn [bind ret]. unfold tag_dtype_get. rewrite Hd. cbn [bind ret].
  fold n. replace (n >? 4) with true by (symmetry; apply Z.gtb_lt; exact Hn).
  rewrite (unpack_I e rec Hlen). cbn [bind ret].
  fold (rec_field e rec).
  unfold f_tell, f_seek, f_read. cbn [f_pos f_data]. fold payload.
  rewrite unpack_bytes with (cs := cs) by exact Hcs.
  replace (len payload =? calcsize cs) with true
    by (symmetry; apply Z.eqb_eq; rewrite Hp, Hsz; reflexivity).
  cbn [bind ret].
  rewrite pack_HHII by lia. cbn [bind ret].
  rewrite (pack_little _ cs _ out Hcs E). cbn [bind ret].
  unfold b_tell, b_seek. rewrite !b_write_pos. cbn [b_pos b_buf].
  assert (Lh : len (Z_to_le 2 (rec_tag e rec) ++ Z_to_le 2 (rec_type e rec)
                      ++ Z_to_le 4 (rec_count e rec)
                      ++ Z_to_le 4 (ts_after st)) = 12).
  { rewrite !len_app. unfold len. rewrite !Z_to_le_length. lia. }
  rewrite Lh, L, Hsz. reflexivity.
Qed.

(** An entry whose values fill the 4 bytes of the field: they are written
    back into the field, little-endian. *)
Lemma process_tag_inline4 (e : endian) (buffer : list byte) (start idx : Z)
    (st : tags_state) (rec : list byte) (d : dtype_info)
    (cs : list (nat * kind)) :
  slice (idx * 12) ((idx + 1) * 12) buffer = rec -> len rec = 12 ->
  tag_dtype (rec_type e rec) = Some d ->
  codes (string_repeat (format d) (rec_count e rec)) = Some cs ->
  calcsize cs = nbytes d * rec_count e rec ->
  Forall (fun i => (1 <= fst i)%nat) cs ->
  nbytes d * rec_count e rec = 4 ->
  let payload := slice 8 12 rec in
  exists out,
    encode_all Little cs (decode_all e cs payload) = Some out
    /\ len out = 4
    /\ decode_all Little cs out = decode_all e cs payload
    /\ process_tag e buffer start st idx =
       inr (mkTags
              (b_write out
                 (b_write
                    (Z_to_le 2 (rec_tag e rec) ++ Z_to_le 2 (rec_type e rec)
                       ++ Z_to_le 4 (rec_count e rec))
                    (mkBytesIO (b_buf (ts_b st)) (start + idx * 12))))
              (ts_tfp st) (ts_after st)).
Proof.
  intros Hrec Hlen Hd Hcs Hsz Hpos Hn payload.
  assert (Lp : len payload = 4) by (apply slice_full; lia).
  destruct (encode_decode_all e cs Hpos payload) as (out & E & L & D).
  { rewrite Lp, Hsz, Hn. reflexivity. }
  rewrite Hsz, Hn in L.
  exists out. split; [exact E|]. split; [exact L|]. split; [exact D|].
  destruct (rec_ranges e rec Hlen) as (R1 & R2 & R3 & R4).
  unfold process_tag. rewrite Hrec, (unpack_HHI_rec e rec Hlen).
  cbn [bind ret]. unfold tag_dtype_get. rewrite Hd. cbn [bind ret].
  rewrite Hn. cbn [Z.gtb Z.compare Pos.compare Pos.compare_cont Z.eqb Pos.eqb].
  cbn [bind ret].
  replace (slice_from 8 rec) with payload.
  2:{ destruct (list_of_len_12 rec Hlen)
        as (a0 & a1 & a2 & a3 & a4 & a5 & a6 & a7 & a8 & a9 & a10 & a11 & ->).
      reflexivity. }
  rewrite unpack_bytes with (cs := cs) by exact Hcs.
  replace (len payload =? calcsize cs) with true
    by (symmetry; apply Z.eqb_eq; rewrite Lp, Hsz, Hn; reflexivity).
  cbn [bind ret].
  rewrite pack_HHI by lia. cbn [bind ret].
  replace (String.eqb (string_repeat (format d) (rec_count e rec)) "H"
           || String.eqb (string_repeat (format d) (rec_count e rec)) "B")
    with false.
  2:{ symmetry. apply orb_false_iff. split; apply String.eqb_neq; intros F;
        rewrite F in Hcs; inversion Hcs; subst cs; cbn in Hsz; lia. }
  rewrite (pack_little _ cs _ out Hcs E). cbn [bind ret].
  reflexivity.
Qed.

(** An entry of one unsigned short: the value is written into the field
    as an unsigned 32-bit integer. *)
Lemma process_tag_short (e : endian) (buffer : list byte) (start idx : Z)
    (st : tags_state) (rec : list byte) :
  slice (idx * 12) ((idx + 1) * 12) buffer = rec -> len rec = 12 ->
  rec_type e rec = 3 -> rec_count e rec = 1 ->
  process_tag e buffer start st idx =
  inr (mkTags
         (b_write (Z_to_le 4 (bytes_to_Z e (slice 8 10 rec)))
            (b_write
               (Z_to_le 2 (rec_tag e rec) ++ Z_to_le 2 3 ++ Z_to_le 4 1)
               (mkBytesIO (b_buf (ts_b st)) (start + idx * 12))))
         (ts_tfp st) (ts_after st)).
Proof.
  intros Hrec Hlen Ht Hc.
  destruct (rec_ranges e rec Hlen) as (R1 & R2 & R3 & R4).
  unfold process_tag. rewrite Hrec, (unpack_HHI_rec e rec Hlen), Ht, Hc.
  cbn [bind ret tag_dtype_get tag_dtype nbytes format].
  cbn [Z.mul Pos.mul Z.gtb Z.compare Pos.compare Pos.compare_cont Z.eqb Pos.eqb].
  cbn [bind ret].
  change (string_repeat "H" 1) with "H"%string.
  rewrite unpack_bytes with (cs := [(2%nat, KUnsigned)]) by reflexivity.
  assert (Lp : len (slice 8 10 rec) = 2) by (apply slice_full; lia).
  rewrite Lp. cbn [calcsize fold_right fst Z.of_nat Pos.of_succ_nat Pos.succ
                     Z.add Pos.add Z.eqb Pos.eqb bind ret].
  rewrite pack_HHI by lia. cbn [bind ret String.eqb Ascii.eqb Bool.eqb orb].
  pose proof (bytes_to_Z_range e (slice 8 10 rec)) as Rv.
  unfold len in Lp. replace (List.length (slice 8 10 rec)) with 2%nat in Rv by lia.
  cbn [decode_all decode fst snd].
  replace (firstn 2 (slice 8 10 rec)) with (slice 8 10 rec)
    by (symmetry; apply firstn_all2; lia).
  rewrite (pack_little "I" [(4%nat, KUnsigned)]
             [VInt (bytes_to_Z e (slice 8 10 rec))]
             (Z_to_le 4 (bytes_to_Z e (slice 8 10 rec)))); [|reflexivity|].
  2:{ cbn [encode_all]. rewrite encode_unsigned by (cbn; cbn in Rv; lia).
      now rewrite app_nil_r. }
  cbn [bind ret].
  reflexivity.
Qed.

Lemma b_write_frame_before (d : list byte) (bb : bytesio) (a b : Z) :
  0 <= a -> 0 <= b_pos bb -> b <= b_pos bb -> b <= len (b_buf bb) ->
  slice a b (b_buf (b_write d bb)) = slice a b (b_buf bb).
Proof.
  intros. destruct bb as [buf p]. cbn [b_buf b_pos] in *.
  apply b_write_frame; auto.
Qed.

Lemma b_write_len_ge (d : list byte) (bb : bytesio) :
  0 <= b_pos bb -> len (b_buf bb) <= len (b_buf (b_write d bb)).
Proof.
  intros H. destruct bb as [buf p]. cbn [b_buf b_pos] in *.
  destruct d as [|x d]; [cbn; lia|].
  rewrite b_write_len by (discriminate || assumption). lia.
Qed.

(** What any entry that is transcoded leaves as it was: the source file,
    and the buffer before the place of the entry. *)
Lemma process_tag_frame (e : endian) (buffer : list byte) (start idx : Z)
    (st st' : tags_state) :
  process_tag e buffer start st idx = inr st' ->
  0 <= start -> 0 <= idx -> start + len buffer <= ts_after st ->
  ts_after st <= ts_after st'
  /\ len (b_buf (ts_b st)) <= len (b_buf (ts_b st'))
  /\ f_data (ts_tfp st') = f_data (ts_tfp st)
  /\ same_slices 0 (Z.min (start + idx * 12) (len (b_buf (ts_b st))))
       (b_buf (ts_b st)) (b_buf (ts_b st'))
  /\ idx * 12 + 8 <= len buffer.
Proof.
  intros H Hs Hi Ha. unfold process_tag in H.
  set (tag_data := slice (idx * 12) ((idx + 1) * 12) buffer) in *.
  rewrite unpack_bytes with (cs := [(2%nat, KUnsigned); (2%nat, KUnsigned);
                                    (4%nat, KUnsigned)]) in H by reflexivity.
  destruct (len (slice 0 8 tag_data) =? _) eqn:L8; [|discriminate].
  apply Z.eqb_eq in L8. change (calcsize _) with 8 in L8.
  assert (Lb : idx * 12 + 8 <= len buffer).
  { unfold tag_data in L8. rewrite !len_slice in L8 by lia. lia. }
  cbn [bind ret decode_all decode fst snd] in H.
  destruct (tag_dtype_get _) as [|d] eqn:D; [discriminate|].
  cbn [bind] in H.
  set (b0 := b_seek (start + idx * 12) (ts_b st)) in *.
  assert (P0 : b_pos b0 = start + idx * 12) by reflexivity.
  assert (B0 : b_buf b0 = b_buf (ts_b st)) by reflexivity.
  destruct (_ >? 4) eqn:G.
  - (* the values are at an offset *)
    destruct (unpack _ (Bytes (slice_from 8 tag_data))) as [|vo] eqn:U1;
      [discriminate|].
    cbn [bind] in H.
    destruct vo as [|[offset|] [|]]; try discriminate.
    destruct (f_read _ _) as [payload_buffer tfp1] eqn:R.
    destruct (unpack _ (Bytes payload_buffer)) as [|payload] eqn:U2;
      [discriminate|].
    cbn [bind] in H.
    destruct (pack "<HHII" _) as [|o1] eqn:P1; [discriminate|].
    cbn [bind] in H.
    destruct (pack _ payload) as [|o2] eqn:P2; [discriminate|].
    cbn [bind ret] in H. inversion H; subst st'; clear H.
    cbn [ts_after ts_b ts_tfp f_seek f_data].
    set (b1 := b_write o1 b0).
    unfold b_tell, b_seek. cbn [b_buf b_pos].
    assert (L1 : len (b_buf (ts_b st)) <= len (b_buf b1))
      by (rewrite <- B0; apply b_write_len_ge; lia).
    set (b2 := b_write o2 (mkBytesIO (b_buf b1) (ts_after st))).
    assert (L2 : len (b_buf b1) <= len (b_buf b2))
      by (apply (b_write_len_ge o2 (mkBytesIO (b_buf b1) (ts_after st)));
          cbn [b_pos]; lia).
    split; [|split; [|split; [|split]]].
    + unfold b2. rewrite b_write_pos. cbn [b_pos].
      pose proof (len_nonneg o2). lia.
    + lia.
    + unfold f_read in R. inversion R. reflexivity.
    + intros a b A1 A2.
      assert (A3 : b <= start + idx * 12 /\ b <= len (b_buf (ts_b st)))
        by lia.
      clear A2. destruct A3 as (A2 & A3).
      unfold b2. rewrite b_write_frame by (cbn [b_pos]; lia).
      unfold b1. rewrite b_write_frame_before by (rewrite ?B0; lia).
      now rewrite B0.
    + exact Lb.
  - (* the values are in the field *)
    destruct (if _ =? 1 then _ else _) as [|payload_buffer] eqn:PB;
      [discriminate|].
    cbn [bind] in H.
    destruct (unpack _ payload_buffer) as [|payload] eqn:U2; [discriminate|].
    cbn [bind] in H.
    destruct (pack "<HHI" _) as [|o1] eqn:P1; [discriminate|].
    cbn [bind] in H.
    destruct (pack _ payload) as [|o2] eqn:P2; [discriminate|].
    cbn [bind ret] in H. inversion H; subst st'; clear H.
    cbn [ts_after ts_b ts_tfp].
    set (b1 := b_write o1 b0).
    assert (L1 : len (b_buf (ts_b st)) <= len (b_buf b1))
      by (rewrite <- B0; apply b_write_len_ge; lia).
    assert (Q1 : b_pos b1 = start + idx * 12 + len o1)
      by (unfold b1; rewrite b_write_pos; lia).
    pose proof (len_nonneg o1).
    assert (L2 : len (b_buf b1) <= len (b_buf (b_write o2 b1)))
      by (apply b_write_len_ge; lia).
    split; [|split; [|split; [|split]]].
    + lia.
    + lia.
    + reflexivity.
    + intros a b A1 A2.
      assert (A3 : b <= start + idx * 12 /\ b <= len (b_buf (ts_b st)))
        by lia.
      clear A2. destruct A3 as (A2 & A3).
      rewrite b_write_frame_before by lia.
      unfold b1. rewrite b_write_frame_before by (rewrite ?B0; lia).
      now rewrite B0.
    + exact Lb.
Qed.

(** An entry whose type is not in the table. *)
Lemma process_tag_unknown (e : endian) (buffer : list byte) (start idx : Z)
    (st : tags_state) (rec : list byte) :
  slice (idx * 12) ((idx + 1) * 12) buffer = rec -> len rec = 12 ->
  tag_dtype (rec_type e rec) = None ->
  process_tag e buffer start st idx = inl (KeyError (rec_type e rec)).
Proof.
  intros Hrec Hlen Hd. unfold process_tag.
  rewrite Hrec, (unpack_HHI_rec e rec Hlen).
  cbn [bind ret]. unfold tag_dtype_get. rewrite Hd. reflexivity.
Qed.

(** ** The entries in the buffer *)

Lemma record_fields {A} (a b c d : list A) :
  len a = 2 -> len b = 2 -> len c = 4 -> len d = 4 ->
  slice 0 2 (a ++ b ++ c ++ d) = a /\ slice 2 4 (a ++ b ++ c ++ d) = b
  /\ slice 4 8 (a ++ b ++ c ++ d) = c /\ slice 8 12 (a ++ b ++ c ++ d) = d
  /\ len (a ++ b ++ c ++ d) = 12.
Proof.
  unfold len. intros Ha Hb Hc Hd.
  do 2 (destruct a as [|? a]; [cbn in Ha; lia|]).
  destruct a; [|cbn in Ha; lia].
  do 2 (destruct b as [|? b]; [cbn in Hb; lia|]).
  destruct b; [|cbn in Hb; lia].
  do 4 (destruct c as [|? c]; [cbn in Hc; lia|]).
  destruct c; [|cbn in Hc; lia].
  do 4 (destruct d as [|? d]; [cbn in Hd; lia|]).
  destruct d; [|cbn in Hd; lia].
  repeat split.
Qed.

Lemma len_Z_to_le (n : nat) (v : Z) : len (Z_to_le n v) = Z.of_nat n.
Proof. unfold len. now rewrite Z_to_le_length. Qed.

(** The fields of an entry written little-endian are read back. *)
Lemma written_fields (tag type count : Z) (d : list byte) :
  0 <= tag < 2 ^ 16 -> 0 <= type < 2 ^ 16 -> 0 <= count < 2 ^ 32 ->
  len d = 4 ->
  let rec := Z_to_le 2 tag ++ Z_to_le 2 type ++ Z_to_le 4 count ++ d in
  rec_tag Little rec = tag /\ rec_type Little rec = type
  /\ rec_count Little rec = count /\ slice 8 12 rec = d /\ len rec = 12.
Proof.
  intros H1 H2 H3 Hd rc.
  destruct (record_fields (Z_to_le 2 tag) (Z_to_le 2 type) (Z_to_le 4 count) d)
    as (F1 & F2 & F3 & F4 & F5); try apply len_Z_to_le; try assumption.
  unfold rec_tag, rec_type, rec_count, rc. rewrite F1, F2, F3.
  cbn [bytes_to_Z]. rewrite !le_to_Z_to_le by (cbn; lia). auto.
Qed.

Lemma read_entry_inv (e : endian) (data : list byte) (pos : Z) (ent : entry) :
  read_entry e data pos = Some ent ->
  let rec := slice pos (pos + 12) data in
  exists d cs,
    len rec = 12
    /\ tag_dtype (rec_type e rec) = Some d
    /\ codes (string_repeat (format d) (rec_count e rec)) = Some cs
    /\ payload_length ent = nbytes d * rec_count e rec
    /\ let n := nbytes d * rec_count e rec in
       let payload := if n <=? 4 then slice 8 (8 + n) rec
                      else slice (rec_field e rec) (rec_field e rec + n) data in
       len payload = n
       /\ ent = mkEntry (rec_tag e rec) (rec_type e rec) (rec_count e rec)
                  (values e cs payload).
Proof.
  unfold read_entry. intros H. set (rc := slice pos (pos + 12) data) in *.
  destruct (len rc =? 12) eqn:L; [|discriminate]. apply Z.eqb_eq in L.
  destruct (tag_dtype (rec_type e rc)) as [d|] eqn:D; [|discriminate].
  destruct (codes _) as [cs|] eqn:C; [|discriminate].
  destruct (len _ =? _) eqn:P; [|discriminate]. apply Z.eqb_eq in P.
  inversion H; subst ent; clear H.
  exists d, cs. unfold payload_length. cbn [e_type e_count]. rewrite D.
  auto 10.
Qed.

Lemma read_entry_intro (e : endian) (data : list byte) (pos : Z)
    (rec : list byte) (d : dtype_info) (cs : list (nat * kind)) :
  slice pos (pos + 12) data = rec -> len rec = 12 ->
  tag_dtype (rec_type e rec) = Some d ->
  codes (string_repeat (format d) (rec_count e rec)) = Some cs ->
  let n := nbytes d * rec_count e rec in
  let payload := if n <=? 4 then slice 8 (8 + n) rec
                 else slice (rec_field e rec) (rec_field e rec + n) data in
  len payload = n ->
  read_entry e data pos =
  Some (mkEntry (rec_tag e rec) (rec_type e rec) (rec_count e rec)
          (values e cs payload)).
Proof.
  intros R L D C n payload P. unfold read_entry. rewrite R, L, D, C.
  fold n. fold payload. rewrite P, !Z.eqb_refl. reflexivity.
Qed.

(** An entry is read the same from two buffers that agree on its 12 bytes
    and, when its values lie outside, on the values. *)
Lemma read_entry_stable (buf buf' : list byte) (pos : Z) (ent : entry) :
  read_entry Little buf pos = Some ent ->
  slice pos (pos + 12) buf' = slice pos (pos + 12) buf ->
  (4 < payload_length ent ->
   let offset := rec_field Little (slice pos (pos + 12) buf) in
   slice offset (offset + payload_length ent) buf'
   = slice offset (offset + payload_length ent) buf) ->
  read_entry Little buf' pos = Some ent.
Proof.
  intros H S P.
  destruct (read_entry_inv _ _ _ _ H) as (d & cs & L & D & C & PL & Lp & E).
  cbv zeta in *. rewrite PL in P.
  rewrite E.
  rewrite (read_entry_intro Little buf' pos _ d cs S L D C).
  - f_equal. f_equal. f_equal.
    destruct (nbytes d * rec_count Little (slice pos (pos + 12) buf) <=? 4)
      eqn:G; [reflexivity|].
    apply P. apply Z.leb_gt in G. lia.
  - cbv zeta.
    destruct (nbytes d * rec_count Little (slice pos (pos + 12) buf) <=? 4)
      eqn:G; [exact Lp|].
    rewrite P; [exact Lp|]. apply Z.leb_gt in G. lia.
Qed.

Lemma relocated_size_app (a b : list entry) :
  relocated_size (a ++ b) = relocated_size a + relocated_size b.
Proof.
  unfold relocated_size.
  induction a as [|x a IH]; cbn [app fold_right]; [lia | rewrite IH; lia].
Qed.

Lemma relocated_size_nonneg (a : list entry) : 0 <= relocated_size a.
Proof.
  unfold relocated_size. induction a as [|x a IH]; cbn [fold_right]; [lia|].
  unfold relocated at 1. destruct (payload_length x >? 4) eqn:G; [|lia].
  apply Z.gtb_lt in G. lia.
Qed.

Lemma firstn_succ_nth {A} (l : list A) (k : nat) (x : A) :
  nth_error l k = Some x -> firstn (S k) l = firstn k l ++ [x].
Proof.
  revert l. induction k as [|k IH]; intros [|y l] H; try discriminate.
  - cbn in H. inversion H. reflexivity.
  - cbn [nth_error] in H.
    change (firstn (S (S k)) (y :: l)) with (y :: firstn (S k) l).
    rewrite (IH l H). reflexivity.
Qed.

Lemma relocated_size_succ (ents : list entry) (idx : Z) (ent : entry) :
  0 <= idx -> nth_error ents (Z.to_nat idx) = Some ent ->
  relocated_size (firstn (Z.to_nat (idx + 1)) ents)
  = relocated_size (firstn (Z.to_nat idx) ents) + relocated ent.
Proof.
  intros Hi H. replace (Z.to_nat (idx + 1)) with (S (Z.to_nat idx)) by lia.
  rewrite (firstn_succ_nth _ _ _ H), relocated_size_app.
  unfold relocated_size at 2. cbn [fold_right]. lia.
Qed.

Lemma relocated_size_firstn_le (ents : list entry) (k : nat) :
  relocated_size (firstn k ents) <= relocated_size ents.
Proof.
  rewrite <- (firstn_skipn k ents) at 2. rewrite relocated_size_app.
  pose proof (relocated_size_nonneg (skipn k ents)). lia.
Qed.

Lemma b_write_eta (d : list byte) (bb : bytesio) :
  b_write d bb = mkBytesIO (b_buf (b_write d bb)) (b_pos bb + len d).
Proof.
  rewrite <- (b_write_pos d bb). now destruct (b_write d bb).
Qed.

(** Two writes one after the other. *)
Lemma b_write2_at (o1 o2 buf : list byte) (p : Z) :
  o1 <> [] -> o2 <> [] -> 0 <= p ->
  slice p (p + len o1 + len o2)
    (b_buf (b_write o2 (b_write o1 (mkBytesIO buf p)))) = o1 ++ o2.
Proof.
  intros H1 H2 Hp. pose proof (len_nonneg o1). pose proof (len_nonneg o2).
  rewrite (slice_app_split p (p + len o1)) by lia.
  rewrite (b_write_eta o1). cbn [b_pos].
  f_equal.
  - rewrite b_write_frame.
    + apply b_write_at; assumption.
    + lia.
    + lia.
    + left. split; [lia|]. rewrite b_write_len by assumption. lia.
  - apply b_write_at; [assumption|lia].
Qed.

(** The entries already in the buffer stay what they are when the buffer
    changes neither before the place [slot] of the next entry, nor from
    the end of that place on within what was written. *)
Lemma entries_preserved (n idx : Z) (ents : list entry)
    (buf buf' : list byte) :
  0 <= idx < n ->
  10 + 12 * idx <= len buf -> len buf <= len buf' ->
  same_slices 0 (10 + 12 * idx) buf buf' ->
  same_slices (10 + 12 * idx + 12) (len buf) buf buf' ->
  entries_in n ents idx buf -> entries_in n ents idx buf'.
Proof.
  intros Hi Hl Hl' F1 F2 H i Hi'.
  destruct (H i Hi') as (ent & N & R & P).
  assert (S : slice (10 + 12 * i) (10 + 12 * i + 12) buf'
              = slice (10 + 12 * i) (10 + 12 * i + 12) buf)
    by (apply F1; lia).
  exists ent. split; [exact N|]. split.
  - apply read_entry_stable with (buf := buf); [exact R | exact S |].
    intros G. cbv zeta. destruct (P G) as (P1 & P2). apply F2; lia.
  - intros G. cbv zeta. rewrite S. destruct (P G) as (P1 & P2). lia.
Qed.

(** One more entry in the buffer. *)
Lemma entries_in_succ (n idx : Z) (ents : list entry) (buf : list byte)
    (ent : entry) :
  entries_in n ents idx buf ->
  nth_error ents (Z.to_nat idx) = Some ent ->
  read_entry Little buf (10 + 12 * idx) = Some ent ->
  (4 < payload_length ent ->
   let offset :=
     rec_field Little (slice (10 + 12 * idx) (10 + 12 * idx + 12) buf)
   in 10 + 12 * n <= offset /\ offset + payload_length ent <= len buf) ->
  entries_in n ents (idx + 1) buf.
Proof.
  intros H N R P i Hi. destruct (Z.eq_dec i idx) as [->|Ne].
  - exists ent. auto.
  - apply H. lia.
Qed.

Lemma directory_record (tiff : list byte) (off n idx : Z) :
  0 <= off -> 0 <= idx < n ->
  slice (idx * 12) ((idx + 1) * 12) (slice (off + 2) (off + 2 + 12 * n) tiff)
  = slice (off + 2 + 12 * idx) (off + 2 + 12 * idx + 12) tiff.
Proof.
  intros Ho Hi. rewrite slice_slice by lia. f_equal; lia.
Qed.

Lemma codes_unique (e : endian) (code : Z) (d : dtype_info) (count : Z)
    (cs : list (nat * kind)) :
  tag_dtype code = Some d -> 0 <= count ->
  codes (string_repeat (format d) count) = Some cs ->
  calcsize cs = nbytes d * count /\ Forall (fun i => (1 <= fst i)%nat) cs.
Proof.
  intros D Hc C. destruct (tag_dtype_repeat code d count D Hc)
    as (cs' & C' & S' & P').
  rewrite C in C'. inversion C'. subst cs'. auto.
Qed.

(** One turn of the loop of [_process_tags] on a supported entry. *)
Lemma transcoded_step (e : endian) (tiff : list byte) (off n idx : Z)
    (ents : list entry) (ent : entry) (st : tags_state) :
  0 <= off -> 0 <= idx < n ->
  nth_error ents (Z.to_nat idx) = Some ent ->
  read_entry e tiff (off + 2 + 12 * idx) = Some ent ->
  supported ent ->
  10 + 12 * n + relocated_size ents < 2 ^ 32 ->
  transcoded tiff n ents idx st ->
  exists st',
    process_tag e (slice (off + 2) (off + 2 + 12 * n) tiff) 10 st idx
    = inr st'
    /\ transcoded tiff n ents (idx + 1) st'.
Proof.
  intros Ho Hi Hnth Hread Hsup Hsize (A & F & (B1 & B2) & H10 & Ents).
  set (buffer := slice (off + 2) (off + 2 + 12 * n) tiff).
  set (rc := slice (off + 2 + 12 * idx) (off + 2 + 12 * idx + 12) tiff).
  assert (Hrec : slice (idx * 12) ((idx + 1) * 12) buffer = rc)
    by (apply directory_record; lia).
  destruct (read_entry_inv _ _ _ _ Hread) as (d & cs & L & D & C & PL & Lp & E).
  fold rc in L, D, C, PL, Lp, E. cbv zeta in Lp, E.
  destruct (rec_ranges e rc L) as (R1 & R2 & R3 & R4).
  destruct (codes_unique e _ d _ cs D (proj1 R3) C) as (Sz & Pos).
  pose proof (relocated_size_firstn_le ents (Z.to_nat idx)) as Rle.
  pose proof (relocated_size_nonneg (firstn (Z.to_nat idx) ents)) as Rge.
  pose proof (relocated_size_succ ents idx ent (proj1 Hi) Hnth) as Rs.
  set (buf := b_buf (ts_b st)) in *.
  set (slot := 10 + 12 * idx).
  assert (Eslot : 10 + idx * 12 = slot) by (unfold slot; lia).
  destruct (Z_lt_le_dec 4 (payload_length ent)) as [G|G].
  - (* the values lie outside the entry *)
    assert (G' : (nbytes d * rec_count e rc <=? 4) = false)
      by (apply Z.leb_gt; lia).
    rewrite G' in Lp, E.
    destruct (process_tag_outofline e buffer 10 idx st rc d cs Hrec L D C Sz Pos)
      as (out & Eo & Lo & Do & Run).
    { lia. }
    { rewrite F. exact Lp. }
    { lia. }
    rewrite F in Eo, Do, Run. rewrite Eslot in Run.
    eexists. split; [exact Run|].
    set (hdr := Z_to_le 2 (rec_tag e rc) ++ Z_to_le 2 (rec_type e rc)
                  ++ Z_to_le 4 (rec_count e rc) ++ Z_to_le 4 (ts_after st)) in *.
    assert (Lh : len hdr = 12).
    { unfold hdr. rewrite !len_app, !len_Z_to_le. lia. }
    assert (Nh : hdr <> []) by (intros X; rewrite X in Lh; discriminate).
    assert (No : out <> []).
    { intros X; rewrite X in Lo. cbn in Lo. lia. }
    set (buf1 := b_buf (b_write hdr (mkBytesIO buf slot))).
    assert (L1 : len buf1 = Z.max (len buf) (slot + 12)).
    { unfold buf1. rewrite b_write_len by (assumption || lia). lia. }
    set (buf2 := b_buf (b_write out (mkBytesIO buf1 (ts_after st)))).
    assert (L2 : len buf2 = ts_after st + nbytes d * rec_count e rc).
    { unfold buf2. rewrite b_write_len by (assumption || lia). lia. }
    assert (Fr1 : same_slices 0 slot buf buf2).
    { intros a b Ha Hab. unfold buf2. rewrite b_write_frame by lia.
      unfold buf1. apply b_write_frame; lia. }
    assert (Fr2 : same_slices (slot + 12) (len buf) buf buf2).
    { intros a b Ha Hab. unfold buf2. rewrite b_write_frame by lia.
      unfold buf1. apply b_write_frame; lia. }
    assert (Sl : slice slot (slot + 12) buf2 = hdr).
    { unfold buf2. rewrite b_write_frame by lia.
      unfold buf1. rewrite <- Lh at 1. apply b_write_at; [assumption|lia]. }
    assert (Sp : slice (ts_after st) (ts_after st + nbytes d * rec_count e rc)
                   buf2 = out).
    { unfold buf2. rewrite <- Lo. apply b_write_at; [assumption|lia]. }
    destruct (written_fields (rec_tag e rc) (rec_type e rc) (rec_count e rc)
                (Z_to_le 4 (ts_after st)))
      as (W1 & W2 & W3 & W4 & W5); try lia; [apply len_Z_to_le|].
    fold hdr in W1, W2, W3, W4, W5.
    assert (W6 : rec_field Little hdr = ts_after st).
    { unfold rec_field. rewrite W4. cbn [bytes_to_Z].
      apply le_to_Z_to_le. cbn. lia. }
    unfold transcoded. cbn [ts_after ts_b ts_tfp b_buf f_data].
    fold buf. fold buf1. fold buf2.
    assert (Rel : relocated ent = nbytes d * rec_count e rc).
    { unfold relocated. rewrite PL.
      replace (nbytes d * rec_count e rc >? 4) with true; [reflexivity|].
      symmetry. apply Z.gtb_lt. lia. }
    split; [rewrite Rs, Rel; lia|]. split; [reflexivity|].
    split; [lia|]. split; [rewrite Fr1 by lia; exact H10|].
    apply entries_in_succ with (ent := as_unpacked ent);
      [|rewrite nth_error_map, Hnth; reflexivity|fold slot..].
    + apply (entries_preserved n idx (map as_unpacked ents) buf buf2);
        try lia.
      * exact Fr1.
      * exact Fr2.
      * exact Ents.
    + pose proof (read_entry_intro Little buf2 slot hdr d cs Sl W5) as RE.
      rewrite W1, W2, W3, W6 in RE. specialize (RE D C). cbv zeta in RE.
      rewrite G', Sp in RE. rewrite (RE Lo), E.
      unfold as_unpacked. cbn [e_tag e_type e_count e_values].
      rewrite <- decode_all_values.
      rewrite (values_of_packed e cs Pos _ out (eq_trans Lp (eq_sym Sz)) Eo).
      reflexivity.
    + intros _. cbv zeta. rewrite Sl, W6.
      rewrite payload_length_unpacked, PL. lia.
  - (* the values are in the field *)
    destruct Hsup as [G4|[Ht Hc]].
    + (* four bytes of values *)
      assert (Hn : nbytes d * rec_count e rc = 4) by lia.
      rewrite Hn in Lp, E. change (4 <=? 4) with true in Lp, E.
      change (8 + 4) with 12 in Lp, E. cbv iota in Lp, E.
      destruct (process_tag_inline4 e buffer 10 idx st rc d cs Hrec L D C Sz
                  Pos Hn) as (out & Eo & Lo & Do & Run).
      rewrite Eslot in Run.
      eexists. split; [exact Run|].
      set (hdr := Z_to_le 2 (rec_tag e rc) ++ Z_to_le 2 (rec_type e rc)
                    ++ Z_to_le 4 (rec_count e rc)) in *.
      assert (Lh : len hdr = 8).
      { unfold hdr. rewrite !len_app, !len_Z_to_le. lia. }
      assert (Nh : hdr <> []) by (intros X; rewrite X in Lh; discriminate).
      assert (No : out <> []) by (intros X; rewrite X in Lo; discriminate).
      fold buf.
      set (buf2 := b_buf (b_write out (b_write hdr (mkBytesIO buf slot)))).
      assert (Eta : b_write hdr (mkBytesIO buf slot)
                    = mkBytesIO (b_buf (b_write hdr (mkBytesIO buf slot)))
                        (slot + 8)).
      { rewrite (b_write_eta hdr) at 1. cbn [b_pos]. now rewrite Lh. }
      assert (L2 : len buf2 = Z.max (len buf) (slot + 12)).
      { unfold buf2. rewrite Eta, !b_write_len by (assumption || lia). lia. }
      assert (Fr1 : same_slices 0 slot buf buf2).
      { intros a b Ha Hab. unfold buf2. rewrite Eta.
        rewrite b_write_frame;
          [|lia|lia|rewrite b_write_len by (assumption || lia); lia].
        apply b_write_frame; lia. }
      assert (Fr2 : same_slices (slot + 12) (len buf) buf buf2).
      { intros a b Ha Hab. unfold buf2. rewrite Eta.
        rewrite b_write_frame;
          [|lia|lia|rewrite b_write_len by (assumption || lia); lia].
        apply b_write_frame; lia. }
      assert (Sl : slice slot (slot + 12) buf2 = hdr ++ out).
      { unfold buf2. replace (slot + 12) with (slot + len hdr + len out) by lia.
        apply b_write2_at; (assumption || lia). }
      destruct (written_fields (rec_tag e rc) (rec_type e rc) (rec_count e rc)
                  out) as (W1 & W2 & W3 & W4 & W5); try lia.
      unfold hdr in Sl. rewrite <- !app_assoc in Sl.
      set (rc' := Z_to_le 2 (rec_tag e rc) ++ Z_to_le 2 (rec_type e rc)
                    ++ Z_to_le 4 (rec_count e rc) ++ out) in *.
      unfold transcoded. cbn [ts_after ts_b ts_tfp]. fold buf. fold buf2.
      assert (Rel : relocated ent = 0).
      { unfold relocated. rewrite PL, Hn. reflexivity. }
      split; [rewrite Rs, Rel; lia|]. split; [exact F|].
      split; [lia|]. split; [rewrite Fr1 by lia; exact H10|].
      apply entries_in_succ with (ent := as_unpacked ent);
        [|rewrite nth_error_map, Hnth; reflexivity|fold slot..].
      * apply (entries_preserved n idx (map as_unpacked ents) buf buf2);
          try lia.
        -- exact Fr1.
        -- exact Fr2.
        -- exact Ents.
      * pose proof (read_entry_intro Little buf2 slot rc' d cs Sl W5) as RE.
        rewrite W1, W2, W3 in RE. specialize (RE D C). cbv zeta in RE.
        rewrite Hn in RE. change (4 <=? 4) with true in RE.
        change (8 + 4) with 12 in RE. cbv iota in RE. rewrite W4 in RE.
        rewrite (RE Lo), E.
        unfold as_unpacked. cbn [e_tag e_type e_count e_values].
        rewrite <- decode_all_values.
        rewrite (values_of_packed e cs Pos (slice 8 12 rc) out);
          [reflexivity| |exact Eo].
        rewrite Lp, Sz, Hn. reflexivity.
      * intros X. rewrite payload_length_unpacked in X. lia.
    + (* one unsigned short *)
      assert (Ht' : rec_type e rc = 3) by (rewrite E in Ht; exact Ht).
      assert (Hc' : rec_count e rc = 1) by (rewrite E in Hc; exact Hc).
      rewrite Ht' in D. cbn in D. inversion D; subst d; clear D.
      cbn [format nbytes] in *. rewrite Hc' in *.
      change (string_repeat "H" 1) with "H"%string in C.
      cbn in C. inversion C; subst cs; clear C.
      change (2 * 1 <=? 4) with true in Lp, E. change (8 + 2 * 1) with 10 in Lp, E.
      cbv iota in Lp, E.
      pose proof (process_tag_short e buffer 10 idx st rc Hrec L Ht' Hc') as Run.
      rewrite Eslot in Run.
      eexists. split; [exact Run|].
      set (v := bytes_to_Z e (slice 8 10 rc)) in *.
      assert (Rv : 0 <= v < 2 ^ 16).
      { pose proof (bytes_to_Z_range e (slice 8 10 rc)) as Rv.
        unfold len in Lp.
        replace (List.length (slice 8 10 rc)) with 2%nat in Rv by lia.
        exact Rv. }
      set (hdr := Z_to_le 2 (rec_tag e rc) ++ Z_to_le 2 3 ++ Z_to_le 4 1) in *.
      set (out := Z_to_le 4 v) in *.
      assert (Lh : len hdr = 8).
      { unfold hdr. rewrite !len_app, !len_Z_to_le. lia. }
      assert (Lo : len out = 4) by apply len_Z_to_le.
      assert (Nh : hdr <> []) by (intros X; rewrite X in Lh; discriminate).
      assert (No : out <> []) by (intros X; rewrite X in Lo; discriminate).
      fold buf.
      set (buf2 := b_buf (b_write out (b_write hdr (mkBytesIO buf slot)))).
      assert (Eta : b_write hdr (mkBytesIO buf slot)
                    = mkBytesIO (b_buf (b_write hdr (mkBytesIO buf slot)))
                        (slot + 8)).
      { rewrite (b_write_eta hdr) at 1. cbn [b_pos]. now rewrite Lh. }
      assert (L2 : len buf2 = Z.max (len buf) (slot + 12)).
      { unfold buf2. rewrite Eta, !b_write_len by (assumption || lia). lia. }
      assert (Fr1 : same_slices 0 slot buf buf2).
      { intros a b Ha Hab. unfold buf2. rewrite Eta.
        rewrite b_write_frame;
          [|lia|lia|rewrite b_write_len by (assumption || lia); lia].
        apply b_write_frame; lia. }
      assert (Fr2 : same_slices (slot + 12) (len buf) buf buf2).
      { intros a b Ha Hab. unfold buf2. rewrite Eta.
        rewrite b_write_frame;
          [|lia|lia|rewrite b_write_len by (assumption || lia); lia].
        apply b_write_frame; lia. }
      assert (Sl : slice slot (slot + 12) buf2 = hdr ++ out).
      { unfold buf2. replace (slot + 12) with (slot + len hdr + len out) by lia.
        apply b_write2_at; (assumption || lia). }
      destruct (written_fields (rec_tag e rc) 3 1 out)
        as (W1 & W2 & W3 & W4 & W5); try lia.
      unfold hdr in Sl. rewrite <- !app_assoc in Sl.
      set (rc' := Z_to_le 2 (rec_tag e rc) ++ Z_to_le 2 3
                    ++ Z_to_le 4 1 ++ out) in *.
      unfold transcoded. cbn [ts_after ts_b ts_tfp]. fold buf. fold buf2.
      assert (Rel : relocated ent = 0).
      { unfold relocated. rewrite PL. reflexivity. }
      split; [rewrite Rs, Rel; lia|]. split; [exact F|].
      split; [lia|]. split; [rewrite Fr1 by lia; exact H10|].
      assert (S810 : slice 8 10 rc' = Z_to_le 2 v).
      { rewrite <- (slice_slice 8 12 0 2) by lia. rewrite W4. reflexivity. }
      apply entries_in_succ with (ent := as_unpacked ent);
        [|rewrite nth_error_map, Hnth; reflexivity|fold slot..].
      * apply (entries_preserved n idx (map as_unpacked ents) buf buf2);
          try lia.
        -- exact Fr1.
        -- exact Fr2.
        -- exact Ents.
      * pose proof (read_entry_intro Little buf2 slot rc' (mkDtype "H" 2)
                      [(2%nat, KUnsigned)] Sl W5) as RE.
        rewrite W1, W2, W3 in RE. specialize (RE eq_refl eq_refl).
        cbv zeta in RE. cbn [nbytes format] in RE.
        change (2 * 1 <=? 4) with true in RE.
        change (8 + 2 * 1) with 10 in RE. cbv iota in RE.
        rewrite S810 in RE. rewrite (RE (len_Z_to_le 2 v)), E, ?Ht', ?Hc'.
        unfold as_unpacked.
        cbn [e_tag e_type e_count e_values values value_of decode map
               unpacked fst snd].
        replace (firstn 2 (slice 8 10 rc)) with (slice 8 10 rc)
          by (symmetry; apply firstn_all2; unfold len in Lp; lia).
        fold v.
        replace (firstn 2 (Z_to_le 2 v)) with (Z_to_le 2 v)
          by (symmetry; apply firstn_all2; rewrite Z_to_le_length; lia).
        cbn [bytes_to_Z]. rewrite le_to_Z_to_le by (cbn; lia).
        reflexivity.
      * intros X. rewrite payload_length_unpacked, PL in X. lia.
Qed.

(** ** The loop over the entries *)

Lemma for_tags_app (body : tags_state -> Z -> result tags_state)
    (l1 l2 : list Z) (st : tags_state) :
  for_tags body (l1 ++ l2) st
  = (st1 <- for_tags body l1 st ;; for_tags body l2 st1).
Proof.
  revert st. induction l1 as [|x l1 IH]; intros st; cbn [app for_tags bind ret].
  - reflexivity.
  - destruct (body st x) as [err|st1]; cbn [bind]; [reflexivity|apply IH].
Qed.

Lemma range_nth (n : Z) (k : nat) :
  (k < Z.to_nat n)%nat -> nth_error (range n) k = Some (Z.of_nat k).
Proof.
  intros H. unfold range. rewrite nth_error_map, nth_error_seq.
  destruct (Nat.ltb_spec k (Z.to_nat n)); [reflexivity|lia].
Qed.

Lemma range_length (n : Z) : List.length (range n) = Z.to_nat n.
Proof. unfold range. now rewrite length_map, length_seq. Qed.

(** [range n] is [range idx], then [idx], then greater indices. *)
Lemma range_split (n idx : Z) :
  0 <= idx < n ->
  exists rest, range n = range idx ++ idx :: rest
               /\ Forall (fun i => idx + 1 <= i) rest.
Proof.
  intros H. unfold range.
  replace (Z.to_nat n) with (Z.to_nat idx + S (Z.to_nat (n - idx - 1)))%nat
    by lia.
  rewrite seq_app, map_app. cbn [seq map Nat.add].
  exists (map Z.of_nat (seq (S (Z.to_nat idx)) (Z.to_nat (n - idx - 1)))).
  split; [f_equal; f_equal; lia|].
  apply Forall_forall. intros i Hin. apply in_map_iff in Hin.
  destruct Hin as (k & <- & Hk). apply in_seq in Hk. lia.
Qed.

Lemma all_some_length {A} (l : list (option A)) (r : list A) :
  Reader.all_some l = Some r -> List.length r = List.length l.
Proof.
  revert r. induction l as [|[a|] l IH]; intros r H; cbn in H.
  - inversion H. reflexivity.
  - destruct (Reader.all_some l) as [ar|]; [|discriminate].
    inversion H. cbn. f_equal. now apply IH.
  - discriminate.
Qed.

Lemma all_some_nth {A} (l : list (option A)) (r : list A) (k : nat) :
  Reader.all_some l = Some r -> (k < List.length l)%nat ->
  exists x, nth_error l k = Some (Some x) /\ nth_error r k = Some x.
Proof.
  revert r k. induction l as [|[a|] l IH]; intros r k H Hk; cbn in H.
  - cbn in Hk. lia.
  - destruct (Reader.all_some l) as [ar|] eqn:E; [|discriminate].
    inversion H; subst r. destruct k as [|k].
    + exists a. auto.
    + cbn [nth_error]. apply IH; [reflexivity|cbn in Hk; lia].
  - discriminate.
Qed.

Lemma all_some_intro {A} (l : list (option A)) (r : list A) :
  List.length r = List.length l ->
  (forall k, (k < List.length l)%nat ->
             exists x, nth_error l k = Some (Some x)
                       /\ nth_error r k = Some x) ->
  Reader.all_some l = Some r.
Proof.
  revert r. induction l as [|o l IH]; intros r Hl H.
  - destruct r; [reflexivity|discriminate].
  - destruct r as [|y r]; [discriminate|].
    destruct (H 0%nat) as (x & H1 & H2); [cbn; lia|].
    cbn in H1, H2. inversion H1; subst o. inversion H2; subst y.
    cbn [Reader.all_some]. rewrite (IH r); [reflexivity| cbn in Hl; lia |].
    intros k Hk. apply (H (S k)). cbn. lia.
Qed.

(** What [read_entries] returns, entry by entry. *)
Lemma read_entries_nth (e : endian) (data : list byte) (pos n : Z)
    (ents : list entry) :
  read_entries e data pos n = Some ents ->
  List.length ents = Z.to_nat n
  /\ forall i, 0 <= i < n ->
       exists ent, nth_error ents (Z.to_nat i) = Some ent
                   /\ read_entry e data (pos + 12 * i) = Some ent.
Proof.
  unfold read_entries. intros H. split.
  - rewrite (all_some_length _ _ H), length_map. apply range_length.
  - intros i Hi.
    destruct (all_some_nth _ _ (Z.to_nat i) H) as (x & H1 & H2).
    { rewrite length_map, range_length. lia. }
    exists x. split; [exact H2|].
    rewrite nth_error_map, range_nth in H1 by lia. cbn in H1.
    rewrite Z2Nat.id in H1 by lia. now inversion H1.
Qed.

Lemma for_tags_transcoded (e : endian) (tiff : list byte) (off n : Z)
    (ents : list entry) :
  0 <= off ->
  10 + 12 * n + relocated_size ents < 2 ^ 32 ->
  forall k, k <= n ->
  (forall i, 0 <= i < k ->
     exists ent, nth_error ents (Z.to_nat i) = Some ent
                 /\ read_entry e tiff (off + 2 + 12 * i) = Some ent
                 /\ supported ent) ->
  forall (m s : nat) (st : tags_state),
    Z.of_nat s + Z.of_nat m <= k ->
    transcoded tiff n ents (Z.of_nat s) st ->
    exists st',
      for_tags (process_tag e (slice (off + 2) (off + 2 + 12 * n) tiff) 10)
        (map Z.of_nat (seq s m)) st = inr st'
      /\ transcoded tiff n ents (Z.of_nat s + Z.of_nat m) st'.
Proof.
  intros Ho Hsize k Hk Hents. induction m as [|m IH]; intros s st Hs Inv.
  - exists st. cbn [seq map for_tags]. rewrite Z.add_0_r. auto.
  - cbn [seq map for_tags].
    destruct (Hents (Z.of_nat s)) as (ent & N & R & Sup); [lia|].
    destruct (transcoded_step e tiff off n (Z.of_nat s) ents ent st)
      as (st1 & Run & Inv1); try assumption; try lia.
    rewrite Run. cbn [bind].
    destruct (IH (S s) st1) as (st' & Run' & Inv'); [lia| |].
    { replace (Z.of_nat (S s)) with (Z.of_nat s + 1) by lia. exact Inv1. }
    exists st'. split; [exact Run'|].
    replace (Z.of_nat s + Z.of_nat (S m)) with (Z.of_nat (S s) + Z.of_nat m)
      by lia.
    exact Inv'.
Qed.

(** ** The header and the whole directory *)

Lemma read_header_inv (tiff : list byte) (e : endian) (off : Z) :
  read_header tiff = Some (e, off) ->
  exists d0 d1 v0 v1 o0 o1 o2 o3 rest,
    tiff = d0 :: d1 :: v0 :: v1 :: o0 :: o1 :: o2 :: o3 :: rest
    /\ ((e = Little /\ d0 = x49 /\ d1 = x49)
        \/ (e = Big /\ d0 = x4d /\ d1 = x4d))
    /\ off = bytes_to_Z e [o0; o1; o2; o3].
Proof.
  unfold read_header. intros H.
  destruct (slice 0 2 tiff) as [|d0 [|d1 [|]]] eqn:S; try discriminate.
  destruct (len (slice 4 8 tiff) =? 4) eqn:L.
  2:{ destruct (Byte.eqb d0 x49 && Byte.eqb d1 x49);
        [discriminate|].
      destruct (Byte.eqb d0 x4d && Byte.eqb d1 x4d); discriminate. }
  apply Z.eqb_eq in L. unfold len in L.
  destruct tiff as [|t0 [|t1 [|t2 [|t3 [|t4 [|t5 [|t6 [|t7 rest]]]]]]]];
    try (cbv in L; discriminate).
  cbn in S. inversion S; subst t0 t1.
  exists d0, d1, t2, t3, t4, t5, t6, t7, rest.
  split; [reflexivity|].
  destruct (Byte.eqb d0 x49 && Byte.eqb d1 x49) eqn:E1.
  - apply andb_true_iff in E1. destruct E1 as (E1 & E2).
    apply Byte.byte_dec_bl in E1, E2. inversion H. auto 10.
  - destruct (Byte.eqb d0 x4d && Byte.eqb d1 x4d) eqn:E2; [|discriminate].
    apply andb_true_iff in E2. destruct E2 as (E2 & E3).
    apply Byte.byte_dec_bl in E2, E3. inversion H. auto 10.
Qed.

Lemma process_header_ok (tiff : list byte) (e : endian) (off : Z) :
  read_header tiff = Some (e, off) ->
  _process_header BytesIO (mkFile tiff 0)
  = inr (e, mkBytesIO canonical_header 8, mkFile tiff off).
Proof.
  intros H.
  destruct (read_header_inv tiff e off H)
    as (d0 & d1 & v0 & v1 & o0 & o1 & o2 & o3 & rest & -> & He & ->).
  destruct He as [(-> & -> & ->)|(-> & -> & ->)]; reflexivity.
Qed.

Lemma read_header_offset (tiff : list byte) (e : endian) (off : Z) :
  read_header tiff = Some (e, off) -> 0 <= off < 2 ^ 32.
Proof.
  intros H.
  destruct (read_header_inv tiff e off H)
    as (d0 & d1 & v0 & v1 & o0 & o1 & o2 & o3 & rest & -> & He & ->).
  pose proof (bytes_to_Z_range e [o0; o1; o2; o3]) as R. cbn in R. cbn. lia.
Qed.

(** [_process_tags] up to its loop. *)
Lemma process_tags_unfold (tiff : list byte) (e : endian) (off n : Z)
    (b : bytesio) (pos : Z) :
  0 <= off -> read_count e tiff off = Some n ->
  _process_tags b (mkFile tiff off) e
  = (st <- for_tags
             (process_tag e (slice (off + 2) (off + 2 + n * 12) tiff)
                (b_pos b + 2))
             (range n)
             (mkTags (b_write (Z_to_le 2 n) b)
                (mkFile tiff
                   (off + 2 + len (slice (off + 2) (off + 2 + n * 12) tiff)))
                (b_pos b + 2
                 + len (slice (off + 2) (off + 2 + n * 12) tiff))) ;;
     ret (ts_b st, ts_tfp st))
    /\ 0 <= n < 2 ^ 16.
Proof.
  intros Ho H. unfold read_count in H.
  destruct (len (slice off (off + 2) tiff) =? 2) eqn:L; [|discriminate].
  apply Z.eqb_eq in L. inversion H as [Hn]. clear H.
  pose proof (bytes_to_Z_range e (slice off (off + 2) tiff)) as R.
  unfold len in L.
  replace (List.length (slice off (off + 2) tiff)) with 2%nat in R by lia.
  change (256 ^ Z.of_nat 2) with (2 ^ 16) in R.
  split; [|exact R].
  unfold _process_tags, f_read. cbn [f_pos f_data].
  rewrite unpack_bytes with (cs := [(2%nat, KUnsigned)]) by reflexivity.
  unfold len at 1.
  replace (Z.of_nat (List.length (slice off (off + 2) tiff)) =? calcsize _)
    with true by (symmetry; apply Z.eqb_eq; cbn; lia).
  cbn [bind ret decode_all decode fst snd].
  replace (firstn 2 (slice off (off + 2) tiff)) with (slice off (off + 2) tiff)
    by (symmetry; apply firstn_all2; lia).
  assert (PK : pack "<H" [VInt (bytes_to_Z e (slice off (off + 2) tiff))]
               = ret (Z_to_le 2 (bytes_to_Z e (slice off (off + 2) tiff)))).
  { apply (pack_little "H" [(2%nat, KUnsigned)]); [reflexivity|].
    cbn [encode_all]. rewrite encode_unsigned by (cbn; cbn in R; lia).
    now rewrite app_nil_r. }
  rewrite PK. cbn [bind ret]. unfold b_tell. rewrite b_write_pos, len_Z_to_le.
  assert (L' : len (slice off (off + 2) tiff) = 2) by exact L.
  rewrite !L', !Hn.
  replace (b_pos b + Z.of_nat 2) with (b_pos b + 2) by lia.
  reflexivity.
Qed.

(** Decoding the transcoded buffer gives the tuples of the source, with
    their values as [struct] hands them on: for a directory of supported
    entries, small enough for 32-bit offsets. *)
Theorem transcode_roundtrip (tiff : list byte) (ents : list entry) :
  read_directory tiff = Some ents ->
  Forall supported ents ->
  10 + 12 * len ents + relocated_size ents < 2 ^ 32 ->
  exists out,
    transcode tiff = inr out
    /\ read_directory out = Some (map as_unpacked ents).
Proof.
  intros Hdir Hsup Hsize. unfold read_directory in Hdir.
  destruct (read_header tiff) as [[e off]|] eqn:Hh; [|discriminate].
  destruct (read_count e tiff off) as [n|] eqn:Hc; [|discriminate].
  pose proof (read_header_offset tiff e off Hh) as Ro.
  destruct (process_tags_unfold tiff e off n (mkBytesIO canonical_header 8) 8
              (proj1 Ro) Hc) as (Run & Rn).
  destruct (read_entries_nth e tiff (off + 2) n ents Hdir) as (Ln & Hnth).
  assert (Hlen : len ents = n) by (unfold len; lia).
  rewrite Hlen in Hsize.
  cbn [b_pos] in Run. change (8 + 2) with 10 in Run.
  set (buffer := slice (off + 2) (off + 2 + n * 12) tiff) in *.
  assert (Lb : len buffer = 12 * n).
  { unfold buffer. destruct (Z.eq_dec n 0) as [->|Nz].
    - rewrite len_slice by lia. pose proof (len_nonneg tiff). lia.
    - destruct (Hnth (n - 1)) as (ent & _ & R); [lia|].
      destruct (read_entry_inv _ _ _ _ R) as (_ & _ & L & _).
      rewrite len_slice in L by lia. rewrite len_slice by lia. lia. }
  rewrite Lb in Run.
  assert (Hents : forall i, 0 <= i < n ->
            exists ent, nth_error ents (Z.to_nat i) = Some ent
                        /\ read_entry e tiff (off + 2 + 12 * i) = Some ent
                        /\ supported ent).
  { intros i Hi. destruct (Hnth i Hi) as (ent & N & R).
    exists ent. split; [exact N|]. split; [exact R|].
    rewrite Forall_forall in Hsup. apply Hsup.
    now apply nth_error_In with (n := Z.to_nat i). }
  set (st0 := mkTags (b_write (Z_to_le 2 n) (mkBytesIO canonical_header 8))
                (mkFile tiff (off + 2 + 12 * n)) (10 + 12 * n)) in *.
  assert (Inv0 : transcoded tiff n ents (Z.of_nat 0) st0).
  { unfold transcoded, st0. cbn [ts_after ts_tfp ts_b f_data firstn Z.to_nat
                                   Z.of_nat].
    rewrite ?Nat2Z.id. cbn [firstn].
    split; [cbn; lia|]. split; [reflexivity|].
    assert (E : b_buf (b_write (Z_to_le 2 n) (mkBytesIO canonical_header 8))
                = canonical_header ++ Z_to_le 2 n) by reflexivity.
    rewrite E. split.
    { rewrite len_app, len_Z_to_le. change (len canonical_header) with 8.
      lia. }
    split; [reflexivity|].
    intros i Hi. lia. }
  destruct (for_tags_transcoded e tiff off n ents (proj1 Ro) Hsize n
              (Z.le_refl n) Hents (Z.to_nat n) 0%nat st0)
    as (st & Loop & Inv); [lia|exact Inv0|].
  replace (Z.of_nat 0 + Z.of_nat (Z.to_nat n)) with n in Inv by lia.
  replace (slice (off + 2) (off + 2 + 12 * n) tiff) with buffer in Loop
    by (unfold buffer; f_equal; lia).
  fold (range n) in Loop.
  exists (b_buf (ts_b st)). split.
  - unfold transcode. rewrite (process_header_ok tiff e off Hh).
    cbn [bind]. rewrite Run, Loop. reflexivity.
  - destruct Inv as (A & F & (B1 & B2) & H10 & Ents).
    set (out := b_buf (ts_b st)) in *.
    assert (S02 : slice 0 2 out = [x49; x49]).
    { rewrite <- (slice_slice 0 10 0 2) by lia. now rewrite H10. }
    assert (S48 : slice 4 8 out = [x08; x00; x00; x00]).
    { replace (slice 4 8 out) with (slice 4 8 (slice 0 10 out))
        by (rewrite slice_slice by lia; reflexivity).
      now rewrite H10. }
    assert (S810 : slice 8 10 out = Z_to_le 2 n).
    { replace (slice 8 10 out) with (slice 8 10 (slice 0 10 out))
        by (rewrite slice_slice by lia; reflexivity).
      now rewrite H10. }
    unfold read_directory, read_header. rewrite S02.
    cbn [Byte.eqb andb]. change (Byte.eqb x49 x49) with true. cbn [andb].
    rewrite S48. cbn [len List.length Z.of_nat Pos.of_succ_nat Pos.succ Z.eqb
                        Pos.eqb bytes_to_Z].
    change (le_to_Z [x08; x00; x00; x00]) with 8.
    unfold read_count. change (8 + 2) with 10. rewrite S810, len_Z_to_le.
    cbn [Z.of_nat Pos.of_succ_nat Pos.succ Z.eqb Pos.eqb bytes_to_Z].
    rewrite le_to_Z_to_le by (cbn; lia).
    unfold read_entries. apply all_some_intro.
    + rewrite !length_map, range_length. exact Ln.
    + intros k Hk. rewrite length_map, range_length in Hk.
      destruct (Ents (Z.of_nat k)) as (ent & N & R & _); [lia|].
      exists ent. rewrite Nat2Z.id in N. split; [|exact N].
      rewrite nth_error_map, range_nth by lia. cbn [option_map].
      now rewrite R.
Qed.

(** What the entries of index [m] and more leave as it was. *)
Lemma for_tags_frame (e : endian) (buffer : list byte) (start m : Z)
    (idxs : list Z) :
  0 <= start -> 0 <= m -> Forall (fun i => m <= i) idxs ->
  forall st st',
    for_tags (process_tag e buffer start) idxs st = inr st' ->
    start + len buffer <= ts_after st ->
    ts_after st <= ts_after st'
    /\ len (b_buf (ts_b st)) <= len (b_buf (ts_b st'))
    /\ same_slices 0 (Z.min (start + m * 12) (len (b_buf (ts_b st))))
         (b_buf (ts_b st)) (b_buf (ts_b st')).
Proof.
  intros Hs Hm. induction 1 as [|i idxs Hi Hall IH]; intros st st' Run Ha.
  - cbn in Run. inversion Run; subst st'.
    split; [lia|]. split; [lia|]. intros a b _ _. reflexivity.
  - cbn [for_tags] in Run.
    destruct (process_tag e buffer start st i) as [|st1] eqn:P;
      [discriminate|].
    cbn [bind] in Run.
    destruct (process_tag_frame e buffer start i st st1 P Hs)
      as (A1 & L1 & _ & F1 & _); [lia|exact Ha|].
    destruct (IH st1 st' Run) as (A2 & L2 & F2); [lia|].
    split; [lia|]. split; [lia|].
    intros a b Ha' Hb. rewrite F2 by lia. apply F1; lia.
Qed.

(** The loop of [_process_tags], cut at the entry [idx]. *)
Lemma for_tags_split (e : endian) (buffer : list byte) (n idx : Z)
    (st0 st : tags_state) :
  0 <= idx < n -> 10 + len buffer <= ts_after st0 ->
  for_tags (process_tag e buffer 10) (range n) st0 = inr st ->
  exists st1 st2,
    for_tags (process_tag e buffer 10) (range idx) st0 = inr st1
    /\ 10 + len buffer <= ts_after st1
    /\ process_tag e buffer 10 st1 idx = inr st2
    /\ len (b_buf (ts_b st2)) <= len (b_buf (ts_b st))
    /\ same_slices 0 (Z.min (10 + (idx + 1) * 12) (len (b_buf (ts_b st2))))
         (b_buf (ts_b st2)) (b_buf (ts_b st)).
Proof.
  intros Hi Ha Run.
  destruct (range_split n idx Hi) as (rest & E & Hrest).
  rewrite E, for_tags_app in Run.
  destruct (for_tags _ (range idx) st0) as [|st1] eqn:R1; [discriminate|].
  cbn [bind for_tags] in Run.
  destruct (process_tag e buffer 10 st1 idx) as [|st2] eqn:P; [discriminate|].
  cbn [bind] in Run.
  assert (A1 : 10 + len buffer <= ts_after st1).
  { destruct (for_tags_frame e buffer 10 0 (range idx)) with (st := st0)
      (st' := st1) as (A & _); try lia; try assumption.
    apply Forall_forall. intros i Hin. unfold range in Hin.
    apply in_map_iff in Hin. destruct Hin as (k & <- & _). lia. }
  destruct (process_tag_frame e buffer 10 idx st1 st2 P)
    as (A2 & _); try lia.
  destruct (for_tags_frame e buffer 10 (idx + 1) rest) with (st := st2)
    (st' := st) as (_ & L3 & F3); try lia; try assumption.
  exists st1, st2. auto 10.
Qed.

(** The loop of [_process_tags], stopped by the entry [idx]. *)
Lemma for_tags_stop (e : endian) (buffer : list byte) (n idx : Z)
    (st0 st1 : tags_state) (err : exn) :
  0 <= idx < n ->
  for_tags (process_tag e buffer 10) (range idx) st0 = inr st1 ->
  process_tag e buffer 10 st1 idx = inl err ->
  for_tags (process_tag e buffer 10) (range n) st0 = inl err.
Proof.
  intros Hi R1 P.
  destruct (range_split n idx Hi) as (rest & E & _).
  rewrite E, for_tags_app, R1. cbn [bind for_tags]. now rewrite P.
Qed.

(** The transcoder, when the header and the count are read. *)
Lemma transcode_unfold (tiff : list byte) (e : endian) (off n : Z) :
  read_header tiff = Some (e, off) -> read_count e tiff off = Some n ->
  transcode tiff
  = (st <- for_tags
             (process_tag e (slice (off + 2) (off + 2 + n * 12) tiff) 10)
             (range n)
             (mkTags (mkBytesIO (canonical_header ++ Z_to_le 2 n) 10)
                (mkFile tiff
                   (off + 2 + len (slice (off + 2) (off + 2 + n * 12) tiff)))
                (10 + len (slice (off + 2) (off + 2 + n * 12) tiff))) ;;
     ret (b_buf (ts_b st))).
Proof.
  intros Hh Hc. pose proof (read_header_offset tiff e off Hh) as Ro.
  destruct (process_tags_unfold tiff e off n (mkBytesIO canonical_header 8) 8
              (proj1 Ro) Hc) as (Run & Rn).
  unfold transcode. rewrite (process_header_ok tiff e off Hh).
  cbn [bind]. rewrite Run. cbn [b_pos]. change (8 + 2) with 10.
  assert (E : b_write (Z_to_le 2 n) (mkBytesIO canonical_header 8)
              = mkBytesIO (canonical_header ++ Z_to_le 2 n) 10) by reflexivity.
  rewrite E.
  destruct (for_tags _ _ _) as [err|st]; reflexivity.
Qed.

(** ** The claims on the metadata transcoder *)

Lemma inr_inj {A B} (a b : B) : @inr A B a = inr b -> a = b.
Proof. intros H. now inversion H. Qed.

Lemma unpack_BB (d0 d1 : byte) :
  unpack "BB" (Bytes [d0; d1])
  = ret [VInt (byte_to_Z d0); VInt (byte_to_Z d1)].
Proof.
  unfold unpack. cbn. unfold decode. cbn. rewrite !Z.add_0_r. reflexivity.
Qed.

Lemma header_tail_not_NameError (o : endian) (buffer : list byte)
    (b : bytesio) (tfp : file) :
  (vo <- unpack (endian_char o ++ "HI") (Bytes (slice 2 8 buffer)) ;;
   match vo with
   | [_; VInt offset] =>
       let tfp := f_seek offset tfp in
       data <- pack "<BBHI" [VInt 73; VInt 73; VInt 42; VInt 8] ;;
       let b := b_write data b in
       ret (o, b, tfp)
   | _ => raise ValueError
   end) <> inl (NameError "read_buffer").
Proof.
  destruct (unpack _ _) as [e|vo] eqn:E; cbn [bind].
  - apply unpack_exn in E. destruct E; subst; discriminate.
  - destruct vo as [|v0 [|[z|n z] [|v2 vo]]]; cbn; discriminate.
Qed.

(** C7.  [_process_header] raises [NameError] for the unbound name
    [read_buffer], and not an error with a message naming the two bytes,
    if and only if the first two bytes of the file are neither [0x49 0x49]
    nor [0x4D 0x4D]. *)
Theorem process_header_NameError (b : bytesio) (d0 d1 : byte)
    (rest : list byte) :
  _process_header b (mkFile (d0 :: d1 :: rest) 0)
  = inl (NameError "read_buffer")
  <-> (d0, d1) <> (x49, x49) /\ (d0, d1) <> (x4d, x4d).
Proof.
  unfold _process_header.
  cbn [f_read f_pos f_data].
  replace (slice 0 2 (slice 0 (0 + 8) (d0 :: d1 :: rest))) with [d0; d1]
    by reflexivity.
  rewrite unpack_BB. cbn [bind ret].
  assert (I : forall d c, (byte_to_Z d =? byte_to_Z c) = true <-> d = c).
  { intros d c. rewrite Z.eqb_eq. split; [apply byte_to_Z_inj | now intros ->]. }
  change 73 with (byte_to_Z x49). change 77 with (byte_to_Z x4d).
  destruct (byte_to_Z d0 =? byte_to_Z x49) eqn:E0;
    destruct (byte_to_Z d1 =? byte_to_Z x49) eqn:E1; cbn [andb].
  1: { apply I in E0, E1. subst. split.
       - intros H. now apply header_tail_not_NameError in H.
       - intros [H _]. now elim H. }
  all: destruct (byte_to_Z d0 =? byte_to_Z x4d) eqn:F0;
    destruct (byte_to_Z d1 =? byte_to_Z x4d) eqn:F1; cbn [andb bind raise].
  all: try (apply I in F0, F1; subst; split;
            [ intros H; now apply header_tail_not_NameError in H
            | intros [_ H]; now elim H ]).
  all: split; [intros _ | reflexivity].
  all: split; intros H; inversion H; subst;
       rewrite ?Z.eqb_refl in *; discriminate.
Qed.

(** The transcoder on a file that starts with two null bytes. *)
Example bad_marker_NameError :
  transcode Samples.bad_marker_file = inl (NameError "read_buffer").
Proof. reflexivity. Qed.

(** C1.  The directory of [Samples.byte_file] has one entry, of one byte:
    a reader decodes it, and the transcoder raises [TypeError] on it, as
    it hands the byte itself, an [int], to [struct.unpack]. *)
Theorem one_byte_entry_not_transcoded :
  read_directory Samples.byte_file = Some [mkEntry 270 2 1 [VInt 0]]
  /\ transcode Samples.byte_file = inl TypeError.
Proof. split; reflexivity. Qed.

(** The round trip on a big-endian file with values inside and outside
    the entries. *)
Example big_file_roundtrip :
  exists out, transcode Samples.big_file = inr out
              /\ read_directory out = read_directory Samples.big_file.
Proof. eexists. split; reflexivity. Qed.

(** C4, as stated, fails: the entry of [Samples.pair_file] has two values
    of one byte; the transcoder writes them as two bytes, and what the
    buffer holds in the place of the 4-byte field is the encoding of no
    32-bit value. *)
Lemma pair_not_widened :
  exists out, transcode Samples.pair_file = inr out
              /\ payload_length (mkEntry 270 2 2 [VInt 65; VInt 0]) = 2
              /\ forall v, slice 18 22 out <> Z_to_le 4 v.
Proof.
  eexists. split; [reflexivity|]. split; [reflexivity|].
  intros v H. apply (f_equal (@List.length byte)) in H.
  rewrite Z_to_le_length in H. discriminate H.
Qed.

(** C4, amended.  An entry of one unsigned short (type 3, count 1) is
    written with its tag, type and count as they are, and with its value
    as an unsigned 32-bit integer, little-endian, in the 4 bytes of the
    field. *)
Theorem short_value_widened (tiff out : list byte) (e : endian)
    (off n idx : Z) :
  read_header tiff = Some (e, off) -> read_count e tiff off = Some n ->
  0 <= idx < n ->
  let rc := slice (off + 2 + 12 * idx) (off + 2 + 12 * idx + 12) tiff in
  len rc = 12 -> rec_type e rc = 3 -> rec_count e rc = 1 ->
  transcode tiff = inr out ->
  let rc' := slice (10 + 12 * idx) (10 + 12 * idx + 12) out in
  rec_tag Little rc' = rec_tag e rc
  /\ rec_type Little rc' = rec_type e rc
  /\ rec_count Little rc' = rec_count e rc
  /\ slice 8 12 rc' = Z_to_le 4 (bytes_to_Z e (slice 8 10 rc)).
Proof.
  intros Hh Hc Hi rc L Ht Hn Run rc'.
  pose proof (read_header_offset tiff e off Hh) as Ro.
  rewrite (transcode_unfold tiff e off n Hh Hc) in Run.
  set (buffer := slice (off + 2) (off + 2 + n * 12) tiff) in *.
  destruct (for_tags _ _ _) as [|st] eqn:Loop; [discriminate|].
  cbn [bind ret] in Run. inversion Run; subst out; clear Run.
  pose proof (fun A => for_tags_split e buffer n idx _ st Hi A Loop) as X.
  destruct X as (st1 & st2 & R1 & A1 & P & L3 & F3); [cbn [ts_after]; lia|].
  assert (Hrec : slice (idx * 12) ((idx + 1) * 12) buffer = rc).
  { unfold buffer. replace (n * 12) with (12 * n) by lia.
    apply directory_record; lia. }
  rewrite (process_tag_short e buffer 10 idx st1 rc Hrec L Ht Hn) in P.
  apply inr_inj in P. subst st2. cbn [ts_b] in L3, F3.
  destruct (rec_ranges e rc L) as (T1 & T2 & T3 & T4).
  set (v := bytes_to_Z e (slice 8 10 rc)) in *.
  set (hdr := Z_to_le 2 (rec_tag e rc) ++ Z_to_le 2 3 ++ Z_to_le 4 1) in *.
  set (o := Z_to_le 4 v) in *.
  set (slot := 10 + 12 * idx).
  replace (10 + idx * 12) with slot in * by (unfold slot; lia).
  assert (Lh : len hdr = 8).
  { unfold hdr. rewrite !len_app, !len_Z_to_le. lia. }
  assert (Lo : len o = 4) by apply len_Z_to_le.
  assert (Nh : hdr <> []) by (intros X; rewrite X in Lh; discriminate).
  assert (No : o <> []) by (intros X; rewrite X in Lo; discriminate).
  set (buf2 := b_buf (b_write o (b_write hdr
                                   (mkBytesIO (b_buf (ts_b st1)) slot)))) in *.
  assert (Sl : slice slot (slot + 12) buf2 = hdr ++ o).
  { unfold buf2. replace (slot + 12) with (slot + len hdr + len o) by lia.
    apply b_write2_at; (assumption || (unfold slot; lia)). }
  assert (L2 : slot + 12 <= len buf2).
  { assert (X : len (slice slot (slot + 12) buf2) = 12)
      by (rewrite Sl, len_app; lia).
    rewrite len_slice in X by (unfold slot; lia). lia. }
  assert (S : rc' = hdr ++ o).
  { unfold rc'. fold slot. rewrite F3; [exact Sl | unfold slot; lia |].
    replace ((idx + 1) * 12) with (12 * idx + 12) by lia. fold slot. lia. }
  destruct (written_fields (rec_tag e rc) 3 1 o)
    as (W1 & W2 & W3 & W4 & W5); try lia.
  rewrite S. unfold hdr. rewrite <- !app_assoc.
  rewrite W1, W2, W3, W4, Ht, Hn. auto.
Qed.

Lemma short_value_widened_witness :
  let out := [x49; x49; x2a; x00; x08; x00; x00; x00; x01; x00;
              x00; x01; x03; x00; x01; x00; x00; x00; x10; x00; x00; x00] in
  transcode Samples.short_file = inr out
  /\ slice 8 12 (slice 10 22 out) = Z_to_le 4 16.
Proof.
  split; [reflexivity|].
  apply (short_value_widened Samples.short_file _ Little 8 1 0);
    solve [reflexivity | lia].
Defined.

(** The codes of the table of types. *)
Lemma tag_dtype_None (code : Z) :
  tag_dtype code = None
  <-> ~ In code [1; 2; 3; 4; 5; 7; 9; 10; 11; 12; 13; 16; 17; 18].
Proof.
  split.
  - intros H Hin. cbn [In] in Hin.
    repeat (destruct Hin as [<-|Hin]; [discriminate H|]). exact Hin.
  - intros H. destruct (tag_dtype code) as [d|] eqn:E; [|reflexivity].
    exfalso. apply H. clear H. unfold tag_dtype in E. cbn [In].
    destruct code as [|p|p]; try discriminate.
    repeat (destruct p as [p|p|]; try discriminate); tauto.
Qed.

Lemma passes_ret {A} (a : A) : passes (ret a).
Proof. exact I. Qed.

Lemma passes_bind {A B} (m : result A) (f : A -> result B) :
  passes m -> (forall a, passes (f a)) -> passes (bind m f).
Proof. destruct m as [e|a]; cbn; auto. Qed.

(** The transcoder raises no [RuntimeError]: the errors it ends with are
    those of [struct], of the lookup in the table, and of the name that is
    not bound. *)
Lemma passes_unpack (fmt : string) (buf : buffer_arg) :
  passes (unpack fmt buf).
Proof.
  destruct (unpack fmt buf) as [err|v] eqn:E; [|exact I].
  destruct (unpack_exn _ _ _ E); subst; exact I.
Qed.

Lemma passes_pack (fmt : string) (vs : list value) : passes (pack fmt vs).
Proof.
  destruct (pack fmt vs) as [err|v] eqn:E; [|exact I].
  rewrite (pack_exn _ _ _ E). exact I.
Qed.

Lemma passes_process_tag (e : endian) (buffer : list byte) (start : Z)
    (st : tags_state) (idx : Z) :
  passes (process_tag e buffer start st idx).
Proof.
  unfold process_tag. apply passes_bind; [apply passes_unpack|intros hd].
  destruct hd as [|[tag|] [|[dtype|] [|[nvalues|] [|]]]]; try exact I.
  apply passes_bind; [unfold tag_dtype_get; destruct (tag_dtype dtype);
                      exact I|intros d].
  destruct (nbytes d * nvalues >? 4).
  - apply passes_bind; [apply passes_unpack|intros vo].
    destruct vo as [|[offset|] [|]]; try exact I.
    unfold f_read. cbv zeta.
    apply passes_bind; [apply passes_unpack|intros payload].
    apply passes_bind; [apply passes_pack|intros outbuffer].
    apply passes_bind; [apply passes_pack|intros outbuffer'].
    exact I.
  - apply passes_bind.
    { destruct (nbytes d * nvalues =? 1);
        [destruct (nth_error _ 8); exact I|].
      destruct (nbytes d * nvalues =? 2); exact I. }
    intros payload_buffer.
    apply passes_bind; [apply passes_unpack|intros payload].
    apply passes_bind; [apply passes_pack|intros outbuffer].
    apply passes_bind; [apply passes_pack|intros outbuffer'].
    exact I.
Qed.

Lemma passes_for_tags (e : endian) (buffer : list byte) (start : Z)
    (idxs : list Z) :
  forall st, passes (for_tags (process_tag e buffer start) idxs st).
Proof.
  induction idxs as [|idx idxs IH]; intros st; cbn [for_tags]; [exact I|].
  apply passes_bind; [apply passes_process_tag|exact IH].
Qed.

Lemma passes_transcode (tiff : list byte) : passes (transcode tiff).
Proof.
  unfold transcode. apply passes_bind.
  - unfold _process_header, f_read. cbv zeta.
    apply passes_bind; [apply passes_unpack|intros data].
    apply passes_bind.
    { destruct data as [|[d0|] [|[d1|] [|]]]; try exact I.
      destruct (_ && _); [exact I|]. destruct (_ && _); exact I. }
    intros o. apply passes_bind; [apply passes_unpack|intros vo].
    destruct vo as [|v0 [|[offset|] [|]]]; exact I.
  - intros [[o b] tfp]. apply passes_bind; [|intros [b' tfp']; exact I].
    unfold _process_tags, f_read. cbv zeta.
    apply passes_bind; [apply passes_unpack|intros vn].
    destruct vn as [|[num_tags|] [|]]; try exact I.
    apply passes_bind; [apply passes_pack|intros write_buffer].
    apply passes_bind; [apply passes_for_tags|intros st]. exact I.
Qed.

(** C8, as stated, fails: the second entry of [Samples.sbyte_file] and of
    [Samples.byte_sbyte_file] has the type 6, which the table does not
    have.  The transcoder ends the first with the [KeyError] of the
    lookup, and the second with the [TypeError] of the entry before it:
    in neither case with an error that tells of an unsupported type. *)
Lemma unknown_type_no_FormatError :
  rec_type Little (slice 22 34 Samples.sbyte_file) = 6
  /\ rec_type Little (slice 22 34 Samples.byte_sbyte_file) = 6
  /\ tag_dtype 6 = None
  /\ transcode Samples.sbyte_file = inl (KeyError 6)
  /\ transcode Samples.byte_sbyte_file = inl TypeError.
Proof. repeat split. Qed.

(** C8, amended.  When an entry of the directory has a type code that is
    not in the table [tag_dtype], the transcoder returns no buffer; the
    error it ends with is no [RuntimeError].  When the entries before that
    entry are supported ones, the error is the [KeyError] of the lookup in
    the table, which carries the type code. *)
Theorem unknown_type_KeyError (tiff : list byte) (e : endian)
    (off n idx : Z) :
  read_header tiff = Some (e, off) -> read_count e tiff off = Some n ->
  off + 2 + 12 * n <= len tiff -> 0 <= idx < n ->
  let rc := slice (off + 2 + 12 * idx) (off + 2 + 12 * idx + 12) tiff in
  ~ In (rec_type e rc) [1; 2; 3; 4; 5; 7; 9; 10; 11; 12; 13; 16; 17; 18] ->
  (exists err, transcode tiff = inl err /\ not_RuntimeError err)
  /\ (forall ents,
        read_entries e tiff (off + 2) idx = Some ents ->
        Forall supported ents ->
        10 + 12 * n + relocated_size ents < 2 ^ 32 ->
        transcode tiff = inl (KeyError (rec_type e rc))).
Proof.
  intros Hh Hc Hfile Hi rc Hty. apply tag_dtype_None in Hty.
  pose proof (read_header_offset tiff e off Hh) as Ro.
  pose proof (passes_transcode tiff) as Pt.
  rewrite (transcode_unfold tiff e off n Hh Hc) in Pt |- *.
  set (buffer := slice (off + 2) (off + 2 + n * 12) tiff) in *.
  assert (Lb : len buffer = 12 * n).
  { unfold buffer. rewrite len_slice by lia. lia. }
  assert (L : len rc = 12) by (unfold rc; rewrite len_slice by lia; lia).
  assert (Hrec : slice (idx * 12) ((idx + 1) * 12) buffer = rc).
  { unfold buffer. replace (n * 12) with (12 * n) by lia.
    apply directory_record; lia. }
  set (st0 := mkTags _ _ _) in *.
  split.
  - destruct (for_tags _ _ st0) as [err|st] eqn:Loop;
      [exists err; split; [reflexivity|exact Pt]|exfalso].
    pose proof (fun A => for_tags_split e buffer n idx st0 st Hi A Loop) as X.
    destruct X as (st1 & st2 & _ & _ & P & _); [cbn [st0 ts_after]; lia|].
    rewrite (process_tag_unknown e buffer 10 idx st1 rc Hrec L Hty) in P.
    discriminate P.
  - intros ents Hents Hsup Hsize.
    destruct (read_entries_nth e tiff (off + 2) idx ents Hents) as (Ln & Hnth).
    assert (Inv0 : transcoded tiff n ents (Z.of_nat 0) st0).
    { unfold transcoded, st0.
      cbn [ts_after ts_tfp ts_b f_data b_buf Z.of_nat Z.to_nat firstn].
      rewrite Lb. split; [cbn; lia|]. split; [reflexivity|].
      split.
      { rewrite len_app, len_Z_to_le. change (len canonical_header) with 8.
        lia. }
      split; [reflexivity|]. intros i Hi'. lia. }
    assert (Hall : forall i, 0 <= i < idx ->
              exists ent, nth_error ents (Z.to_nat i) = Some ent
                          /\ read_entry e tiff (off + 2 + 12 * i) = Some ent
                          /\ supported ent).
    { intros i Hi'. destruct (Hnth i Hi') as (ent & N & R).
      exists ent. split; [exact N|]. split; [exact R|].
      rewrite Forall_forall in Hsup. apply Hsup.
      now apply nth_error_In with (n := Z.to_nat i). }
    pose proof (fun H1 H2 =>
                  for_tags_transcoded e tiff off n ents (proj1 Ro) Hsize idx
                    H1 Hall (Z.to_nat idx) 0%nat st0 H2 Inv0) as X.
    destruct X as (st1 & Loop & _); try lia.
    replace (slice (off + 2) (off + 2 + 12 * n) tiff) with buffer in Loop
      by (unfold buffer; f_equal; lia).
    fold (range idx) in Loop.
    rewrite (for_tags_stop e buffer n idx st0 st1 _ Hi Loop
               (process_tag_unknown e buffer 10 idx st1 rc Hrec L Hty)).
    reflexivity.
Qed.

Lemma unknown_type_KeyError_witness :
  transcode Samples.sbyte_file = inl (KeyError 6).
Proof.
  apply (proj2 (unknown_type_KeyError Samples.sbyte_file Little 8 2 1
                  eq_refl eq_refl ltac:(discriminate) ltac:(lia)
                  ltac:(cbn; intuition discriminate))
           [mkEntry 256 3 1 [VInt 16]]).
  - reflexivity.
  - constructor; [right; split; reflexivity | constructor].
  - reflexivity.
Defined.

(** The transcoder returns a buffer only for a header and a count it can
    read, and the buffer starts with the canonical header and the count. *)
Lemma transcode_inv (tiff out : list byte) :
  transcode tiff = inr out ->
  exists e off n,
    read_header tiff = Some (e, off) /\ read_count e tiff off = Some n
    /\ slice 0 8 out = canonical_header /\ slice 8 10 out = Z_to_le 2 n.
Proof.
  intros Run.
  assert (Hh : exists e off, read_header tiff = Some (e, off)).
  { unfold transcode, _process_header in Run. cbn [f_read f_pos f_data] in Run.
    set (buffer := slice 0 (0 + 8) tiff) in *.
    destruct (unpack "BB" _) as [|data] eqn:U; [discriminate|].
    unfold unpack in U. cbn [split_order codes code_info Ascii.eqb Bool.eqb]
      in U.
    destruct (len (slice 0 2 buffer) =? _) eqn:L2; [|discriminate].
    apply Z.eqb_eq in L2. change (calcsize _) with 2 in L2.
    cbn [bind] in Run.
    destruct (match data with [VInt d0; VInt d1] => _ | _ => _ end)
      as [|o] eqn:M; [discriminate|].
    cbn [bind] in Run.
    destruct (unpack _ (Bytes (slice 2 8 buffer))) as [|vo] eqn:U2;
      [discriminate|].
    rewrite unpack_bytes with (cs := [(2%nat, KUnsigned); (4%nat, KUnsigned)])
      in U2 by reflexivity.
    destruct (len (slice 2 8 buffer) =? _) eqn:L6; [|discriminate].
    apply Z.eqb_eq in L6. change (calcsize _) with 6 in L6.
    unfold buffer in L6. rewrite !len_slice in L6 by lia.
    assert (L8 : 8 <= len tiff) by lia. unfold len in L8.
    destruct tiff as [|t0 [|t1 [|t2 [|t3 [|t4 [|t5 [|t6 [|t7 rest]]]]]]]];
      try (cbn in L8; lia).
    cbn in U. inversion U; subst data; clear U.
    unfold decode in M. cbn [fst snd bytes_to_Z le_to_Z] in M.
    rewrite ?Z.mul_0_r, ?Z.add_0_r in M.
    unfold read_header.
    change (slice 0 2 (t0 :: t1 :: t2 :: t3 :: t4 :: t5 :: t6 :: t7 :: rest))
      with [t0; t1].
    change (slice 4 8 (t0 :: t1 :: t2 :: t3 :: t4 :: t5 :: t6 :: t7 :: rest))
      with [t4; t5; t6; t7].
    change (len [t4; t5; t6; t7] =? 4) with true. cbv iota.
    change 73 with (byte_to_Z x49) in M. change 77 with (byte_to_Z x4d) in M.
    assert (I : forall d c, (byte_to_Z d =? byte_to_Z c) = Byte.eqb d c).
    { intros d c. destruct (Byte.eqb d c) eqn:E.
      - apply Byte.byte_dec_bl in E. subst. apply Z.eqb_refl.
      - apply Z.eqb_neq. intros X. apply byte_to_Z_inj in X. subst.
        rewrite (Byte.byte_dec_lb (eq_refl c)) in E. discriminate. }
    rewrite !I in M.
    destruct (Byte.eqb t0 x49 && Byte.eqb t1 x49); [eauto|].
    destruct (Byte.eqb t0 x4d && Byte.eqb t1 x4d);
      [eauto|unfold raise in M; discriminate M]. }
  destruct Hh as (e & off & Hh).
  pose proof (read_header_offset tiff e off Hh) as Ro.
  assert (Hc : exists n, read_count e tiff off = Some n).
  { unfold transcode in Run. rewrite (process_header_ok tiff e off Hh) in Run.
    cbn [bind] in Run. unfold _process_tags, f_read in Run.
    cbn [f_pos f_data] in Run.
    destruct (unpack _ _) as [|vn] eqn:U; [discriminate|].
    rewrite unpack_bytes with (cs := [(2%nat, KUnsigned)]) in U by reflexivity.
    destruct (len (slice off (off + 2) tiff) =? _) eqn:L2; [|discriminate].
    change (calcsize _) with 2 in L2.
    unfold read_count. rewrite L2. eauto. }
  destruct Hc as (n & Hc).
  exists e, off, n. split; [exact Hh|]. split; [exact Hc|].
  rewrite (transcode_unfold tiff e off n Hh Hc) in Run.
  set (buffer := slice (off + 2) (off + 2 + n * 12) tiff) in *.
  destruct (for_tags _ _ _) as [|st] eqn:Loop; [discriminate|].
  cbn [bind ret] in Run. apply inr_inj in Run. subst out.
  assert (Hge : Forall (fun i => 0 <= i) (range n)).
  { apply Forall_forall. intros i Hin. unfold range in Hin.
    apply in_map_iff in Hin. destruct Hin as (k & <- & _). lia. }
  pose proof (fun A B C => for_tags_frame e buffer 10 0 (range n) A B Hge
                             _ st Loop C) as X.
  destruct X as (_ & L1 & F1); try lia.
  { cbn [ts_after]. lia. }
  cbn [ts_b b_buf] in L1, F1.
  assert (L10 : len (canonical_header ++ Z_to_le 2 n) = 10)
    by (rewrite len_app, len_Z_to_le; reflexivity).
  rewrite L10 in F1, L1.
  split; rewrite F1 by lia; reflexivity.
Qed.

(** * The raster remapper *)

Import Remap.

(** ** The pre-flight checks *)

Create HintDb passes.

Lemma io_passes_ret {A} (a : A) : io_passes (io_ret a).
Proof. exact I. Qed.

Lemma io_passes_lift {A} (r : result A) : passes r -> io_passes (lift r).
Proof. auto. Qed.

Lemma io_passes_bind {A B} (m : io A) (f : A -> io B) :
  io_passes m -> (forall a, io_passes (f a)) -> io_passes (io_bind m f).
Proof.
  unfold io_passes, io_bind. destruct m as [tr [e|a]]; cbn; [auto|].
  intros _ H. specialize (H a). destruct (f a) as [tr' r]. exact H.
Qed.

Lemma io_passes_emit (e : event) : io_passes (emit e).
Proof. exact I. Qed.

Lemma passes_np_zeros (r c s : Z) : passes (np_zeros r c s).
Proof. unfold np_zeros. destruct (_ || _); exact I. Qed.

Lemma passes_floordiv (a b : Z) : passes (floordiv a b).
Proof. unfold floordiv. destruct (b =? 0); exact I. Qed.

Lemma passes_pymod (a b : Z) : passes (pymod a b).
Proof. unfold pymod. destruct (b =? 0); exact I. Qed.

Lemma passes_ceil_div (a b : Z) : passes (ceil_div a b).
Proof. unfold ceil_div. destruct (b =? 0); exact I. Qed.

Lemma passes_is_partial (a b : Z) : passes (is_partial a b).
Proof. unfold is_partial. destruct (b =? 0); exact I. Qed.

Lemma passes_local {A} (name : string) (v : option A) : passes (local name v).
Proof. destruct v; exact I. Qed.

Lemma passes_assign_window (dst : ndarray) (jr jc : Z * Z) (src : ndarray)
    (tr tc : Z * Z) :
  passes (assign_window dst jr jc src tr tc).
Proof.
  unfold assign_window.
  destruct (slice_bounds _ jr), (slice_bounds _ jc), (slice_bounds _ tr),
    (slice_bounds _ tc).
  destruct (_ && _); exact I.
Qed.

#[local] Hint Resolve passes_ret passes_bind io_passes_ret io_passes_lift
  io_passes_bind io_passes_emit passes_np_zeros passes_floordiv passes_pymod
  passes_ceil_div passes_is_partial passes_local passes_assign_window
  : passes.

Lemma passes_compute_overlap (jth jtw th tw julr julc tulr tulc : Z) :
  passes (compute_overlap jth jtw th tw julr julc tulr tulc).
Proof.
  unfold compute_overlap. repeat (apply passes_bind; [solve [auto with passes]|intros ?]).
  exact I.
Qed.

Lemma passes_tile_corner (t : tiff) (ntc tilenum : Z) :
  passes (tile_corner t ntc tilenum).
Proof.
  unfold tile_corner. repeat (apply passes_bind; [solve [auto with passes]|intros ?]).
  exact I.
Qed.

Lemma passes_grid_dimensions (t : tiff) (jth jtw : Z) :
  passes (grid_dimensions t jth jtw).
Proof.
  unfold grid_dimensions.
  repeat (apply passes_bind; [solve [auto with passes]|intros ?]). exact I.
Qed.

#[local] Hint Resolve passes_compute_overlap passes_tile_corner
  passes_grid_dimensions : passes.

Lemma io_passes_read (t : tiff) (use_rgba : bool) (x y n : Z)
    (v : vars) :
  io_passes
    (if use_rgba
     then io_bind (readRGBATile t x y (rgba_buf v))
            (fun rgba_tile => io_ret (flipud (take_chan rgba_tile 3), rgba_tile))
     else io_bind (readEncodedTile t n (tiff_buf v))
            (fun tiff_tile => io_ret (tiff_tile, rgba_buf v))).
Proof. destruct use_rgba; exact I. Qed.

Lemma io_passes_tiled_cols (t : tiff) (jth jtw : Z) (rgba : bool) (ntc : Z)
    (fuel : nat) :
  forall julr julc r c tilenum tulr tulc v,
    io_passes (tiled_cols t jth jtw rgba ntc fuel julr julc r c tilenum
                 tulr tulc v).
Proof.
  induction fuel as [|fuel IH]; intros; cbn [tiled_cols]; [exact I|].
  apply io_passes_bind; [auto with passes|intros q].
  destruct (_ <? _); [|exact I].
  apply io_passes_bind; [apply io_passes_read|intros bufs].
  apply io_passes_bind; [auto with passes|intros o].
  apply io_passes_bind; [auto with passes|intros tile].
  apply io_passes_bind; [auto with passes|intros corner].
  apply IH.
Qed.

Lemma io_passes_tiled_rows (t : tiff) (jth jtw : Z) (rgba : bool) (ntc : Z)
    (fuel : nat) :
  forall julr julc r v,
    io_passes (tiled_rows t jth jtw rgba ntc fuel julr julc r v).
Proof.
  induction fuel as [|fuel IH]; intros; cbn [tiled_rows]; [exact I|].
  apply io_passes_bind; [auto with passes|intros q].
  destruct (_ <? _); [|exact I].
  apply io_passes_bind; [auto with passes|intros corner].
  apply io_passes_bind; [apply io_passes_tiled_cols|intros v'].
  apply IH.
Qed.

Lemma io_passes_striped_rows (t : tiff) (jth jtw : Z) (rgba : bool)
    (fuel : nat) :
  forall julr julc r v,
    io_passes (striped_rows t jth jtw rgba fuel julr julc r v).
Proof.
  induction fuel as [|fuel IH]; intros; cbn [striped_rows]; [exact I|].
  apply io_passes_bind; [auto with passes|intros q].
  destruct (_ <? _); [|exact I].
  destruct (_ >=? _); [exact I|].
  apply io_passes_bind; [destruct rgba; exact I|intros bufs].
  apply io_passes_bind; [auto with passes|intros o].
  apply io_passes_bind; [auto with passes|intros tile].
  apply IH.
Qed.

Lemma io_passes_for_each (body : vars -> Z -> io vars) (xs : list Z) :
  (forall v x, io_passes (body v x)) ->
  forall v, io_passes (for_each body xs v).
Proof.
  intros H. induction xs as [|x xs IH]; intros v; cbn [for_each]; [exact I|].
  apply io_passes_bind; auto.
Qed.

Lemma passes_tiled_crop (t : tiff) (jth jtw nr nc : Z) (pr pc : bool)
    (row col : Z) (v : vars) :
  passes (tiled_crop t jth jtw nr nc pr pc row col v).
Proof.
  unfold tiled_crop. apply passes_bind.
  - destruct (_ && _); [|exact I].
    apply passes_bind; [auto with passes|intros; exact I].
  - intros tile. destruct (_ && _); [|exact I].
    apply passes_bind; [auto with passes|intros; exact I].
Qed.

Lemma passes_striped_crop (t : tiff) (jtw nc : Z) (pr pc : bool)
    (col julr : Z) (v : vars) :
  passes (striped_crop t jtw nc pr pc col julr v).
Proof.
  unfold striped_crop. apply passes_bind.
  - destruct (_ && _); [|exact I].
    apply passes_bind; [auto with passes|intros; exact I].
  - intros tile. destruct pr; [|exact I].
    apply passes_bind; [auto with passes|intros sn].
    destruct (_ =? _); exact I.
Qed.

Lemma io_passes_tiled_branch (t : tiff) (jth jtw : Z) (rgba : bool)
    (nr nc : Z) :
  io_passes (tiled_branch t jth jtw rgba nr nc).
Proof.
  unfold tiled_branch.
  repeat (apply io_passes_bind; [solve [auto with passes]|intros ?]).
  apply io_passes_bind; [|intros; exact I].
  apply io_passes_for_each. intros v idx. unfold tiled_tile.
  repeat (apply io_passes_bind; [solve [auto with passes]|intros ?]).
  apply io_passes_bind; [apply io_passes_tiled_rows|intros v'].
  apply io_passes_bind;
    [apply io_passes_lift, passes_tiled_crop|intros tile].
  apply io_passes_bind; [auto with passes|intros; exact I].
Qed.

Lemma io_passes_striped_branch (t : tiff) (jth jtw : Z) (rgba : bool) :
  io_passes (striped_branch t jth jtw rgba).
Proof.
  unfold striped_branch.
  repeat (apply io_passes_bind; [solve [auto with passes]|intros ?]).
  apply io_passes_bind; [|intros; exact I].
  apply io_passes_for_each. intros v idx. unfold striped_tile.
  repeat (apply io_passes_bind; [solve [auto with passes]|intros ?]).
  apply io_passes_bind; [apply io_passes_striped_rows|intros v'].
  apply io_passes_bind;
    [apply io_passes_lift, passes_striped_crop|intros tile].
  apply io_passes_bind; [auto with passes|intros; exact I].
Qed.

(** The [RuntimeError] left to a source that passes the pre-flight checks
    is that of the writer, for a tile that is larger than the image. *)
Lemma copy_image_RuntimeError (t : tiff) (tilesize : option (Z * Z))
    (msg : string) :
  check_format t = ret tt ->
  snd (copy_image t tilesize) = inl (RuntimeError msg) ->
  exists jth jtw,
    tilesize = Some (jth, jtw)
    /\ (ImageLength t < jth \/ ImageWidth t < jtw).
Proof.
  intros Ck. unfold copy_image. rewrite Ck.
  assert (Step : forall m : io unit,
             snd (io_bind (lift (ret tt)) (fun _ => m)) = snd m).
  { intros [tr r]. reflexivity. }
  rewrite Step. clear Step.
  assert (Lift : forall (A : Type) (r : result A) (f : A -> io unit),
             passes r -> (forall a, io_passes (f a)) ->
             snd (io_bind (lift r) f) <> inl (RuntimeError msg)).
  { intros A r f Pr Pf E. destruct r as [e|a].
    - cbn in E. inversion E; subst e. exact Pr.
    - pose proof (Pf a) as P. unfold lift, io_bind in E.
      destruct (f a) as [tr r]. cbn in E, P. rewrite E in P. exact P. }
  destruct tilesize as [[jth jtw]|].
  - destruct (grid_dimensions t jth jtw) as [e|grid] eqn:G.
    + intros E. exfalso. cbn in E. inversion E; subst e.
      pose proof (passes_grid_dimensions t jth jtw) as P.
      rewrite G in P. exact P.
    + unfold Jp2k.
      destruct ((jth >? ImageLength t) || (jtw >? ImageWidth t)) eqn:C.
      * intros _. exists jth, jtw. split; [reflexivity|].
        apply orb_true_iff in C. rewrite !Z.gtb_ltb, !Z.ltb_lt in C.
        exact C.
      * intros E. exfalso. revert E.
        change (snd (io_bind (lift (ret grid))
                       (fun grid0 =>
                          io_bind (lift (ret tt))
                            (fun _ =>
                               if isTiled t
                               then tiled_branch t jth jtw
                                      ((Photometric t =? Photometric_YCBCR)
                                       || (Photometric t
                                           =? Photometric_PALETTE))
                                      (fst grid0) (snd grid0)
                               else striped_branch t jth jtw
                                      ((Photometric t =? Photometric_YCBCR)
                                       || (Photometric t
                                           =? Photometric_PALETTE)))))
                <> inl (RuntimeError msg)).
        apply Lift; [exact I|intros grid0].
        apply io_passes_bind; [exact I|intros _].
        destruct (isTiled t);
          [apply io_passes_tiled_branch|apply io_passes_striped_branch].
  - intros E. exfalso. revert E.
    apply Lift; [exact I|intros _].
    destruct (RGBAImageOK t); exact I.
Qed.

(** C9.  A source whose sample format is not [UINT], or whose bits per
    sample are neither 8 nor 16, makes [copy_image] raise before any event:
    no pixel data is read.  The error is the [RuntimeError] that names the
    sample format, for each format of the enumeration, or the bits per
    sample.  A source that passes both checks gets none of the two: the
    checks return, and the one [RuntimeError] that [copy_image] can still
    end with is that of the writer, when the tile asked for is higher or
    wider than the image. *)
Theorem preflight_validation (t : tiff) (tilesize : option (Z * Z)) :
  (SampleFormat t <> SampleFormat_UINT
   \/ (BitsPerSample t <> 8 /\ BitsPerSample t <> 16) ->
   exists e, copy_image t tilesize = ([], inl e))
  /\ (forall name, In (name, SampleFormat t) SampleFormat_dir ->
        SampleFormat t <> SampleFormat_UINT ->
        copy_image t tilesize
        = ([], inl (RuntimeError ("The TIFF SampleFormat is " ++ name
                                  ++ ".  Only UINT is supported."))))
  /\ (SampleFormat t = SampleFormat_UINT ->
      BitsPerSample t <> 8 -> BitsPerSample t <> 16 ->
      copy_image t tilesize
      = ([], inl (RuntimeError ("The TIFF BitsPerSample is "
                                ++ str (BitsPerSample t)
                                ++ ".  Only 8 and 16 bits per "
                                ++ "sample are supported."))))
  /\ (SampleFormat t = SampleFormat_UINT ->
      BitsPerSample t = 8 \/ BitsPerSample t = 16 ->
      check_format t = ret tt
      /\ forall msg,
           snd (copy_image t tilesize) = inl (RuntimeError msg) ->
           exists jth jtw,
             tilesize = Some (jth, jtw)
             /\ (ImageLength t < jth \/ ImageWidth t < jtw)).
Proof.
  split; [|split; [|split]].
  - intros H. unfold copy_image, check_format.
    destruct (SampleFormat t =? SampleFormat_UINT) eqn:E; cbn [negb].
    + apply Z.eqb_eq in E. destruct H as [H|[H8 H16]]; [contradiction|].
      apply Z.eqb_neq in H8, H16. rewrite H8, H16. cbn. eauto.
    + destruct (filter _ SampleFormat_dir) as [|kv l]; cbn; eauto.
  - intros name Hin Hsf. unfold copy_image, check_format.
    unfold SampleFormat_dir in Hin. cbn [In] in Hin.
    repeat (destruct Hin as [Hin|Hin];
            [inversion Hin as [[Hn Hv]]; clear Hin; rewrite <- Hv in *;
             try (now elim Hsf); reflexivity|]).
    contradiction.
  - intros Hsf H8 H16. unfold copy_image, check_format.
    rewrite Hsf. apply Z.eqb_neq in H8, H16. rewrite H8, H16. reflexivity.
  - intros Hsf Hb.
    assert (Ck : check_format t = ret tt).
    { unfold check_format. rewrite Hsf.
      replace ((BitsPerSample t =? 8) || (BitsPerSample t =? 16)) with true
        by (symmetry; apply orb_true_iff; rewrite !Z.eqb_eq; exact Hb).
      reflexivity. }
    split; [exact Ck|].
    intros msg. now apply copy_image_RuntimeError.
Qed.

(** The theorem on an image of floating point samples, and on the image
    of 6 columns and 5 rows in strips of 2 rows, of unsigned 8-bit
    samples, for tiles of 2 rows and 6 columns. *)
Lemma preflight_validation_witness :
  copy_image Samples.float_image (Some (4, 4))
  = ([], inl (RuntimeError
                "The TIFF SampleFormat is IEEEFP.  Only UINT is supported."))
  /\ forall msg,
       snd (copy_image Samples.short_strip (Some (2, 6)))
       <> inl (RuntimeError msg).
Proof.
  split.
  - apply (proj1 (proj2 (preflight_validation Samples.float_image
                           (Some (4, 4)))) "IEEEFP"%string).
    + cbn. auto.
    + discriminate.
  - intros msg E.
    destruct (proj2 (proj2 (proj2 (proj2 (preflight_validation
                                            Samples.short_strip
                                            (Some (2, 6)))))
                      eq_refl (or_introl eq_refl)) msg E)
      as (jth & jtw & S & B).
    inversion S; subst jth jtw. cbn in B. lia.
Defined.

(** ** The grid of tiles *)

(** C5.  [copy_image] computes the number of rows of the grid from the
    width of the image and the width of a tile, as it does the number of
    columns: for the image of 16 columns and 32 rows and tiles of 16 by 16
    it finds one row, where [ceil(32 / 16)] is 2. *)
Theorem grid_rows_from_width :
  grid_dimensions Samples.tall_tiled 16 16 = ret (1, 1)
  /\ ceil_div (ImageLength Samples.tall_tiled) 16 = ret 2
  /\ forall t jth jtw,
       grid_dimensions t jth jtw
       = (n <- ceil_div (ImageWidth t) jtw ;; ret (n, n)).
Proof.
  split; [reflexivity|]. split; [reflexivity|].
  intros t jth jtw. unfold grid_dimensions.
  destruct (ceil_div (ImageWidth t) jtw); reflexivity.
Qed.

(** What follows from it in the tiled branch, on the image of 16 columns
    and 40 rows in tiles of 16 by 16: the grid has three rows of one tile,
    the code takes the first row for the last one, cuts the first tile to
    the rows of its overlap with the last tile read, and leaves the third
    tile whole. *)
Example grid_rows_crop :
  get_tilewriters 40 16 16 16 = [0; 1; 2]
  /\ map shape (written_tiles (fst (copy_image Samples.long_tiled
                                      (Some (16, 16)))))
     = [(8, 16, 1); (16, 16, 1); (16, 16, 1)]
  /\ snd (copy_image Samples.long_tiled (Some (16, 16))) = inr tt.
Proof.
  split; [reflexivity|]. split; vm_compute; reflexivity.
Qed.

(** C3.  The image of 40 columns and 16 rows in tiles of 16 by 16 is
    written as two tiles of 16 rows and 32 columns: the second tile is
    clipped by the image to 8 columns, and the tiled branch hands the
    writer 16 columns, those of the overlap with the last tile read.  The
    image of 16 columns and 40 rows in tiles of 8 rows is written as three
    tiles of 16 by 16: the third is clipped by the image to 8 rows, and the
    tiled branch hands the writer 16 rows for it, and 8 rows for the
    first. *)
Theorem tiled_crop_last_overlap :
  (map shape (written_tiles (fst (copy_image Samples.wide_tiled
                                    (Some (16, 32)))))
   = [(16, 32, 1); (16, 16, 1)]
   /\ snd (copy_image Samples.wide_tiled (Some (16, 32))) = inr tt
   /\ Z.min 32 (ImageWidth Samples.wide_tiled - 1 * 32) = 8)
  /\ (map shape (written_tiles (fst (copy_image Samples.long_tiled
                                       (Some (16, 16)))))
      = [(8, 16, 1); (16, 16, 1); (16, 16, 1)]
      /\ snd (copy_image Samples.long_tiled (Some (16, 16))) = inr tt
      /\ Z.min 16 (ImageLength Samples.long_tiled - 0 * 16) = 16
      /\ Z.min 16 (ImageLength Samples.long_tiled - 2 * 16) = 8).
Proof.
  split.
  - split; [vm_compute; reflexivity|]. split; vm_compute; reflexivity.
  - split; [vm_compute; reflexivity|]. repeat split; vm_compute; reflexivity.
Qed.

(** C2.  The tiled palette-color image of one sample per pixel is read
    with the RGBA interface; the tile read has three samples per pixel,
    the tile of the JPEG 2000 file has one, and the assignment of the one
    to the other raises [ValueError] before any tile is written. *)
Theorem tiled_palette_not_copied :
  copy_image Samples.palette_tiled (Some (16, 16))
  = ([ReadRGBATile 0 0], inl ValueError).
Proof. vm_compute. reflexivity. Qed.

(** ** Quotients and remainders *)

Lemma mod_block (d m x : Z) :
  0 < d -> m * d <= x < m * d + d -> x mod d = x - m * d.
Proof.
  intros Hd Hx. symmetry. apply Z.mod_unique with (q := m); lia.
Qed.

Lemma div_block (d m x : Z) :
  0 < d -> m * d <= x < m * d + d -> x / d = m.
Proof.
  intros Hd Hx. symmetry. apply Z.div_unique with (r := x - m * d); lia.
Qed.

Lemma floor_block (d x : Z) :
  0 < d -> x / d * d <= x < x / d * d + d.
Proof.
  intros Hd. pose proof (Z.div_mod x d). pose proof (Z.mod_pos_bound x d).
  lia.
Qed.

Lemma div_next_block (d x : Z) : 0 < d -> (x + d) / d = x / d + 1.
Proof.
  intros Hd. apply div_block; [exact Hd|].
  pose proof (floor_block d x Hd). lia.
Qed.

Lemma div_nonneg (d x : Z) : 0 < d -> 0 <= x -> 0 <= x / d.
Proof. intros. apply Z.div_pos; lia. Qed.

Lemma floordiv_nz (a b : Z) : b <> 0 -> floordiv a b = ret (a / b).
Proof.
  intros H. unfold floordiv. apply Z.eqb_neq in H. now rewrite H.
Qed.

Lemma pymod_nz (a b : Z) : b <> 0 -> pymod a b = ret (a mod b).
Proof.
  intros H. unfold pymod. apply Z.eqb_neq in H. now rewrite H.
Qed.

Lemma ceil_div_nz (a b : Z) : b <> 0 -> ceil_div a b = ret (- (- a / b)).
Proof.
  intros H. unfold ceil_div. apply Z.eqb_neq in H. now rewrite H.
Qed.

(** The quotient rounded up: the least number of blocks of [d] that
    cover [x]. *)
Lemma ceil_block (d x : Z) :
  0 < d -> (- (- x / d) - 1) * d < x <= - (- x / d) * d.
Proof.
  intros Hd. pose proof (floor_block d (- x) Hd). lia.
Qed.

Lemma ceil_howmany (d x : Z) : 0 < d -> howmany x d = - (- x / d).
Proof.
  intros Hd. unfold howmany. apply div_block; [exact Hd|].
  pose proof (ceil_block d x Hd). lia.
Qed.

(** ** Arrays *)

Lemma np_zeros_ok (r c s : Z) :
  0 <= r -> 0 <= c -> 0 <= s ->
  np_zeros r c s = ret (mkArray r c s (fun _ _ _ => 0)).
Proof.
  intros Hr Hc Hs. unfold np_zeros.
  replace ((r <? 0) || (c <? 0) || (s <? 0)) with false; [reflexivity|].
  symmetry. rewrite !orb_false_iff, !Z.ltb_ge. auto.
Qed.

Lemma slice_bounds_in (n a b : Z) :
  0 <= a <= b -> b <= n -> slice_bounds n (a, b) = (a, b - a).
Proof.
  intros H1 H2. unfold slice_bounds, clip_index. cbn [fst snd].
  assert (A : (a <? 0) = false) by (apply Z.ltb_ge; lia).
  assert (B : (b <? 0) = false) by (apply Z.ltb_ge; lia).
  rewrite A, B. f_equal; lia.
Qed.

(** The copy of the overlap of a tile or strip of the TIFF, at rows
    [p * th] and columns [q * tw], into the tile of the JPEG 2000 file at
    rows [a * jth] and columns [b * jtw]. *)
Lemma overlap_assign (jth jtw th tw a b p q s : Z) (dst src : ndarray) :
  0 < jth -> 0 < jtw -> 0 < th -> 0 < tw ->
  let julr := a * jth in
  let julc := b * jtw in
  let tulr := p * th in
  let tulc := q * tw in
  tulr < julr + jth -> julr < tulr + th ->
  tulc < julc + jtw -> julc < tulc + tw ->
  shape dst = (jth, jtw, s) -> shape src = (th, tw, s) ->
  exists o tile,
    compute_overlap jth jtw th tw julr julc tulr tulc = ret o
    /\ ulr o = Z.max julr tulr
    /\ llr o = Z.min (julr + jth) (tulr + th)
    /\ ulc o = Z.max julc tulc
    /\ urc o = Z.min (julc + jtw) (tulc + tw)
    /\ jrows o = (ulr o - julr, llr o - julr)
    /\ jcols o = (ulc o - julc, urc o - julc)
    /\ assign_window dst (jrows o) (jcols o) src (trows o) (tcols o)
       = ret tile
    /\ shape tile = (jth, jtw, s)
    /\ forall i j k,
         sample tile i j k
         = if (ulr o - julr <=? i) && (i <? llr o - julr)
              && (ulc o - julc <=? j) && (j <? urc o - julc)
           then sample src (julr + i - tulr) (julc + j - tulc) k
           else sample dst i j k.
Proof.
  intros Hjth Hjtw Hth Htw julr julc tulr tulc O1 O2 O3 O4 Sd Ss.
  unfold shape in Sd, Ss.
  assert (Dr : nrows dst = jth) by congruence.
  assert (Dc : ncols dst = jtw) by congruence.
  assert (Dk : nchan dst = s) by congruence.
  assert (Sr : nrows src = th) by congruence.
  assert (Sc : ncols src = tw) by congruence.
  assert (Sk : nchan src = s) by congruence.
  clear Sd Ss.
  set (u := Z.max julr tulr). set (l := Z.min (julr + jth) (tulr + th)).
  set (cl := Z.max julc tulc). set (cr := Z.min (julc + jtw) (tulc + tw)).
  assert (M1 : u mod jth = u - julr) by (apply mod_block; unfold u, julr in *; lia).
  assert (M2 : (l - 1) mod jth = l - 1 - julr)
    by (apply mod_block; unfold l, julr in *; lia).
  assert (M3 : cl mod jtw = cl - julc)
    by (apply mod_block; unfold cl, julc in *; lia).
  assert (M4 : (cr - 1) mod jtw = cr - 1 - julc)
    by (apply mod_block; unfold cr, julc in *; lia).
  assert (M5 : u mod th = u - tulr) by (apply mod_block; unfold u, tulr in *; lia).
  assert (M6 : (l - 1) mod th = l - 1 - tulr)
    by (apply mod_block; unfold l, tulr in *; lia).
  assert (M7 : cl mod tw = cl - tulc)
    by (apply mod_block; unfold cl, tulc in *; lia).
  assert (M8 : (cr - 1) mod tw = cr - 1 - tulc)
    by (apply mod_block; unfold cr, tulc in *; lia).
  unfold compute_overlap. fold u l cl cr.
  rewrite !pymod_nz by lia. cbn [bind ret].
  rewrite M1, M2, M3, M4, M5, M6, M7, M8.
  eexists. eexists. split; [reflexivity|]. cbn [ulr llr ulc urc jrows jcols
                                                  trows tcols].
  split; [reflexivity|]. split; [reflexivity|]. split; [reflexivity|].
  split; [reflexivity|].
  split; [f_equal; lia|]. split; [f_equal; lia|].
  unfold assign_window. rewrite Dr, Dc, Sr, Sc, Dk, Sk.
  rewrite !slice_bounds_in by (unfold u, l, cl, cr in *; lia).
  unfold broadcast_ok.
  replace (l - 1 - tulr + 1 - (u - tulr) =? l - 1 - julr + 1 - (u - julr))
    with true by (symmetry; apply Z.eqb_eq; lia).
  replace (cr - 1 - tulc + 1 - (cl - tulc) =? cr - 1 - julc + 1 - (cl - julc))
    with true by (symmetry; apply Z.eqb_eq; lia).
  rewrite Z.eqb_refl. cbn [orb andb].
  split; [reflexivity|]. split; [reflexivity|].
  intros i j k. cbn [sample]. unfold broadcast_index.
  replace (l - 1 - tulr + 1 - (u - tulr) =? l - 1 - julr + 1 - (u - julr))
    with true by (symmetry; apply Z.eqb_eq; lia).
  replace (cr - 1 - tulc + 1 - (cl - tulc) =? cr - 1 - julc + 1 - (cl - julc))
    with true by (symmetry; apply Z.eqb_eq; lia).
  rewrite Z.eqb_refl.
  replace (u - julr + (l - 1 - julr + 1 - (u - julr))) with (l - julr) by lia.
  replace (cl - julc + (cr - 1 - julc + 1 - (cl - julc))) with (cr - julc)
    by lia.
  destruct (_ && _); [|reflexivity].
  f_equal; lia.
Qed.

(** ** The striped branch, through the scanline interface *)

Lemma zrange_nil (a : Z) : zrange a 0 = [].
Proof. reflexivity. Qed.

Lemma zrange_cons (a n : Z) : 0 < n -> zrange a n = a :: zrange (a + 1) (n - 1).
Proof.
  intros Hn. unfold zrange.
  replace (Z.to_nat n) with (S (Z.to_nat (n - 1))) by lia.
  cbn [seq map]. f_equal; [lia|].
  rewrite <- seq_shift, map_map. apply map_ext. intros i. lia.
Qed.

Lemma zrange_length (a n : Z) : List.length (zrange a n) = Z.to_nat n.
Proof. unfold zrange. now rewrite length_map, length_seq. Qed.

Lemma zrange_In (a n x : Z) : In x (zrange a n) <-> a <= x < a + n.
Proof.
  unfold zrange. rewrite in_map_iff. split.
  - intros [i [E I]]. apply in_seq in I. lia.
  - intros H. exists (Z.to_nat (x - a)). split; [lia|]. apply in_seq. lia.
Qed.

Lemma mul_lt_cancel (x y d : Z) : 0 < d -> x * d < y * d -> x < y.
Proof. intros Hd H. apply Z.mul_lt_mono_pos_r in H; assumption. Qed.

Lemma mul_le_cancel (x y d : Z) : 0 < d -> x * d <= y * d -> x <= y.
Proof. intros Hd H. apply Z.mul_le_mono_pos_r in H; assumption. Qed.

Lemma io_bind_lift_ret {A B} (x : A) (f : A -> io B) :
  io_bind (lift (ret x)) f = f x.
Proof. unfold lift, ret, io_bind. now destruct (f x). Qed.

Lemma io_bind_io_ret {A B} (x : A) (f : A -> io B) :
  io_bind (io_ret x) f = f x.
Proof. unfold io_ret, io_bind. now destruct (f x). Qed.

Lemma io_bind_value {A B} (tr tr' : list event) (x : A) (f : A -> io B)
    (r : result B) :
  f x = (tr', r) -> io_bind (tr, inr x) f = (tr ++ tr', r).
Proof. intros E. unfold io_bind. now rewrite E. Qed.

Lemma io_bind_assoc {A B C} (m : io A) (f : A -> io B) (g : B -> io C) :
  io_bind (io_bind m f) g = io_bind m (fun x => io_bind (f x) g).
Proof.
  destruct m as [tr [e|x]]; [reflexivity|].
  cbn [io_bind]. destruct (f x) as [tr1 [e|y]]; [reflexivity|].
  cbn [io_bind]. destruct (g y) as [tr2 r]. now rewrite app_assoc.
Qed.

Lemma readEncodedStrip_eq (t : tiff) (s : Z) (buf : ndarray) :
  readEncodedStrip t s buf
  = ([ReadEncodedStrip s],
     inr (mkArray (nrows buf) (ncols buf) (nchan buf)
            (fun i j k =>
               if i <? Z.min (RowsPerStrip t)
                         (ImageLength t - s * RowsPerStrip t)
               then pixels t (s * RowsPerStrip t + i) j k
               else sample buf i j k))).
Proof. reflexivity. Qed.

Section StripedScanlines.

Variable t : tiff.
Variables jth jtw : Z.

Let W := ImageWidth t.
Let H := ImageLength t.
Let rps := RowsPerStrip t.
Let ns := numberOfStrips t.

Hypothesis Hjth : 0 < jth.
Hypothesis Hjtw : 0 < jtw.
Hypothesis Hrps : 0 < rps.
Hypothesis HW : 0 < W.
Hypothesis Hns : H <= ns * rps.

Variables a b : Z.

Let julr := a * jth.
Let julc := b * jtw.

Hypothesis Hjulc : 0 <= julc < W.

Lemma striped_rows_spec (fuel : nat) :
  forall s r v,
    r / rps = s ->
    julr < (s + 1) * rps ->
    (s - 1) * rps < Z.min (julr + jth) H ->
    Z.min (julr + jth) H <= (s + Z.of_nat fuel - 1) * rps ->
    strip_inv t jth jtw julr julc s v ->
    exists s' v',
      s <= s'
      /\ striped_rows t jth jtw false fuel julr julc r v
         = (map ReadEncodedStrip (zrange s (s' - s)), inr v')
      /\ strip_inv t jth jtw julr julc s' v'
      /\ (s' - 1) * rps < Z.min (julr + jth) H <= s' * rps
      /\ rgba_buf v' = rgba_buf v
      /\ (s' = s -> v' = v)
      /\ (s < s' ->
          stripnum v' = Some (s' - 1)
          /\ exists o, last v' = Some o /\ ulc o = julc).
Proof.
  induction fuel as [|fuel IH]; intros s r v Hr Hlo Hprev Hfuel Inv.
  - exfalso. cbn in Hfuel. lia.
  - cbn [striped_rows]. fold rps H W ns.
    rewrite floordiv_nz by lia. rewrite Hr, io_bind_lift_ret.
    destruct (s * rps <? Z.min (julr + jth) H) eqn:Cond.
    + apply Z.ltb_lt in Cond.
      unfold computeStrip. fold rps. rewrite Hr.
      assert (Hs : s < ns).
      { apply (mul_lt_cancel s ns rps Hrps). lia. }
      assert (G : (s >=? ns) = false)
        by (rewrite Z.geb_leb; apply Z.leb_gt; lia).
      rewrite G. clear G.
      rewrite io_bind_assoc, readEncodedStrip_eq.
      set (strip := mkArray _ _ _ _).
      destruct Inv as [Sh [Sb [Cp Zr]]].
      assert (Ss : shape strip = (rps, W, SamplesPerPixel t)) by exact Sb.
      destruct (overlap_assign jth jtw rps W a b s 0 (SamplesPerPixel t)
                  (jp2k_tile v) strip Hjth Hjtw Hrps HW)
        as [o [tile [Ov [Oulr [Ollr [Oulc [Ourc [Ojr [Ojc [As [St Sm]]]]]]]]]]];
        try assumption; try (fold julr julc; lia).
      fold julr julc in Ov, Oulr, Ollr, Oulc, Ourc, Ojr, Ojc, Sm.
      change (0 * W) with 0 in *.
      set (v1 := mkVars tile strip (rgba_buf v) (Some o) (Some s)).
      assert (Nt : nrows tile = jth /\ ncols tile = jtw)
        by (unfold shape in St; split; congruence).
      assert (Nv : nrows (jp2k_tile v) = jth /\ ncols (jp2k_tile v) = jtw)
        by (unfold shape in Sh; split; congruence).
      assert (Inv1 : strip_inv t jth jtw julr julc (s + 1) v1).
      { split; [exact St|]. split; [exact Ss|]. fold rps H W. split.
        - intros i j k Hi Hj Hrow Hcol. cbn [v1 jp2k_tile] in *.
          rewrite Sm.
          destruct (Z.lt_ge_cases (julr + i) (s * rps)) as [Old|New].
          + rewrite (proj2 (Z.leb_gt (ulr o - julr) i)) by lia.
            cbn [andb]. apply Cp; lia.
          + assert (In : (ulr o - julr <=? i) && (i <? llr o - julr)
                         && (ulc o - julc <=? j) && (j <? urc o - julc)
                         = true).
            { rewrite !andb_true_iff, !Z.leb_le, !Z.ltb_lt. lia. }
            rewrite In. unfold strip. cbn [sample]. fold rps H.
            rewrite (proj2 (Z.ltb_lt (julr + i - s * rps)
                              (Z.min rps (H - s * rps)))) by lia.
            f_equal; lia.
        - intros i j k Hrow. cbn [v1 jp2k_tile]. rewrite Sm.
          rewrite (proj2 (Z.ltb_ge i (llr o - julr))) by lia.
          rewrite andb_false_r. cbn [andb]. apply Zr. lia. }
      destruct (IH (s + 1) (r + rps) v1)
        as [s' [v' [Le [Run [Inv' [Bd [Rg [Same Lst]]]]]]]].
      * rewrite div_next_block by lia. lia.
      * lia.
      * lia.
      * lia.
      * exact Inv1.
      * exists s', v'. split; [lia|]. split.
        { erewrite io_bind_value;
            [|rewrite io_bind_io_ret; cbn [fst snd];
              rewrite Ov, io_bind_lift_ret, As, io_bind_lift_ret; exact Run].
          rewrite (zrange_cons s (s' - s)) by lia. cbn [map app].
          now replace (s' - s - 1) with (s' - (s + 1)) by lia. }
        split; [exact Inv'|]. split; [lia|]. split; [exact Rg|].
        split; [lia|].
        intros _. destruct (Z.eq_dec s' (s + 1)) as [E|N].
        -- rewrite (Same E), E. cbn [v1 stripnum last].
           split; [f_equal; lia|]. exists o. split; [reflexivity|]. lia.
        -- apply Lst. lia.
    + apply Z.ltb_ge in Cond. exists s, v. split; [lia|].
      rewrite Z.sub_diag, zrange_nil. split; [reflexivity|].
      split; [exact Inv|]. split; [lia|]. split; [reflexivity|].
      split; [reflexivity|]. lia.
Qed.

Lemma slice_bounds_0 (n x : Z) :
  0 <= n -> 0 <= x -> slice_bounds n (0, x) = (0, Z.min x n).
Proof.
  intros Hn Hx. unfold slice_bounds, clip_index. cbn [fst snd].
  rewrite (proj2 (Z.ltb_ge x 0)) by lia.
  rewrite (proj2 (Z.ltb_ge 0 0)) by lia.
  f_equal; lia.
Qed.

Hypothesis HH : 0 < H.
Hypothesis Hlast : (ns - 1) * rps < H.
Hypothesis Hspp : 0 <= SamplesPerPixel t.
Hypothesis Hjulr : 0 <= julr < H.

Let nc := - (- W / jtw).
Let pr := negb (H mod jth =? 0).
Let pc := negb (W mod jtw =? 0).

Hypothesis Hb : 0 <= b < nc.

(** The crop after the loop, on a state the loop has left. *)
Lemma striped_crop_spec (s' : Z) (v : vars) :
  shape (jp2k_tile v) = (jth, jtw, SamplesPerPixel t) ->
  (s' - 1) * rps < Z.min (julr + jth) H <= s' * rps ->
  stripnum v = Some (s' - 1) ->
  (exists o, last v = Some o /\ ulc o = julc) ->
  exists tile,
    striped_crop t jtw nc pr pc b julr v = ret tile
    /\ shape tile
       = (Z.min jth (H - julr), Z.min jtw (W - julc), SamplesPerPixel t)
    /\ forall i j k, sample tile i j k = sample (jp2k_tile v) i j k.
Proof.
  intros Sh Bd Sn [o [Lo Uo]].
  unfold shape in Sh.
  assert (Nr : nrows (jp2k_tile v) = jth) by congruence.
  assert (Nc : ncols (jp2k_tile v) = jtw) by congruence.
  assert (Nk : nchan (jp2k_tile v) = SamplesPerPixel t) by congruence.
  pose proof (ceil_block jtw W Hjtw) as CW. fold nc in CW.
  unfold striped_crop. fold W H ns. rewrite Lo, Sn. cbn [local bind ret].
  assert (Cols : exists tile1,
             (if pc && (b =? nc - 1)
              then ret (take_cols (jp2k_tile v)
                          (0, jtw - (ulc o + jtw - W)))
              else ret (jp2k_tile v)) = ret tile1
             /\ shape tile1 = (jth, Z.min jtw (W - julc), SamplesPerPixel t)
             /\ forall i j k,
                  sample tile1 i j k = sample (jp2k_tile v) i j k).
  { destruct (pc && (b =? nc - 1)) eqn:C.
    - apply andb_true_iff in C. destruct C as [_ C].
      apply Z.eqb_eq in C.
      eexists. split; [reflexivity|].
      unfold take_cols. rewrite Nc, Uo.
      rewrite slice_bounds_0 by lia.
      unfold shape. cbn [nrows ncols nchan sample].
      split; [|reflexivity].
      rewrite Nr, Nk. f_equal. f_equal. unfold julc in *. nia.
    - eexists. split; [reflexivity|]. split; [|reflexivity].
      unfold shape. rewrite Nr, Nc, Nk. f_equal. f_equal.
      apply andb_false_iff in C. destruct C as [C|C].
      + unfold pc in C. apply negb_false_iff, Z.eqb_eq in C.
        pose proof (Z.div_mod W jtw). 
        assert (E : W = jtw * (W / jtw)) by lia.
        assert (nc = W / jtw).
        { unfold nc. rewrite E at 1.
          replace (- (jtw * (W / jtw))) with ((- (W / jtw)) * jtw) by lia.
          rewrite Z.div_mul by lia. lia. }
        unfold julc in *. nia.
      + apply Z.eqb_neq in C. unfold julc in *. nia. }
  destruct Cols as [tile1 [E1 [S1 Sm1]]]. rewrite E1. cbn [bind ret].
  unfold shape in S1.
  assert (Nr1 : nrows tile1 = jth) by congruence.
  assert (Nc1 : ncols tile1 = Z.min jtw (W - julc)) by congruence.
  assert (Nk1 : nchan tile1 = SamplesPerPixel t) by congruence.
  destruct pr eqn:P.
  - destruct (s' - 1 =? ns - 1) eqn:C.
    + eexists. split; [reflexivity|].
      unfold take_rows. rewrite Nr1.
      rewrite slice_bounds_0 by lia.
      unfold shape. cbn [nrows ncols nchan sample].
      split; [|exact Sm1].
      rewrite Nc1, Nk1. f_equal. f_equal. lia.
    + eexists. split; [reflexivity|]. split; [|exact Sm1].
      unfold shape. rewrite Nr1, Nc1, Nk1. f_equal. f_equal.
      apply Z.eqb_neq in C.
      destruct (Z.le_gt_cases (julr + jth) H) as [L|G]; [lia|].
      exfalso. apply C.
      assert (s' - 1 < ns) by (apply (mul_lt_cancel _ _ rps Hrps); lia).
      assert (ns - 1 < s') by (apply (mul_lt_cancel _ _ rps Hrps); lia).
      lia.
  - eexists. split; [reflexivity|]. split; [|exact Sm1].
    unfold shape. rewrite Nr1, Nc1, Nk1. f_equal. f_equal.
    unfold pr in P. apply negb_false_iff, Z.eqb_eq in P.
    pose proof (Z.div_mod H jth).
    assert (E : H = (H / jth) * jth) by lia.
    assert (a < H / jth).
    { apply (mul_lt_cancel _ _ jth Hjth). unfold julr in *. lia. }
    unfold julr in *. nia.
Qed.

(** One pass through the body of the loop over the tile writers. *)
Lemma striped_tile_spec (v : vars) (idx : Z) :
  idx = a * nc + b ->
  shape (tiff_buf v) = (rps, W, SamplesPerPixel t) ->
  exists s' v1 tile,
    (s' - 1) * rps < Z.min (julr + jth) H <= s' * rps
    /\ julr / rps < s'
    /\ striped_rows t jth jtw false (Z.to_nat jth + 2) julr julc julr
         (mkVars (mkArray jth jtw (SamplesPerPixel t) (fun _ _ _ => 0))
            (tiff_buf v) (rgba_buf v) (last v) (stripnum v))
       = (map ReadEncodedStrip (zrange (julr / rps) (s' - julr / rps)),
          inr v1)
    /\ strip_inv t jth jtw julr julc s' v1
    /\ stripnum v1 = Some (s' - 1)
    /\ striped_tile t jth jtw false nc pr pc v idx
       = (map ReadEncodedStrip (zrange (julr / rps) (s' - julr / rps))
          ++ [WriteTile idx tile],
          inr (mkVars tile (tiff_buf v1) (rgba_buf v1) (last v1)
                 (stripnum v1)))
    /\ tile_exact t tile julr julc (Z.min jth (H - julr))
         (Z.min jtw (W - julc)).
Proof.
  intros Hidx Sb.
  pose proof (floor_block rps julr Hrps) as FB.
  assert (Hjr : jth <= jth * rps) by nia.
  set (v0 := mkVars (mkArray jth jtw (SamplesPerPixel t) (fun _ _ _ => 0))
               (tiff_buf v) (rgba_buf v) (last v) (stripnum v)).
  assert (Inv0 : strip_inv t jth jtw julr julc (julr / rps) v0).
  { split; [reflexivity|]. split; [exact Sb|]. fold rps H W. split.
    - intros i j k Hi Hj Hrow Hcol. lia.
    - intros i j k _. reflexivity. }
  destruct (striped_rows_spec (Z.to_nat jth + 2) (julr / rps) julr v0)
    as [s' [v1 [Le [Run [Inv1 [Bd [Rg [_ Lst]]]]]]]];
    [reflexivity|lia|lia|lia|exact Inv0|].
  assert (Lt : julr / rps < s')
    by (apply (mul_lt_cancel _ _ rps Hrps); lia).
  destruct (Lst Lt) as [Sn Lo].
  destruct Inv1 as [Sh1 [Sb1 [Cp1 Zr1]]].
  destruct (striped_crop_spec s' v1 Sh1 Bd Sn Lo) as [tile [Cr [St Sm]]].
  exists s', v1, tile.
  split; [exact Bd|]. split; [exact Lt|]. split; [exact Run|].
  split; [repeat split; assumption|]. split; [exact Sn|]. split.
  - unfold striped_tile.
    rewrite np_zeros_ok by lia. rewrite io_bind_lift_ret.
    pose proof (ceil_block jtw W Hjtw) as CW. fold W nc in CW.
    rewrite floordiv_nz, pymod_nz by lia.
    rewrite !io_bind_lift_ret.
    replace (idx / nc) with a
      by (apply (Z.div_unique idx nc a b); lia).
    replace (idx mod nc) with b
      by (apply (Z.mod_unique idx nc a b); lia).
    fold julr julc v0. rewrite Run.
    erewrite io_bind_value;
      [|rewrite Cr, io_bind_lift_ret; reflexivity].
    reflexivity.
  - split; [exact St|].
    intros i j k Hi Hj. rewrite Sm.
    unfold shape in Sh1.
    apply Cp1; fold rps H W; try lia.
    + replace (nrows (jp2k_tile v1)) with jth by congruence. lia.
    + replace (ncols (jp2k_tile v1)) with jtw by congruence. lia.
Qed.

End StripedScanlines.

(** ** The loop over the tile writers *)

Lemma written_tiles_app (tr tr' : list event) :
  written_tiles (tr ++ tr') = written_tiles tr ++ written_tiles tr'.
Proof.
  induction tr as [|e tr IH]; [reflexivity|].
  destruct e; cbn [written_tiles app]; rewrite IH; reflexivity.
Qed.

Lemma written_tiles_strips (l : list Z) :
  written_tiles (map ReadEncodedStrip l) = [].
Proof. induction l as [|x l IH]; [reflexivity|exact IH]. Qed.

Lemma for_each_spec (body : vars -> Z -> io vars) (I : vars -> Prop)
    (G : Z -> ndarray -> Prop) (P : event -> Prop) (xs : list Z) :
  (forall v x, In x xs -> I v ->
     exists tr v' tile,
       body v x = (tr, inr v') /\ written_tiles tr = [tile]
       /\ G x tile /\ I v' /\ Forall P tr) ->
  forall v, I v ->
    exists tr v',
      for_each body xs v = (tr, inr v') /\ I v'
      /\ Forall2 G xs (written_tiles tr) /\ Forall P tr.
Proof.
  induction xs as [|x xs IH]; intros Body v Iv.
  - exists [], v. repeat split; [exact Iv|constructor|constructor].
  - destruct (Body v x (or_introl eq_refl) Iv)
      as [tr [v1 [tile [Run [Wt [Gx [Iv1 Ptr]]]]]]].
    destruct (IH (fun v y Hy => Body v y (or_intror Hy)) v1 Iv1)
      as [tr' [v' [Run' [Iv' [Gs Ptr']]]]].
    exists (tr ++ tr'), v'. split.
    + cbn [for_each]. rewrite Run. now apply io_bind_value.
    + split; [exact Iv'|]. split.
      * rewrite written_tiles_app, Wt. now constructor.
      * apply Forall_app. now split.
Qed.

Lemma Forall2_range_nth (G : Z -> ndarray -> Prop) (n : Z)
    (tiles : list ndarray) (x : Z) :
  Forall2 G (range n) tiles -> 0 <= x < n ->
  G x (nth (Z.to_nat x) tiles unbound_array).
Proof.
  intros F Hx.
  pose proof (Forall2_length F) as L. rewrite range_length in L.
  assert (N : nth_error (range n) (Z.to_nat x) = Some x).
  { rewrite range_nth by lia. f_equal. lia. }
  revert N. generalize (Z.to_nat x) as k. clear L Hx.
  induction F as [|y tile ys tiles Gy F IH]; intros k N.
  - destruct k; discriminate.
  - destruct k as [|k]; cbn [nth_error nth] in *.
    + now inversion N; subst.
    + now apply IH.
Qed.

Lemma grid_place (d n x y : Z) :
  0 < d -> 0 <= y < d -> (x * d + y) / d = x /\ (x * d + y) mod d = y.
Proof.
  intros Hd Hy. split.
  - symmetry. apply (Z.div_unique _ d x y); lia.
  - symmetry. apply (Z.mod_unique _ d x y); lia.
Qed.

Lemma div_lt_blocks (d n x : Z) : 0 < d -> x < n * d -> x / d < n.
Proof. intros Hd H. apply Z.div_lt_upper_bound; lia. Qed.

(** The tiles of a grid, each the window of the image at its place, make
    the image. *)
Lemma image_exact (t : tiff) (jth jtw nr nc : Z) (tiles : list ndarray) :
  0 < jth -> 0 < jtw ->
  ImageLength t <= nr * jth -> ImageWidth t <= nc * jtw ->
  Forall2 (grid_exact t jth jtw nc) (range (nr * nc)) tiles ->
  forall i j k,
    0 <= i < ImageLength t -> 0 <= j < ImageWidth t ->
    image_sample tiles jth jtw nc i j k = pixels t i j k.
Proof.
  intros Hjth Hjtw HH HW F i j k Hi Hj.
  pose proof (floor_block jth i Hjth) as Bi.
  pose proof (floor_block jtw j Hjtw) as Bj.
  assert (Qi : 0 <= i / jth < nr).
  { split; [apply div_nonneg; lia|apply div_lt_blocks; lia]. }
  assert (Qj : 0 <= j / jtw < nc).
  { split; [apply div_nonneg; lia|apply div_lt_blocks; lia]. }
  assert (Hidx : 0 <= i / jth * nc + j / jtw < nr * nc) by nia.
  pose proof (Forall2_range_nth _ _ _ _ F Hidx) as [_ Sm].
  destruct (grid_place nc nr (i / jth) (j / jtw)) as [Ed Em]; [lia|lia|].
  rewrite Ed, Em in Sm.
  unfold image_sample.
  rewrite Sm.
  - rewrite !Z.mod_eq by lia. f_equal; lia.
  - rewrite Z.mod_eq by lia. lia.
  - rewrite Z.mod_eq by lia. lia.
Qed.

Lemma check_format_ok (t : tiff) :
  SampleFormat t = SampleFormat_UINT ->
  BitsPerSample t = 8 \/ BitsPerSample t = 16 ->
  check_format t = ret tt.
Proof.
  intros Sf Bps. unfold check_format. rewrite Sf, Z.eqb_refl.
  cbn [negb bind ret].
  destruct Bps as [E|E]; rewrite E; reflexivity.
Qed.

Lemma Jp2k_ok (h w s jth jtw : Z) :
  jth <= h -> jtw <= w -> Jp2k (h, w, s) (Some (jth, jtw)) = ret tt.
Proof.
  intros Hh Hw. unfold Jp2k.
  rewrite !Z.gtb_ltb, (proj2 (Z.ltb_ge h jth) Hh),
    (proj2 (Z.ltb_ge w jtw) Hw).
  reflexivity.
Qed.

Lemma divides_le (d x : Z) : 0 < d -> 0 < x -> x mod d = 0 -> d <= x.
Proof.
  intros Hd Hx M. destruct (Z.lt_ge_cases x d) as [L|G]; [|exact G].
  rewrite Z.mod_small in M by lia. lia.
Qed.

Lemma is_partial_nz (x d : Z) :
  d <> 0 -> is_partial x d = ret (negb (x mod d =? 0)).
Proof.
  intros H. unfold is_partial. apply Z.eqb_neq in H. now rewrite H.
Qed.

Lemma get_tilewriters_In (H W jth jtw x : Z) :
  In x (get_tilewriters H W jth jtw)
  <-> 0 <= x < - (- H / jth) * - (- W / jtw).
Proof.
  unfold get_tilewriters, range. rewrite in_map_iff. split.
  - intros [i [E I]]. apply in_seq in I. lia.
  - intros Hx. exists (Z.to_nat x). split; [lia|]. apply in_seq. lia.
Qed.

(** X15.  A striped TIFF read through the scanline interface, for tiles
    that are not larger than the image: every tile of the grid is written,
    clipped to the image, and the tiles make the image of the TIFF; only
    strips of the TIFF are read. *)
Theorem striped_copy_exact (t : tiff) (jth jtw : Z) :
  let W := ImageWidth t in
  let H := ImageLength t in
  let rps := RowsPerStrip t in
  let ns := numberOfStrips t in
  let nr := - (- H / jth) in
  let nc := - (- W / jtw) in
  isTiled t = false ->
  SampleFormat t = SampleFormat_UINT ->
  BitsPerSample t = 8 \/ BitsPerSample t = 16 ->
  Photometric t <> Photometric_YCBCR ->
  Photometric t <> Photometric_PALETTE ->
  0 < jth -> 0 < jtw -> 0 < rps -> 0 < W -> 0 < H ->
  0 <= SamplesPerPixel t ->
  jth <= H -> jtw <= W ->
  (ns - 1) * rps < H <= ns * rps ->
  exists tr,
    copy_image t (Some (jth, jtw)) = (tr, inr tt)
    /\ Forall (strip_below ns) tr
    /\ List.length (written_tiles tr) = Z.to_nat (nr * nc)
    /\ Forall2 (grid_exact t jth jtw nc) (range (nr * nc)) (written_tiles tr)
    /\ forall i j k,
         0 <= i < H -> 0 <= j < W ->
         image_sample (written_tiles tr) jth jtw nc i j k = pixels t i j k.
Proof.
  intros W H rps ns nr nc Til Sf Bps Py Pp Hjth Hjtw Hrps HW HH Hspp
    Fh Fw Hns.
  pose proof (ceil_block jth H Hjth) as CH. fold nr in CH.
  pose proof (ceil_block jtw W Hjtw) as CW. fold nc in CW.
  assert (Hnr : 0 < nr) by nia.
  assert (Hnc : 0 < nc) by nia.
  set (I := fun v : vars => shape (tiff_buf v) = (rps, W, SamplesPerPixel t)).
  destruct (for_each_spec
              (striped_tile t jth jtw false nc
                 (negb (H mod jth =? 0)) (negb (W mod jtw =? 0)))
              I (grid_exact t jth jtw nc) (strip_below ns)
              (get_tilewriters H W jth jtw))
    with (v := mkVars unbound_array
                 (mkArray rps W (SamplesPerPixel t) (fun _ _ _ => 0))
                 (mkArray rps W 4 (fun _ _ _ => 0)) None None)
    as [tr [v' [Run [_ [Tiles Reads]]]]].
  - intros v x Hx Iv. apply get_tilewriters_In in Hx. fold nr nc in Hx.
    set (a := x / nc). set (b := x mod nc).
    assert (Ha : 0 <= a < nr).
    { split; [apply div_nonneg; lia|apply div_lt_blocks; lia]. }
    assert (Hb : 0 <= b < nc) by (apply Z.mod_pos_bound; lia).
    assert (Hx' : x = a * nc + b).
    { unfold a, b. pose proof (Z.div_mod x nc). lia. }
    assert (Hjulr : 0 <= a * jth < H) by nia.
    assert (Hjulc : 0 <= b * jtw < W) by nia.
    destruct (striped_tile_spec t jth jtw Hjth Hjtw Hrps HW (proj2 Hns) a b
                Hjulc HH (proj1 Hns) Hspp Hjulr Hb v x Hx' Iv)
      as [s' [v1 [tile [Bd [Lt [_ [Inv [_ [Run Ex]]]]]]]]].
    fold W H rps ns nc in Bd, Lt, Run, Ex.
    eexists. exists (mkVars tile (tiff_buf v1) (rgba_buf v1) (last v1)
                       (stripnum v1)), tile.
    split; [exact Run|]. split.
    { rewrite written_tiles_app, written_tiles_strips. reflexivity. }
    split; [exact Ex|]. split; [exact (proj1 (proj2 Inv))|].
    apply Forall_app. split; [|repeat constructor].
    apply Forall_forall. intros e He. apply in_map_iff in He.
    destruct He as [s [E Hs]]. subst e. apply zrange_In in Hs.
    cbn [strip_below].
    assert (0 <= a * jth / rps) by (apply div_nonneg; lia).
    assert (s' - 1 < ns) by (apply (mul_lt_cancel _ _ rps Hrps); lia).
    lia.
  - reflexivity.
  - exists (tr ++ []).
    split.
    { unfold copy_image. rewrite check_format_ok by assumption.
      rewrite io_bind_lift_ret.
      unfold grid_dimensions. rewrite ceil_div_nz by lia.
      cbn [bind ret]. rewrite io_bind_lift_ret.
      rewrite (Jp2k_ok _ _ _ _ _ Fh Fw), io_bind_lift_ret. rewrite Til.
      rewrite (proj2 (Z.eqb_neq _ _) Py), (proj2 (Z.eqb_neq _ _) Pp).
      cbn [orb]. unfold striped_branch.
      rewrite ceil_div_nz by lia. rewrite io_bind_lift_ret.
      rewrite !is_partial_nz by lia. rewrite !io_bind_lift_ret.
      rewrite !np_zeros_ok by lia. rewrite !io_bind_lift_ret.
      fold W H rps nc. rewrite Run. reflexivity. }
    rewrite app_nil_r. split; [exact Reads|].
    split.
    { rewrite <- (Forall2_length Tiles). apply range_length. }
    split; [exact Tiles|].
    apply (image_exact t jth jtw nr nc); try assumption; lia.
Qed.

(** The theorem on an image of 6 columns and 5 rows in strips of 2 rows,
    in tiles of 2 rows and 4 columns. *)
Lemma striped_copy_exact_witness :
  exists tr,
    copy_image Samples.short_strip (Some (2, 4)) = (tr, inr tt)
    /\ List.length (written_tiles tr) = 6%nat
    /\ forall i j k,
         0 <= i < 5 -> 0 <= j < 6 ->
         image_sample (written_tiles tr) 2 4 2 i j k
         = Samples.sample_pixels i j k.
Proof.
  destruct (striped_copy_exact Samples.short_strip 2 4)
    as [tr [Run [_ [Len [_ Img]]]]];
    [reflexivity|reflexivity|left; reflexivity|discriminate|discriminate
    |reflexivity|reflexivity|reflexivity|reflexivity|reflexivity
    |discriminate|discriminate|discriminate
    |split; [reflexivity|discriminate]|].
  exists tr. split; [exact Run|]. split; [exact Len|exact Img].
Defined.


(** ** The tiled branch, through the scanline interface *)

Lemma readEncodedTile_eq (t : tiff) (n : Z) (buf : ndarray) :
  readEncodedTile t n buf
  = ([ReadEncodedTile n],
     inr (mkArray (nrows buf) (ncols buf) (nchan buf)
            (fun i j k =>
               pixels t
                 (n / howmany (ImageWidth t) (TileWidth t) * TileLength t + i)
                 (n mod howmany (ImageWidth t) (TileWidth t) * TileWidth t
                  + j) k))).
Proof. reflexivity. Qed.

Lemma computeTile_eq (t : tiff) (x y : Z) :
  0 < TileWidth t -> 0 < TileLength t ->
  computeTile t x y
  = - (- ImageWidth t / TileWidth t) * (y / TileLength t) + x / TileWidth t.
Proof.
  intros Hw Hl. unfold computeTile.
  rewrite (proj2 (Z.eqb_neq (TileWidth t) 0)) by lia.
  rewrite (proj2 (Z.eqb_neq (TileLength t) 0)) by lia.
  cbn [orb]. now rewrite ceil_howmany.
Qed.

Lemma grid_index_bound (x y p q : Z) :
  0 <= p < y -> 0 <= q < x -> 0 <= x * p + q < x * y.
Proof. intros Hp Hq. nia. Qed.

Section TiledScanlines.

Variable t : tiff.
Variables jth jtw : Z.

Let W := ImageWidth t.
Let H := ImageLength t.
Let th := TileLength t.
Let tw := TileWidth t.
Let xpt := - (- W / tw).
Let ypt := - (- H / th).

Hypothesis Hjth : 0 < jth.
Hypothesis Hjtw : 0 < jtw.
Hypothesis Hth : 0 < th.
Hypothesis Htw : 0 < tw.
Hypothesis HW : 0 < W.
Hypothesis HH : 0 < H.

Variables a b : Z.

Let julr := a * jth.
Let julc := b * jtw.

Hypothesis Hjulr : 0 <= julr < H.
Hypothesis Hjulc : 0 <= julc < W.

Lemma tile_corner_eq (p q : Z) :
  0 <= q < xpt -> tile_corner t xpt (xpt * p + q) = ret (p * th, q * tw).
Proof.
  intros Hq. unfold tile_corner.
  rewrite floordiv_nz, pymod_nz by lia. cbn [bind ret].
  destruct (grid_place xpt 0 p q) as [Ed Em]; [lia|lia|].
  replace (xpt * p + q) with (p * xpt + q) by lia.
  now rewrite Ed, Em.
Qed.

Lemma tile_corner_some (n : Z) : exists corner, tile_corner t xpt n = ret corner.
Proof.
  pose proof (ceil_block tw W Htw) as CW. fold xpt in CW.
  assert (0 < xpt) by nia.
  unfold tile_corner. rewrite floordiv_nz, pymod_nz by lia.
  eexists. reflexivity.
Qed.

Lemma tiled_cols_spec (p r : Z) (fuel : nat) :
  r / th = p -> 0 <= p ->
  p * th < Z.min (julr + jth) H -> julr < (p + 1) * th ->
  forall q c tilenum tulr tulc v,
    c / tw = q -> 0 <= q ->
    julc < (q + 1) * tw ->
    (q - 1) * tw < Z.min (julc + jtw) W ->
    Z.min (julc + jtw) W <= (q + Z.of_nat fuel - 1) * tw ->
    (q * tw < Z.min (julc + jtw) W ->
     tilenum = xpt * p + q /\ tulr = p * th /\ tulc = q * tw) ->
    cols_inv t jth jtw julr julc p q v ->
    exists q' tr v',
      tiled_cols t jth jtw false xpt fuel julr julc r c tilenum tulr tulc v
      = (tr, inr v')
      /\ cols_inv t jth jtw julr julc p q' v'
      /\ Z.min (julc + jtw) W <= q' * tw
      /\ Forall (tile_below (xpt * ypt)) tr
      /\ written_tiles tr = []
      /\ q <= q'
      /\ (q' - 1) * tw < Z.min (julc + jtw) W
      /\ (q' = q -> last v' = last v)
      /\ (q < q' ->
          exists o,
            last v' = Some o
            /\ jrows o = (Z.max julr (p * th) - julr,
                          Z.min (julr + jth) (p * th + th) - julr)
            /\ jcols o = (Z.max julc ((q' - 1) * tw) - julc,
                          Z.min (julc + jtw) ((q' - 1) * tw + tw) - julc)).
Proof.
  intros Hr Hp Hrow Hlo.
  pose proof (ceil_block tw W Htw) as CW. fold xpt in CW.
  pose proof (ceil_block th H Hth) as CH. fold ypt in CH.
  induction fuel as [|fuel IH];
    intros q c tilenum tulr tulc v Hc Hq Hclo Hprev Hfuel Hnum Inv.
  - exfalso. cbn in Hfuel. lia.
  - cbn [tiled_cols]. fold tw th W H.
    rewrite floordiv_nz by lia. rewrite Hc, io_bind_lift_ret.
    destruct (q * tw <? Z.min (julc + jtw) W) eqn:Cond.
    + apply Z.ltb_lt in Cond.
      destruct (Hnum Cond) as [En [Er Ec]]. subst tilenum tulr tulc.
      assert (Hqx : q < xpt) by (apply (mul_lt_cancel _ _ tw Htw); lia).
      assert (Hpy : p < ypt) by (apply (mul_lt_cancel _ _ th Hth); lia).
      rewrite io_bind_assoc, readEncodedTile_eq.
      set (tile_in := mkArray _ _ _ _).
      destruct Inv as [[Sh [Sb Cp]] Cq].
      assert (Ss : shape tile_in = (th, tw, SamplesPerPixel t)) by exact Sb.
      destruct (overlap_assign jth jtw th tw a b p q (SamplesPerPixel t)
                  (jp2k_tile v) tile_in Hjth Hjtw Hth Htw)
        as [o [tile [Ov [Oulr [Ollr [Oulc [Ourc [Ojr [Ojc [As [St Sm]]]]]]]]]]];
        try assumption; try (fold julr julc; lia).
      fold julr julc in Ov, Oulr, Ollr, Oulc, Ourc, Ojr, Ojc, Sm.
      set (v1 := mkVars tile tile_in (rgba_buf v) (Some o) (stripnum v)).
      assert (Nt : nrows tile = jth /\ ncols tile = jtw)
        by (unfold shape in St; split; congruence).
      assert (Nv : nrows (jp2k_tile v) = jth /\ ncols (jp2k_tile v) = jtw)
        by (unfold shape in Sh; split; congruence).
      assert (Rd : forall i j k,
                 sample tile_in i j k = pixels t (p * th + i) (q * tw + j) k).
      { intros i j k. unfold tile_in. cbn [sample]. fold W tw th.
        rewrite ceil_howmany by exact Htw. fold xpt.
        destruct (grid_place xpt 0 p q) as [Ed Em]; [lia|lia|].
        replace (xpt * p + q) with (p * xpt + q) by lia.
        now rewrite Ed, Em. }
      assert (Inv1 : cols_inv t jth jtw julr julc p (q + 1) v1).
      { split; [split; [exact St|split; [exact Ss|]]|]; fold th tw H W.
        - intros i j k Hi Hj Hrw Hcl. cbn [v1 jp2k_tile] in *.
          rewrite Sm.
          rewrite (proj2 (Z.leb_gt (ulr o - julr) i)) by lia.
          cbn [andb]. apply Cp; fold th tw H W; lia.
        - intros i j k Hi Hj Hrw Hcl. cbn [v1 jp2k_tile] in *.
          rewrite Sm.
          destruct (Z.lt_ge_cases (julc + j) (q * tw)) as [Old|New].
          + rewrite (proj2 (Z.leb_gt (ulc o - julc) j)) by lia.
            rewrite andb_false_r. cbn [andb].
            apply Cq; fold th tw H W; lia.
          + assert (In : (ulr o - julr <=? i) && (i <? llr o - julr)
                         && (ulc o - julc <=? j) && (j <? urc o - julc)
                         = true).
            { rewrite !andb_true_iff, !Z.leb_le, !Z.ltb_lt. lia. }
            rewrite In, Rd. f_equal; lia. }
      destruct (tile_corner_some (computeTile t (c + tw) r)) as [corner Ecn].
      destruct (IH (q + 1) (c + tw) (computeTile t (c + tw) r)
                  (fst corner) (snd corner) v1)
        as [q' [tr [v' [Run [Inv' [Bd [Rd' [Wt [Le [Tight [Same Lst]]]]]]]]]]].
      * rewrite div_next_block by lia. lia.
      * lia.
      * lia.
      * lia.
      * lia.
      * intros Cond'.
        assert (Hqx' : q + 1 < xpt)
          by (apply (mul_lt_cancel _ _ tw Htw); lia).
        rewrite computeTile_eq in Ecn |- * by assumption.
        fold W tw th xpt in Ecn |- *.
        rewrite div_next_block, Hc, Hr in Ecn |- * by lia.
        rewrite tile_corner_eq in Ecn by lia.
        apply inr_inj in Ecn. subst corner. cbn [fst snd]. auto.
      * exact Inv1.
      * exists q', (ReadEncodedTile (xpt * p + q) :: tr), v'. split.
        { apply (io_bind_value [ReadEncodedTile (xpt * p + q)]).
          rewrite io_bind_io_ret. cbn [fst snd].
          rewrite Ov, io_bind_lift_ret, As, io_bind_lift_ret.
          rewrite Ecn, io_bind_lift_ret. exact Run. }
        split; [exact Inv'|]. split; [exact Bd|]. split.
        { constructor; [|exact Rd']. cbn [tile_below].
          apply grid_index_bound; lia. }
        split; [exact Wt|]. split; [lia|]. split; [exact Tight|].
        split; [lia|].
        intros _. destruct (Z.eq_dec q' (q + 1)) as [E|N].
        -- exists o. rewrite (Same E). cbn [v1 last].
           split; [reflexivity|]. rewrite Ojr, Ojc, Oulr, Ollr, Oulc, Ourc.
           rewrite E. replace (q + 1 - 1) with q by lia. split; reflexivity.
        -- apply Lst. lia.
    + apply Z.ltb_ge in Cond. exists q, [], v.
      split; [reflexivity|]. split; [exact Inv|]. split; [lia|].
      split; [constructor|]. split; [reflexivity|]. split; [lia|].
      split; [lia|]. split; [reflexivity|lia].
Qed.

Lemma tiled_rows_spec (fuel : nat) :
  forall p r v,
    r / th = p -> 0 <= p ->
    julr < (p + 1) * th ->
    (p - 1) * th < Z.min (julr + jth) H ->
    Z.min (julr + jth) H <= (p + Z.of_nat fuel - 1) * th ->
    rows_inv t jth jtw julr julc p v ->
    exists p' tr v',
      tiled_rows t jth jtw false xpt fuel julr julc r v = (tr, inr v')
      /\ rows_inv t jth jtw julr julc p' v'
      /\ Z.min (julr + jth) H <= p' * th
      /\ Forall (tile_below (xpt * ypt)) tr
      /\ written_tiles tr = []
      /\ p <= p'
      /\ (p' - 1) * th < Z.min (julr + jth) H
      /\ (p' = p -> last v' = last v)
      /\ (p < p' ->
          exists o q',
            last v' = Some o
            /\ jrows o = (Z.max julr ((p' - 1) * th) - julr,
                          Z.min (julr + jth) ((p' - 1) * th + th) - julr)
            /\ jcols o = (Z.max julc ((q' - 1) * tw) - julc,
                          Z.min (julc + jtw) ((q' - 1) * tw + tw) - julc)
            /\ (q' - 1) * tw < Z.min (julc + jtw) W <= q' * tw).
Proof.
  pose proof (ceil_block tw W Htw) as CW. fold xpt in CW.
  pose proof (floor_block tw julc Htw) as FB.
  assert (Hjw : jtw <= jtw * tw) by nia.
  induction fuel as [|fuel IH]; intros p r v Hr Hp Hlo Hprev Hfuel Inv.
  - exfalso. cbn in Hfuel. lia.
  - cbn [tiled_rows]. fold tw th W H.
    rewrite floordiv_nz by lia. rewrite Hr, io_bind_lift_ret.
    destruct (p * th <? Z.min (julr + jth) H) eqn:Cond.
    + apply Z.ltb_lt in Cond.
      assert (Hq0 : 0 <= julc / tw < xpt).
      { split; [apply div_nonneg; lia|].
        apply (mul_lt_cancel _ _ tw Htw). lia. }
      rewrite computeTile_eq by assumption. fold W tw th xpt. rewrite Hr.
      rewrite tile_corner_eq by lia. rewrite io_bind_lift_ret.
      cbn [fst snd].
      destruct (tiled_cols_spec p r (Z.to_nat jtw + 2) Hr Hp Cond Hlo
                  (julc / tw) julc (xpt * p + julc / tw) (p * th)
                  (julc / tw * tw) v)
        as [q' [tr [v1 [Run [[Inv1 Cq] [Bd [Rd [Wt [Leq [Tq [_ Lq]]]]]]]]]]];
        [reflexivity|lia|lia|lia|lia|auto| |].
      { split; [exact Inv|]. intros i j k Hi Hj Hrw Hcl.
        fold th tw H W in Hrw, Hcl. lia. }
      assert (Ltq : julc / tw < q')
        by (apply (mul_lt_cancel _ _ tw Htw); lia).
      destruct (Lq Ltq) as (o1 & Lo1 & Jr1 & Jc1).
      destruct Inv1 as [Sh1 [Sb1 Cp1]].
      assert (Inv2 : rows_inv t jth jtw julr julc (p + 1) v1).
      { split; [exact Sh1|]. split; [exact Sb1|].
        intros i j k Hi Hj Hrw Hcl. fold th tw H W in Hrw, Hcl.
        unfold shape in Sh1.
        assert (ncols (jp2k_tile v1) = jtw) by congruence.
        destruct (Z.lt_ge_cases (julr + i) (p * th)) as [Old|New].
        - apply Cp1; fold th tw H W; lia.
        - apply Cq; fold th tw H W; lia. }
      destruct (IH (p + 1) (r + th) v1)
        as [p' [tr' [v' [Run' [Inv' [Bd' [Rd' [Wt' [Lep [Tp [Same Lst]]]]]]]]]]].
      * rewrite div_next_block by lia. lia.
      * lia.
      * lia.
      * lia.
      * lia.
      * exact Inv2.
      * exists p', (tr ++ tr'), v'. split.
        { rewrite Run. now apply io_bind_value. }
        split; [exact Inv'|]. split; [exact Bd'|]. split.
        { apply Forall_app. now split. }
        split; [rewrite written_tiles_app, Wt, Wt'; reflexivity|].
        split; [lia|]. split; [exact Tp|]. split; [lia|].
        intros _. destruct (Z.eq_dec p' (p + 1)) as [E|N].
        -- exists o1, q'. rewrite (Same E), E.
           replace (p + 1 - 1) with p by lia. auto.
        -- apply Lst. lia.
    + apply Z.ltb_ge in Cond. exists p, [], v.
      split; [reflexivity|]. split; [exact Inv|]. split; [lia|].
      split; [constructor|]. split; [reflexivity|]. split; [lia|].
      split; [lia|]. split; [reflexivity|lia].
Qed.

Hypothesis Hspp : 0 <= SamplesPerPixel t.
Hypothesis Hrows : H mod jth = 0.
Hypothesis Hcols : W mod jtw = 0.

Variables nr nc : Z.

Hypothesis Hnc : 0 < nc.

(** One pass through the body of the loop over the tile writers, when the
    tiles of the JPEG 2000 file divide the image. *)
Lemma tiled_tile_spec (v : vars) (idx : Z) :
  idx = a * nc + b -> 0 <= b < nc ->
  exists tr v' tile,
    tiled_tile t jth jtw false nr nc xpt
      (negb (H mod jth =? 0)) (negb (W mod jtw =? 0)) v idx
    = (tr ++ [WriteTile idx tile], inr v')
    /\ Forall (tile_below (xpt * ypt)) tr
    /\ written_tiles tr = []
    /\ tile_exact t tile julr julc jth jtw.
Proof.
  intros Hidx Hb.
  pose proof (floor_block th julr Hth) as FB.
  assert (Hjr : jth <= jth * th) by nia.
  set (v0 := mkVars (mkArray jth jtw (SamplesPerPixel t) (fun _ _ _ => 0))
               (mkArray th tw (SamplesPerPixel t) (fun _ _ _ => 0))
               (rgba_buf v) (last v) (stripnum v)).
  assert (Inv0 : rows_inv t jth jtw julr julc (julr / th) v0).
  { split; [reflexivity|]. split; [reflexivity|].
    intros i j k Hi Hj Hrw Hcl. fold th tw H W in Hrw, Hcl. lia. }
  destruct (tiled_rows_spec (Z.to_nat jth + 2) (julr / th) julr v0)
    as [p' [tr [v1 [Run [Inv1 [Bd [Rd [Wt _]]]]]]]];
    [reflexivity|apply div_nonneg; lia|lia|lia|lia|exact Inv0|].
  destruct Inv1 as [Sh1 [Sb1 Cp1]].
  assert (Hfull : julr + jth <= H /\ julc + jtw <= W).
  { pose proof (Z.div_mod H jth). pose proof (Z.div_mod W jtw).
    assert (a < H / jth)
      by (apply (mul_lt_cancel _ _ jth Hjth); unfold julr in *; lia).
    assert (b < W / jtw)
      by (apply (mul_lt_cancel _ _ jtw Hjtw); unfold julc in *; lia).
    unfold julr, julc in *. split; nia. }
  exists tr, (mkVars (jp2k_tile v1) (tiff_buf v1) (rgba_buf v1) (last v1)
                (stripnum v1)), (jp2k_tile v1).
  split.
  - unfold tiled_tile. fold th tw W H.
    rewrite !np_zeros_ok by lia. rewrite !io_bind_lift_ret.
    rewrite floordiv_nz, pymod_nz by lia.
    rewrite !io_bind_lift_ret.
    replace (idx / nc) with a
      by (apply (Z.div_unique idx nc a b); lia).
    replace (idx mod nc) with b
      by (apply (Z.mod_unique idx nc a b); lia).
    fold julr julc v0. rewrite Run.
    apply io_bind_value.
    unfold tiled_crop. rewrite Hrows, Hcols. cbn [Z.eqb negb andb bind ret].
    rewrite io_bind_lift_ret. reflexivity.
  - split; [exact Rd|]. split; [exact Wt|]. split; [exact Sh1|].
    intros i j k Hi Hj. unfold shape in Sh1.
    apply Cp1; fold th tw H W; try lia.
    + replace (nrows (jp2k_tile v1)) with jth by congruence. lia.
    + replace (ncols (jp2k_tile v1)) with jtw by congruence. lia.
Qed.

End TiledScanlines.

Lemma divides_block (d x m : Z) :
  0 < d -> x mod d = 0 -> 0 <= m * d < x -> m * d + d <= x.
Proof.
  intros Hd Hx Hm. pose proof (Z.div_mod x d).
  assert (m < x / d) by (apply (mul_lt_cancel _ _ d Hd); lia).
  nia.
Qed.

(** X16.  A tiled TIFF read through the scanline interface, when the tiles
    of the JPEG 2000 file divide the image: every tile of the grid is
    written whole, and the tiles make the image of the TIFF; only tiles of
    the TIFF are read. *)
Theorem tiled_copy_exact (t : tiff) (jth jtw : Z) :
  let W := ImageWidth t in
  let H := ImageLength t in
  let th := TileLength t in
  let tw := TileWidth t in
  let nr := - (- H / jth) in
  let nc := - (- W / jtw) in
  isTiled t = true ->
  SampleFormat t = SampleFormat_UINT ->
  BitsPerSample t = 8 \/ BitsPerSample t = 16 ->
  Photometric t <> Photometric_YCBCR ->
  Photometric t <> Photometric_PALETTE ->
  0 < jth -> 0 < jtw -> 0 < th -> 0 < tw -> 0 < W -> 0 < H ->
  0 <= SamplesPerPixel t ->
  H mod jth = 0 -> W mod jtw = 0 ->
  exists tr,
    copy_image t (Some (jth, jtw)) = (tr, inr tt)
    /\ Forall (tile_below (- (- W / tw) * - (- H / th))) tr
    /\ List.length (written_tiles tr) = Z.to_nat (nr * nc)
    /\ Forall2 (grid_exact t jth jtw nc) (range (nr * nc)) (written_tiles tr)
    /\ forall i j k,
         0 <= i < H -> 0 <= j < W ->
         image_sample (written_tiles tr) jth jtw nc i j k = pixels t i j k.
Proof.
  intros W H th tw nr nc Til Sf Bps Py Pp Hjth Hjtw Hth Htw HW HH Hspp
    Hrows Hcols.
  pose proof (divides_le jth H Hjth HH Hrows) as Fh.
  pose proof (divides_le jtw W Hjtw HW Hcols) as Fw.
  pose proof (ceil_block jth H Hjth) as CH. fold nr in CH.
  pose proof (ceil_block jtw W Hjtw) as CW. fold nc in CW.
  assert (Hnr : 0 < nr) by nia.
  assert (Hnc : 0 < nc) by nia.
  destruct (for_each_spec
              (tiled_tile t jth jtw false nc nc (- (- W / tw))
                 (negb (H mod jth =? 0)) (negb (W mod jtw =? 0)))
              (fun _ => True) (grid_exact t jth jtw nc)
              (tile_below (- (- W / tw) * - (- H / th)))
              (get_tilewriters H W jth jtw))
    with (v := mkVars unbound_array unbound_array
                 (mkArray th tw 4 (fun _ _ _ => 0)) None None)
    as [tr [v' [Run [_ [Tiles Reads]]]]].
  - intros v x Hx _. apply get_tilewriters_In in Hx. fold nr nc in Hx.
    set (a := x / nc). set (b := x mod nc).
    assert (Ha : 0 <= a < nr).
    { split; [apply div_nonneg; lia|apply div_lt_blocks; lia]. }
    assert (Hb : 0 <= b < nc) by (apply Z.mod_pos_bound; lia).
    assert (Hx' : x = a * nc + b).
    { unfold a, b. pose proof (Z.div_mod x nc). lia. }
    assert (Hjulr : 0 <= a * jth < H) by nia.
    assert (Hjulc : 0 <= b * jtw < W) by nia.
    destruct (tiled_tile_spec t jth jtw Hjth Hjtw Hth Htw HW a b Hjulr Hjulc
                Hspp Hrows Hcols nc nc Hnc v x Hx' Hb)
      as [tr [v1 [tile [Run [Rd [Wt Ex]]]]]].
    exists (tr ++ [WriteTile x tile]), v1, tile.
    split; [exact Run|]. split.
    { rewrite written_tiles_app, Wt. reflexivity. }
    split.
    { unfold grid_exact. fold a b H W.
      pose proof (divides_block jth H a Hjth Hrows Hjulr).
      pose proof (divides_block jtw W b Hjtw Hcols Hjulc).
      replace (Z.min jth (H - a * jth)) with jth by lia.
      replace (Z.min jtw (W - b * jtw)) with jtw by lia.
      exact Ex. }
    split; [exact I|].
    apply Forall_app. split; [exact Rd|repeat constructor].
  - exact I.
  - exists (tr ++ []).
    split.
    { unfold copy_image. rewrite check_format_ok by assumption.
      rewrite io_bind_lift_ret.
      unfold grid_dimensions. rewrite ceil_div_nz by lia.
      cbn [bind ret]. rewrite io_bind_lift_ret.
      rewrite (Jp2k_ok _ _ _ _ _ Fh Fw), io_bind_lift_ret. rewrite Til.
      rewrite (proj2 (Z.eqb_neq _ _) Py), (proj2 (Z.eqb_neq _ _) Pp).
      cbn [orb fst snd]. unfold tiled_branch.
      rewrite ceil_div_nz by lia. rewrite io_bind_lift_ret.
      rewrite !is_partial_nz by lia. rewrite !io_bind_lift_ret.
      rewrite !np_zeros_ok by lia. rewrite !io_bind_lift_ret.
      fold W H th tw nc. rewrite Run. reflexivity. }
    rewrite app_nil_r. split; [exact Reads|].
    split.
    { rewrite <- (Forall2_length Tiles). apply range_length. }
    split; [exact Tiles|].
    apply (image_exact t jth jtw nr nc); try assumption; lia.
Qed.

(** The theorem on an image of 16 columns and 32 rows in tiles of 16 by
    16, in tiles of 8 rows and 4 columns. *)
Lemma tiled_copy_exact_witness :
  exists tr,
    copy_image Samples.tall_tiled (Some (8, 4)) = (tr, inr tt)
    /\ List.length (written_tiles tr) = 16%nat
    /\ forall i j k,
         0 <= i < 32 -> 0 <= j < 16 ->
         image_sample (written_tiles tr) 8 4 4 i j k
         = Samples.sample_pixels i j k.
Proof.
  destruct (tiled_copy_exact Samples.tall_tiled 8 4)
    as [tr [Run [_ [Len [_ Img]]]]];
    [reflexivity|reflexivity|left; reflexivity|discriminate|discriminate
    |reflexivity|reflexivity|reflexivity|reflexivity|reflexivity
    |reflexivity|discriminate|reflexivity|reflexivity|].
  exists tr. split; [exact Run|]. split; [exact Len|exact Img].
Defined.

(** * Further properties *)

(** ** The transcoded buffer as a function of the directory *)

Section PutEntries.

Import Struct Meta Reader.

(** One turn of the loop of [_process_tags] on a supported entry writes
    what [put_entry] writes for the tuple of the entry. *)
Lemma process_tag_put (e : endian) (tiff : list byte) (off n idx : Z)
    (ent : entry) (st : tags_state) :
  0 <= off -> 0 <= idx < n ->
  read_entry e tiff (off + 2 + 12 * idx) = Some ent ->
  supported ent ->
  f_data (ts_tfp st) = tiff ->
  0 <= ts_after st < 2 ^ 32 ->
  exists st',
    process_tag e (slice (off + 2) (off + 2 + 12 * n) tiff) 10 st idx
    = inr st'
    /\ put_entry ent idx (ts_after st) (b_buf (ts_b st))
       = Some (b_buf (ts_b st'))
    /\ ts_after st' = ts_after st + relocated ent
    /\ f_data (ts_tfp st') = tiff.
Proof.
  intros Ho Hi Hread Hsup F Ha.
  set (buffer := slice (off + 2) (off + 2 + 12 * n) tiff).
  set (rc := slice (off + 2 + 12 * idx) (off + 2 + 12 * idx + 12) tiff).
  assert (Hrec : slice (idx * 12) ((idx + 1) * 12) buffer = rc)
    by (apply directory_record; lia).
  destruct (read_entry_inv _ _ _ _ Hread) as (d & cs & L & D & C & PL & Lp & E).
  fold rc in L, D, C, PL, Lp, E. cbv zeta in Lp, E.
  destruct (rec_ranges e rc L) as (R1 & R2 & R3 & R4).
  destruct (codes_unique e _ d _ cs D (proj1 R3) C) as (Sz & Pos).
  destruct (Z_lt_le_dec 4 (payload_length ent)) as [G|G].
  - assert (G' : (nbytes d * rec_count e rc <=? 4) = false)
      by (apply Z.leb_gt; lia).
    rewrite G' in Lp, E.
    destruct (process_tag_outofline e buffer 10 idx st rc d cs Hrec L D C Sz Pos)
      as (out & Eo & Lo & Do & Run).
    { lia. }
    { rewrite F. exact Lp. }
    { lia. }
    rewrite F in Eo, Run.
    eexists. split; [exact Run|]. cbn [ts_b ts_after ts_tfp b_buf f_data].
    split.
    + unfold put_entry. rewrite (proj2 (Z.ltb_lt 4 (payload_length ent)) G).
      rewrite E. cbn [e_tag e_type e_count e_values]. rewrite D, C.
      rewrite <- encode_all_unpacked, <- decode_all_values, Eo.
      reflexivity.
    + split; [|reflexivity]. unfold relocated. rewrite PL.
      replace (nbytes d * rec_count e rc >? 4) with true; [reflexivity|].
      symmetry. apply Z.gtb_lt. lia.
  - assert (Rel : relocated ent = 0).
    { unfold relocated.
      replace (payload_length ent >? 4) with false; [reflexivity|].
      symmetry. rewrite Z.gtb_ltb. apply Z.ltb_ge. lia. }
    assert (G' : (4 <? payload_length ent) = false) by (apply Z.ltb_ge; lia).
    destruct (Z.eq_dec (payload_length ent) 4) as [G4|N4].
    + assert (Hn : nbytes d * rec_count e rc = 4) by lia.
      rewrite Hn in Lp, E. change (4 <=? 4) with true in Lp, E.
      change (8 + 4) with 12 in Lp, E. cbv iota in Lp, E.
      destruct (process_tag_inline4 e buffer 10 idx st rc d cs Hrec L D C Sz
                  Pos Hn) as (out & Eo & Lo & Do & Run).
      eexists. split; [exact Run|]. cbn [ts_b ts_after ts_tfp].
      split; [|split; [lia|exact F]].
      unfold put_entry. rewrite G'.
      assert (Ns : (e_type ent =? 3) && (e_count ent =? 1) = false).
      { apply andb_false_iff.
        destruct (Z.eq_dec (e_type ent) 3) as [T|T];
          [right|left; now apply Z.eqb_neq].
        apply Z.eqb_neq. intros Cn.
        rewrite E in T, Cn. cbn [e_type e_count] in T, Cn.
        rewrite T in D. cbn in D. inversion D; subst d.
        cbn [nbytes] in Hn. lia. }
      rewrite Ns.
      rewrite E. cbn [e_tag e_type e_count e_values]. rewrite D, C.
      rewrite <- encode_all_unpacked, <- decode_all_values, Eo.
      reflexivity.
    + destruct Hsup as [G4|[Ht Hc]]; [lia|].
      assert (Ht' : rec_type e rc = 3) by (rewrite E in Ht; exact Ht).
      assert (Hc' : rec_count e rc = 1) by (rewrite E in Hc; exact Hc).
      rewrite Ht' in D. cbn in D. inversion D; subst d; clear D.
      cbn [format nbytes] in *. rewrite Hc' in *.
      change (string_repeat "H" 1) with "H"%string in C.
      cbn in C. inversion C; subst cs; clear C.
      change (2 * 1 <=? 4) with true in Lp, E.
      change (8 + 2 * 1) with 10 in Lp, E. cbv iota in Lp, E.
      pose proof (process_tag_short e buffer 10 idx st rc Hrec L Ht' Hc') as Run.
      eexists. split; [exact Run|]. cbn [ts_b ts_after ts_tfp].
      split; [|split; [lia|exact F]].
      unfold put_entry. rewrite G'.
      rewrite E. cbn [e_tag e_type e_count e_values]. rewrite ?Ht', ?Hc'.
      cbn [tag_dtype format string_repeat].

      change (string_repeat "H" 1) with "H"%string.
      cbn [codes]. cbn [Z.eqb Pos.eqb andb values value_of decode fst snd].
      replace (firstn 2 (slice 8 10 rc)) with (slice 8 10 rc).
      2:{ symmetry. apply firstn_all2. unfold len in Lp. lia. }
      reflexivity.
Qed.

Lemma skipn_nth_cons {A} (l : list A) (s : nat) (x : A) :
  nth_error l s = Some x -> skipn s l = x :: skipn (S s) l.
Proof.
  revert l. induction s as [|s IH]; intros [|y l] H; try discriminate.
  - now inversion H.
  - cbn [nth_error] in H. cbn [skipn]. rewrite (IH l H). reflexivity.
Qed.

Lemma for_tags_put (e : endian) (tiff : list byte) (off n : Z)
    (ents : list entry) :
  0 <= off ->
  (forall i, 0 <= i < n ->
     exists ent, nth_error ents (Z.to_nat i) = Some ent
                 /\ read_entry e tiff (off + 2 + 12 * i) = Some ent
                 /\ supported ent) ->
  forall (m s : nat) (st : tags_state),
    Z.of_nat s + Z.of_nat m <= n ->
    f_data (ts_tfp st) = tiff ->
    0 <= ts_after st ->
    ts_after st + relocated_size (firstn m (skipn s ents)) < 2 ^ 32 ->
    exists st',
      for_tags (process_tag e (slice (off + 2) (off + 2 + 12 * n) tiff) 10)
        (map Z.of_nat (seq s m)) st = inr st'
      /\ put_entries (firstn m (skipn s ents)) (Z.of_nat s) (ts_after st)
           (b_buf (ts_b st))
         = Some (b_buf (ts_b st'))
      /\ ts_after st'
         = ts_after st + relocated_size (firstn m (skipn s ents)).
Proof.
  intros Ho Hents. induction m as [|m IH]; intros s st Hs F Ha Hsize.
  - exists st. cbn [seq map for_tags firstn put_entries relocated_size
                      fold_right].
    split; [reflexivity|]. split; [reflexivity|lia].
  - destruct (Hents (Z.of_nat s)) as (ent & N & R & Sup); [lia|].
    rewrite Nat2Z.id in N.
    rewrite (skipn_nth_cons ents s ent N) in Hsize |- *.
    cbn [firstn] in Hsize |- *.
    change (relocated_size (ent :: firstn m (skipn (S s) ents)))
      with (relocated ent + relocated_size (firstn m (skipn (S s) ents)))
      in Hsize |- *.
    pose proof (relocated_size_nonneg (firstn m (skipn (S s) ents))) as Rn.
    pose proof (relocated_size_nonneg [ent]) as Re.
    change (relocated_size [ent]) with (relocated ent + 0) in Re.
    destruct (process_tag_put e tiff off n (Z.of_nat s) ent st)
      as (st1 & Run & Put & A1 & F1); try assumption; try lia.
    destruct (IH (S s) st1) as (st' & Run' & Put' & A'); try assumption;
      try lia.
    exists st'. cbn [seq map for_tags]. rewrite Run. cbn [bind].
    split; [exact Run'|]. split; [|lia].
    cbn [put_entries]. rewrite Put.
    replace (Z.of_nat s + 1) with (Z.of_nat (S s)) by lia.
    rewrite <- A1. exact Put'.
Qed.

(** The transcoded buffer of a file whose directory has supported entries
    is what [put_entries] writes for the tuples of the directory after the
    header and the count. *)
Lemma transcode_put (tiff : list byte) (ents : list entry) :
  read_directory tiff = Some ents ->
  Forall supported ents ->
  10 + 12 * len ents + relocated_size ents < 2 ^ 32 ->
  exists out,
    transcode tiff = inr out
    /\ put_entries ents 0 (10 + 12 * len ents)
         (canonical_header ++ Z_to_le 2 (len ents)) = Some out.
Proof.
  intros Hdir Hsup Hsize. unfold read_directory in Hdir.
  destruct (read_header tiff) as [[e off]|] eqn:Hh; [|discriminate].
  destruct (read_count e tiff off) as [n|] eqn:Hc; [|discriminate].
  pose proof (read_header_offset tiff e off Hh) as Ro.
  destruct (process_tags_unfold tiff e off n (mkBytesIO canonical_header 8) 8
              (proj1 Ro) Hc) as (Run & Rn).
  destruct (read_entries_nth e tiff (off + 2) n ents Hdir) as (Ln & Hnth).
  assert (Hlen : len ents = n) by (unfold len; lia).
  rewrite Hlen in Hsize |- *.
  cbn [b_pos] in Run. change (8 + 2) with 10 in Run.
  set (buffer := slice (off + 2) (off + 2 + n * 12) tiff) in *.
  assert (Lb : len buffer = 12 * n).
  { unfold buffer. destruct (Z.eq_dec n 0) as [->|Nz].
    - rewrite len_slice by lia. pose proof (len_nonneg tiff). lia.
    - destruct (Hnth (n - 1)) as (ent & _ & R); [lia|].
      destruct (read_entry_inv _ _ _ _ R) as (_ & _ & L & _).
      rewrite len_slice in L by lia. rewrite len_slice by lia. lia. }
  rewrite Lb in Run.
  assert (Hents : forall i, 0 <= i < n ->
            exists ent, nth_error ents (Z.to_nat i) = Some ent
                        /\ read_entry e tiff (off + 2 + 12 * i) = Some ent
                        /\ supported ent).
  { intros i Hi. destruct (Hnth i Hi) as (ent & N & R).
    exists ent. split; [exact N|]. split; [exact R|].
    rewrite Forall_forall in Hsup. apply Hsup.
    now apply nth_error_In with (n := Z.to_nat i). }
  set (st0 := mkTags (b_write (Z_to_le 2 n) (mkBytesIO canonical_header 8))
                (mkFile tiff (off + 2 + 12 * n)) (10 + 12 * n)) in *.
  assert (All : firstn (Z.to_nat n) (skipn 0 ents) = ents).
  { cbn [skipn]. apply firstn_all2. lia. }
  destruct (for_tags_put e tiff off n ents (proj1 Ro) Hents (Z.to_nat n)
              0%nat st0) as (st & Loop & Put & _).
  - lia.
  - reflexivity.
  - cbn [st0 ts_after]. lia.
  - rewrite All. cbn [st0 ts_after]. lia.
  - rewrite All in Put. cbn [st0 ts_after ts_b] in Put.
    replace (slice (off + 2) (off + 2 + 12 * n) tiff) with buffer in Loop
      by (unfold buffer; f_equal; lia).
    fold (range n) in Loop.
    exists (b_buf (ts_b st)). split.
    + unfold transcode. rewrite (process_header_ok tiff e off Hh).
      cbn [bind]. rewrite Run, Loop. reflexivity.
    + exact Put.
Qed.

End PutEntries.

Section Shape.

Import Struct Meta Reader.

(** One turn of the loop on a supported entry: the length of the buffer,
    what it keeps, and the offset it writes. *)
Lemma process_tag_shape (e : endian) (tiff : list byte) (off n idx : Z)
    (ent : entry) (st : tags_state) :
  0 <= off -> 0 <= idx < n ->
  read_entry e tiff (off + 2 + 12 * idx) = Some ent ->
  supported ent ->
  f_data (ts_tfp st) = tiff ->
  10 + 12 * n <= ts_after st < 2 ^ 32 ->
  10 + 12 * idx <= len (b_buf (ts_b st)) <= ts_after st ->
  exists st',
    process_tag e (slice (off + 2) (off + 2 + 12 * n) tiff) 10 st idx
    = inr st'
    /\ ts_after st' = ts_after st + relocated ent
    /\ len (b_buf (ts_b st'))
       = (if relocated ent =? 0
          then Z.max (len (b_buf (ts_b st))) (10 + 12 * idx + 12)
          else ts_after st + relocated ent)
    /\ same_slices 0 (10 + 12 * idx) (b_buf (ts_b st)) (b_buf (ts_b st'))
    /\ (4 < payload_length ent ->
        0 < relocated ent
        /\ rec_field Little
             (slice (10 + 12 * idx) (10 + 12 * idx + 12) (b_buf (ts_b st')))
           = ts_after st).
Proof.
  intros Ho Hi Hread Hsup F Ha Hl.
  set (buffer := slice (off + 2) (off + 2 + 12 * n) tiff).
  set (rc := slice (off + 2 + 12 * idx) (off + 2 + 12 * idx + 12) tiff).
  assert (Hrec : slice (idx * 12) ((idx + 1) * 12) buffer = rc)
    by (apply directory_record; lia).
  destruct (read_entry_inv _ _ _ _ Hread) as (d & cs & L & D & C & PL & Lp & E).
  fold rc in L, D, C, PL, Lp, E. cbv zeta in Lp, E.
  destruct (rec_ranges e rc L) as (R1 & R2 & R3 & R4).
  destruct (codes_unique e _ d _ cs D (proj1 R3) C) as (Sz & Pos).
  set (buf := b_buf (ts_b st)) in *.
  set (slot := 10 + 12 * idx).
  assert (Eslot : 10 + idx * 12 = slot) by (unfold slot; lia).
  destruct (Z_lt_le_dec 4 (payload_length ent)) as [G|G].
  - assert (G' : (nbytes d * rec_count e rc <=? 4) = false)
      by (apply Z.leb_gt; lia).
    rewrite G' in Lp, E.
    destruct (process_tag_outofline e buffer 10 idx st rc d cs Hrec L D C Sz Pos)
      as (out & Eo & Lo & Do & Run).
    { lia. }
    { rewrite F. exact Lp. }
    { lia. }
    rewrite F in Run. rewrite Eslot in Run. fold buf in Run.
    eexists. split; [exact Run|]. cbn [ts_b ts_after ts_tfp b_buf f_data].
    set (hdr := Z_to_le 2 (rec_tag e rc) ++ Z_to_le 2 (rec_type e rc)
                  ++ Z_to_le 4 (rec_count e rc) ++ Z_to_le 4 (ts_after st)) in *.
    assert (Lh : len hdr = 12).
    { unfold hdr. rewrite !len_app, !len_Z_to_le. lia. }
    assert (Nh : hdr <> []) by (intros X; rewrite X in Lh; discriminate).
    assert (No : out <> []).
    { intros X; rewrite X in Lo. cbn in Lo. lia. }
    set (buf1 := b_buf (b_write hdr (mkBytesIO buf slot))).
    assert (L1 : len buf1 = Z.max (len buf) (slot + 12)).
    { unfold buf1. rewrite b_write_len by (assumption || lia). lia. }
    set (buf2 := b_buf (b_write out (mkBytesIO buf1 (ts_after st)))).
    assert (L2 : len buf2 = ts_after st + nbytes d * rec_count e rc).
    { unfold buf2. rewrite b_write_len by (assumption || lia).
      unfold slot in *. lia. }
    assert (Rel : relocated ent = nbytes d * rec_count e rc).
    { unfold relocated. rewrite PL.
      replace (nbytes d * rec_count e rc >? 4) with true; [reflexivity|].
      symmetry. apply Z.gtb_lt. lia. }
    split; [lia|]. split.
    { rewrite (proj2 (Z.eqb_neq (relocated ent) 0)) by lia. lia. }
    split.
    { intros a b Hx Hab. unfold buf2. rewrite b_write_frame by (unfold slot in *; lia).
      unfold buf1. apply b_write_frame; unfold slot in *; lia. }
    intros _. split; [lia|].
    assert (Sl : slice slot (slot + 12) buf2 = hdr).
    { unfold buf2. rewrite b_write_frame by (unfold slot in *; lia).
      unfold buf1. rewrite <- Lh at 1. apply b_write_at; [assumption|unfold slot; lia]. }
    rewrite Sl.
    destruct (written_fields (rec_tag e rc) (rec_type e rc) (rec_count e rc)
                (Z_to_le 4 (ts_after st)))
      as (W1 & W2 & W3 & W4 & W5); try lia; [apply len_Z_to_le|].
    fold hdr in W1, W2, W3, W4, W5.
    unfold rec_field. rewrite W4. cbn [bytes_to_Z].
    apply le_to_Z_to_le. cbn. lia.
  - assert (Rel : relocated ent = 0).
    { unfold relocated.
      replace (payload_length ent >? 4) with false; [reflexivity|].
      symmetry. rewrite Z.gtb_ltb. apply Z.ltb_ge. lia. }
    assert (Two : forall hdr out st',
               process_tag e buffer 10 st idx = inr st' ->
               ts_b st' = b_write out (b_write hdr (mkBytesIO buf slot)) ->
               ts_after st' = ts_after st ->
               len hdr = 8 -> len out = 4 ->
               ts_after st' = ts_after st + relocated ent
               /\ len (b_buf (ts_b st'))
                  = (if relocated ent =? 0
                     then Z.max (len buf) (10 + 12 * idx + 12)
                     else ts_after st + relocated ent)
               /\ same_slices 0 (10 + 12 * idx) buf (b_buf (ts_b st'))
               /\ (4 < payload_length ent ->
                   0 < relocated ent
                   /\ rec_field Little
                        (slice (10 + 12 * idx) (10 + 12 * idx + 12)
                           (b_buf (ts_b st')))
                      = ts_after st)).
    { intros hdr out st' _ Eb Ea Lh Lo. rewrite Eb, Rel.
      assert (Nh : hdr <> []) by (intros X; rewrite X in Lh; discriminate).
      assert (No : out <> []) by (intros X; rewrite X in Lo; discriminate).
      assert (Eta : b_write hdr (mkBytesIO buf slot)
                    = mkBytesIO (b_buf (b_write hdr (mkBytesIO buf slot)))
                        (slot + 8)).
      { rewrite (b_write_eta hdr) at 1. cbn [b_pos]. now rewrite Lh. }
      split; [lia|]. split.
      { cbn [Z.eqb]. rewrite Eta, !b_write_len by (assumption || unfold slot; lia).
        unfold slot. lia. }
      split; [|intros X; lia].
      intros a b Hx Hab. rewrite Eta.
      rewrite b_write_frame;
        [|lia|unfold slot; lia
         |rewrite b_write_len by (assumption || unfold slot; lia);
          unfold slot; lia].
      apply b_write_frame; unfold slot; lia. }
    destruct (Z.eq_dec (payload_length ent) 4) as [G4|N4].
    + assert (Hn : nbytes d * rec_count e rc = 4) by lia.
      destruct (process_tag_inline4 e buffer 10 idx st rc d cs Hrec L D C Sz
                  Pos Hn) as (out & Eo & Lo & Do & Run).
      rewrite Eslot in Run. fold buf in Run.
      eexists. split; [exact Run|].
      apply (Two (Z_to_le 2 (rec_tag e rc) ++ Z_to_le 2 (rec_type e rc)
                    ++ Z_to_le 4 (rec_count e rc)) out _ Run);
        try reflexivity; try assumption;
        try (rewrite !len_app, !len_Z_to_le; lia).
    + destruct Hsup as [G4|[Ht Hc]]; [lia|].
      assert (Ht' : rec_type e rc = 3) by (rewrite E in Ht; exact Ht).
      assert (Hc' : rec_count e rc = 1) by (rewrite E in Hc; exact Hc).
      pose proof (process_tag_short e buffer 10 idx st rc Hrec L Ht' Hc') as Run.
      rewrite Eslot in Run. fold buf in Run.
      eexists. split; [exact Run|].
      apply (Two (Z_to_le 2 (rec_tag e rc) ++ Z_to_le 2 3 ++ Z_to_le 4 1)
               (Z_to_le 4 (bytes_to_Z e (slice 8 10 rc))) _ Run);
        try reflexivity; try apply len_Z_to_le;
        try (rewrite !len_app, !len_Z_to_le; lia).
Qed.

Lemma offsets_in_succ (n idx : Z) (ents : list entry) (buf buf' : list byte) :
  0 <= idx ->
  offsets_in n ents idx buf ->
  same_slices 0 (10 + 12 * idx) buf buf' ->
  (forall ent, nth_error ents (Z.to_nat idx) = Some ent ->
     4 < payload_length ent ->
     rec_field Little (slice (10 + 12 * idx) (10 + 12 * idx + 12) buf')
     = 10 + 12 * n + relocated_size (firstn (Z.to_nat idx) ents)) ->
  offsets_in n ents (idx + 1) buf'.
Proof.
  intros Hi Old Fr New i ent Hr N G.
  destruct (Z.eq_dec i idx) as [->|Ne].
  - now apply New with (ent := ent).
  - rewrite Fr by lia. apply Old with (ent := ent); [lia|assumption..].
Qed.

Lemma for_tags_shaped (e : endian) (tiff : list byte) (off n : Z)
    (ents : list entry) :
  0 <= off ->
  10 + 12 * n + relocated_size ents < 2 ^ 32 ->
  (forall i, 0 <= i < n ->
     exists ent, nth_error ents (Z.to_nat i) = Some ent
                 /\ read_entry e tiff (off + 2 + 12 * i) = Some ent
                 /\ supported ent) ->
  forall (m s : nat) (st : tags_state),
    Z.of_nat s + Z.of_nat m <= n ->
    f_data (ts_tfp st) = tiff ->
    shaped n ents (Z.of_nat s) st ->
    exists st',
      for_tags (process_tag e (slice (off + 2) (off + 2 + 12 * n) tiff) 10)
        (map Z.of_nat (seq s m)) st = inr st'
      /\ shaped n ents (Z.of_nat s + Z.of_nat m) st'.
Proof.
  intros Ho Hsize Hents. induction m as [|m IH]; intros s st Hs F Inv.
  - exists st. cbn [seq map for_tags]. rewrite Z.add_0_r. auto.
  - cbn [seq map for_tags].
    destruct (Hents (Z.of_nat s)) as (ent & N & R & Sup); [lia|].
    destruct Inv as (A & Ln & Offs). cbv zeta in A, Ln.
    pose proof (relocated_size_firstn_le ents (Z.to_nat (Z.of_nat s))) as Rle.
    pose proof (relocated_size_nonneg
                  (firstn (Z.to_nat (Z.of_nat s)) ents)) as Rge.
    pose proof (relocated_size_succ ents (Z.of_nat s) ent
                  (Nat2Z.is_nonneg s) N) as Rs.
    pose proof (relocated_size_firstn_le ents
                  (Z.to_nat (Z.of_nat s + 1))) as Rle'.
    set (moved := relocated_size (firstn (Z.to_nat (Z.of_nat s)) ents)) in *.
    assert (Hlen : 10 + 12 * Z.of_nat s <= len (b_buf (ts_b st))
                   <= ts_after st).
    { destruct (moved =? 0) eqn:M; lia. }
    destruct (process_tag_shape e tiff off n (Z.of_nat s) ent st)
      as (st1 & Run & A1 & L1 & Fr & Off1); try assumption; try lia.
    rewrite Run. cbn [bind].
    assert (F1 : f_data (ts_tfp st1) = tiff).
    { destruct (process_tag_frame _ _ _ _ _ _ Run) as (_ & _ & Fd & _);
        try lia.
      - rewrite len_slice by lia. lia.
      - now rewrite Fd. }
    assert (Re : 0 <= relocated ent).
    { pose proof (relocated_size_nonneg [ent]) as X.
      change (relocated_size [ent]) with (relocated ent + 0) in X. lia. }
    assert (Inv1 : shaped n ents (Z.of_nat s + 1) st1).
    { split; [cbv zeta; lia|]. split.
      - cbv zeta. rewrite Rs. fold moved. rewrite L1.
        destruct (relocated ent =? 0) eqn:Z0.
        + apply Z.eqb_eq in Z0. rewrite Z0, Z.add_0_r.
          destruct (moved =? 0) eqn:M; lia.
        + apply Z.eqb_neq in Z0.
          rewrite (proj2 (Z.eqb_neq (moved + relocated ent) 0)) by lia. lia.
      - apply offsets_in_succ with (buf := b_buf (ts_b st)); try lia;
          try assumption.
        intros ent' N' G'. rewrite N in N'. inversion N'; subst ent'.
        destruct (Off1 G') as (_ & X). rewrite X. exact A. }
    destruct (IH (S s) st1) as (st' & Run' & Inv'); [lia|exact F1| |].
    { replace (Z.of_nat (S s)) with (Z.of_nat s + 1) by lia. exact Inv1. }
    exists st'. split; [exact Run'|].
    replace (Z.of_nat s + Z.of_nat (S m)) with (Z.of_nat (S s) + Z.of_nat m)
      by lia.
    exact Inv'.
Qed.

(** The shape of the transcoded buffer of a file whose directory has
    supported entries. *)
Lemma transcode_shaped (tiff : list byte) (ents : list entry) :
  read_directory tiff = Some ents ->
  Forall supported ents ->
  10 + 12 * len ents + relocated_size ents < 2 ^ 32 ->
  exists out,
    transcode tiff = inr out
    /\ len out = 10 + 12 * len ents + relocated_size ents
    /\ offsets_in (len ents) ents (len ents) out.
Proof.
  intros Hdir Hsup Hsize. unfold read_directory in Hdir.
  destruct (read_header tiff) as [[e off]|] eqn:Hh; [|discriminate].
  destruct (read_count e tiff off) as [n|] eqn:Hc; [|discriminate].
  pose proof (read_header_offset tiff e off Hh) as Ro.
  destruct (process_tags_unfold tiff e off n (mkBytesIO canonical_header 8) 8
              (proj1 Ro) Hc) as (Run & Rn).
  destruct (read_entries_nth e tiff (off + 2) n ents Hdir) as (Ln & Hnth).
  assert (Hlen : len ents = n) by (unfold len; lia).
  rewrite Hlen in Hsize |- *.
  cbn [b_pos] in Run. change (8 + 2) with 10 in Run.
  set (buffer := slice (off + 2) (off + 2 + n * 12) tiff) in *.
  assert (Lb : len buffer = 12 * n).
  { unfold buffer. destruct (Z.eq_dec n 0) as [->|Nz].
    - rewrite len_slice by lia. pose proof (len_nonneg tiff). lia.
    - destruct (Hnth (n - 1)) as (ent & _ & R); [lia|].
      destruct (read_entry_inv _ _ _ _ R) as (_ & _ & L & _).
      rewrite len_slice in L by lia. rewrite len_slice by lia. lia. }
  rewrite Lb in Run.
  assert (Hents : forall i, 0 <= i < n ->
            exists ent, nth_error ents (Z.to_nat i) = Some ent
                        /\ read_entry e tiff (off + 2 + 12 * i) = Some ent
                        /\ supported ent).
  { intros i Hi. destruct (Hnth i Hi) as (ent & N & R).
    exists ent. split; [exact N|]. split; [exact R|].
    rewrite Forall_forall in Hsup. apply Hsup.
    now apply nth_error_In with (n := Z.to_nat i). }
  set (st0 := mkTags (b_write (Z_to_le 2 n) (mkBytesIO canonical_header 8))
                (mkFile tiff (off + 2 + 12 * n)) (10 + 12 * n)) in *.
  assert (Inv0 : shaped n ents (Z.of_nat 0) st0).
  { split; [cbn; lia|]. split; [reflexivity|].
    intros i ent Hi. cbn in Hi. lia. }
  destruct (for_tags_shaped e tiff off n ents (proj1 Ro) Hsize Hents
              (Z.to_nat n) 0%nat st0) as (st & Loop & Inv);
    [lia|reflexivity|exact Inv0|].
  replace (Z.of_nat 0 + Z.of_nat (Z.to_nat n)) with n in Inv by lia.
  replace (slice (off + 2) (off + 2 + 12 * n) tiff) with buffer in Loop
    by (unfold buffer; f_equal; lia).
  fold (range n) in Loop.
  exists (b_buf (ts_b st)). split.
  - unfold transcode. rewrite (process_header_ok tiff e off Hh).
    cbn [bind]. rewrite Run, Loop. reflexivity.
  - destruct Inv as (A & L & Offs). cbv zeta in A, L.
    replace (firstn (Z.to_nat n) ents) with ents in A, L
      by (symmetry; apply firstn_all2; lia).
    split; [|exact Offs].
    rewrite L. destruct (relocated_size ents =? 0) eqn:Z0; [|lia].
    apply Z.eqb_eq in Z0. lia.
Qed.

End Shape.

(** What is written for a tuple is what is written for the tuple with its
    values as [struct] hands them on. *)
Lemma put_entry_unpacked (ent : entry) (idx after : Z) (buf : list byte) :
  put_entry (as_unpacked ent) idx after buf = put_entry ent idx after buf.
Proof.
  destruct ent as [tag type count vs]. unfold put_entry, as_unpacked.
  cbn [e_tag e_type e_count e_values].
  change (payload_length (mkEntry tag type count (map unpacked vs)))
    with (payload_length (mkEntry tag type count vs)).
  destruct (tag_dtype type) as [d|]; [|reflexivity].
  destruct (codes _) as [cs|]; [|reflexivity].
  rewrite encode_all_unpacked.
  destruct (4 <? _); [reflexivity|].
  destruct ((type =? 3) && (count =? 1)); [|reflexivity].
  destruct vs as [|[v|n bits] [|v' vs]]; reflexivity.
Qed.

Lemma put_entries_unpacked (ents : list entry) :
  forall idx after buf,
    put_entries (map as_unpacked ents) idx after buf
    = put_entries ents idx after buf.
Proof.
  induction ents as [|ent ents IH]; intros idx after buf; [reflexivity|].
  cbn [map put_entries]. rewrite put_entry_unpacked.
  destruct (put_entry ent idx after buf); [|reflexivity].
  apply IH.
Qed.

Lemma len_map {A B} (f : A -> B) (l : list A) : len (map f l) = len l.
Proof. unfold len. now rewrite length_map. Qed.

(** X1.  The transcoded buffer depends on the tuples of the directory
    only: two files whose first directories have the same supported
    entries, whatever their byte orders and the places of the directory and
    of the values, are transcoded to the same buffer. *)
Theorem transcode_same_directory (tiff tiff' : list byte)
    (ents : list Reader.entry) :
  Reader.read_directory tiff = Some ents ->
  Reader.read_directory tiff' = Some ents ->
  Forall Reader.supported ents ->
  10 + 12 * len ents + Reader.relocated_size ents < 2 ^ 32 ->
  exists out,
    Meta.transcode tiff = inr out /\ Meta.transcode tiff' = inr out.
Proof.
  intros D D' Sup Size.
  destruct (transcode_put tiff ents D Sup Size) as (out & T & P).
  destruct (transcode_put tiff' ents D' Sup Size) as (out' & T' & P').
  rewrite P in P'. inversion P'; subst out'.
  exists out. split; assumption.
Qed.

Lemma sample_entries_supported : Forall supported Samples.sample_entries.
Proof.
  constructor; [|constructor; [|constructor; [|constructor]]].
  - right. split; reflexivity.
  - left. cbn. lia.
  - left. cbn. lia.
Qed.

Lemma transcode_same_directory_witness :
  exists out,
    transcode Samples.big_file = inr out
    /\ transcode Samples.little_file = inr out.
Proof.
  apply (transcode_same_directory Samples.big_file Samples.little_file
           Samples.sample_entries).
  - reflexivity.
  - reflexivity.
  - exact sample_entries_supported.
  - reflexivity.
Defined.

(** X2.  Transcoding is idempotent: the transcoded buffer of a file whose
    directory has supported entries is itself a little-endian file with
    that directory, and transcoding it gives the same buffer again. *)
Theorem transcode_idempotent (tiff out : list byte) (ents : list entry) :
  read_directory tiff = Some ents ->
  Forall supported ents ->
  10 + 12 * len ents + relocated_size ents < 2 ^ 32 ->
  transcode tiff = inr out ->
  transcode out = inr out.
Proof.
  intros D Sup Size T.
  destruct (transcode_roundtrip tiff ents D Sup Size) as (out1 & T1 & D1).
  rewrite T in T1. apply inr_inj in T1. subst out1.
  destruct (transcode_put tiff ents D Sup Size) as (out2 & T2 & P2).
  rewrite T in T2. apply inr_inj in T2. subst out2.
  destruct (transcode_put out (map as_unpacked ents) D1) as (out3 & T3 & P3).
  { now apply supported_unpacked. }
  { now rewrite len_map, relocated_size_unpacked. }
  rewrite put_entries_unpacked, len_map, P2 in P3.
  inversion P3; subst out3. exact T3.
Qed.

Lemma transcode_idempotent_witness :
  exists out,
    transcode Samples.big_file = inr out /\ transcode out = inr out.
Proof.
  eexists. split; [reflexivity|].
  apply (transcode_idempotent Samples.big_file _ Samples.sample_entries).
  - reflexivity.
  - exact sample_entries_supported.
  - reflexivity.
  - reflexivity.
Defined.

(** X3.  Decoding the transcoded buffer gives the tuples of the source
    directory with their values as [struct] hands them on, for a directory
    of supported entries: the same tuples, but that a single float holding
    a signalling NaN comes back quiet; so the very tuples of the source
    when no value is such a float.  And the buffer is as long as the
    header, the count, the entries and the values that lie outside the
    entries, with nothing after them: no offset of a next directory
    follows the entries. *)
Theorem supported_directory_round_trip (tiff : list byte)
    (ents : list entry) :
  read_directory tiff = Some ents ->
  Forall supported ents ->
  10 + 12 * len ents + relocated_size ents < 2 ^ 32 ->
  exists out,
    transcode tiff = inr out
    /\ read_directory out = Some (map as_unpacked ents)
    /\ (Forall no_signalling ents -> read_directory out = Some ents)
    /\ len out = 10 + 12 * len ents + relocated_size ents.
Proof.
  intros D Sup Size.
  destruct (transcode_roundtrip tiff ents D Sup Size) as (out & T & D').
  destruct (transcode_shaped tiff ents D Sup Size) as (out' & T' & L & _).
  rewrite T in T'. apply inr_inj in T'. subst out'.
  exists out. split; [exact T|]. split; [exact D'|]. split; [|exact L].
  intros Q. rewrite D'. f_equal.
  clear - Q. induction Q as [|ent ents Qe _ IH]; [reflexivity|].
  cbn [map]. now rewrite (unpacked_id ent Qe), IH.
Qed.

Lemma supported_directory_round_trip_witness :
  exists out,
    transcode Samples.big_file = inr out
    /\ read_directory out = Some Samples.sample_entries
    /\ len out = 52.
Proof.
  destruct (supported_directory_round_trip Samples.big_file
              Samples.sample_entries) as (out & T & _ & D & L).
  - reflexivity.
  - exact sample_entries_supported.
  - reflexivity.
  - exists out. split; [exact T|]. split; [|exact L].
    apply D. unfold Samples.sample_entries.
    repeat constructor; intros bits Hin; cbn in Hin;
      intuition discriminate.
Defined.

(** X4.  The values that do not fit into their entries are placed one
    after the other in the order of the entries, from the end of the
    entries on: the entry [i] gets the offset [10 + 12 * n] plus the
    lengths of the values of the entries before it that lie outside, and
    it is read back from there with its values as [struct] hands them on:
    with its very values when none is a single float holding a signalling
    NaN. *)
Theorem relocated_values_consecutive (tiff out : list byte)
    (ents : list entry) (i : Z) (ent : entry) :
  read_directory tiff = Some ents ->
  Forall supported ents ->
  10 + 12 * len ents + relocated_size ents < 2 ^ 32 ->
  transcode tiff = inr out ->
  0 <= i -> nth_error ents (Z.to_nat i) = Some ent ->
  4 < payload_length ent ->
  rec_field Little (slice (10 + 12 * i) (10 + 12 * i + 12) out)
  = 10 + 12 * len ents + relocated_size (firstn (Z.to_nat i) ents)
  /\ read_entry Little out (10 + 12 * i) = Some (as_unpacked ent)
  /\ (no_signalling ent -> read_entry Little out (10 + 12 * i) = Some ent).
Proof.
  intros D Sup Size T Hi N G.
  assert (Hlt : i < len ents).
  { assert (X : (Z.to_nat i < List.length ents)%nat)
      by (apply nth_error_Some; rewrite N; discriminate).
    unfold len. lia. }
  destruct (transcode_shaped tiff ents D Sup Size) as (out' & T' & _ & Offs).
  rewrite T in T'. apply inr_inj in T'. subst out'.
  split; [apply (Offs i ent); [lia|assumption..]|].
  assert (R : read_entry Little out (10 + 12 * i) = Some (as_unpacked ent));
    [|split; [exact R|intros Q; now rewrite R, (unpacked_id ent Q)]].
  destruct (transcode_roundtrip tiff ents D Sup Size) as (out' & T' & D').
  rewrite T in T'. apply inr_inj in T'. subst out'.
  unfold read_directory in D'.
  destruct (read_header out) as [[e off]|] eqn:Hh; [|discriminate].
  destruct (read_count e out off) as [n|] eqn:Hc; [|discriminate].
  destruct (transcode_inv tiff out T) as (e0 & off0 & n0 & _ & _ & S8 & S10).
  assert (He : e = Little /\ off = 8).
  { destruct (read_header_inv out e off Hh)
      as (d0 & d1 & v0 & v1 & o0 & o1 & o2 & o3 & rest & -> & He & ->).
    cbn in S8. inversion S8; subst.
    destruct He as [(-> & _)|(_ & X & _)]; [|discriminate]. auto. }
  destruct He as (-> & ->).
  destruct (read_entries_nth Little out (8 + 2) n _ D') as (Ln & Hnth).
  rewrite length_map in Ln.
  destruct (Hnth i) as (ent' & N' & R); [unfold len in Hlt; lia|].
  rewrite nth_error_map, N in N'. inversion N'; subst ent'.
  replace (10 + 12 * i) with (8 + 2 + 12 * i) by lia. exact R.
Qed.

Lemma relocated_values_consecutive_witness :
  exists out,
    transcode Samples.big_file = inr out
    /\ rec_field Little (slice 22 34 out) = 46
    /\ read_entry Little out 22
       = Some (mkEntry 258 3 3 [VInt 8; VInt 8; VInt 8])
    /\ (no_signalling (mkEntry 258 3 3 [VInt 8; VInt 8; VInt 8]) ->
        read_entry Little out 22
        = Some (mkEntry 258 3 3 [VInt 8; VInt 8; VInt 8])).
Proof.
  eexists. split; [reflexivity|].
  apply (relocated_values_consecutive Samples.big_file _
           Samples.sample_entries 1
           (mkEntry 258 3 3 [VInt 8; VInt 8; VInt 8])).
  - reflexivity.
  - exact sample_entries_supported.
  - reflexivity.
  - reflexivity.
  - discriminate.
  - reflexivity.
  - reflexivity.
Defined.

(** ** Files the transcoder cannot read *)

(** X5.  A directory of no entry is transcoded to the 10 bytes of the
    header and of the count: the buffer ends there. *)
Theorem empty_directory_transcoded (tiff : list byte) (e : endian)
    (off : Z) :
  read_header tiff = Some (e, off) -> read_count e tiff off = Some 0 ->
  transcode tiff = inr (canonical_header ++ [x00; x00]).
Proof.
  intros Hh Hc. rewrite (transcode_unfold tiff e off 0 Hh Hc). reflexivity.
Qed.

Lemma empty_directory_transcoded_witness :
  transcode Samples.empty_directory_file
  = inr [x49; x49; x2a; x00; x08; x00; x00; x00; x00; x00].
Proof.
  apply (empty_directory_transcoded Samples.empty_directory_file Little 8);
    reflexivity.
Defined.

Lemma unpack_short (e : endian) (items : string) (cs : list (nat * kind))
    (bs : list byte) :
  codes items = Some cs -> len bs <> calcsize cs ->
  unpack (endian_char e ++ items) (Bytes bs) = raise StructError.
Proof.
  intros C L. rewrite (unpack_bytes e items cs bs C).
  now rewrite (proj2 (Z.eqb_neq _ _) L).
Qed.

(** X6.  A file of fewer than 8 bytes is not transcoded: [struct.unpack]
    raises [struct.error] on the bytes there are, unless two bytes that are
    no byte-order mark have raised the [NameError] of the header before.  A
    file of fewer than 2 bytes, and so the empty file, raises
    [struct.error]. *)
Theorem short_file_rejected (tiff : list byte) :
  len tiff < 8 ->
  (transcode tiff = inl StructError
   \/ transcode tiff = inl (NameError "read_buffer"))
  /\ (len tiff < 2 -> transcode tiff = inl StructError).
Proof.
  intros L. unfold transcode, _process_header. cbn [f_read f_pos f_data].
  set (buffer := slice 0 (0 + 8) tiff).
  assert (Lb : len buffer = len tiff).
  { unfold buffer. rewrite len_slice by lia. pose proof (len_nonneg tiff).
    lia. }
  destruct tiff as [|d0 [|d1 rest]].
  - split; [left|intros _]; reflexivity.
  - split; [left|intros _]; reflexivity.
  - split; [|intros X; cbn in X; lia].
    replace (slice 0 2 buffer) with [d0; d1] by reflexivity.
    rewrite unpack_BB. cbn [bind ret].
    assert (Short : forall o,
               unpack (endian_char o ++ "HI") (Bytes (slice 2 8 buffer))
               = raise StructError).
    { intros o. apply unpack_short with (cs := [(2%nat, KUnsigned);
                                                (4%nat, KUnsigned)]);
        [reflexivity|].
      rewrite len_slice by lia. change (calcsize _) with 6. lia. }
    destruct ((byte_to_Z d0 =? 73) && (byte_to_Z d1 =? 73)).
    + left. cbn [bind ret]. rewrite Short. reflexivity.
    + destruct ((byte_to_Z d0 =? 77) && (byte_to_Z d1 =? 77)).
      * left. cbn [bind ret]. rewrite Short. reflexivity.
      * right. reflexivity.
Qed.

Lemma short_file_rejected_witness : transcode [] = inl StructError.
Proof.
  apply (proj2 (short_file_rejected [] ltac:(reflexivity))). reflexivity.
Defined.

(** X7.  When the header gives an offset of the directory at which the
    file has no two bytes left, the count cannot be read and the transcoder
    raises [struct.error]. *)
Theorem directory_outside_file_rejected (tiff : list byte) (e : endian)
    (off : Z) :
  read_header tiff = Some (e, off) -> len tiff < off + 2 ->
  transcode tiff = inl StructError.
Proof.
  intros Hh L. pose proof (read_header_offset tiff e off Hh) as Ro.
  unfold transcode. rewrite (process_header_ok tiff e off Hh).
  cbn [bind]. unfold _process_tags, f_read. cbn [f_pos f_data].
  rewrite unpack_short with (cs := [(2%nat, KUnsigned)]); [reflexivity..|].
  rewrite len_slice by lia. change (calcsize _) with 2.
  pose proof (len_nonneg tiff). lia.
Qed.

Lemma directory_outside_file_rejected_witness :
  transcode Samples.far_directory_file = inl StructError.
Proof.
  apply (directory_outside_file_rejected Samples.far_directory_file
           Little 64); reflexivity.
Defined.

(** An entry whose values lie outside of it, at an offset where the file
    does not have them all. *)
Lemma process_tag_dangling (e : endian) (buffer : list byte) (start idx : Z)
    (st : tags_state) (rec : list byte) (d : dtype_info) :
  slice (idx * 12) ((idx + 1) * 12) buffer = rec -> len rec = 12 ->
  tag_dtype (rec_type e rec) = Some d ->
  4 < nbytes d * rec_count e rec ->
  len (f_data (ts_tfp st)) < rec_field e rec + nbytes d * rec_count e rec ->
  process_tag e buffer start st idx = inl StructError.
Proof.
  intros Hrec Hlen Hd Hn Hf.
  destruct (rec_ranges e rec Hlen) as (R1 & R2 & R3 & R4).
  destruct (tag_dtype_repeat _ d (rec_count e rec) Hd (proj1 R3))
    as (cs & C & Sz & _).
  unfold process_tag. rewrite Hrec, (unpack_HHI_rec e rec Hlen).
  cbn [bind ret]. unfold tag_dtype_get. rewrite Hd. cbn [bind ret].
  replace (nbytes d * rec_count e rec >? 4) with true
    by (symmetry; apply Z.gtb_lt; exact Hn).
  rewrite (unpack_I e rec Hlen). cbn [bind ret].
  fold (rec_field e rec).
  unfold f_tell, f_seek, f_read. cbn [f_pos f_data].
  rewrite unpack_short with (cs := cs); [reflexivity|exact C|].
  rewrite len_slice by lia. rewrite Sz.
  pose proof (len_nonneg (f_data (ts_tfp st))). lia.
Qed.

(** X8.  When an entry has its values outside of it and the file does not
    hold them all at the offset the entry gives, the transcoder raises
    [struct.error] and returns no buffer; the entries before it are
    supported ones. *)
Theorem dangling_values_rejected (tiff : list byte) (e : endian)
    (off n idx : Z) (d : dtype_info) (ents : list entry) :
  read_header tiff = Some (e, off) -> read_count e tiff off = Some n ->
  off + 2 + 12 * n <= len tiff -> 0 <= idx < n ->
  let rc := slice (off + 2 + 12 * idx) (off + 2 + 12 * idx + 12) tiff in
  tag_dtype (rec_type e rc) = Some d ->
  4 < nbytes d * rec_count e rc ->
  len tiff < rec_field e rc + nbytes d * rec_count e rc ->
  read_entries e tiff (off + 2) idx = Some ents ->
  Forall supported ents ->
  10 + 12 * n + relocated_size ents < 2 ^ 32 ->
  transcode tiff = inl StructError.
Proof.
  intros Hh Hc Hfile Hi rc Hd Hn Hdang Hents Hsup Hsize.
  pose proof (read_header_offset tiff e off Hh) as Ro.
  rewrite (transcode_unfold tiff e off n Hh Hc).
  set (buffer := slice (off + 2) (off + 2 + n * 12) tiff).
  assert (Lb : len buffer = 12 * n).
  { unfold buffer. rewrite len_slice by lia. lia. }
  assert (L : len rc = 12) by (unfold rc; rewrite len_slice by lia; lia).
  assert (Hrec : slice (idx * 12) ((idx + 1) * 12) buffer = rc).
  { unfold buffer. replace (n * 12) with (12 * n) by lia.
    apply directory_record; lia. }
  set (st0 := mkTags _ _ _).
  destruct (read_entries_nth e tiff (off + 2) idx ents Hents) as (Ln & Hnth).
  assert (Inv0 : transcoded tiff n ents (Z.of_nat 0) st0).
  { unfold transcoded, st0.
    cbn [ts_after ts_tfp ts_b f_data b_buf Z.of_nat Z.to_nat firstn].
    rewrite Lb. split; [cbn; lia|]. split; [reflexivity|].
    split.
    { rewrite len_app, len_Z_to_le. change (len canonical_header) with 8.
      lia. }
    split; [reflexivity|]. intros i Hi'. lia. }
  assert (Hall : forall i, 0 <= i < idx ->
            exists ent, nth_error ents (Z.to_nat i) = Some ent
                        /\ read_entry e tiff (off + 2 + 12 * i) = Some ent
                        /\ supported ent).
  { intros i Hi'. destruct (Hnth i Hi') as (ent & N & R).
    exists ent. split; [exact N|]. split; [exact R|].
    rewrite Forall_forall in Hsup. apply Hsup.
    now apply nth_error_In with (n := Z.to_nat i). }
  pose proof (fun H1 H2 =>
                for_tags_transcoded e tiff off n ents (proj1 Ro) Hsize idx
                  H1 Hall (Z.to_nat idx) 0%nat st0 H2 Inv0) as X.
  destruct X as (st1 & Loop & Inv1); try lia.
  replace (slice (off + 2) (off + 2 + 12 * n) tiff) with buffer in Loop
    by (unfold buffer; f_equal; lia).
  fold (range idx) in Loop.
  destruct Inv1 as (_ & F & _).
  rewrite (for_tags_stop e buffer n idx st0 st1 StructError Hi Loop).
  - reflexivity.
  - apply (process_tag_dangling e buffer 10 idx st1 rc d Hrec L Hd Hn).
    rewrite F. exact Hdang.
Qed.

Lemma dangling_values_rejected_witness :
  transcode Samples.dangling_file = inl StructError.
Proof.
  apply (dangling_values_rejected Samples.dangling_file Little 8 2 1
           (mkDtype "H" 2) [mkEntry 256 3 1 [VInt 16]]).
  - reflexivity.
  - reflexivity.
  - discriminate.
  - lia.
  - reflexivity.
  - reflexivity.
  - reflexivity.
  - reflexivity.
  - constructor; [right; split; reflexivity | constructor].
  - reflexivity.
Defined.

(** ** The events of [copy_image] *)

Lemma io_all_ret {A} (P : event -> Prop) (a : A) : io_all P (io_ret a).
Proof. constructor. Qed.

Lemma io_all_lift {A} (P : event -> Prop) (r : result A) : io_all P (lift r).
Proof. constructor. Qed.

Lemma io_all_bind {A B} (P : event -> Prop) (m : io A) (f : A -> io B) :
  io_all P m -> (forall a, io_all P (f a)) -> io_all P (io_bind m f).
Proof.
  unfold io_all, io_bind. destruct m as [tr [e|a]]; cbn [fst]; [auto|].
  intros H F. specialize (F a). destruct (f a) as [tr' r]. cbn [fst] in *.
  apply Forall_app. now split.
Qed.

Lemma io_all_tiled_cols (t : tiff) (jth jtw : Z) (rgba : bool) (ntc : Z)
    (fuel : nat) :
  forall julr julc r c tilenum tulr tulc v,
    io_all (read_as true rgba)
      (tiled_cols t jth jtw rgba ntc fuel julr julc r c tilenum tulr tulc v).
Proof.
  induction fuel as [|fuel IH]; intros; cbn [tiled_cols];
    [apply io_all_lift|].
  apply io_all_bind; [apply io_all_lift|intros q].
  destruct (_ <? _); [|apply io_all_ret].
  apply io_all_bind.
  { destruct rgba; repeat constructor. }
  intros bufs.
  apply io_all_bind; [apply io_all_lift|intros o].
  apply io_all_bind; [apply io_all_lift|intros tile].
  apply io_all_bind; [apply io_all_lift|intros corner].
  apply IH.
Qed.

Lemma io_all_tiled_rows (t : tiff) (jth jtw : Z) (rgba : bool) (ntc : Z)
    (fuel : nat) :
  forall julr julc r v,
    io_all (read_as true rgba)
      (tiled_rows t jth jtw rgba ntc fuel julr julc r v).
Proof.
  induction fuel as [|fuel IH]; intros; cbn [tiled_rows];
    [apply io_all_lift|].
  apply io_all_bind; [apply io_all_lift|intros q].
  destruct (_ <? _); [|apply io_all_ret].
  apply io_all_bind; [apply io_all_lift|intros corner].
  apply io_all_bind; [apply io_all_tiled_cols|intros v'].
  apply IH.
Qed.

Lemma io_all_striped_rows (t : tiff) (jth jtw : Z) (rgba : bool)
    (fuel : nat) :
  forall julr julc r v,
    io_all (read_as false rgba)
      (striped_rows t jth jtw rgba fuel julr julc r v).
Proof.
  induction fuel as [|fuel IH]; intros; cbn [striped_rows];
    [apply io_all_lift|].
  apply io_all_bind; [apply io_all_lift|intros q].
  destruct (_ <? _); [|apply io_all_ret].
  destruct (_ >=? _); [apply io_all_ret|].
  apply io_all_bind.
  { destruct rgba; repeat constructor. }
  intros bufs.
  apply io_all_bind; [apply io_all_lift|intros o].
  apply io_all_bind; [apply io_all_lift|intros tile].
  apply IH.
Qed.

Lemma tile_run_bind {A B} (P : event -> Prop) (idx : Z) (m : io A)
    (f : A -> io B) :
  io_all P m -> (forall a, tile_run P idx (f a)) ->
  tile_run P idx (io_bind m f).
Proof.
  unfold io_all, tile_run, io_bind. destruct m as [tr [e|a]]; cbn [fst snd].
  - intros H _. left. eauto.
  - intros H F. specialize (F a). destruct (f a) as [tr' r]. cbn [fst snd] in *.
    destruct F as [(e & -> & F)|(tr1 & tile & b & E & F)].
    + left. exists e. split; [reflexivity|]. apply Forall_app. now split.
    + right. inversion E; subst. exists (tr ++ tr1), tile, b.
      split; [now rewrite app_assoc|]. apply Forall_app. now split.
Qed.

Lemma tile_run_write (P : event -> Prop) (idx : Z) (tile : ndarray)
    (v : vars) :
  tile_run P idx (io_bind (emit (WriteTile idx tile)) (fun _ => io_ret v)).
Proof. right. exists [], tile, v. split; [reflexivity|constructor]. Qed.

Lemma tile_run_tiled_tile (t : tiff) (jth jtw : Z) (rgba : bool)
    (nr nc ntc : Z) (pr pc : bool) (v : vars) (idx : Z) :
  tile_run (read_as true rgba) idx
    (tiled_tile t jth jtw rgba nr nc ntc pr pc v idx).
Proof.
  unfold tiled_tile.
  repeat (apply tile_run_bind; [apply io_all_lift|intros ?]).
  apply tile_run_bind; [apply io_all_tiled_rows|intros v'].
  apply tile_run_bind; [apply io_all_lift|intros tile].
  apply tile_run_write.
Qed.

Lemma tile_run_striped_tile (t : tiff) (jth jtw : Z) (rgba : bool)
    (nc : Z) (pr pc : bool) (v : vars) (idx : Z) :
  tile_run (read_as false rgba) idx
    (striped_tile t jth jtw rgba nc pr pc v idx).
Proof.
  unfold striped_tile.
  repeat (apply tile_run_bind; [apply io_all_lift|intros ?]).
  apply tile_run_bind; [apply io_all_striped_rows|intros v'].
  apply tile_run_bind; [apply io_all_lift|intros tile].
  apply tile_run_write.
Qed.

Lemma written_indices_app (tr tr' : list event) :
  written_indices (tr ++ tr') = written_indices tr ++ written_indices tr'.
Proof.
  induction tr as [|e tr IH]; [reflexivity|].
  destruct e; cbn [written_indices app]; rewrite IH; reflexivity.
Qed.

Lemma written_indices_reads (tiled rgba : bool) (tr : list event) :
  Forall (read_as tiled rgba) tr -> written_indices tr = [].
Proof.
  induction 1 as [|e tr [R _] _ IH]; [reflexivity|].
  destruct e; try discriminate R; exact IH.
Qed.

Lemma reads_as_of_read_as (tiled rgba : bool) (tr : list event) :
  Forall (read_as tiled rgba) tr -> Forall (reads_as tiled rgba) tr.
Proof. apply Forall_impl. now intros e [_ H]. Qed.

(** The loop over the tile writers: the tiles assigned are those of a
    prefix of the list, in its order, and of the whole list when the loop
    comes to its end. *)
Lemma for_each_order (tiled rgba : bool) (body : vars -> Z -> io vars)
    (xs : list Z) :
  (forall v x, tile_run (read_as tiled rgba) x (body v x)) ->
  forall v,
    let m := for_each body xs v in
    Forall (reads_as tiled rgba) (fst m)
    /\ (exists k, written_indices (fst m) = firstn k xs)
    /\ (forall v', snd m = inr v' -> written_indices (fst m) = xs).
Proof.
  intros Body. induction xs as [|x xs IH]; intros v; cbn zeta.
  - cbn. split; [constructor|]. split; [exists 0%nat|]; reflexivity.
  - cbn [for_each].
    destruct (Body v x) as [(e & Se & F)|(tr & tile & v1 & E & F)].
    + destruct (body v x) as [tr r]. cbn [fst snd] in *. subst r.
      cbn [io_bind fst snd].
      split; [now apply reads_as_of_read_as|].
      split; [|discriminate].
      exists 0%nat. now rewrite (written_indices_reads _ _ _ F).
    + rewrite E. cbn [io_bind].
      specialize (IH v1). cbv zeta in IH.
      destruct (for_each body xs v1) as [tr' r]. cbn [fst snd] in *.
      destruct IH as (A & (k & K) & Sx).
      assert (W : written_indices ((tr ++ [WriteTile x tile]) ++ tr')
                  = x :: written_indices tr').
      { rewrite !written_indices_app, (written_indices_reads _ _ _ F).
        reflexivity. }
      split.
      { apply Forall_app. split; [|exact A].
        apply Forall_app. split; [now apply reads_as_of_read_as|].
        repeat constructor. }
      split.
      * exists (S k). rewrite W, K. reflexivity.
      * intros v' Hr. rewrite W, (Sx v' Hr). reflexivity.
Qed.

Lemma io_bind_fst_nil {A B} (r : result A) (f : A -> io B) :
  (forall a, exists r', f a = ([], r')) ->
  exists r', io_bind (lift r) f = ([], r').
Proof.
  intros F. destruct r as [e|a]; [eexists; reflexivity|].
  destruct (F a) as (r' & E). exists r'. unfold lift, io_bind. now rewrite E.
Qed.

(** What a tile size asks of [copy_image]: the branch for the layout of
    the TIFF, after the pre-flight checks, the dimensions of the grid and
    the construction of the writer. *)
Lemma copy_image_tiles (t : tiff) (jth jtw : Z) :
  (exists e, copy_image t (Some (jth, jtw)) = ([], inl e))
  \/ (exists nr nc,
        copy_image t (Some (jth, jtw))
        = (if isTiled t
           then tiled_branch t jth jtw
                  ((Photometric t =? Photometric_YCBCR)
                   || (Photometric t =? Photometric_PALETTE)) nr nc
           else striped_branch t jth jtw
                  ((Photometric t =? Photometric_YCBCR)
                   || (Photometric t =? Photometric_PALETTE)))).
Proof.
  unfold copy_image.
  destruct (check_format t) as [e|[]]; [left; eexists; reflexivity|].
  rewrite io_bind_lift_ret.
  destruct (grid_dimensions t jth jtw) as [e|[nr nc]];
    [left; eexists; reflexivity|].
  change (inr (nr, nc)) with (ret (nr, nc)). rewrite io_bind_lift_ret.
  destruct (Jp2k _ _) as [e|[]]; [left; eexists; reflexivity|].
  right. exists nr, nc. rewrite io_bind_lift_ret. reflexivity.
Qed.

Lemma branch_order (tiled rgba : bool) (body : vars -> Z -> io vars)
    (xs : list Z) (pre : io vars) :
  (forall v x, tile_run (read_as tiled rgba) x (body v x)) ->
  (exists r, pre = ([], r)) ->
  let m := io_bind (io_bind pre (fun v => for_each body xs v))
             (fun _ => io_ret tt) in
  Forall (reads_as tiled rgba) (fst m)
  /\ (exists k, written_indices (fst m) = firstn k xs)
  /\ (snd m = inr tt -> written_indices (fst m) = xs).
Proof.
  intros Body (r & ->). cbv zeta.
  destruct r as [e|v].
  - cbn. split; [constructor|]. split; [exists 0%nat; reflexivity|].
    discriminate.
  - pose proof (for_each_order tiled rgba body xs Body v) as H.
    cbv zeta in H. cbn [io_bind].
    destruct (for_each body xs v) as [tr [e|v']];
      cbn [io_bind io_ret fst snd app] in *; rewrite ?app_nil_r.
    + destruct H as (A & K & _). split; [exact A|]. split; [exact K|].
      discriminate.
    + destruct H as (A & K & Sx).
      split; [exact A|]. split; [exact K|]. intros _. now apply (Sx v').
Qed.

Ltac step_lift :=
  match goal with
  | |- context [io_bind (lift ?r) _] =>
      let e := fresh "e" in
      let a := fresh "a" in
      destruct r as [e|a];
      [ cbn; split; [constructor|]; split; [exists 0%nat; reflexivity|];
        discriminate
      | change (@inr exn _ a) with (ret a); rewrite io_bind_lift_ret ]
  end.

Lemma copy_image_events (t : tiff) (jth jtw : Z) :
  let m := copy_image t (Some (jth, jtw)) in
  let all := get_tilewriters (ImageLength t) (ImageWidth t) jth jtw in
  let rgba := (Photometric t =? Photometric_YCBCR)
              || (Photometric t =? Photometric_PALETTE) in
  Forall (reads_as (isTiled t) rgba) (fst m)
  /\ (exists k, written_indices (fst m) = firstn k all)
  /\ (snd m = inr tt -> written_indices (fst m) = all).
Proof.
  cbv zeta.
  destruct (copy_image_tiles t jth jtw) as [(e & E)|(nr & nc & E)];
    rewrite E; clear E.
  { cbn. split; [constructor|]. split; [exists 0%nat; reflexivity|].
    discriminate. }
  set (rgba := (Photometric t =? Photometric_YCBCR)
               || (Photometric t =? Photometric_PALETTE)).
  destruct (isTiled t).
  - unfold tiled_branch. repeat step_lift.
    match goal with
    | |- context [for_each ?body ?xs ?v0] =>
        rewrite <- (io_bind_io_ret v0 (fun w => for_each body xs w));
        apply (branch_order true rgba body xs (io_ret v0))
    end.
    + intros v x. apply tile_run_tiled_tile.
    + eexists. reflexivity.
  - unfold striped_branch. repeat step_lift.
    match goal with
    | |- context [for_each ?body ?xs ?v0] =>
        rewrite <- (io_bind_io_ret v0 (fun w => for_each body xs w));
        apply (branch_order false rgba body xs (io_ret v0))
    end.
    + intros v x. apply tile_run_striped_tile.
    + eexists. reflexivity.
Qed.

(** X11.  With a tile size, whatever the TIFF: [copy_image] assigns the
    tiles to the tile writers in the order the writer hands them out, each
    at most once and none out of turn, so that the tiles assigned are at
    any time a prefix of the list; when [copy_image] returns, every tile
    writer has been assigned its tile. *)
Theorem tiles_written_in_order (t : tiff) (jth jtw : Z) :
  let m := copy_image t (Some (jth, jtw)) in
  let all := get_tilewriters (ImageLength t) (ImageWidth t) jth jtw in
  (exists k, written_indices (fst m) = firstn k all)
  /\ (snd m = inr tt -> written_indices (fst m) = all).
Proof. exact (proj2 (copy_image_events t jth jtw)). Qed.

(** X12.  With a tile size, whatever the TIFF: [copy_image] reads tiles
    from a tiled TIFF and strips from a striped one, through the RGBA
    interface when the photometric interpretation is YCbCr or palette and
    through the scanline interface otherwise; it never mixes the two, and
    never reads the whole image at once. *)
Theorem reads_follow_layout (t : tiff) (jth jtw : Z) :
  Forall (reads_as (isTiled t)
            ((Photometric t =? Photometric_YCBCR)
             || (Photometric t =? Photometric_PALETTE)))
    (fst (copy_image t (Some (jth, jtw)))).
Proof. exact (proj1 (copy_image_events t jth jtw)). Qed.

(** ** Without a tile size *)

(** X13.  Without a tile size, when the reader can render the image
    through the RGBA interface: the whole image is read at once and
    assigned to the JPEG 2000 file as one array, whatever the layout and
    the photometric interpretation of the TIFF.  The array has the rows
    and columns of the image and the channels of the rendering, without
    the alpha channel when the TIFF has fewer than 4 samples per pixel: 3
    channels also for an image of one sample per pixel. *)
Theorem whole_image_rgba (t : tiff) :
  SampleFormat t = SampleFormat_UINT ->
  BitsPerSample t = 8 \/ BitsPerSample t = 16 ->
  RGBAImageOK t = true ->
  exists image,
    copy_image t None = ([ReadRGBAImage; WriteImage image], inr tt)
    /\ shape image
       = (ImageLength t, ImageWidth t,
          if SamplesPerPixel t <? 4 then 3 else 4)
    /\ forall i j k, sample image i j k = rgba t i j k.
Proof.
  intros Sf Bps Ok. unfold copy_image, Jp2k.
  rewrite check_format_ok by assumption. rewrite !io_bind_lift_ret, Ok.
  destruct (SamplesPerPixel t <? 4); eexists;
    (split; [reflexivity|]); split; reflexivity.
Qed.

Lemma whole_image_rgba_witness :
  exists image,
    copy_image Samples.palette_tiled None
    = ([ReadRGBAImage; WriteImage image], inr tt)
    /\ shape image = (16, 16, 3)
    /\ forall i j k, sample image i j k = Samples.sample_pixels i j k.
Proof.
  apply (whole_image_rgba Samples.palette_tiled).
  - reflexivity.
  - left. reflexivity.
  - reflexivity.
Defined.

(** X14.  Without a tile size, when the reader cannot render the image
    through the RGBA interface, [copy_image] returns without having read
    or written a pixel: no branch of it takes the image. *)
Theorem image_not_copied (t : tiff) :
  SampleFormat t = SampleFormat_UINT ->
  BitsPerSample t = 8 \/ BitsPerSample t = 16 ->
  RGBAImageOK t = false ->
  copy_image t None = ([], inr tt).
Proof.
  intros Sf Bps Ok. unfold copy_image, Jp2k.
  rewrite check_format_ok by assumption. rewrite !io_bind_lift_ret, Ok.
  reflexivity.
Qed.

Lemma image_not_copied_witness :
  copy_image Samples.unrenderable_image None = ([], inr tt).
Proof.
  apply (image_not_copied Samples.unrenderable_image).
  - reflexivity.
  - left. reflexivity.
  - reflexivity.
Defined.

(** ** Entries the transcoder cannot write back *)

(** The transcoder stops with the error of the first entry it cannot
    transcode, when the entries before it are supported ones. *)
Lemma transcode_stops (tiff : list byte) (e : endian) (off n idx : Z)
    (ents : list entry) (err : exn) :
  read_header tiff = Some (e, off) -> read_count e tiff off = Some n ->
  off + 2 + 12 * n <= len tiff -> 0 <= idx < n ->
  read_entries e tiff (off + 2) idx = Some ents ->
  Forall supported ents ->
  10 + 12 * n + relocated_size ents < 2 ^ 32 ->
  (forall st,
     process_tag e (slice (off + 2) (off + 2 + n * 12) tiff) 10 st idx
     = inl err) ->
  transcode tiff = inl err.
Proof.
  intros Hh Hc Hfile Hi Hents Hsup Hsize Stop.
  pose proof (read_header_offset tiff e off Hh) as Ro.
  rewrite (transcode_unfold tiff e off n Hh Hc).
  set (buffer := slice (off + 2) (off + 2 + n * 12) tiff) in *.
  assert (Lb : len buffer = 12 * n).
  { unfold buffer. rewrite len_slice by lia. lia. }
  set (st0 := mkTags _ _ _).
  destruct (read_entries_nth e tiff (off + 2) idx ents Hents) as (Ln & Hnth).
  assert (Inv0 : transcoded tiff n ents (Z.of_nat 0) st0).
  { unfold transcoded, st0.
    cbn [ts_after ts_tfp ts_b f_data b_buf Z.of_nat Z.to_nat firstn].
    rewrite Lb. split; [cbn; lia|]. split; [reflexivity|].
    split.
    { rewrite len_app, len_Z_to_le. change (len canonical_header) with 8.
      lia. }
    split; [reflexivity|]. intros i Hi'. lia. }
  assert (Hall : forall i, 0 <= i < idx ->
            exists ent, nth_error ents (Z.to_nat i) = Some ent
                        /\ read_entry e tiff (off + 2 + 12 * i) = Some ent
                        /\ supported ent).
  { intros i Hi'. destruct (Hnth i Hi') as (ent & N & R).
    exists ent. split; [exact N|]. split; [exact R|].
    rewrite Forall_forall in Hsup. apply Hsup.
    now apply nth_error_In with (n := Z.to_nat i). }
  pose proof (fun H1 H2 =>
                for_tags_transcoded e tiff off n ents (proj1 Ro) Hsize idx
                  H1 Hall (Z.to_nat idx) 0%nat st0 H2 Inv0) as X.
  destruct X as (st1 & Loop & _); try lia.
  replace (slice (off + 2) (off + 2 + 12 * n) tiff) with buffer in Loop
    by (unfold buffer; f_equal; lia).
  fold (range idx) in Loop.
  rewrite (for_tags_stop e buffer n idx st0 st1 err Hi Loop (Stop st1)).
  reflexivity.
Qed.

(** An entry whose values take one byte: [tag_data[8]] is an [int]. *)
Lemma process_tag_one_byte (e : endian) (buffer : list byte) (start idx : Z)
    (st : tags_state) (rec : list byte) (d : dtype_info) :
  slice (idx * 12) ((idx + 1) * 12) buffer = rec -> len rec = 12 ->
  tag_dtype (rec_type e rec) = Some d ->
  nbytes d * rec_count e rec = 1 ->
  process_tag e buffer start st idx = inl TypeError.
Proof.
  intros Hrec Hlen Hd Hn.
  unfold process_tag. rewrite Hrec, (unpack_HHI_rec e rec Hlen).
  cbn [bind ret]. unfold tag_dtype_get. rewrite Hd. cbn [bind ret].
  rewrite Hn. cbn [Z.gtb Z.compare Pos.compare Z.eqb Pos.eqb].
  destruct (list_of_len_12 rec Hlen)
    as (a0 & a1 & a2 & a3 & a4 & a5 & a6 & a7 & a8 & a9 & a10 & a11 & ->).
  reflexivity.
Qed.

(** An entry whose values take no byte, or three: the four bytes of the
    field do not have the size of the format. *)
Lemma process_tag_unfitting (e : endian) (buffer : list byte)
    (start idx : Z) (st : tags_state) (rec : list byte) (d : dtype_info) :
  slice (idx * 12) ((idx + 1) * 12) buffer = rec -> len rec = 12 ->
  tag_dtype (rec_type e rec) = Some d ->
  nbytes d * rec_count e rec = 0 \/ nbytes d * rec_count e rec = 3 ->
  process_tag e buffer start st idx = inl StructError.
Proof.
  intros Hrec Hlen Hd Hn.
  destruct (rec_ranges e rec Hlen) as (R1 & R2 & R3 & R4).
  destruct (tag_dtype_repeat _ d (rec_count e rec) Hd (proj1 R3))
    as (cs & C & Sz & _).
  unfold process_tag. rewrite Hrec, (unpack_HHI_rec e rec Hlen).
  cbn [bind ret]. unfold tag_dtype_get. rewrite Hd. cbn [bind ret].
  assert (L4 : len (slice_from 8 rec) = 4).
  { destruct (list_of_len_12 rec Hlen)
      as (a0 & a1 & a2 & a3 & a4 & a5 & a6 & a7 & a8 & a9 & a10 & a11 & ->).
    reflexivity. }
  destruct Hn as [Hn|Hn]; rewrite Hn;
    cbn [Z.gtb Z.compare Pos.compare Pos.compare_cont Z.eqb Pos.eqb bind ret];
    (rewrite unpack_short with (cs := cs); [reflexivity|exact C|]);
    rewrite L4, Sz, Hn; discriminate.
Qed.

(** X9.  An entry whose values take one byte (one value of type BYTE,
    ASCII or UNDEFINED) makes the transcoder raise [TypeError]: it hands
    [tag_data[8]], an [int], to [struct.unpack].  The entries before it are
    supported ones. *)
Theorem one_byte_payload_rejected (tiff : list byte) (e : endian)
    (off n idx : Z) (d : dtype_info) (ents : list entry) :
  read_header tiff = Some (e, off) -> read_count e tiff off = Some n ->
  off + 2 + 12 * n <= len tiff -> 0 <= idx < n ->
  let rc := slice (off + 2 + 12 * idx) (off + 2 + 12 * idx + 12) tiff in
  tag_dtype (rec_type e rc) = Some d ->
  nbytes d * rec_count e rc = 1 ->
  read_entries e tiff (off + 2) idx = Some ents ->
  Forall supported ents ->
  10 + 12 * n + relocated_size ents < 2 ^ 32 ->
  transcode tiff = inl TypeError.
Proof.
  intros Hh Hc Hfile Hi rc Hd Hn Hents Hsup Hsize.
  pose proof (read_header_offset tiff e off Hh) as Ro.
  apply (transcode_stops tiff e off n idx ents); try assumption.
  intros st.
  apply (process_tag_one_byte e _ 10 idx st rc d); try assumption.
  - replace (n * 12) with (12 * n) by lia. apply directory_record; lia.
  - unfold rc. rewrite len_slice by lia. lia.
Qed.

Lemma one_byte_payload_rejected_witness :
  transcode Samples.byte_file = inl TypeError.
Proof.
  apply (one_byte_payload_rejected Samples.byte_file Little 8 1 0
           (mkDtype "B" 1) []).
  - reflexivity.
  - reflexivity.
  - discriminate.
  - lia.
  - reflexivity.
  - reflexivity.
  - reflexivity.
  - constructor.
  - reflexivity.
Defined.

(** X10.  An entry of a known type whose values take no byte (a count of
    0) or three bytes makes the transcoder raise [struct.error]: it unpacks
    the four bytes of the field with the format of the values.  The entries
    before it are supported ones. *)
Theorem unfitting_payload_rejected (tiff : list byte) (e : endian)
    (off n idx : Z) (d : dtype_info) (ents : list entry) :
  read_header tiff = Some (e, off) -> read_count e tiff off = Some n ->
  off + 2 + 12 * n <= len tiff -> 0 <= idx < n ->
  let rc := slice (off + 2 + 12 * idx) (off + 2 + 12 * idx + 12) tiff in
  tag_dtype (rec_type e rc) = Some d ->
  nbytes d * rec_count e rc = 0 \/ nbytes d * rec_count e rc = 3 ->
  read_entries e tiff (off + 2) idx = Some ents ->
  Forall supported ents ->
  10 + 12 * n + relocated_size ents < 2 ^ 32 ->
  transcode tiff = inl StructError.
Proof.
  intros Hh Hc Hfile Hi rc Hd Hn Hents Hsup Hsize.
  pose proof (read_header_offset tiff e off Hh) as Ro.
  apply (transcode_stops tiff e off n idx ents); try assumption.
  intros st.
  apply (process_tag_unfitting e _ 10 idx st rc d); try assumption.
  - replace (n * 12) with (12 * n) by lia. apply directory_record; lia.
  - unfold rc. rewrite len_slice by lia. lia.
Qed.

Lemma unfitting_payload_rejected_witness :
  transcode Samples.triple_file = inl StructError.
Proof.
  apply (unfitting_payload_rejected Samples.triple_file Little 8 1 0
           (mkDtype "B" 1) []).
  - reflexivity.
  - reflexivity.
  - discriminate.
  - lia.
  - reflexivity.
  - right. reflexivity.
  - reflexivity.
  - constructor.
  - reflexivity.
Defined.

(** ** The tiled branch, through the RGBA interface *)

Lemma readRGBATile_eq (t : tiff) (x y : Z) (buf : ndarray) :
  readRGBATile t x y buf
  = ([ReadRGBATile x y],
     inr (mkArray (nrows buf) (ncols buf) (nchan buf)
            (fun i j k =>
               rgba t (y / TileLength t * TileLength t
                       + (TileLength t - 1 - i))
                 (x / TileWidth t * TileWidth t + j) k))).
Proof. reflexivity. Qed.

Section TiledRGBA.

Variable t : tiff.
Variables jth jtw : Z.

Let W := ImageWidth t.
Let H := ImageLength t.
Let th := TileLength t.
Let tw := TileWidth t.
Let xpt := - (- W / tw).

Hypothesis Hjth : 0 < jth.
Hypothesis Hjtw : 0 < jtw.
Hypothesis Hth : 0 < th.
Hypothesis Htw : 0 < tw.
Hypothesis HW : 0 < W.
Hypothesis HH : 0 < H.
Hypothesis Hspp : SamplesPerPixel t = 3.

Variables a b : Z.

Let julr := a * jth.
Let julc := b * jtw.

Hypothesis Hjulr : 0 <= julr < H.
Hypothesis Hjulc : 0 <= julc < W.

Ltac on_rendered :=
  change (TileLength (rendered t)) with th in *;
  change (TileWidth (rendered t)) with tw in *;
  change (ImageLength (rendered t)) with H in *;
  change (ImageWidth (rendered t)) with W in *;
  change (SamplesPerPixel (rendered t)) with (SamplesPerPixel t) in *.

Lemma tiled_cols_rgba_spec (p r : Z) (fuel : nat) :
  r / th = p -> 0 <= p ->
  p * th < Z.min (julr + jth) H -> julr < (p + 1) * th ->
  forall q c tilenum tulr tulc v,
    c / tw = q -> 0 <= q ->
    julc < (q + 1) * tw ->
    (q - 1) * tw < Z.min (julc + jtw) W ->
    Z.min (julc + jtw) W <= (q + Z.of_nat fuel - 1) * tw ->
    (q * tw < Z.min (julc + jtw) W ->
     tilenum = xpt * p + q /\ tulr = p * th /\ tulc = q * tw) ->
    cols_inv (rendered t) jth jtw julr julc p q v ->
    shape (rgba_buf v) = (th, tw, 4) ->
    exists q' tr v',
      tiled_cols t jth jtw true xpt fuel julr julc r c tilenum tulr tulc v
      = (tr, inr v')
      /\ cols_inv (rendered t) jth jtw julr julc p q' v'
      /\ shape (rgba_buf v') = (th, tw, 4)
      /\ Z.min (julc + jtw) W <= q' * tw
      /\ written_tiles tr = [].
Proof.
  intros Hr Hp Hrow Hlo.
  pose proof (ceil_block tw W Htw) as CW. fold xpt in CW.
  assert (TC : forall p q, 0 <= q < xpt ->
                 tile_corner t xpt (xpt * p + q) = ret (p * th, q * tw))
    by (intros; now apply (tile_corner_eq t jth jtw a b)).
  induction fuel as [|fuel IH];
    intros q c tilenum tulr tulc v Hc Hq Hclo Hprev Hfuel Hnum Inv Sr.
  - exfalso. cbn in Hfuel. lia.
  - cbn [tiled_cols]. fold tw th W H.
    rewrite floordiv_nz by lia. rewrite Hc, io_bind_lift_ret.
    destruct (q * tw <? Z.min (julc + jtw) W) eqn:Cond.
    + apply Z.ltb_lt in Cond.
      destruct (Hnum Cond) as [En [Er Ec]]. subst tilenum tulr tulc.
      assert (Hqx : q < xpt) by (apply (mul_lt_cancel _ _ tw Htw); lia).
      rewrite io_bind_assoc, readRGBATile_eq. fold th tw.
      rewrite !Z.div_mul by lia.
      set (rgba_tile := mkArray _ _ _ _).
      destruct Inv as [[Sh [Sb Cp]] Cq]. on_rendered.
      unfold shape in Sr.
      assert (Rr : nrows (rgba_buf v) = th) by congruence.
      assert (Rc : ncols (rgba_buf v) = tw) by congruence.
      assert (Rk : nchan (rgba_buf v) = 4) by congruence.
      set (tile_in := flipud (take_chan rgba_tile 3)).
      assert (Ss : shape tile_in = (th, tw, SamplesPerPixel t)).
      { unfold tile_in, take_chan, rgba_tile. cbn [nchan nrows ncols].
        rewrite Rk. change (slice_bounds 4 (0, 3)) with (0, 3).
        unfold flipud, shape. cbn [nrows ncols nchan].
        rewrite Rr, Rc, Hspp. reflexivity. }
      assert (Rd : forall i j k,
                 sample tile_in i j k = rgba t (p * th + i) (q * tw + j) k).
      { intros i j k. unfold tile_in, take_chan, rgba_tile.
        cbn [nchan nrows ncols].
        rewrite Rk. change (slice_bounds 4 (0, 3)) with (0, 3).
        unfold flipud. cbn [nrows ncols nchan sample]. rewrite Rr.
        f_equal; lia. }
      destruct (overlap_assign jth jtw th tw a b p q (SamplesPerPixel t)
                  (jp2k_tile v) tile_in Hjth Hjtw Hth Htw)
        as [o [tile [Ov [Oulr [Ollr [Oulc [Ourc [Ojr [Ojc [As [St Sm]]]]]]]]]]];
        try assumption; try (fold julr julc; lia).
      fold julr julc in Ov, Oulr, Ollr, Oulc, Ourc, Ojr, Ojc, Sm.
      set (v1 := mkVars tile tile_in rgba_tile (Some o) (stripnum v)).
      assert (Nt : nrows tile = jth /\ ncols tile = jtw)
        by (unfold shape in St; split; congruence).
      assert (Nv : nrows (jp2k_tile v) = jth /\ ncols (jp2k_tile v) = jtw)
        by (unfold shape in Sh; split; congruence).
      assert (Inv1 : cols_inv (rendered t) jth jtw julr julc p (q + 1) v1).
      { split; [split; [exact St|split; [exact Ss|]]|]; on_rendered.
        - intros i j k Hi Hj Hrw Hcl. cbn [v1 jp2k_tile] in *.
          rewrite Sm.
          rewrite (proj2 (Z.leb_gt (ulr o - julr) i)) by lia.
          cbn [andb]. apply Cp; lia.
        - intros i j k Hi Hj Hrw Hcl. cbn [v1 jp2k_tile] in *.
          rewrite Sm.
          destruct (Z.lt_ge_cases (julc + j) (q * tw)) as [Old|New].
          + rewrite (proj2 (Z.leb_gt (ulc o - julc) j)) by lia.
            rewrite andb_false_r. cbn [andb].
            apply Cq; lia.
          + assert (In : (ulr o - julr <=? i) && (i <? llr o - julr)
                         && (ulc o - julc <=? j) && (j <? urc o - julc)
                         = true).
            { rewrite !andb_true_iff, !Z.leb_le, !Z.ltb_lt. lia. }
            rewrite In, Rd. cbn [rendered pixels]. f_equal; lia. }
      assert (Sr1 : shape (rgba_buf v1) = (th, tw, 4)).
      { unfold shape. cbn [v1 rgba_buf rgba_tile nrows ncols nchan].
        now rewrite Rr, Rc, Rk. }
      destruct (tile_corner_some t jth jtw Htw HW a b
                  (computeTile t (c + tw) r))
        as [corner Ecn]. fold W tw xpt in Ecn.
      destruct (IH (q + 1) (c + tw) (computeTile t (c + tw) r)
                  (fst corner) (snd corner) v1)
        as [q' [tr [v' [Run [Inv' [Sr' [Bd Wt]]]]]]].
      * rewrite div_next_block by lia. lia.
      * lia.
      * lia.
      * lia.
      * lia.
      * intros Cond'.
        assert (Hqx' : q + 1 < xpt)
          by (apply (mul_lt_cancel _ _ tw Htw); lia).
        rewrite computeTile_eq in Ecn |- * by assumption.
        fold W tw th xpt in Ecn |- *.
        rewrite div_next_block, Hc, Hr in Ecn |- * by lia.
        rewrite TC in Ecn by lia.
        apply inr_inj in Ecn. subst corner. cbn [fst snd]. auto.
      * exact Inv1.
      * exact Sr1.
      * exists q', (ReadRGBATile (q * tw) (p * th) :: tr), v'. split.
        { apply (io_bind_value [ReadRGBATile (q * tw) (p * th)]).
          rewrite io_bind_io_ret. cbn [fst snd]. fold tile_in.
          rewrite Ov, io_bind_lift_ret, As, io_bind_lift_ret.
          rewrite Ecn, io_bind_lift_ret. exact Run. }
        split; [exact Inv'|]. split; [exact Sr'|]. split; [exact Bd|].
        exact Wt.
    + apply Z.ltb_ge in Cond. exists q, [], v.
      split; [reflexivity|]. split; [exact Inv|]. split; [exact Sr|].
      split; [lia|reflexivity].
Qed.

Lemma tiled_rows_rgba_spec (fuel : nat) :
  forall p r v,
    r / th = p -> 0 <= p ->
    julr < (p + 1) * th ->
    (p - 1) * th < Z.min (julr + jth) H ->
    Z.min (julr + jth) H <= (p + Z.of_nat fuel - 1) * th ->
    rows_inv (rendered t) jth jtw julr julc p v ->
    shape (rgba_buf v) = (th, tw, 4) ->
    exists p' tr v',
      tiled_rows t jth jtw true xpt fuel julr julc r v = (tr, inr v')
      /\ rows_inv (rendered t) jth jtw julr julc p' v'
      /\ shape (rgba_buf v') = (th, tw, 4)
      /\ Z.min (julr + jth) H <= p' * th
      /\ written_tiles tr = [].
Proof.
  pose proof (ceil_block tw W Htw) as CW. fold xpt in CW.
  pose proof (floor_block tw julc Htw) as FB.
  assert (Hjw : jtw <= jtw * tw) by nia.
  assert (TC : forall p q, 0 <= q < xpt ->
                 tile_corner t xpt (xpt * p + q) = ret (p * th, q * tw))
    by (intros; now apply (tile_corner_eq t jth jtw a b)).
  induction fuel as [|fuel IH]; intros p r v Hr Hp Hlo Hprev Hfuel Inv Sr.
  - exfalso. cbn in Hfuel. lia.
  - cbn [tiled_rows]. fold tw th W H.
    rewrite floordiv_nz by lia. rewrite Hr, io_bind_lift_ret.
    destruct (p * th <? Z.min (julr + jth) H) eqn:Cond.
    + apply Z.ltb_lt in Cond.
      assert (Hq0 : 0 <= julc / tw < xpt).
      { split; [apply div_nonneg; lia|].
        apply (mul_lt_cancel _ _ tw Htw). lia. }
      rewrite computeTile_eq by assumption. fold W tw th xpt. rewrite Hr.
      rewrite TC by lia. rewrite io_bind_lift_ret.
      cbn [fst snd].
      destruct (tiled_cols_rgba_spec p r (Z.to_nat jtw + 2) Hr Hp Cond Hlo
                  (julc / tw) julc (xpt * p + julc / tw) (p * th)
                  (julc / tw * tw) v)
        as [q' [tr [v1 [Run [[Inv1 Cq] [Sr1 [Bd Wt]]]]]]];
        [reflexivity|lia|lia|lia|lia|auto| |exact Sr|].
      { split; [exact Inv|]. intros i j k Hi Hj Hrw Hcl.
        on_rendered. lia. }
      destruct Inv1 as [Sh1 [Sb1 Cp1]]. on_rendered.
      assert (Inv2 : rows_inv (rendered t) jth jtw julr julc (p + 1) v1).
      { split; [exact Sh1|]. split; [exact Sb1|].
        intros i j k Hi Hj Hrw Hcl. on_rendered.
        unfold shape in Sh1.
        assert (ncols (jp2k_tile v1) = jtw) by congruence.
        destruct (Z.lt_ge_cases (julr + i) (p * th)) as [Old|New].
        - apply Cp1; lia.
        - apply Cq; lia. }
      destruct (IH (p + 1) (r + th) v1)
        as [p' [tr' [v' [Run' [Inv' [Sr' [Bd' Wt']]]]]]].
      * rewrite div_next_block by lia. lia.
      * lia.
      * lia.
      * lia.
      * lia.
      * exact Inv2.
      * exact Sr1.
      * exists p', (tr ++ tr'), v'. split.
        { rewrite Run. now apply io_bind_value. }
        split; [exact Inv'|]. split; [exact Sr'|]. split; [exact Bd'|].
        rewrite written_tiles_app, Wt, Wt'. reflexivity.
    + apply Z.ltb_ge in Cond. exists p, [], v.
      split; [reflexivity|]. split; [exact Inv|]. split; [exact Sr|].
      split; [lia|reflexivity].
Qed.

Hypothesis Hrows : H mod jth = 0.
Hypothesis Hcols : W mod jtw = 0.

Variables nr nc : Z.

Hypothesis Hnc : 0 < nc.

(** One pass through the body of the loop over the tile writers, when the
    tiles of the JPEG 2000 file divide the image. *)
Lemma tiled_tile_rgba_spec (v : vars) (idx : Z) :
  idx = a * nc + b -> 0 <= b < nc ->
  shape (rgba_buf v) = (th, tw, 4) ->
  exists tr v' tile,
    tiled_tile t jth jtw true nr nc xpt
      (negb (H mod jth =? 0)) (negb (W mod jtw =? 0)) v idx
    = (tr ++ [WriteTile idx tile], inr v')
    /\ shape (rgba_buf v') = (th, tw, 4)
    /\ written_tiles tr = []
    /\ tile_exact (rendered t) tile julr julc jth jtw.
Proof.
  intros Hidx Hb Sr.
  pose proof (floor_block th julr Hth) as FB.
  assert (Hjr : jth <= jth * th) by nia.
  set (v0 := mkVars (mkArray jth jtw (SamplesPerPixel t) (fun _ _ _ => 0))
               (mkArray th tw (SamplesPerPixel t) (fun _ _ _ => 0))
               (rgba_buf v) (last v) (stripnum v)).
  assert (Inv0 : rows_inv (rendered t) jth jtw julr julc (julr / th) v0).
  { split; [reflexivity|]. split; [reflexivity|].
    intros i j k Hi Hj Hrw Hcl. on_rendered. lia. }
  destruct (tiled_rows_rgba_spec (Z.to_nat jth + 2) (julr / th) julr v0)
    as [p' [tr [v1 [Run [Inv1 [Sr1 [Bd Wt]]]]]]];
    [reflexivity|apply div_nonneg; lia|lia|lia|lia|exact Inv0|exact Sr|].
  destruct Inv1 as [Sh1 [Sb1 Cp1]]. on_rendered.
  assert (Hfull : julr + jth <= H /\ julc + jtw <= W).
  { split.
    - apply (divides_block jth H a Hjth Hrows Hjulr).
    - apply (divides_block jtw W b Hjtw Hcols Hjulc). }
  exists tr, (mkVars (jp2k_tile v1) (tiff_buf v1) (rgba_buf v1) (last v1)
                (stripnum v1)), (jp2k_tile v1).
  split.
  - unfold tiled_tile. fold th tw W H.
    rewrite !np_zeros_ok by lia. rewrite !io_bind_lift_ret.
    rewrite floordiv_nz, pymod_nz by lia.
    rewrite !io_bind_lift_ret.
    replace (idx / nc) with a
      by (apply (Z.div_unique idx nc a b); lia).
    replace (idx mod nc) with b
      by (apply (Z.mod_unique idx nc a b); lia).
    fold julr julc v0. rewrite Run.
    apply io_bind_value.
    unfold tiled_crop. rewrite Hrows, Hcols. cbn [Z.eqb negb andb bind ret].
    rewrite io_bind_lift_ret. reflexivity.
  - split; [exact Sr1|]. split; [exact Wt|]. split; [exact Sh1|].
    intros i j k Hi Hj. unfold shape in Sh1.
    apply Cp1; try lia.
    + replace (nrows (jp2k_tile v1)) with jth by congruence. lia.
    + replace (ncols (jp2k_tile v1)) with jtw by congruence. lia.
Qed.

End TiledRGBA.

(** X17.  A tiled TIFF of three samples per pixel read through the RGBA
    interface (photometric interpretation YCbCr or palette), when the tiles
    of the JPEG 2000 file divide the image: every tile of the grid is
    written whole, and the tiles make the first three channels of the RGBA
    rendering of the image, the rows in the order of the image. *)
Theorem tiled_rgba_copy_exact (t : tiff) (jth jtw : Z) :
  let W := ImageWidth t in
  let H := ImageLength t in
  let th := TileLength t in
  let tw := TileWidth t in
  let nr := - (- H / jth) in
  let nc := - (- W / jtw) in
  isTiled t = true ->
  SampleFormat t = SampleFormat_UINT ->
  BitsPerSample t = 8 \/ BitsPerSample t = 16 ->
  Photometric t = Photometric_YCBCR \/ Photometric t = Photometric_PALETTE ->
  SamplesPerPixel t = 3 ->
  0 < jth -> 0 < jtw -> 0 < th -> 0 < tw -> 0 < W -> 0 < H ->
  H mod jth = 0 -> W mod jtw = 0 ->
  exists tr,
    copy_image t (Some (jth, jtw)) = (tr, inr tt)
    /\ List.length (written_tiles tr) = Z.to_nat (nr * nc)
    /\ Forall2 (grid_exact (rendered t) jth jtw nc) (range (nr * nc))
         (written_tiles tr)
    /\ forall i j k,
         0 <= i < H -> 0 <= j < W ->
         image_sample (written_tiles tr) jth jtw nc i j k = rgba t i j k.
Proof.
  intros W H th tw nr nc Til Sf Bps Ph Hspp Hjth Hjtw Hth Htw HW HH
    Hrows Hcols.
  pose proof (divides_le jth H Hjth HH Hrows) as Fh.
  pose proof (divides_le jtw W Hjtw HW Hcols) as Fw.
  pose proof (ceil_block jth H Hjth) as CH. fold nr in CH.
  pose proof (ceil_block jtw W Hjtw) as CW. fold nc in CW.
  assert (Hnr : 0 < nr) by nia.
  assert (Hnc : 0 < nc) by nia.
  assert (Rg : (Photometric t =? Photometric_YCBCR)
               || (Photometric t =? Photometric_PALETTE) = true).
  { destruct Ph as [->| ->]; reflexivity. }
  destruct (for_each_spec
              (tiled_tile t jth jtw true nc nc (- (- W / tw))
                 (negb (H mod jth =? 0)) (negb (W mod jtw =? 0)))
              (fun v => shape (rgba_buf v) = (th, tw, 4))
              (grid_exact (rendered t) jth jtw nc)
              (fun _ => True)
              (get_tilewriters H W jth jtw))
    with (v := mkVars unbound_array unbound_array
                 (mkArray th tw 4 (fun _ _ _ => 0)) None None)
    as [tr [v' [Run [_ [Tiles _]]]]].
  - intros v x Hx Iv. apply get_tilewriters_In in Hx. fold nr nc in Hx.
    set (a := x / nc). set (b := x mod nc).
    assert (Ha : 0 <= a < nr).
    { split; [apply div_nonneg; lia|apply div_lt_blocks; lia]. }
    assert (Hb : 0 <= b < nc) by (apply Z.mod_pos_bound; lia).
    assert (Hx' : x = a * nc + b).
    { unfold a, b. pose proof (Z.div_mod x nc). lia. }
    assert (Hjulr : 0 <= a * jth < H) by nia.
    assert (Hjulc : 0 <= b * jtw < W) by nia.
    destruct (tiled_tile_rgba_spec t jth jtw Hjth Hjtw Hth Htw HW Hspp a b
                Hjulr Hjulc Hrows Hcols nc nc Hnc v x Hx' Hb Iv)
      as [tr [v1 [tile [Run [Sr1 [Wt Ex]]]]]].
    exists (tr ++ [WriteTile x tile]), v1, tile.
    split; [exact Run|]. split.
    { rewrite written_tiles_app, Wt. reflexivity. }
    split.
    { unfold grid_exact. fold a b.
      change (ImageLength (rendered t)) with H.
      change (ImageWidth (rendered t)) with W.
      pose proof (divides_block jth H a Hjth Hrows Hjulr).
      pose proof (divides_block jtw W b Hjtw Hcols Hjulc).
      replace (Z.min jth (H - a * jth)) with jth by lia.
      replace (Z.min jtw (W - b * jtw)) with jtw by lia.
      exact Ex. }
    split; [exact Sr1|].
    apply Forall_forall. intros; exact I.
  - reflexivity.
  - exists (tr ++ []).
    split.
    { unfold copy_image. rewrite check_format_ok by assumption.
      rewrite io_bind_lift_ret.
      unfold grid_dimensions. rewrite ceil_div_nz by lia.
      cbn [bind ret]. rewrite io_bind_lift_ret.
      rewrite (Jp2k_ok _ _ _ _ _ Fh Fw), io_bind_lift_ret. rewrite Til, Rg.
      cbn [fst snd]. unfold tiled_branch.
      rewrite ceil_div_nz by lia. rewrite io_bind_lift_ret.
      rewrite !is_partial_nz by lia. rewrite !io_bind_lift_ret.
      rewrite !np_zeros_ok by lia. rewrite !io_bind_lift_ret.
      fold W H th tw nc. rewrite Run. reflexivity. }
    rewrite app_nil_r.
    split.
    { rewrite <- (Forall2_length Tiles). apply range_length. }
    split; [exact Tiles|].
    apply (image_exact (rendered t) jth jtw nr nc); try assumption.
    + change (ImageLength (rendered t)) with H. lia.
    + change (ImageWidth (rendered t)) with W. lia.
Qed.

(** The theorem on an image of 16 columns and 32 rows in tiles of 16 by
    16, in tiles of 8 rows and 4 columns. *)
Lemma tiled_rgba_copy_exact_witness :
  exists tr,
    copy_image Samples.ycbcr_tiled (Some (8, 4)) = (tr, inr tt)
    /\ List.length (written_tiles tr) = 16%nat
    /\ forall i j k,
         0 <= i < 32 -> 0 <= j < 16 ->
         image_sample (written_tiles tr) 8 4 4 i j k
         = Samples.sample_pixels i j k.
Proof.
  destruct (tiled_rgba_copy_exact Samples.ycbcr_tiled 8 4)
    as [tr [Run [Len [_ Img]]]];
    [reflexivity|reflexivity|left; reflexivity|left; reflexivity
    |reflexivity|reflexivity|reflexivity|reflexivity|reflexivity
    |reflexivity|reflexivity|reflexivity|reflexivity|].
  exists tr. split; [exact Run|]. split; [exact Len|exact Img].
Defined.

(** ** The striped branch, through the RGBA interface *)

Lemma readRGBAStrip_eq (t : tiff) (row : Z) (buf : ndarray) :
  readRGBAStrip t row buf
  = ([ReadRGBAStrip row],
     inr (mkArray (nrows buf) (ncols buf) (nchan buf)
            (fun i j k =>
               if i <? Z.min (RowsPerStrip t) (ImageLength t - row)
               then rgba t
                      (row + (Z.min (RowsPerStrip t) (ImageLength t - row)
                              - 1 - i)) j k
               else sample buf i j k))).
Proof. reflexivity. Qed.

Lemma slice_bounds_from_0 (n x : Z) :
  0 <= x <= n -> slice_bounds n (0, x) = (0, x).
Proof.
  intros Hx. unfold slice_bounds, clip_index. cbn [fst snd].
  rewrite (proj2 (Z.ltb_ge x 0)) by lia.
  rewrite (proj2 (Z.ltb_ge 0 0)) by lia.
  f_equal; lia.
Qed.

Section StripedRGBA.

Variable t : tiff.
Variables jth jtw : Z.

Let W := ImageWidth t.
Let H := ImageLength t.
Let rps := RowsPerStrip t.
Let ns := numberOfStrips t.
Let spp := SamplesPerPixel t.

Hypothesis Hjth : 0 < jth.
Hypothesis Hjtw : 0 < jtw.
Hypothesis Hrps : 0 < rps.
Hypothesis HW : 0 < W.
Hypothesis Hfull : H = ns * rps.
Hypothesis Hspp : 0 <= spp <= 4.

Variables a b : Z.

Let julr := a * jth.
Let julc := b * jtw.

Hypothesis Hjulc : 0 <= julc < W.

Ltac on_rendered :=
  change (RowsPerStrip (rendered t)) with rps in *;
  change (ImageLength (rendered t)) with H in *;
  change (ImageWidth (rendered t)) with W in *;
  change (SamplesPerPixel (rendered t)) with spp in *.

Lemma striped_rows_rgba_spec (fuel : nat) :
  forall s r v,
    r / rps = s -> 0 <= s ->
    julr < (s + 1) * rps ->
    (s - 1) * rps < Z.min (julr + jth) H ->
    Z.min (julr + jth) H <= (s + Z.of_nat fuel - 1) * rps ->
    strip_inv (rendered t) jth jtw julr julc s v ->
    shape (rgba_buf v) = (rps, W, 4) ->
    exists s' tr v',
      s <= s'
      /\ striped_rows t jth jtw true fuel julr julc r v = (tr, inr v')
      /\ written_tiles tr = []
      /\ strip_inv (rendered t) jth jtw julr julc s' v'
      /\ shape (rgba_buf v') = (rps, W, 4)
      /\ (s' - 1) * rps < Z.min (julr + jth) H <= s' * rps
      /\ (s' = s -> v' = v)
      /\ (s < s' ->
          stripnum v' = Some (s' - 1)
          /\ exists o, last v' = Some o /\ ulc o = julc).
Proof.
  induction fuel as [|fuel IH]; intros s r v Hr Hs0 Hlo Hprev Hfuel Inv Sr.
  - exfalso. cbn in Hfuel. lia.
  - cbn [striped_rows]. fold rps H W ns spp.
    rewrite floordiv_nz by lia. rewrite Hr, io_bind_lift_ret.
    destruct (s * rps <? Z.min (julr + jth) H) eqn:Cond.
    + apply Z.ltb_lt in Cond.
      unfold computeStrip. fold rps. rewrite Hr.
      assert (Hs : s < ns).
      { apply (mul_lt_cancel s ns rps Hrps). lia. }
      assert (G : (s >=? ns) = false)
        by (rewrite Z.geb_leb; apply Z.leb_gt; lia).
      rewrite G. clear G.
      rewrite io_bind_assoc, readRGBAStrip_eq. fold rps H.
      assert (Hh : Z.min rps (H - s * rps) = rps).
      { assert ((s + 1) * rps <= ns * rps)
          by (apply Z.mul_le_mono_nonneg_r; lia).
        lia. }
      rewrite Hh.
      set (rgba_strip := mkArray _ _ _ _).
      destruct Inv as [Sh [Sb [Cp Zr]]]. on_rendered.
      unfold shape in Sr.
      assert (Rr : nrows (rgba_buf v) = rps) by congruence.
      assert (Rc : ncols (rgba_buf v) = W) by congruence.
      assert (Rk : nchan (rgba_buf v) = 4) by congruence.
      set (strip := flipud (take_chan rgba_strip spp)).
      assert (Tk : slice_bounds 4 (0, spp) = (0, spp)).
      { apply slice_bounds_from_0. exact Hspp. }
      assert (Ss : shape strip = (rps, W, spp)).
      { unfold strip, take_chan, rgba_strip. cbn [nchan nrows ncols].
        rewrite Rk, Tk. unfold flipud, shape. cbn [nrows ncols nchan].
        now rewrite Rr, Rc. }
      assert (Rd : forall i j k,
                 0 <= i ->
                 sample strip i j k = rgba t (s * rps + i) j k).
      { intros i j k Hi. unfold strip, take_chan, rgba_strip.
        cbn [nchan nrows ncols]. rewrite Rk, Tk.
        unfold flipud. cbn [nrows ncols nchan sample]. rewrite Rr.
        rewrite (proj2 (Z.ltb_lt (rps - 1 - i) rps)) by lia.
        f_equal; lia. }
      destruct (overlap_assign jth jtw rps W a b s 0 spp
                  (jp2k_tile v) strip Hjth Hjtw Hrps HW)
        as [o [tile [Ov [Oulr [Ollr [Oulc [Ourc [Ojr [Ojc [As [St Sm]]]]]]]]]]];
        try assumption; try (fold julr julc; lia).
      fold julr julc in Ov, Oulr, Ollr, Oulc, Ourc, Ojr, Ojc, Sm.
      change (0 * W) with 0 in *.
      set (v1 := mkVars tile strip rgba_strip (Some o) (Some s)).
      assert (Nt : nrows tile = jth /\ ncols tile = jtw)
        by (unfold shape in St; split; congruence).
      assert (Nv : nrows (jp2k_tile v) = jth /\ ncols (jp2k_tile v) = jtw)
        by (unfold shape in Sh; split; congruence).
      assert (Inv1 : strip_inv (rendered t) jth jtw julr julc (s + 1) v1).
      { split; [exact St|]. split; [exact Ss|]. on_rendered. split.
        - intros i j k Hi Hj Hrow Hcol. cbn [v1 jp2k_tile] in *.
          rewrite Sm.
          destruct (Z.lt_ge_cases (julr + i) (s * rps)) as [Old|New].
          + rewrite (proj2 (Z.leb_gt (ulr o - julr) i)) by lia.
            cbn [andb]. apply Cp; lia.
          + assert (In : (ulr o - julr <=? i) && (i <? llr o - julr)
                         && (ulc o - julc <=? j) && (j <? urc o - julc)
                         = true).
            { rewrite !andb_true_iff, !Z.leb_le, !Z.ltb_lt. lia. }
            rewrite In, Rd by lia. cbn [rendered pixels]. f_equal; lia.
        - intros i j k Hrow. cbn [v1 jp2k_tile]. rewrite Sm.
          rewrite (proj2 (Z.ltb_ge i (llr o - julr))) by lia.
          rewrite andb_false_r. cbn [andb]. apply Zr. lia. }
      assert (Sr1 : shape (rgba_buf v1) = (rps, W, 4)).
      { unfold shape. cbn [v1 rgba_buf rgba_strip nrows ncols nchan].
        now rewrite Rr, Rc, Rk. }
      destruct (IH (s + 1) (r + rps) v1)
        as [s' [tr [v' [Le [Run [Wt [Inv' [Sr' [Bd [Same Lst]]]]]]]]]].
      * rewrite div_next_block by lia. lia.
      * lia.
      * lia.
      * lia.
      * lia.
      * exact Inv1.
      * exact Sr1.
      * exists s', (ReadRGBAStrip (s * rps) :: tr), v'. split; [lia|]. split.
        { apply (io_bind_value [ReadRGBAStrip (s * rps)]).
          rewrite io_bind_io_ret. cbn [fst snd]. fold strip.
          rewrite Ov, io_bind_lift_ret, As, io_bind_lift_ret. exact Run. }
        split; [exact Wt|].
        split; [exact Inv'|]. split; [exact Sr'|]. split; [lia|].
        split; [lia|].
        intros _. destruct (Z.eq_dec s' (s + 1)) as [E|N].
        -- rewrite (Same E), E. cbn [v1 stripnum last].
           split; [f_equal; lia|]. exists o. split; [reflexivity|]. lia.
        -- apply Lst. lia.
    + apply Z.ltb_ge in Cond. exists s, [], v. split; [lia|].
      split; [reflexivity|]. split; [reflexivity|].
      split; [exact Inv|]. split; [exact Sr|]. split; [lia|].
      split; [reflexivity|]. lia.
Qed.

Hypothesis HH : 0 < H.
Hypothesis Hjulr : 0 <= julr < H.

Let nc := - (- W / jtw).
Let pr := negb (H mod jth =? 0).
Let pc := negb (W mod jtw =? 0).

Hypothesis Hb : 0 <= b < nc.

(** One pass through the body of the loop over the tile writers. *)
Lemma striped_tile_rgba_spec (v : vars) (idx : Z) :
  idx = a * nc + b ->
  shape (tiff_buf v) = (rps, W, spp) ->
  shape (rgba_buf v) = (rps, W, 4) ->
  exists tr v' tile,
    striped_tile t jth jtw true nc pr pc v idx
    = (tr ++ [WriteTile idx tile], inr v')
    /\ written_tiles tr = []
    /\ shape (tiff_buf v') = (rps, W, spp)
    /\ shape (rgba_buf v') = (rps, W, 4)
    /\ tile_exact (rendered t) tile julr julc (Z.min jth (H - julr))
         (Z.min jtw (W - julc)).
Proof.
  intros Hidx Sb Sr.
  pose proof (floor_block rps julr Hrps) as FB.
  assert (Hjr : jth <= jth * rps) by nia.
  assert (Hns : H <= ns * rps) by lia.
  assert (Hlast : (ns - 1) * rps < H) by lia.
  set (v0 := mkVars (mkArray jth jtw spp (fun _ _ _ => 0))
               (tiff_buf v) (rgba_buf v) (last v) (stripnum v)).
  assert (Inv0 : strip_inv (rendered t) jth jtw julr julc (julr / rps) v0).
  { split; [reflexivity|]. split; [exact Sb|]. on_rendered. split.
    - intros i j k Hi Hj Hrow Hcol. lia.
    - intros i j k _. reflexivity. }
  destruct (striped_rows_rgba_spec (Z.to_nat jth + 2) (julr / rps) julr v0)
    as [s' [tr [v1 [Le [Run [Wt [Inv1 [Sr1 [Bd [_ Lst]]]]]]]]]];
    [reflexivity|apply div_nonneg; lia|lia|lia|lia|exact Inv0|exact Sr|].
  assert (Lt : julr / rps < s')
    by (apply (mul_lt_cancel _ _ rps Hrps); lia).
  destruct (Lst Lt) as [Sn Lo].
  destruct Inv1 as [Sh1 [Sb1 [Cp1 Zr1]]]. on_rendered.
  destruct (striped_crop_spec t jth jtw Hjth Hjtw Hrps HW Hns a b Hjulc HH
              Hlast Hjulr Hb s' v1 Sh1 Bd Sn Lo) as [tile [Cr [St Sm]]].
  fold W H rps nc pr pc julr julc spp in Cr, St.
  exists tr, (mkVars tile (tiff_buf v1) (rgba_buf v1) (last v1)
                (stripnum v1)), tile.
  split.
  - unfold striped_tile. fold spp.
    rewrite np_zeros_ok by lia. rewrite io_bind_lift_ret.
    pose proof (ceil_block jtw W Hjtw) as CW. fold W nc in CW.
    rewrite floordiv_nz, pymod_nz by lia.
    rewrite !io_bind_lift_ret.
    replace (idx / nc) with a
      by (apply (Z.div_unique idx nc a b); lia).
    replace (idx mod nc) with b
      by (apply (Z.mod_unique idx nc a b); lia).
    fold julr julc v0. rewrite Run.
    apply io_bind_value.
    rewrite Cr, io_bind_lift_ret. reflexivity.
  - split; [exact Wt|]. split; [exact Sb1|]. split; [exact Sr1|].
    split; [exact St|].
    intros i j k Hi Hj. rewrite Sm.
    unfold shape in Sh1.
    apply Cp1; try lia.
    + replace (nrows (jp2k_tile v1)) with jth by congruence. lia.
    + replace (ncols (jp2k_tile v1)) with jtw by congruence. lia.
Qed.

End StripedRGBA.

(** X18.  A striped TIFF of at most four samples per pixel, all of whose
    strips have the full number of rows, read through the RGBA interface
    (photometric interpretation YCbCr or palette), for any tile size: every
    tile of the grid is written, clipped to the image, and the tiles make
    the channels of the RGBA rendering of the image, as many as the TIFF
    has samples per pixel, the rows in the order of the image. *)
Theorem striped_rgba_copy_exact (t : tiff) (jth jtw : Z) :
  let W := ImageWidth t in
  let H := ImageLength t in
  let rps := RowsPerStrip t in
  let ns := numberOfStrips t in
  let nr := - (- H / jth) in
  let nc := - (- W / jtw) in
  isTiled t = false ->
  SampleFormat t = SampleFormat_UINT ->
  BitsPerSample t = 8 \/ BitsPerSample t = 16 ->
  Photometric t = Photometric_YCBCR \/ Photometric t = Photometric_PALETTE ->
  0 <= SamplesPerPixel t <= 4 ->
  0 < jth -> 0 < jtw -> 0 < rps -> 0 < W -> 0 < H ->
  jth <= H -> jtw <= W ->
  H = ns * rps ->
  exists tr,
    copy_image t (Some (jth, jtw)) = (tr, inr tt)
    /\ List.length (written_tiles tr) = Z.to_nat (nr * nc)
    /\ Forall2 (grid_exact (rendered t) jth jtw nc) (range (nr * nc))
         (written_tiles tr)
    /\ forall i j k,
         0 <= i < H -> 0 <= j < W ->
         image_sample (written_tiles tr) jth jtw nc i j k = rgba t i j k.
Proof.
  intros W H rps ns nr nc Til Sf Bps Ph Hspp Hjth Hjtw Hrps HW HH
    Fh Fw Hfull.
  pose proof (ceil_block jth H Hjth) as CH. fold nr in CH.
  pose proof (ceil_block jtw W Hjtw) as CW. fold nc in CW.
  assert (Hnr : 0 < nr) by nia.
  assert (Hnc : 0 < nc) by nia.
  assert (Rg : (Photometric t =? Photometric_YCBCR)
               || (Photometric t =? Photometric_PALETTE) = true).
  { destruct Ph as [->| ->]; reflexivity. }
  destruct (for_each_spec
              (striped_tile t jth jtw true nc
                 (negb (H mod jth =? 0)) (negb (W mod jtw =? 0)))
              (fun v => shape (tiff_buf v) = (rps, W, SamplesPerPixel t)
                        /\ shape (rgba_buf v) = (rps, W, 4))
              (grid_exact (rendered t) jth jtw nc)
              (fun _ => True)
              (get_tilewriters H W jth jtw))
    with (v := mkVars unbound_array
                 (mkArray rps W (SamplesPerPixel t) (fun _ _ _ => 0))
                 (mkArray rps W 4 (fun _ _ _ => 0)) None None)
    as [tr [v' [Run [_ [Tiles _]]]]].
  - intros v x Hx [Ib Ir]. apply get_tilewriters_In in Hx. fold nr nc in Hx.
    set (a := x / nc). set (b := x mod nc).
    assert (Ha : 0 <= a < nr).
    { split; [apply div_nonneg; lia|apply div_lt_blocks; lia]. }
    assert (Hb : 0 <= b < nc) by (apply Z.mod_pos_bound; lia).
    assert (Hx' : x = a * nc + b).
    { unfold a, b. pose proof (Z.div_mod x nc). lia. }
    assert (Hjulr : 0 <= a * jth < H) by nia.
    assert (Hjulc : 0 <= b * jtw < W) by nia.
    destruct (striped_tile_rgba_spec t jth jtw Hjth Hjtw Hrps HW Hfull Hspp
                a b Hjulc HH Hjulr Hb v x Hx' Ib Ir)
      as [tr [v1 [tile [Run [Wt [Sb1 [Sr1 Ex]]]]]]].
    exists (tr ++ [WriteTile x tile]), v1, tile.
    split; [exact Run|]. split.
    { rewrite written_tiles_app, Wt. reflexivity. }
    split; [exact Ex|]. split; [split; assumption|].
    apply Forall_forall. intros; exact I.
  - split; reflexivity.
  - exists (tr ++ []).
    split.
    { unfold copy_image. rewrite check_format_ok by assumption.
      rewrite io_bind_lift_ret.
      unfold grid_dimensions. rewrite ceil_div_nz by lia.
      cbn [bind ret]. rewrite io_bind_lift_ret.
      rewrite (Jp2k_ok _ _ _ _ _ Fh Fw), io_bind_lift_ret. rewrite Til, Rg.
      unfold striped_branch.
      rewrite ceil_div_nz by lia. rewrite io_bind_lift_ret.
      rewrite !is_partial_nz by lia. rewrite !io_bind_lift_ret.
      rewrite !np_zeros_ok by lia. rewrite !io_bind_lift_ret.
      fold W H rps nc. rewrite Run. reflexivity. }
    rewrite app_nil_r.
    split.
    { rewrite <- (Forall2_length Tiles). apply range_length. }
    split; [exact Tiles|].
    apply (image_exact (rendered t) jth jtw nr nc); try assumption.
    + change (ImageLength (rendered t)) with H. lia.
    + change (ImageWidth (rendered t)) with W. lia.
Qed.

(** The theorem on an image of 6 columns and 6 rows in strips of 2 rows,
    in tiles of 4 rows and 4 columns. *)
Lemma striped_rgba_copy_exact_witness :
  exists tr,
    copy_image Samples.ycbcr_strip (Some (4, 4)) = (tr, inr tt)
    /\ List.length (written_tiles tr) = 4%nat
    /\ forall i j k,
         0 <= i < 6 -> 0 <= j < 6 ->
         image_sample (written_tiles tr) 4 4 2 i j k
         = Samples.sample_pixels i j k.
Proof.
  destruct (striped_rgba_copy_exact Samples.ycbcr_strip 4 4)
    as [tr [Run [Len [_ Img]]]];
    [reflexivity|reflexivity|left; reflexivity|left; reflexivity
    |split; discriminate|reflexivity|reflexivity|reflexivity|reflexivity
    |reflexivity|discriminate|discriminate|reflexivity|].
  exists tr. split; [exact Run|]. split; [exact Len|exact Img].
Defined.

(** ** The tiled branch with clipped tiles *)

Lemma last_block_end (d x q : Z) :
  0 < d -> x mod d = 0 -> (q - 1) * d < x <= q * d -> q * d = x.
Proof.
  intros Hd Hx Hq. pose proof (Z.div_mod x d).
  assert (E : x = x / d * d) by lia.
  assert (q - 1 < x / d) by (apply (mul_lt_cancel _ _ d Hd); lia).
  assert (x / d <= q) by (apply (mul_le_cancel _ _ d Hd); lia).
  replace q with (x / d) by lia. lia.
Qed.

Lemma partial_block_short (d x : Z) :
  0 < d -> x mod d <> 0 -> x < - (- x / d) * d.
Proof.
  intros Hd Hx. pose proof (ceil_block d x Hd) as C.
  destruct (Z.eq_dec x (- (- x / d) * d)) as [E|N]; [|lia].
  exfalso. apply Hx. rewrite E. apply Z.mod_mul. lia.
Qed.

Section TiledClipped.

Variable t : tiff.
Variables jth jtw : Z.

Let W := ImageWidth t.
Let H := ImageLength t.
Let th := TileLength t.
Let tw := TileWidth t.
Let xpt := - (- W / tw).
Let ypt := - (- H / th).
Let nr := - (- H / jth).
Let nc := - (- W / jtw).
Let pr := negb (H mod jth =? 0).
Let pc := negb (W mod jtw =? 0).

Hypothesis Hjth : 0 < jth.
Hypothesis Hjtw : 0 < jtw.
Hypothesis Hth : 0 < th.
Hypothesis Htw : 0 < tw.
Hypothesis HW : 0 < W.
Hypothesis HH : 0 < H.
Hypothesis Hspp : 0 <= SamplesPerPixel t.

(** The last column of the grid lies in the last column of tiles of the
    TIFF, and the last row of the grid in its last row of tiles, where the
    tiles of the JPEG 2000 file do not divide the image. *)
Hypothesis Hcols :
  W mod jtw = 0 \/ (W mod tw = 0 /\ W - tw <= (nc - 1) * jtw).
Hypothesis Hrows :
  H mod jth = 0 \/ (H mod th = 0 /\ H - th <= (nr - 1) * jth /\ nr = nc).

Variables a b : Z.

Let julr := a * jth.
Let julc := b * jtw.

Hypothesis Hjulr : 0 <= julr < H.
Hypothesis Hjulc : 0 <= julc < W.

(** The crop after the loops, on a state the loops have left. *)
Lemma tiled_crop_spec (p' q' : Z) (o : overlap) (v : vars) :
  shape (jp2k_tile v) = (jth, jtw, SamplesPerPixel t) ->
  last v = Some o ->
  jrows o = (Z.max julr ((p' - 1) * th) - julr,
             Z.min (julr + jth) ((p' - 1) * th + th) - julr) ->
  jcols o = (Z.max julc ((q' - 1) * tw) - julc,
             Z.min (julc + jtw) ((q' - 1) * tw + tw) - julc) ->
  (p' - 1) * th < Z.min (julr + jth) H <= p' * th ->
  (q' - 1) * tw < Z.min (julc + jtw) W <= q' * tw ->
  exists tile,
    tiled_crop t jth jtw nc nc pr pc a b v = ret tile
    /\ shape tile
       = (Z.min jth (H - julr), Z.min jtw (W - julc), SamplesPerPixel t)
    /\ forall i j k, sample tile i j k = sample (jp2k_tile v) i j k.
Proof.
  intros Sh Lo Jr Jc Bp Bq.
  unfold shape in Sh.
  assert (Nr : nrows (jp2k_tile v) = jth) by congruence.
  assert (Nc : ncols (jp2k_tile v) = jtw) by congruence.
  assert (Nk : nchan (jp2k_tile v) = SamplesPerPixel t) by congruence.
  pose proof (ceil_block jtw W Hjtw) as CW. fold nc in CW.
  pose proof (ceil_block jth H Hjth) as CH. fold nr in CH.
  assert (Hb : b < nc)
    by (apply (mul_lt_cancel _ _ jtw Hjtw); unfold julc in *; lia).
  assert (Ha : a < nr)
    by (apply (mul_lt_cancel _ _ jth Hjth); unfold julr in *; lia).
  unfold tiled_crop. rewrite Lo. cbn [local bind ret].
  assert (Cols : exists tile1,
             (if pc && (b =? nc - 1)
              then ret (take_cols (jp2k_tile v) (jcols o))
              else ret (jp2k_tile v)) = ret tile1
             /\ shape tile1 = (jth, Z.min jtw (W - julc), SamplesPerPixel t)
             /\ forall i j k,
                  sample tile1 i j k = sample (jp2k_tile v) i j k).
  { destruct (pc && (b =? nc - 1)) eqn:C.
    - apply andb_true_iff in C. destruct C as [P C].
      apply Z.eqb_eq in C.
      unfold pc in P. apply negb_true_iff, Z.eqb_neq in P.
      destruct Hcols as [D|[D Fit]]; [contradiction|].
      pose proof (partial_block_short jtw W Hjtw P) as Short. fold nc in Short.
      assert (Ejc : julc = (nc - 1) * jtw) by (unfold julc; now rewrite C).
      assert (Over : W < julc + jtw) by lia.
      assert (Eq : q' * tw = W) by (apply last_block_end; [exact Htw|exact D|lia]).
      assert (Ej : jcols o = (0, W - julc)).
      { rewrite Jc. f_equal; lia. }
      eexists. split; [reflexivity|].
      unfold take_cols. rewrite Nc, Ej.
      rewrite slice_bounds_from_0 by lia.
      unfold shape. cbn [nrows ncols nchan sample].
      split; [|reflexivity].
      rewrite Nr, Nk. f_equal. f_equal. lia.
    - eexists. split; [reflexivity|]. split; [|reflexivity].
      unfold shape. rewrite Nr, Nc, Nk. f_equal. f_equal.
      apply andb_false_iff in C. destruct C as [C|C].
      + unfold pc in C. apply negb_false_iff, Z.eqb_eq in C.
        pose proof (divides_block jtw W b Hjtw C Hjulc). unfold julc. lia.
      + apply Z.eqb_neq in C.
        assert (L : (b + 1) * jtw <= (nc - 1) * jtw)
          by (apply Z.mul_le_mono_nonneg_r; lia).
        unfold julc. lia. }
  destruct Cols as [tile1 [E1 [S1 Sm1]]]. rewrite E1. cbn [bind ret].
  unfold shape in S1.
  assert (Nr1 : nrows tile1 = jth) by congruence.
  assert (Nc1 : ncols tile1 = Z.min jtw (W - julc)) by congruence.
  assert (Nk1 : nchan tile1 = SamplesPerPixel t) by congruence.
  destruct (pr && (a =? nc - 1)) eqn:C.
  - apply andb_true_iff in C. destruct C as [P C].
    apply Z.eqb_eq in C.
    unfold pr in P. apply negb_true_iff, Z.eqb_neq in P.
    destruct Hrows as [D|[D [Fit Sq]]]; [contradiction|].
    pose proof (partial_block_short jth H Hjth P) as Short. fold nr in Short.
    assert (Ejr : julr = (nr - 1) * jth)
      by (unfold julr; rewrite C, Sq; reflexivity).
    assert (Over : H < julr + jth) by lia.
    assert (Ep : p' * th = H) by (apply last_block_end; [exact Hth|exact D|lia]).
    assert (Ej : jrows o = (0, H - julr)).
    { rewrite Jr. f_equal; lia. }
    eexists. split; [reflexivity|].
    unfold take_rows. rewrite Nr1, Ej.
    rewrite slice_bounds_from_0 by lia.
    unfold shape. cbn [nrows ncols nchan sample].
    split; [|exact Sm1].
    rewrite Nc1, Nk1. f_equal. f_equal. lia.
  - eexists. split; [reflexivity|]. split; [|exact Sm1].
    unfold shape. rewrite Nr1, Nc1, Nk1. f_equal. f_equal.
    apply andb_false_iff in C. destruct C as [C|C].
    + unfold pr in C. apply negb_false_iff, Z.eqb_eq in C.
      pose proof (divides_block jth H a Hjth C Hjulr). unfold julr. lia.
    + apply Z.eqb_neq in C.
      destruct Hrows as [D|[D [Fit Sq]]].
      * pose proof (divides_block jth H a Hjth D Hjulr). unfold julr. lia.
      * assert (L : (a + 1) * jth <= (nr - 1) * jth)
          by (apply Z.mul_le_mono_nonneg_r; lia).
        unfold julr. lia.
Qed.

(** One pass through the body of the loop over the tile writers. *)
Lemma tiled_tile_clipped_spec (v : vars) (idx : Z) :
  idx = a * nc + b ->
  exists tr v' tile,
    tiled_tile t jth jtw false nc nc xpt pr pc v idx
    = (tr ++ [WriteTile idx tile], inr v')
    /\ Forall (tile_below (xpt * ypt)) tr
    /\ written_tiles tr = []
    /\ tile_exact t tile julr julc (Z.min jth (H - julr))
         (Z.min jtw (W - julc)).
Proof.
  intros Hidx.
  pose proof (floor_block th julr Hth) as FB.
  pose proof (ceil_block jtw W Hjtw) as CW. fold nc in CW.
  assert (Hb : 0 <= b < nc).
  { split.
    - destruct (Z.lt_ge_cases b 0) as [Neg|Pos]; [|exact Pos].
      exfalso. assert (b * jtw < 0) by (apply Z.mul_neg_pos; lia).
      unfold julc in *. lia.
    - apply (mul_lt_cancel _ _ jtw Hjtw). unfold julc in *. lia. }
  assert (Hjr : jth <= jth * th) by nia.
  set (v0 := mkVars (mkArray jth jtw (SamplesPerPixel t) (fun _ _ _ => 0))
               (mkArray th tw (SamplesPerPixel t) (fun _ _ _ => 0))
               (rgba_buf v) (last v) (stripnum v)).
  assert (Inv0 : rows_inv t jth jtw julr julc (julr / th) v0).
  { split; [reflexivity|]. split; [reflexivity|].
    intros i j k Hi Hj Hrw Hcl. fold th tw H W in Hrw, Hcl. lia. }
  destruct (tiled_rows_spec t jth jtw Hjth Hjtw Hth Htw HW a b Hjulr Hjulc
              (Z.to_nat jth + 2) (julr / th) julr v0)
    as [p' [tr [v1 [Run [Inv1 [Bd [Rd [Wt [Lep [Tp [_ Lst]]]]]]]]]]];
    [reflexivity|apply div_nonneg; lia|fold julr th; lia|fold julr th H; lia
    |fold julr th H; lia|exact Inv0|].
  fold julr julc th tw H W xpt ypt in Run, Bd, Rd, Tp, Lst.
  assert (Ltp : julr / th < p')
    by (apply (mul_lt_cancel _ _ th Hth); lia).
  destruct (Lst Ltp) as (o & q' & Lo & Jr & Jc & Bq).
  destruct Inv1 as [Sh1 [Sb1 Cp1]].
  destruct (tiled_crop_spec p' q' o v1 Sh1 Lo Jr Jc) as [tile [Cr [St Sm]]];
    [lia|exact Bq|].
  exists tr, (mkVars tile (tiff_buf v1) (rgba_buf v1) (last v1)
                (stripnum v1)), tile.
  split.
  - unfold tiled_tile. fold th tw W H.
    rewrite !np_zeros_ok by lia. rewrite !io_bind_lift_ret.
    rewrite floordiv_nz, pymod_nz by lia.
    rewrite !io_bind_lift_ret.
    replace (idx / nc) with a
      by (apply (Z.div_unique idx nc a b); lia).
    replace (idx mod nc) with b
      by (apply (Z.mod_unique idx nc a b); lia).
    fold julr julc v0. rewrite Run.
    apply io_bind_value.
    rewrite Cr, io_bind_lift_ret. reflexivity.
  - split; [exact Rd|]. split; [exact Wt|]. split; [exact St|].
    intros i j k Hi Hj. rewrite Sm. unfold shape in Sh1.
    apply Cp1; fold th tw H W; try lia.
    + replace (nrows (jp2k_tile v1)) with jth by congruence. lia.
    + replace (ncols (jp2k_tile v1)) with jtw by congruence. lia.
Qed.

End TiledClipped.

(** X19.  A tiled TIFF read through the scanline interface, when the tiles
    of the JPEG 2000 file are not larger than the image and need not
    divide it: if the tiles of the
    TIFF divide the image in each direction that the tiles of the JPEG 2000
    file do not, the last column and row of the grid start within the last
    column and row of tiles of the TIFF, and the grid has as many rows as
    columns when its last row is short, then every tile of the grid is
    written, clipped to the image, and the tiles make the image of the
    TIFF; only tiles of the TIFF are read. *)
Theorem tiled_copy_clipped (t : tiff) (jth jtw : Z) :
  let W := ImageWidth t in
  let H := ImageLength t in
  let th := TileLength t in
  let tw := TileWidth t in
  let nr := - (- H / jth) in
  let nc := - (- W / jtw) in
  isTiled t = true ->
  SampleFormat t = SampleFormat_UINT ->
  BitsPerSample t = 8 \/ BitsPerSample t = 16 ->
  Photometric t <> Photometric_YCBCR ->
  Photometric t <> Photometric_PALETTE ->
  0 < jth -> 0 < jtw -> 0 < th -> 0 < tw -> 0 < W -> 0 < H ->
  0 <= SamplesPerPixel t ->
  jth <= H -> jtw <= W ->
  W mod jtw = 0 \/ (W mod tw = 0 /\ W - tw <= (nc - 1) * jtw) ->
  H mod jth = 0 \/ (H mod th = 0 /\ H - th <= (nr - 1) * jth /\ nr = nc) ->
  exists tr,
    copy_image t (Some (jth, jtw)) = (tr, inr tt)
    /\ Forall (tile_below (- (- W / tw) * - (- H / th))) tr
    /\ List.length (written_tiles tr) = Z.to_nat (nr * nc)
    /\ Forall2 (grid_exact t jth jtw nc) (range (nr * nc)) (written_tiles tr)
    /\ forall i j k,
         0 <= i < H -> 0 <= j < W ->
         image_sample (written_tiles tr) jth jtw nc i j k = pixels t i j k.
Proof.
  intros W H th tw nr nc Til Sf Bps Py Pp Hjth Hjtw Hth Htw HW HH Hspp
    Fh Fw Hcols Hrows.
  pose proof (ceil_block jth H Hjth) as CH. fold nr in CH.
  pose proof (ceil_block jtw W Hjtw) as CW. fold nc in CW.
  assert (Hnr : 0 < nr) by nia.
  assert (Hnc : 0 < nc) by nia.
  destruct (for_each_spec
              (tiled_tile t jth jtw false nc nc (- (- W / tw))
                 (negb (H mod jth =? 0)) (negb (W mod jtw =? 0)))
              (fun _ => True) (grid_exact t jth jtw nc)
              (tile_below (- (- W / tw) * - (- H / th)))
              (get_tilewriters H W jth jtw))
    with (v := mkVars unbound_array unbound_array
                 (mkArray th tw 4 (fun _ _ _ => 0)) None None)
    as [tr [v' [Run [_ [Tiles Reads]]]]].
  - intros v x Hx _. apply get_tilewriters_In in Hx. fold nr nc in Hx.
    set (a := x / nc). set (b := x mod nc).
    assert (Ha : 0 <= a < nr).
    { split; [apply div_nonneg; lia|apply div_lt_blocks; lia]. }
    assert (Hb : 0 <= b < nc) by (apply Z.mod_pos_bound; lia).
    assert (Hx' : x = a * nc + b).
    { unfold a, b. pose proof (Z.div_mod x nc). lia. }
    assert (Hjulr : 0 <= a * jth < H) by nia.
    assert (Hjulc : 0 <= b * jtw < W) by nia.
    destruct (tiled_tile_clipped_spec t jth jtw Hjth Hjtw Hth Htw HW Hspp
                Hcols Hrows a b Hjulr Hjulc v x Hx')
      as [tr [v1 [tile [Run [Rd [Wt Ex]]]]]].
    exists (tr ++ [WriteTile x tile]), v1, tile.
    split; [exact Run|]. split.
    { rewrite written_tiles_app, Wt. reflexivity. }
    split; [exact Ex|].
    split; [exact I|].
    apply Forall_app. split; [exact Rd|repeat constructor].
  - exact I.
  - exists (tr ++ []).
    split.
    { unfold copy_image. rewrite check_format_ok by assumption.
      rewrite io_bind_lift_ret.
      unfold grid_dimensions. rewrite ceil_div_nz by lia.
      cbn [bind ret]. rewrite io_bind_lift_ret.
      rewrite (Jp2k_ok _ _ _ _ _ Fh Fw), io_bind_lift_ret. rewrite Til.
      rewrite (proj2 (Z.eqb_neq _ _) Py), (proj2 (Z.eqb_neq _ _) Pp).
      cbn [orb fst snd]. unfold tiled_branch.
      rewrite ceil_div_nz by lia. rewrite io_bind_lift_ret.
      rewrite !is_partial_nz by lia. rewrite !io_bind_lift_ret.
      rewrite !np_zeros_ok by lia. rewrite !io_bind_lift_ret.
      fold W H th tw nc. rewrite Run. reflexivity. }
    rewrite app_nil_r. split; [exact Reads|].
    split.
    { rewrite <- (Forall2_length Tiles). apply range_length. }
    split; [exact Tiles|].
    apply (image_exact t jth jtw nr nc); try assumption; lia.
Qed.

(** The theorem on an image of 16 columns and 32 rows in tiles of 16 by
    16, in tiles of 12 rows and 6 columns: a grid of 3 by 3 tiles, the last
    column 4 columns wide and the last row 8 rows high. *)
Lemma tiled_copy_clipped_witness :
  exists tr,
    copy_image Samples.tall_tiled (Some (12, 6)) = (tr, inr tt)
    /\ List.length (written_tiles tr) = 9%nat
    /\ forall i j k,
         0 <= i < 32 -> 0 <= j < 16 ->
         image_sample (written_tiles tr) 12 6 3 i j k
         = Samples.sample_pixels i j k.
Proof.
  destruct (tiled_copy_clipped Samples.tall_tiled 12 6)
    as [tr [Run [_ [Len [_ Img]]]]];
    [reflexivity|reflexivity|left; reflexivity|discriminate|discriminate
    |reflexivity|reflexivity|reflexivity|reflexivity|reflexivity
    |reflexivity|discriminate|discriminate|discriminate
    |right; split; [reflexivity|discriminate]
    |right; split; [reflexivity|split; [discriminate|reflexivity]]|].
  exists tr. split; [exact Run|]. split; [exact Len|exact Img].
Defined.

(** ** The box of the metadata *)

Section MetadataBox.

Import Struct Meta Reader.

(** A signalling NaN in a single float comes back quiet: the buffer holds
    [7fe00000], little-endian, where the file has [7fa00000], and the
    reader finds another value in it. *)
Example signalling_nan_quieted :
  read_directory Samples.nan_file
  = Some [mkEntry 700 11 1 [VFloat 4 2141192192]]
  /\ supported (mkEntry 700 11 1 [VFloat 4 2141192192])
  /\ exists out,
       transcode Samples.nan_file = inr out
       /\ slice 18 22 out = [x00; x00; xe0; x7f]
       /\ read_directory out
          = Some [mkEntry 700 11 1 [VFloat 4 2145386496]].
Proof.
  split; [reflexivity|]. split; [left; cbn; lia|].
  eexists. split; [reflexivity|]. split; reflexivity.
Qed.

Lemma pack_I_big (z : Z) (hdr : list byte) :
  pack ">I" [VInt z] = inr hdr ->
  hdr = rev (Z_to_le 4 z) /\ 0 <= z < 2 ^ 32.
Proof.
  change ">I"%string with (endian_char Big ++ "I")%string.
  unfold pack. rewrite split_order_endian.
  replace (codes "I") with (Some [(4%nat, KUnsigned)]) by reflexivity.
  cbn [encode_all]. unfold encode. cbn [fst snd Z_to_bytes].
  change (8 * Z.of_nat 4) with 32.
  destruct ((0 <=? z) && (z <? 2 ^ 32)) eqn:R; [|discriminate].
  intros E. apply inr_inj in E. rewrite app_nil_r in E.
  apply andb_true_iff in R. rewrite Z.leb_le, Z.ltb_lt in R. auto.
Qed.

(** C10, as stated, fails: for [Samples.short_file] the payload has 28
    bytes and the length given to the box is 36, the payload and 8; the
    block appended to the file has 52 bytes and declares 52, the payload
    and 24. *)
Lemma box_length_not_written :
  exists box block,
    metadata_box Samples.short_file = inr box
    /\ len (raw_data box) = 28
    /\ box_length box = 36
    /\ copy_metadata Samples.short_file [] = inr block
    /\ bytes_to_Z Big (slice 0 4 block) = 52
    /\ len block = 52.
Proof.
  eexists. eexists. split; [reflexivity|]. split; [reflexivity|].
  split; [reflexivity|]. split; [reflexivity|]. split; reflexivity.
Qed.

(** C10, amended.  What [copy_metadata] appends to the JPEG 2000 file is
    one block: 4 bytes that give its length, big-endian, the 4 bytes
    ['uuid'], the 16 bytes ['JpgTiffExif->JP2'], and the payload, which is
    the 6 bytes ['EXIF\0\0'] and then the transcoded buffer.  The length
    the block declares is its own, the length of the payload and 24, and
    not the length of the payload and 8 that the box was given.  The
    transcoded buffer starts 6 bytes into the payload and 30 bytes into
    the block: read from there the payload is the directory of the
    source, and read from its start it is no file.  For a directory of
    supported entries the block has 40 bytes, 12 for each entry, and the
    bytes of the values that lie outside the entries. *)
Theorem metadata_block_appended (tiff jp2 out : list byte) :
  copy_metadata tiff jp2 = inr out ->
  exists ifd,
    transcode tiff = inr ifd
    /\ let payload := list_byte_of_string "EXIF" ++ [x00; x00] ++ ifd in
       let block :=
         Z_to_bytes Big 4 (len payload + 24)
         ++ list_byte_of_string "uuid"
         ++ list_byte_of_string "JpgTiffExif->JP2" ++ payload in
       out = jp2 ++ block
       /\ len block = len payload + 24
       /\ bytes_to_Z Big (slice 0 4 block) = len block
       /\ slice_from 6 payload = ifd
       /\ slice_from 30 block = ifd
       /\ read_directory payload = None
       /\ forall ents,
            read_directory tiff = Some ents ->
            Forall supported ents ->
            10 + 12 * len ents + relocated_size ents < 2 ^ 32 ->
            read_directory (slice_from 6 payload)
            = Some (map as_unpacked ents)
            /\ len block = 40 + 12 * len ents + relocated_size ents.
Proof.
  unfold copy_metadata, metadata_box. intros Run.
  destruct (transcode tiff) as [|ifd] eqn:T; [discriminate|].
  cbn [bind ret] in Run. unfold UUIDBox_write in Run.
  cbn [raw_data uuid] in Run.
  destruct (pack ">I" _) as [|hdr] eqn:P; [discriminate|].
  cbn [bind ret] in Run. apply inr_inj in Run.
  destruct (pack_I_big _ _ P) as (Eh & Rl). subst hdr.
  exists ifd. split; [reflexivity|]. cbv zeta.
  change (exif_identifier ++ ifd)
    with (list_byte_of_string "EXIF" ++ [x00; x00] ++ ifd) in *.
  set (payload := list_byte_of_string "EXIF" ++ [x00; x00] ++ ifd) in *.
  replace (4 + 4 + 16 + len payload) with (len payload + 24) in * by lia.
  set (L := len payload + 24) in *.
  assert (Lh : List.length (rev (Z_to_le 4 L)) = 4%nat)
    by (rewrite length_rev; apply Z_to_le_length).
  assert (Lb : len (Z_to_bytes Big 4 L ++ list_byte_of_string "uuid"
                      ++ list_byte_of_string "JpgTiffExif->JP2" ++ payload)
               = L).
  { cbn [Z_to_bytes]. unfold len. rewrite !length_app, Lh.
    unfold L, len.
    change (List.length (list_byte_of_string "uuid")) with 4%nat.
    change (List.length (list_byte_of_string "JpgTiffExif->JP2"))
      with 16%nat.
    lia. }
  assert (S30 : slice_from 30
                  (Z_to_bytes Big 4 L ++ list_byte_of_string "uuid"
                     ++ list_byte_of_string "JpgTiffExif->JP2" ++ payload)
                = ifd).
  { cbn [Z_to_bytes Z_to_le rev app]. reflexivity. }
  split.
  { rewrite <- Run. cbn [Z_to_bytes]. rewrite <- !app_assoc. reflexivity. }
  split; [exact Lb|]. split.
  { rewrite Lb. cbn [Z_to_bytes Z_to_le rev app].
    change (slice 0 4 ?l) with (firstn 4 l).
    cbn [firstn].
    change (bytes_to_Z Big ?l) with (le_to_Z (rev l)).
    cbn [rev app].
    apply (le_to_Z_to_le 4 L). exact Rl. }
  split; [reflexivity|]. split; [exact S30|]. split; [reflexivity|].
  intros ents D Sup Size.
  change (slice_from 6 payload) with ifd.
  destruct (transcode_roundtrip tiff ents D Sup Size) as (out1 & T1 & D1).
  rewrite T in T1. apply inr_inj in T1. subst out1.
  destruct (transcode_shaped tiff ents D Sup Size) as (out2 & T2 & L2 & _).
  rewrite T in T2. apply inr_inj in T2. subst out2.
  split; [exact D1|]. rewrite Lb. unfold L, payload.
  rewrite !len_app.
  change (len (list_byte_of_string "EXIF")) with 4.
  change (len [x00; x00]) with 2. lia.
Qed.

(** The theorem on [Samples.short_file], appended to an empty file: the
    block has 52 bytes and declares them. *)
Lemma metadata_block_appended_witness :
  exists block ifd,
    copy_metadata Samples.short_file [] = inr block
    /\ transcode Samples.short_file = inr ifd
    /\ len block = 52
    /\ bytes_to_Z Big (slice 0 4 block) = len block
    /\ slice_from 30 block = ifd.
Proof.
  destruct (copy_metadata Samples.short_file []) as [err|out] eqn:C;
    [vm_compute in C; discriminate C|].
  destruct (metadata_block_appended Samples.short_file [] out C)
    as (ifd & T & E & Lb & Dl & _ & S30 & _).
  rewrite app_nil_l in E. exists out, ifd.
  split; [reflexivity|]. split; [exact T|]. rewrite E.
  split; [|split; [exact Dl|exact S30]].
  rewrite Lb. vm_compute in T. apply inr_inj in T. rewrite <- T.
  reflexivity.
Defined.

End MetadataBox.
